(* ===== verification/_CoqProject ===== *)
-Q . S2P
Prelude.v
PyValue.v
PyDatetime.v
PurgeVeto.v
QueueNames.v
Consumers.v
ConsumersFacts.v
ConsumerLifecycle.v
Database.v
LinkEvents.v
Persistence.v
ChildRows.v
Media.v
RecordProcessing.v
Typing.v
ProcessTrace.v
ProcessSpec.v
ReleaseMedia.v
RecordFacts.v
NativeIdentity.v
Reconciliation.v
Isoformat.v
Health.v
Locks.v
RecordLocks.v
Isolation.v
Serializable.v
FloatCap.v
Latch.v
PurgeSafety.v
Interleaving.v
Delivery.v
Telemetry.v
TelemetryFacts.v
DeliveryTelemetry.v
DeliverySafety.v
Loadability.v
Benchmark.v
Broker.v
Extraction.v
Concurrency.v
Prefetch.v
Progress.v
Loops.v
Config.v
Lifespan.v
AssertionAudit.v
ReleaseChecks.v
ReleaseTools.v
Sample.v
Deadlock.v
Races.v
Witnesses.v
RunWitnesses.v
