(* ===== verification/Prelude.v ===== *)
(** * musicbrainz-sql-loader: a verification development

    The service under [src/brainztableinator/] consumes the MusicBrainz events of
    four entity types (artists, labels, release groups, releases) from a broker,
    writes each record into PostgreSQL in one transaction, and, when all four
    types have signalled the end of one extraction, deletes the child rows that
    the extraction did not refresh. This development models that program, its
    telemetry and the repository's larger tools, and proves what makes them
    correct. This file is its root: after this header it
    holds the notions every other file shares.

    ** How the program is modelled

    Python code is a computation over an explicit world: [comp W E A] below is a
    function from a world to a result or an exception, and a world. A raise keeps
    the assignments made before it; only a database transaction rolls back. JSON
    values, truthiness, [dict.get], [str.strip], [uuid.UUID], [int] and
    [datetime.fromisoformat] are definitions of [PyValue.v], [PyDatetime.v] and
    [Config.v], with Python's [str] kept as its UTF-8 bytes. Instants are
    microseconds since the proleptic ordinal 0.

    Code that is not in the repository is a parameter, gathered in classes:
    [Postgres] (how the server reads a parameter, its [relationship_key] hash and
    any error it answers, and the identity library's two calls), [Common] (the
    medium vocabulary, the media mapper, the identifier helper), [Shared] (the
    delivery runner and the permanent-error test), [Collation] (the server's text
    order), [CommonConfig] (secrets and URLs), [OpenTelemetry] (the instruments,
    the spans and what each of their calls may raise), [Random] (the draws of a
    generator), [PyRepr] (the printed form of floats, lists and dicts). What the
    program relies on about them is stated in [IdentityLaws] (resolving and
    attaching never change an existing alias, and answer what the ledger then
    holds), [SharedLaws] (the runner settles an answer as it is and a failure as the
    classifier says, after one wait when it requeues, and raises what the settlement
    itself raises) and [RandomLaws]; [answers], [IdentityAnswers], [FlushesOpen] and
    [Healthy] say that an outside answers. [Sample.v] and [RunWitnesses.v] instantiate every class with concrete
    functions and prove every law for them.

    ** Files, and the code they model

    - [PyValue.v], [PyDatetime.v]: the part of the language and its standard
      library the loader uses.
    - [QueueNames.v]: [catalog_contract.py] and [queue_names.py].
    - [PurgeVeto.v]: [_purge_veto.py], the durable record of which extractions
      vetoed the purge, as a map from version to vetoing types.
    - [Consumers.v]: the consumer lifecycle of [brainztableinator.py]: tags and
      gauge ([_register_consumer]), grace timers
      ([schedule_consumer_cancellation], split where it sleeps and where it awaits
      the broker), closing, shutdown cancellation, alarms and health
      ([_consumer_alarm_types], [get_health_data]), the checker's round and
      [_recover_consumers], and the registrations of [main]. The state is the
      record [consumers]; [lifecycle_step] is the step function of the event loop.
    - [ConsumersFacts.v], [ConsumerLifecycle.v]: its invariant and theorems.
    - [Progress.v]: one round of [progress_reporter]. [Loops.v]: [periodic_queue_checker]
      and [progress_reporter] as loops, each turn a sleep in which the other tasks
      run, and a round. [Health.v]: the report of
      [get_health_data]. [Isoformat.v]: the text of a datetime, as the boundaries
      are logged, against the parser of a signal's [started_at].
    - [Database.v]: the tables and the effect of every SQL statement of
      [_persistence.py] and [_reconciliation.py], one constructor per statement.
    - [Persistence.v]: [PostgreSQLMusicBrainzWriter], each method as the
      statements it issues on a session.
    - [LinkEvents.v], [ChildRows.v]: what runs of upserts and batches leave.
    - [Media.v]: [media_edge_rows]. [RecordProcessing.v]: the rest of
      [_record_processing.py], with the four processors.
    - [ProcessTrace.v], [ProcessSpec.v], [ReleaseMedia.v], [RecordFacts.v],
      [NativeIdentity.v]: the statements a processor issues, the contract of each
      entity's row ([entity_contract]), and the theorems.
    - [Reconciliation.v]: [_reconciliation.py], with [StaleChildRowPurge] as the
      record [purge_state]. [FloatCap.v]: its cap in double arithmetic.
      [Latch.v]: the latch over a run of events. [PurgeSafety.v]: the purge
      against a pure reference ([purged]). [Interleaving.v]: the purge as two
      steps of the event loop.
    - [Delivery.v], [DeliverySafety.v]: a delivery from the broker to its
      settlement ([on_data_message], [_handle_data_message],
      [_reconcile_deleted_child_rows], the failure classifier). The state is the
      record [process], which holds the database, the latch relation, the
      consumers and the purge; what the outside answers one delivery is the record
      [answers_].
    - [Loadability.v]: the outcome of a record's delivery when the outside
      answers, by a test of the record ([readable]). [Typing.v]: which statements
      a processor may send.
    - [Locks.v], [RecordLocks.v]: open transactions against each other's locks:
      which lock each statement of a record takes ([lock_of]), which keys a call to
      the identity library may lock on the way ([requested]), and when no cycle of
      waits can close. [Deadlock.v]: two records where one does.
    - [Isolation.v], [Serializable.v]: the same transactions and the purge's over
      shared tables under READ COMMITTED: each statement takes a snapshot when it is sent, waits for the
      locks others hold, and works on the committed rows under its transaction's own
      versions ([send], [answer], [fail]); what such runs commit. [Races.v]: two
      releases of one Discogs release, with and without the advisory lock, a purge
      that waits for a row being refreshed, and two messages for one artist.
    - [Broker.v]: the messages of the queues, what a requeue and an unsettled return
      cost them, and the headers that tell. [Extraction.v]: what deliveries and their
      purges leave in the child tables. [Concurrency.v]: the handler as a task,
      split at its awaits. [Prefetch.v]: the service with any number of deliveries
      in flight, as a prefetch above one runs them: each turn of the event loop
      hands a message out, resumes a delivery to its next await, down to the runner's
      settlement ([ran]) and the marks and counts after it ([after_runner]), or
      closes the channel, which returns what is unsettled to the queues while the
      handlers run on. [service_step] and the state [service] are a model of the
      broker and the event loop, not of code of the repository.
    - [Telemetry.v], [TelemetryFacts.v], [DeliveryTelemetry.v]: the metrics,
      spans, context variables and observers of [brainztableinator.py], lines 60
      to 400.
    - [AssertionAudit.v]: [scripts/audit_test_assertions.py]. [ReleaseChecks.v]:
      [scripts/check_bump_preview.py]. [ReleaseTools.v]:
      [scripts/check-contracts.py], [check-license.py] and
      [write-build-provenance.py], over the values, texts and digests they read.
      [Benchmark.v]: the records, the guard and the run of one worker of
      [scripts/bench-write.py].
    - [Config.v]: [config.py]. [Lifespan.v]: [main], [cli] and the disposal of a
      lifespan.
    - [Sample.v], [Witnesses.v], [RunWitnesses.v]: the concrete parameters, and each theorem that
      has hypotheses applied to a concrete input.

    ** What the theorems show

    - An extraction converges: after its deliveries have run together, in any
      schedule, the clean last signal leaves in the child tables exactly the keys
      the committed records named and those that were never stale
      ([prefetch_converges]); on the way no row a committed record named is lost
      ([prefetch_rows]). A record is committed when it was acknowledged, and also
      when its acknowledgement raised after the commit; where every settlement is
      taken and no channel closes the two are the same. The queues drain within a
      bound, each message is settled once, and the counters are the acknowledgements
      ([prefetch_drains]). The handler as a task is checked against the handler of
      [Delivery.v] by [uninterrupted_delivery].
    - The purge is safe ([purge_safe], [known_veto_deletes_nothing],
      [rejection_vetoes], [processed_rows_survive], [cap_exact]): it removes only
      stale child rows, under every guard, and never a row of a record this run
      processed. It refines its reference ([purge_refines],
      [uninterrupted_purge]). A boundary is decided once
      ([interleaved_decisions_increase]), whatever the order of signals
      ([signals_commute], [latched_iff_covered]). A rejection while a purge is in
      flight is the gap ([inflight_mark_ignored]).
    - A record is stored whole or not at all ([record_all_or_nothing]), every
      column as promised ([processed_record_stored]), its child rows by natural
      key ([processed_children], [relationship_batch_groups]), its media edges
      exactly ([write_release_media_exact], [media_edge_rows_group_by]), under
      the right native id ([native_id_spec]), behind the release's lock
      ([release_lock_first]); link events form its history
      ([link_history_complete], [upsert_redelivery]). On a service that answers,
      which records load is decided by the record ([record_outcome]), and every
      statement sent is well typed ([statements_well_typed]). Records in flight
      together do not deadlock if they lock the relationships they share and the
      identity keys in one order ([records_never_deadlock], [apart_one_order]), and
      can if they list their relationships in different ones
      ([related_records_deadlock]). However their statements and those of the run's
      purges interleave, they commit what they would one after the other
      ([serializable]), which is what lets [Prefetch.v] take a transaction as one
      segment; of the releases that share
      their edges the last to commit wins ([last_committer_wins]). The link history is
      the serial one when no two write one entity; the source gives it up otherwise,
      and [racing_messages_history] shows how.
    - Deliveries are retried with a bound and a wait, or rejected ([retry_policy],
      [failed_reconciliation_keeps], [null_child_rows_never_processed]).
    - Consumers are counted, never forgotten without the broker's word, closed only
      when idle, and recovered when stuck, however many rounds of the checker fail
      first ([lifecycle_invariant], [consumer_forgotten_only_if_confirmed],
      [timer_closes_only_when_idle], [record_disarms_timer],
      [stuck_stream_recovered], [checker_recovers]).
    - A lifespan ends with its pool, admission, purge and consumers released, or
      blocks the next; an exception that escapes [main] leaves the telemetry up, and
      the health server if it was started ([main_ends_clean_or_refuses],
      [dispose_all_or_nothing], [refresh_with_purge], [connection_attempts]).
    - Telemetry exports what its catalogue allows and never interferes
      ([measurements_well_typed], [settled_exports]); a delivery's context is
      scoped to it ([observation_scoped]) and its flushes are linked to its span
      ([record_flushes_linked]).
    - The tools: the audit classifies each test by its own scope
      ([audit_classifies], [walk_complete]), the bump check hides no failure
      ([preview_status]), the benchmark's records are of the stated shape and load
      ([bench_records_load], [prepare_admits]); the contract and licence
      checks pass exactly when every pin agrees and the version is the declared one
      ([contract_pins], [license_check]), and the provenance lists each artifact
      once ([provenance_lists]).
    - The small contracts: names, veto record, identifiers block, alias-conflict
      summary, health port ([health_port_roundtrip]), reporter ([health_consistent]),
      and Python's printed datetime, which reads back ([isoformat_roundtrip]).

    ** Bounds and fuel

    Recursions are structural. The connection loop of [main] recurses on the
    attempts left, five at the start, and [connection_attempts] shows that it never
    runs out. [walk_queue] takes the size of the tree as fuel, and [walk_complete]
    shows that this empties the queue and that more changes nothing. A message is
    handed out at most 521 times: its first delivery, the budget of [MAX_REQUEUES],
    and the 20 unsettled returns its queue's [x-delivery-limit] allows. A hand-out
    takes at most [turns] turns of the event loop: the segments of the longest
    handler (two for each expected type and ten), the hand-out, the settlement and
    the code after it. A set of transactions takes as many rounds as they have
    statements, identity keys and commits. Integers are [Z]: Python's are unbounded, and the two places where
    a width matters are proved: the nine-digit bound on a medium's quantity, and
    the double comparison of the delete fraction, exact below 2^50 rows.

    ** What is not modelled

    - Awaits inside one recovery or one closing: each is one step, except the
      grace timer, whose awaits are steps of their own; a cancellation of the checker
      is taken in its sleep. The awaits inside one database transaction are one
      segment in [Prefetch.v]; [Isolation.v] has them statement by statement.
    - Under READ COMMITTED, the identity library's tables: what its calls
      answered is in the parameters of the statements that follow. Which keys they
      lock is any ([requested]), in exclusive mode. A prune of edges
      does not wait for the rows another prune deletes: only one outside the
      release's advisory lock would have to. A purge's delete locks the rows it is
      to delete all at once, where the server takes them as it scans; a deadlock it
      meets on the way is a failed statement ([fail]), and [records_never_deadlock]
      is about records alone. A purge's counts are those its run read: the serial run
      takes its statements as sent.
    - A timer task cancelled before its first run would leave its dict entry,
      which no later step reads as alive; the model removes it.
    - psycopg's pipeline mode: a statement's error appears at the statement, not at
      a later synchronisation point. Both abort the transaction; a batch's
      recorded outcome may differ.
    - A COMMIT that raises is taken not to have committed.
    - Digits outside ASCII, which [int] and [uuid.UUID] also read.
    - Log texts, except the reporter's; a flush's own span, which is [common]'s;
      and the tests.
    - Cancellation of [main] itself, and a raise of the reporter's task at shutdown.
    - The benchmark's run with several workers, which awaits at every statement on
      connections of their own, its [main], and its latency proxy, statistics and
      fingerprints, which are I/O. *)

From stdpp Require Import base gmap strings list sorting option pretty.
From Stdlib Require Import ZArith Lia.

Declare Scope loader_scope.
Delimit Scope loader_scope with loader.

(** ** Results: a Python call returns a value or raises *)

Section results.
Context (E : Type).

Inductive result (A : Type) : Type :=
| Ok (a : A)
| Raise (e : E).
End results.
Arguments Ok {E A} a.
Arguments Raise {E A} e.

#[export] Instance result_ret E : MRet (result E) := fun _ a => Ok a.
#[export] Instance result_bind E : MBind (result E) :=
  fun _ _ f m => match m with Ok a => f a | Raise e => Raise e end.
#[export] Instance result_fmap E : FMap (result E) :=
  fun _ _ f m => match m with Ok a => Ok (f a) | Raise e => Raise e end.

Definition is_ok {E A} (r : result E A) : bool :=
  match r with Ok _ => true | Raise _ => false end.

(** Left-to-right traversal that stops at the first raise, which is how a
    Python loop over an iterable behaves. *)
Fixpoint traverse {E A B} (f : A -> result E B) (l : list A) : result E (list B) :=
  match l with
  | [] => Ok []
  | x :: l' => y ← f x; ys ← traverse f l'; Ok (y :: ys)
  end.

(** The values a loop kept. *)
Fixpoint somes {A} (l : list (option A)) : list A :=
  match l with
  | [] => []
  | Some x :: l' => x :: somes l'
  | None :: l' => somes l'
  end.

Section traversal.
Context {E A B : Type}.

Lemma traverse_Forall2 (f : A -> result E B) l ys :
  traverse f l = Ok ys <-> Forall2 (fun x y => f x = Ok y) l ys.
Proof.
  revert ys. induction l as [|x l IH]; intros ys; simpl.
  - split; [by intros [= <-]|]. intros Hy. by inversion Hy.
  - unfold mbind, result_bind. split.
    + destruct (f x) as [y|] eqn:Ef; [|done]. destruct (traverse f l) as [ys'|] eqn:Et; [|done].
      intros [= <-]. constructor; [done|]. by apply IH.
    + intros Hy. inversion Hy as [|? y ? ys' Hxy Hrest]; subst. rewrite Hxy. apply IH in Hrest. by rewrite Hrest.
Qed.

Lemma traverse_elem (f : A -> result E B) l ys y :
  traverse f l = Ok ys -> y ∈ ys -> exists x, x ∈ l /\ f x = Ok y.
Proof.
  intros Ht%traverse_Forall2. induction Ht as [|x z l ys Hx _ IH]; [by intros ?%not_elem_of_nil|].
  intros [->|Hy]%elem_of_cons; [exists x; split; [left|done]|].
  destruct (IH Hy) as (x' & Hx' & Hf). exists x'. split; [by right|done].
Qed.

Lemma traverse_ok (f : A -> result E B) (test : A -> bool) l :
  (forall x, is_ok (f x) = test x) -> is_ok (traverse f l) = forallb test l.
Proof.
  intros Hf. induction l as [|x l IH]; [done|]. simpl. rewrite <- Hf, <- IH. unfold mbind, result_bind.
  destruct (f x); [|done]. by destruct (traverse f l).
Qed.

Lemma somes_elem (l : list (option B)) y : y ∈ somes l <-> Some y ∈ l.
Proof.
  induction l as [|[z|] l IH]; simpl; rewrite ?elem_of_cons, ?IH.
  - by rewrite !elem_of_nil.
  - split; (intros [Hz|Hl]; [left; congruence|by right]).
  - split; [by right|]. by intros [|].
Qed.
End traversal.

(** The loop's own results, through [somes]. *)
Section kept.
Context {E A B : Type} (f : A -> result E (option B)).

Lemma traverse_rows l os row : traverse f l = Ok os -> row ∈ somes os -> exists x, f x = Ok (Some row).
Proof. intros Ht Hrow%somes_elem. destruct (traverse_elem _ _ _ _ Ht Hrow) as (x & _ & Hx). eauto. Qed.

Lemma traverse_full l :
  Forall (fun v => exists row, f v = Ok (Some row)) l -> exists os, traverse f l = Ok os /\ length (somes os) = length l.
Proof.
  induction 1 as [|v l [row Hr] _ (os & IH & Hl)]; [by exists []|]. exists (Some row :: os). split.
  - simpl. unfold mbind, result_bind in *. by rewrite Hr, IH.
  - simpl. by f_equal.
Qed.
End kept.

(** Sums over a list that is updated or shortened at one place. *)
Section at_one_place.
Context {A : Type}.
Implicit Types (l : list A) (i : nat) (x y : A).

Lemma map_insert_same {B} (f : A -> B) l i x y : l !! i = Some x -> f y = f x -> map f (<[i := y]> l) = map f l.
Proof.
  revert i. induction l as [|z l IH]; intros [|i] Hi Hf; try done; simpl in *.
  - injection Hi as ->. by rewrite Hf.
  - by rewrite (IH i Hi Hf).
Qed.

Lemma flat_insert {B} (f : A -> list B) l i x y :
  l !! i = Some x -> concat (map f (<[i := y]> l)) ++ f x ≡ₚ f y ++ concat (map f l).
Proof.
  revert i. induction l as [|z l IH]; intros [|i] Hi; try done; simpl in *.
  - injection Hi as ->. solve_Permutation.
  - rewrite <- app_assoc, (IH i Hi). solve_Permutation.
Qed.

Lemma flat_delete {B} (f : A -> list B) l i x :
  l !! i = Some x -> f x ++ concat (map f (delete i l)) ≡ₚ concat (map f l).
Proof.
  revert i. induction l as [|z l IH]; intros [|i] Hi; try done; simpl in *.
  - by injection Hi as ->.
  - rewrite <- (IH i Hi). solve_Permutation.
Qed.

Lemma sum_insert (f : A -> nat) l i x y :
  l !! i = Some x -> sum_list (map f (<[i := y]> l)) + f x = f y + sum_list (map f l).
Proof.
  revert i. induction l as [|z l IH]; intros [|i] Hi; try done; simpl in *.
  - injection Hi as ->. lia.
  - specialize (IH i Hi). lia.
Qed.

Lemma sum_delete (f : A -> nat) l i x :
  l !! i = Some x -> f x + sum_list (map f (delete i l)) = sum_list (map f l).
Proof.
  revert i. induction l as [|z l IH]; intros [|i] Hi; try done; simpl in *.
  - by injection Hi as ->.
  - rewrite <- (IH i Hi). lia.
Qed.
End at_one_place.

(** ** Computations: Python code over a mutable world

    A computation returns or raises, and in both cases leaves a world behind:
    a raise does not undo the assignments made before it. *)

Definition comp (W E A : Type) : Type := W -> result E A * W.

Section computations.
Context {W E : Type}.

#[export] Instance comp_ret : MRet (comp W E) := fun _ a w => (Ok a, w).
#[export] Instance comp_bind : MBind (comp W E) :=
  fun _ _ f m w =>
    match m w with
    | (Ok a, w') => f a w'
    | (Raise e, w') => (Raise e, w')
    end.

Definition raise {A} (e : E) : comp W E A := fun w => (Raise e, w).
Definition reads {A} (f : W -> A) : comp W E A := fun w => (Ok (f w), w).
Definition modifies (f : W -> W) : comp W E unit := fun w => (Ok tt, f w).
Definition lift {A} (r : result E A) : comp W E A := fun w => (r, w).

(** [try: m except Exception as e: h e], the world of [m] reaching [h]. *)
Definition catch {A} (m : comp W E A) (h : E -> comp W E A) : comp W E A :=
  fun w => match m w with (Raise e, w') => h e w' | r => r end.

(** [for x in l: body x] *)
Fixpoint for_each {A} (l : list A) (body : A -> comp W E unit) : comp W E unit :=
  match l with
  | [] => mret tt
  | x :: l' => body x ≫= fun _ => for_each l' body
  end.

Lemma comp_bind_ok {A B} (m : comp W E A) (f : A -> comp W E B) w b w' :
  (m ≫= f) w = (Ok b, w') ->
  exists a w1, m w = (Ok a, w1) /\ f a w1 = (Ok b, w').
Proof.
  unfold mbind, comp_bind. destruct (m w) as [[a|e] w1]; [eauto | discriminate].
Qed.

Lemma comp_bind_run {A B} (m : comp W E A) (f : A -> comp W E B) w a w1 :
  m w = (Ok a, w1) -> (m ≫= f) w = f a w1.
Proof. unfold mbind, comp_bind. by intros ->. Qed.

Lemma comp_bind_raise {A B} (m : comp W E A) (f : A -> comp W E B) w e w1 :
  m w = (Raise e, w1) -> (m ≫= f) w = (Raise e, w1).
Proof. unfold mbind, comp_bind. by intros ->. Qed.
End computations.

(** ** What a computation keeps

    [f] is a view of the world that the computation leaves as it was, whether it
    returns or raises. *)

Section keeps.
Context {W E P : Type} (f : W -> P).

Definition keeps {A} (m : comp W E A) : Prop := forall w, f (m w).2 = f w.

Lemma keeps_ret {A} (a : A) : keeps (mret a).
Proof. done. Qed.

Lemma keeps_raise {A} e : keeps (raise e : comp W E A).
Proof. done. Qed.

Lemma keeps_reads {A} (g : W -> A) : keeps (reads g).
Proof. done. Qed.

Lemma keeps_lift {A} (r : result E A) : keeps (lift r).
Proof. done. Qed.

Lemma keeps_modifies g : (forall w, f (g w) = f w) -> keeps (modifies g).
Proof. intros Hg w. apply Hg. Qed.

Lemma keeps_bind {A B} (m : comp W E A) (k : A -> comp W E B) :
  keeps m -> (forall a, keeps (k a)) -> keeps (m ≫= k).
Proof.
  intros Hm Hk w. unfold mbind, comp_bind. specialize (Hm w). destruct (m w) as [[a|e] w1]; [|done].
  by rewrite Hk.
Qed.

Lemma keeps_for_each {A} (l : list A) (body : A -> comp W E unit) :
  (forall x, keeps (body x)) -> keeps (for_each l body).
Proof. intros Hb. induction l as [|x l IH]; simpl; [apply keeps_ret|]. by apply keeps_bind. Qed.
End keeps.

(** A computation over a part of the world. *)
Definition zoom {W V E A} (get : W -> V) (set : V -> W -> W) (m : comp V E A) : comp W E A :=
  fun w => let '(r, v) := m (get w) in (r, set v w).

(** Split a successful run of a chain of binds into its successful steps. *)
Ltac run_inv :=
  repeat match goal with
  | H : (_ ≫= _) _ = (Ok _, _) |- _ =>
      let a := fresh "a" in let w := fresh "w" in
      let H1 := fresh "Hrun" in let H2 := fresh "Hrun" in
      apply comp_bind_ok in H as (a & w & H1 & H2)
  | H : mret _ _ = (Ok _, _) |- _ => injection H as ??; subst
  | H : raise _ _ = (Ok _, _) |- _ => discriminate H
  | H : reads _ _ = (Ok _, _) |- _ => injection H as ??; subst
  | H : modifies _ _ = (Ok _, _) |- _ => injection H as ??; subst
  end.

(** ** Sorting strings, as Python's [sorted] does

    A Python [str] is kept as its UTF-8 bytes; byte order on UTF-8 is code
    point order, which is the order [sorted] uses. *)

Definition sorted (l : list string) : list string := merge_sort String.le l.

Lemma sorted_Permutation l : sorted l ≡ₚ l.
Proof. apply merge_sort_Permutation. Qed.

Lemma elem_of_sorted x l : x ∈ sorted l <-> x ∈ l.
Proof. by rewrite sorted_Permutation. Qed.

Lemma sorted_StronglySorted l : StronglySorted String.le (sorted l).
Proof. apply (StronglySorted_merge_sort String.le l). Qed.

Lemma sorted_NoDup l : NoDup l -> NoDup (sorted l).
Proof. by rewrite sorted_Permutation. Qed.

Lemma StronglySorted_filter {A} (R : relation A) (P : A -> Prop) `{!forall x, Decision (P x)} l :
  StronglySorted R l -> StronglySorted R (filter P l).
Proof.
  induction 1 as [|x l _ IH HF]; simpl; [constructor|]. rewrite filter_cons. case_decide; [|done]. constructor; [done|].
  rewrite Forall_forall in HF |- *. intros y [_ Hy]%list_elem_of_filter. by apply HF.
Qed.

(** Sorting depends on the elements only: the order a Python set or dict
    happens to iterate in does not reach a sorted result. *)
Lemma sorted_ext l k : l ≡ₚ k -> sorted l = sorted k.
Proof.
  intros Hp. apply (StronglySorted_unique String.le); auto using sorted_StronglySorted.
  by rewrite !sorted_Permutation.
Qed.

#[export] Instance sorted_proper : Proper ((≡ₚ) ==> (=)) sorted.
Proof. intros l k. apply sorted_ext. Qed.

(** ** Lists *)

(** [list(dict.fromkeys(l))]: the first occurrence of each element, in order. *)
Fixpoint dedup {A} `{EqDecision A} (l : list A) : list A :=
  match l with
  | [] => []
  | x :: l' => x :: filter (fun y => y <> x) (dedup l')
  end.

Section dedup.
Context `{EqDecision A}.
Implicit Types l : list A.

Lemma elem_of_dedup x l : x ∈ dedup l <-> x ∈ l.
Proof.
  induction l as [|y l IH]; simpl; [done|].
  rewrite !elem_of_cons, list_elem_of_filter, IH.
  destruct (decide (x = y)); naive_solver.
Qed.

Lemma dedup_NoDup l : NoDup (dedup l).
Proof.
  induction l as [|y l IH]; simpl; constructor; [|by apply NoDup_filter].
  rewrite list_elem_of_filter. naive_solver.
Qed.
End dedup.

Lemma Forall_map_all {A B} (P : B -> Prop) (f : A -> B) l : (forall x, P (f x)) -> Forall P (map f l).
Proof. intros Hf. induction l; simpl; constructor; auto. Qed.

(** ** Sums *)

Definition sumZ (l : list Z) : Z := foldr Z.add 0%Z l.

Lemma sumZ_app l k : sumZ (l ++ k) = (sumZ l + sumZ k)%Z.
Proof. unfold sumZ. induction l; simpl; lia. Qed.

#[export] Instance sumZ_perm : Proper ((≡ₚ) ==> (=)) sumZ.
Proof. unfold sumZ. induction 1; simpl; lia. Qed.

Lemma sumZ_bounds lo hi l :
  Forall (fun x => lo <= x <= hi)%Z l ->
  (lo * Z.of_nat (length l) <= sumZ l <= hi * Z.of_nat (length l))%Z.
Proof. unfold sumZ. induction 1; simpl length; simpl foldr; lia. Qed.

(** ** Shared automation *)

Create HintDb loader discriminated.
Create Rewrite HintDb loader.
#[export] Hint Resolve sorted_StronglySorted sorted_NoDup dedup_NoDup : loader.
#[export] Hint Resolve keeps_ret keeps_raise keeps_reads keeps_lift keeps_bind keeps_for_each : loader.
#[export] Hint Rewrite @elem_of_sorted @elem_of_dedup sumZ_app : loader.
