(* ===== verification/PyValue.v ===== *)
(** * Python values

    The data a MusicBrainz event carries: the values [orjson.loads] returns, and
    the part of the Python language the loader applies to them: [dict.get],
    truthiness, [isinstance], [str], [str.strip], iteration, and the parse that
    [uuid.UUID] makes of a string. A [str] is kept as its UTF-8 bytes. The
    exceptions these raise are the constructors of [exn]; the database's own
    errors are among them because the loader classifies both in one place. *)

From S2P Require Import Prelude.
From stdpp Require Import base gmap strings list sorting option pretty.
From Stdlib Require Import ZArith Lia Floats.SpecFloat.
From Stdlib Require Ascii String.

(** ** Exceptions *)

Inductive exn : Type :=
| TypeError
| AttributeError
| ValueError
| KeyError
| RuntimeError
| JSONDecodeError
(** psycopg's hierarchy, as far as the loader tells it apart. An
    [OperationalError] carries its SQLSTATE when the server sent one. *)
| InterfaceError
| OperationalError (sqlstate : option string)
| DataError
| IntegrityError
| OtherDatabaseError
(** [common]'s pool error, and the loader's own two exceptions. *)
| DatabaseUnavailableError
| ReconciliationFailed
| StartupError
| OtherException (name : string).

#[export] Instance exn_eq_dec : EqDecision exn.
Proof. solve_decision. Defined.

(** [type(error).__name__] *)
Definition exn_name (e : exn) : string :=
  match e with
  | TypeError => "TypeError"
  | AttributeError => "AttributeError"
  | ValueError => "ValueError"
  | KeyError => "KeyError"
  | RuntimeError => "RuntimeError"
  | JSONDecodeError => "JSONDecodeError"
  | InterfaceError => "InterfaceError"
  | OperationalError _ => "OperationalError"
  | DataError => "DataError"
  | IntegrityError => "IntegrityError"
  | OtherDatabaseError => "DatabaseError"
  | DatabaseUnavailableError => "DatabaseUnavailableError"
  | ReconciliationFailed => "ReconciliationFailed"
  | StartupError => "StartupError"
  | OtherException n => n
  end.

(** ** Values *)

(** A [dict] is the association list of its items in insertion order; its keys
    are distinct because [orjson] keeps one item per key. *)
Inductive value : Type :=
| VNull
| VBool (b : bool)
| VInt (z : Z)
| VFloat (f : spec_float)
| VStr (s : string)
| VList (l : list value)
| VDict (d : list (string * value)).

Abbreviation dict := (list (string * value)).

Section value_induction.
Variable P : value -> Prop.
Hypothesis HNull : P VNull.
Hypothesis HBool : forall b, P (VBool b).
Hypothesis HInt : forall z, P (VInt z).
Hypothesis HFloat : forall f, P (VFloat f).
Hypothesis HStr : forall s, P (VStr s).
Hypothesis HList : forall l, Forall P l -> P (VList l).
Hypothesis HDict : forall d : dict, Forall (fun kv => P kv.2) d -> P (VDict d).

Fixpoint value_rect' (v : value) : P v :=
  match v with
  | VNull => HNull
  | VBool b => HBool b
  | VInt z => HInt z
  | VFloat f => HFloat f
  | VStr s => HStr s
  | VList l =>
      HList l ((fix go l : Forall P l :=
        match l with [] => List.Forall_nil _ | x :: l' => List.Forall_cons _ _ _ (value_rect' x) (go l') end) l)
  | VDict d =>
      HDict d ((fix go d : Forall (fun kv => P kv.2) d :=
        match d with [] => List.Forall_nil _ | kv :: d' => List.Forall_cons _ _ _ (value_rect' kv.2) (go d') end) d)
  end.
End value_induction.

#[export] Instance spec_float_eq_dec : EqDecision spec_float.
Proof. solve_decision. Defined.

#[export] Instance value_eq_dec : EqDecision value.
Proof.
  refine (fix go (x y : value) : {x = y} + {x <> y} :=
    match x, y with
    | VNull, VNull => left _
    | VBool a, VBool b => cast_if (decide (a = b))
    | VInt a, VInt b => cast_if (decide (a = b))
    | VFloat a, VFloat b => cast_if (decide (a = b))
    | VStr a, VStr b => cast_if (decide (a = b))
    | VList a, VList b => cast_if (@decide (a = b) (@list_eq_dec value go a b))
    | VDict a, VDict b => cast_if (@decide (a = b) (@list_eq_dec _ (@prod_eq_dec string _ value go) a b))
    | _, _ => right _
    end); clear go; abstract congruence.
Defined.

(** ** Dictionaries *)

Fixpoint lookup_key (d : dict) (k : string) : option value :=
  match d with
  | [] => None
  | (k', v) :: d' => if decide (k' = k) then Some v else lookup_key d' k
  end.

(** [k in d] *)
Definition has_key (d : dict) (k : string) : bool := bool_decide (is_Some (lookup_key d k)).

(** [d.get(k, v)] and [d.get(k)] *)
Definition get_default (d : dict) (k : string) (v : value) : value := default v (lookup_key d k).
Definition get (d : dict) (k : string) : value := get_default d k VNull.

(** ** Truth, types, attributes *)

(** [bool(v)] *)
Definition truthy (v : value) : bool :=
  match v with
  | VNull => false
  | VBool b => b
  | VInt z => negb (z =? 0)%Z
  | VFloat (S754_zero _) => false
  | VFloat _ => true
  | VStr s => bool_decide (s <> "")
  | VList l => bool_decide (l <> [])
  | VDict d => bool_decide (d <> [])
  end.

(** [v or w] *)
Definition or_else (v w : value) : value := if truthy v then v else w.

(** [v is None] *)
Definition is_none (v : value) : bool := match v with VNull => true | _ => false end.

(** [isinstance(v, str)] with [v] truthy or not, as the string it holds. *)
Definition as_str (v : value) : option string := match v with VStr s => Some s | _ => None end.

(** [isinstance(v, int)], which [True] and [False] satisfy. *)
Definition as_int (v : value) : option Z :=
  match v with VInt z => Some z | VBool b => Some (if b then 1 else 0)%Z | _ => None end.

(** [isinstance(v, dict)] *)
Definition as_dict (v : value) : option dict := match v with VDict d => Some d | _ => None end.

(** [v.get], which only a dict has. *)
Definition dict_of (v : value) : result exn dict :=
  match v with VDict d => Ok d | _ => Raise AttributeError end.

(** Whether [v] can be the key of a dict lookup. *)
Definition hashable (v : value) : bool :=
  match v with VList _ | VDict _ => false | _ => true end.

(** ** Strings *)

(** [chr(n)] for an ASCII code. *)
Definition chr (n : N) : string := String (Ascii.ascii_of_N n) EmptyString.

Definition is_continuation (c : Ascii.ascii) : bool :=
  let n := Ascii.N_of_ascii c in (128 <=? n)%N && (n <? 192)%N.

(** The characters of a string: each lead byte with the continuation bytes
    after it. *)
Fixpoint chars (s : string) : list string :=
  match s with
  | EmptyString => []
  | String c s' =>
      match chars s' with
      | String c' g :: gs =>
          if is_continuation c' then String c (String c' g) :: gs
          else String c EmptyString :: String c' g :: gs
      | gs => String c EmptyString :: gs
      end
  end.

Definition join (l : list string) : string := foldr String.append EmptyString l.

(** [str.isspace] of one character: the code points Python's Unicode database
    marks as whitespace, by their UTF-8 bytes. *)
Definition is_space (ch : string) : bool :=
  match map (fun c => Ascii.N_of_ascii c) (String.list_ascii_of_string ch) with
  | [b] => ((9 <=? b) && (b <=? 13) || (28 <=? b) && (b <=? 32))%N
  | [194; b]%N => ((b =? 133) || (b =? 160))%N
  | [225; 154; 128]%N => true
  | [226; 128; b]%N => ((128 <=? b) && (b <=? 138) || (b =? 168) || (b =? 169) || (b =? 175))%N
  | [226; 129; 159]%N => true
  | [227; 128; 128]%N => true
  | _ => false
  end.

Fixpoint drop_while {A} (p : A -> bool) (l : list A) : list A :=
  match l with
  | [] => []
  | x :: l' => if p x then drop_while p l' else l
  end.

(** [l] without its longest prefix and suffix of elements satisfying [p]. *)
Definition trim {A} (p : A -> bool) (l : list A) : list A :=
  reverse (drop_while p (reverse (drop_while p l))).

(** [s.strip()] *)
Definition strip (s : string) : string := join (trim is_space (chars s)).

(** [isinstance(v, str) and v.strip()] *)
Definition nonblank (v : value) : option string :=
  s ← as_str v; if bool_decide (strip s <> "") then Some s else None.

(** [str(v)]. The printed form of a float, a list or a dict is left to the
    interpreter: no statement depends on it. *)
Class PyRepr := repr_compound : value -> string.

Definition py_str `{PyRepr} (v : value) : string :=
  match v with
  | VNull => "None"
  | VBool true => "True"
  | VBool false => "False"
  | VInt z => pretty z
  | VStr s => s
  | VFloat _ | VList _ | VDict _ => repr_compound v
  end.

(** [for x in v] *)
Definition py_iter (v : value) : result exn (list value) :=
  match v with
  | VList l => Ok l
  | VDict d => Ok (VStr ∘ fst <$> d)
  | VStr s => Ok (VStr <$> chars s)
  | VNull | VBool _ | VInt _ | VFloat _ => Raise TypeError
  end.

(** ** [uuid.UUID(hex)] *)

(** [s.replace(p, "")]: the non-overlapping occurrences of [p] from the left,
    removed; [skip] counts the bytes of the occurrence being dropped. *)
Fixpoint remove_all (p : string) (skip : nat) (s : string) : string :=
  match s with
  | EmptyString => EmptyString
  | String c s' =>
      match skip with
      | S k => remove_all p k s'
      | O => if String.prefix p s then remove_all p (String.length p - 1) s'
             else String c (remove_all p 0 s')
      end
  end.

Definition is_hex_digit (ch : string) : bool :=
  match map (fun c => Ascii.N_of_ascii c) (String.list_ascii_of_string ch) with
  | [b] => ((48 <=? b) && (b <=? 57) || (65 <=? b) && (b <=? 70) || (97 <=? b) && (b <=? 102))%N
  | _ => false
  end.

(** Whitespace as [int] skips it around the digits. *)
Definition is_int_space (ch : string) : bool :=
  bool_decide (ch ∈ [" "; chr 09; chr 10; chr 11; chr 12; chr 13])
  || negb ((String.length ch =? 1)%nat) && is_space ch.

(** The digits of an integer literal, single underscores between them; what
    follows them, or [None] when an underscore is doubled or trails. *)
Fixpoint after_digits (underscore : bool) (l : list string) : option (list string) :=
  match l with
  | [] => if underscore then None else Some []
  | ch :: l' =>
      if is_hex_digit ch then after_digits false l'
      else if bool_decide (ch = "_") then (if underscore then None else after_digits true l')
      else if underscore then None else Some l
  end.

(** Whether [int(s, 16)] returns, on the characters of [s]. A decimal digit
    outside ASCII, which [int] also reads, is not accepted here. *)
Definition int16_parses (l : list string) : bool :=
  let l := drop_while is_int_space l in
  let l := match l with ch :: l' => if bool_decide (ch ∈ ["+"; "-"]) then l' else l | [] => [] end in
  let l := match l with
           | "0" :: x :: l' =>
               if bool_decide (x ∈ ["x"; "X"]) then
                 match l' with "_" :: l'' => l'' | _ => l' end
               else l
           | _ => l
           end in
  match l with
  | ch :: _ =>
      is_hex_digit ch &&
      match after_digits false l with Some rest => forallb is_int_space rest | None => false end
  | [] => false
  end.

(** Whether [uuid.UUID(v)] returns: a value without [replace] raises
    AttributeError, a badly formed string ValueError, and [None] TypeError. *)
Definition uuid_parses (v : value) : bool :=
  match v with
  | VStr s =>
      let h := remove_all "uuid:" 0 (remove_all "urn:" 0 s) in
      let l := filter (fun ch => ch <> "-") (trim (fun ch => bool_decide (ch ∈ ["{"; "}"])) (chars h)) in
      (length l =? 32)%nat && int16_parses l
  | _ => false
  end.

(** ** Facts *)

Lemma join_chars s : join (chars s) = s.
Proof.
  induction s as [|c s IH]; simpl; [done|].
  destruct (chars s) as [|[|c' g] gs] eqn:E; simpl in *.
  - by rewrite <- IH.
  - by rewrite <- IH.
  - destruct (is_continuation c'); simpl in *; by rewrite <- IH.
Qed.

Lemma lookup_key_elem_of d k v : lookup_key d k = Some v -> (k, v) ∈ d.
Proof.
  induction d as [|[k' v'] d IH]; simpl; [done|].
  case_decide; intros ?; simplify_eq; set_solver.
Qed.

Lemma nonblank_as_str v s : nonblank v = Some s -> v = VStr s.
Proof. unfold nonblank, as_str. destruct v; simpl; repeat case_match; naive_solver. Qed.

Lemma truthy_none v : truthy v = true -> v <> VNull.
Proof. by destruct v. Qed.

Example uuid_plain : uuid_parses (VStr "550e8400-e29b-41d4-a716-446655440000") = true.
Proof. reflexivity. Qed.
Example uuid_urn : uuid_parses (VStr "urn:uuid:{550E8400e29b41d4a716446655440000}") = true.
Proof. reflexivity. Qed.
Example uuid_bad : uuid_parses (VStr "not-a-uuid") = false.
Proof. reflexivity. Qed.
Example strip_ex : strip (chr 9 +:+ " a b  ") = "a b".
Proof. reflexivity. Qed.

#[export] Hint Resolve lookup_key_elem_of : loader.
