(* ===== verification/PyDatetime.v ===== *)
(** * [datetime.fromisoformat]

    The parse the standard library makes of an ISO 8601 string, by the
    algorithm of its reference implementation (date separator search, date,
    time, UTC offset, the 24:00 rule), with ASCII digits. A malformed string that
    only one of CPython's two implementations lets through (a space read as a
    digit by the pure one, trailing digits dropped by the C one) is refused
    here. The result keeps what
    the loader uses: the instant a datetime names when it is read in a given
    offset. [MINYEAR]..[MAXYEAR] and the field ranges are those the
    [datetime] constructor enforces. *)

From S2P Require Import Prelude PyValue.
From stdpp Require Import base gmap strings list option.
From Stdlib Require Import ZArith Lia.

Local Open Scope Z_scope.

(** A day (1 is 0001-01-01), the microseconds since its midnight, and the UTC
    offset in microseconds of an aware datetime. *)
Record datetime : Type := Datetime {
  dt_day : Z;
  dt_time : Z;
  dt_offset : option Z;
}.

(** The microseconds since 0000-12-31T00:00Z of an aware datetime; two aware
    datetimes compare by it. *)
Definition instant (dt : datetime) : Z :=
  dt_day dt * 86400000000 + dt_time dt - default 0 (dt_offset dt).

(** ** The proleptic Gregorian calendar *)

Definition is_leap (y : Z) : bool :=
  (y mod 4 =? 0) && (negb (y mod 100 =? 0) || (y mod 400 =? 0)).

Definition days_in_month (y m : Z) : Z :=
  match m with
  | 2 => if is_leap y then 29 else 28
  | 4 | 6 | 9 | 11 => 30
  | _ => 31
  end.

Definition days_before_month (y m : Z) : Z :=
  sumZ (map (fun i => days_in_month y (Z.of_nat i)) (seq 1 (Z.to_nat (m - 1)))).

Definition days_before_year (year : Z) : Z :=
  let y := year - 1 in y * 365 + y / 4 - y / 100 + y / 400.

Definition ymd2ord (y m d : Z) : Z := days_before_year y + days_before_month y m + d.

Definition MINYEAR : Z := 1.
Definition MAXYEAR : Z := 9999.

(** The ordinal of a date the constructor accepts. *)
Definition date (y m d : Z) : option Z :=
  if (MINYEAR <=? y) && (y <=? MAXYEAR) && (1 <=? m) && (m <=? 12) && (1 <=? d) && (d <=? days_in_month y m)
  then Some (ymd2ord y m d) else None.

Definition max_ordinal : Z := ymd2ord 9999 12 31.

Definition isoweek1monday (year : Z) : Z :=
  let firstday := ymd2ord year 1 1 in
  let firstweekday := (firstday + 6) mod 7 in
  let week1monday := firstday - firstweekday in
  if 3 <? firstweekday then week1monday + 7 else week1monday.

Definition isoweek (year week day : Z) : option Z :=
  let first := ymd2ord year 1 1 mod 7 in
  let week_ok := (0 <? week) && (week <? 53)
                 || (week =? 53) && ((first =? 4) || (first =? 3) && is_leap year) in
  if (MINYEAR <=? year) && (year <=? MAXYEAR) && week_ok && (0 <? day) && (day <? 8) then
    let ord := isoweek1monday year + (week - 1) * 7 + (day - 1) in
    if (1 <=? ord) && (ord <=? max_ordinal) then Some ord else None
  else None.

(** ** Digits *)

Definition digit (ch : string) : option Z :=
  match ch with
  | String c EmptyString =>
      let n := Z.of_N (Ascii.N_of_ascii c) in
      if (48 <=? n) && (n <=? 57) then Some (n - 48) else None
  | _ => None
  end.

Definition is_digit (ch : string) : bool := bool_decide (is_Some (digit ch)).

Fixpoint number (acc : Z) (l : list string) : option Z :=
  match l with
  | [] => Some acc
  | ch :: l' => d ← digit ch; number (acc * 10 + d) l'
  end.

(** [int(l)] on a field of exactly [n] digits. *)
Definition field (n : nat) (l : list string) : option Z :=
  if (length l =? n)%nat then number 0 l else None.

(** [l[a:b]] *)
Definition slice (a b : nat) (l : list string) : list string := take (b - a) (drop a l).

Definition at_ (l : list string) (i : nat) : string := default "" (l !! i).

(** ** Dates *)

Definition count_digits (l : list string) : nat := length l - length (drop_while is_digit l).

(** The position of the character between the date and the time. *)
Definition find_separator (l : list string) : nat :=
  let n := length l in
  if (n =? 7)%nat then 7
  else if bool_decide (at_ l 4 = "-") then
    if bool_decide (at_ l 5 = "W") then
      if ((8 <? n)%nat && bool_decide (at_ l 8 = "-")) then
        if ((10 <? n)%nat && is_digit (at_ l 10)) then 8 else 10
      else 8
    else 10
  else if bool_decide (at_ l 4 = "W") then
    let pos := (7 + count_digits (drop 7 l))%nat in
    if (pos <? 9)%nat then pos else if Nat.even pos then 7 else 8
  else 8.

Definition parse_date (l : list string) : option Z :=
  year ← field 4 (slice 0 4 l);
  let has_sep := bool_decide (at_ l 4 = "-") in
  let pos := if has_sep then 5%nat else 4%nat in
  let step := if has_sep then 1%nat else 0%nat in
  if bool_decide (at_ l pos = "W") then
    week ← field 2 (slice (pos + 1) (pos + 3) l);
    let pos := (pos + 3)%nat in
    if (pos <? length l)%nat then
      if Bool.eqb (bool_decide (at_ l pos = "-")) has_sep then
        day ← field 1 (drop (pos + step) l); isoweek year week day
      else None
    else isoweek year week 1
  else
    month ← field 2 (slice pos (pos + 2) l);
    if Bool.eqb (bool_decide (at_ l (pos + 2) = "-")) has_sep then
      day ← field 2 (drop (pos + 2 + step) l); date year month day
    else None.

(** ** Times *)

(** Hours, minutes, seconds, microseconds. *)
Record clock : Type := Clock { hh : Z; mm : Z; ss : Z; us : Z }.

(** The fraction after the seconds: six digits count, the rest are dropped. *)
Definition parse_fraction (l : list string) : option Z :=
  match l with
  | [] => Some 0
  | ch :: l' =>
      if bool_decide (ch ∈ ["."; ","]) && forallb is_digit l' && (1 <=? length l')%nat then
        n ← number 0 (take 6 l'); Some (n * 10 ^ (6 - Z.of_nat (length (take 6 l'))))
      else None
  end.

(** [HH[:?MM[:?SS[{.,}fff[fff]]]]] *)
Definition parse_clock (l : list string) : option clock :=
  h ← field 2 (take 2 l);
  let l1 := drop 2 l in
  let sep := bool_decide (head l1 = Some ":") in
  let skip (l : list string) : option (list string) :=
    if sep then match l with ":" :: l' => Some l' | _ => None end else Some l in
  match l1 with
  | [] => Some (Clock h 0 0 0)
  | _ =>
      l2 ← skip l1;
      m ← field 2 (take 2 l2);
      match drop 2 l2 with
      | [] => Some (Clock h m 0 0)
      | l3 =>
          l4 ← skip l3;
          s ← field 2 (take 2 l4);
          f ← parse_fraction (drop 2 l4);
          Some (Clock h m s f)
      end
  end.

Definition clock_us (c : clock) : Z := ((hh c * 60 + mm c) * 60 + ss c) * 1000000 + us c.

Fixpoint index_of (ch : string) (l : list string) : option nat :=
  match l with
  | [] => None
  | x :: l' => if decide (x = ch) then Some 0%nat else S <$> index_of ch l'
  end.

(** The offset after the time's last field: [None] for a badly formed one,
    [Some None] for a naive time. *)
Definition parse_offset (l : list string) : option (list string * option Z) :=
  match index_of "-" l ∪ index_of "+" l ∪ index_of "Z" l with
  | None => Some (l, None)
  | Some p =>
      let tz := drop (p + 1) l in
      if bool_decide (at_ l p = "Z") then
        match tz with [] => Some (take p l, Some 0) | _ => None end
      else if bool_decide (length tz ∈ [0; 1; 3]%nat) then None
      else
        c ← parse_clock tz;
        let us := clock_us c in
        if us <? 86400000000 then
          Some (take p l, Some (if bool_decide (at_ l p = "-") then - us else us))
        else None
  end.

(** A time of day in range, and whether it is the 24:00 that ends the day. *)
Definition time_of_day (c : clock) : option (Z * bool) :=
  if (hh c =? 24) then
    if (mm c =? 0) && (ss c =? 0) && (us c =? 0) then Some (0, true) else None
  else if (hh c <? 24) && (mm c <? 60) && (ss c <? 60) then Some (clock_us c, false)
  else None.

(** [datetime.fromisoformat(s)], [None] for its ValueError. *)
Definition fromisoformat (s : string) : option datetime :=
  let l := chars s in
  if (length l <? 7)%nat then None
  else
    let p := find_separator l in
    day ← parse_date (take p l);
    match drop (p + 1) l with
    | [] => if (p <? length l)%nat then None else Some (Datetime day 0 None)
    | t =>
        if (length t <? 2)%nat then None
        else
          match parse_offset t with
          | Some (t, offset) =>
              match parse_clock t ≫= time_of_day with
              | Some (time, next_day) =>
                  let day := if next_day : bool then day + 1 else day in
                  if day <=? max_ordinal then Some (Datetime day time offset) else None
              | None => None
              end
          | None => None
          end
    end.

Example iso_utc :
  fromisoformat "2026-10-21T00:10:01.25+02:00" = Some (Datetime 739910 601250000 (Some 7200000000)).
Proof. vm_compute. reflexivity. Qed.
