(* ===== verification/PurgeVeto.v ===== *)
(** * The durable veto record

    [brainztableinator/_purge_veto.py]: this loader's rows of
    [public.loader_extraction_latch], one per extraction, by version. How the
    database orders text is the class [Collation]. *)

From S2P Require Import Prelude PyValue.
From stdpp Require Import base gmap strings list option sorting.
From Stdlib Require Import ZArith Lia.

Class Collation : Type := {
  text_le : relation string;
  text_le_dec :: RelDecision text_le;
  text_le_total :: Total text_le;
  text_le_trans :: Transitive text_le;
  text_le_antisymm :: AntiSymm (=) text_le;
}.

(** [purge_vetoed] by version. *)
Abbreviation latch_table := (gmap string (list string)).

(** [extraction_key]: the version, or the start when there is none. *)
Definition extraction_key `{PyRepr} (data : dict) : option string :=
  let text k := strip (py_str (or_else (get data k) (VStr ""))) in
  if decide (text "version" = "") then
    if decide (text "started_at" = "") then None else Some (text "started_at")
  else Some (text "version").

(** [purge_veto_column_present], given whether the catalog lists the column. *)
Definition purge_veto_column_present (row : option Z) : bool := bool_decide (row <> None).

(** [recorded_vetoes] *)
Definition recorded_vetoes (latch : latch_table) (version : string) : list string := default [] (latch !! version).

Section collation.
Context `{Collation}.

(** [array_agg(DISTINCT vetoed ORDER BY vetoed)] *)
Definition array_agg_distinct (l : list string) : list string := merge_sort text_le (dedup l).

(** [record_extraction]: the row as given, or its union with the one there. *)
Definition record_extraction (latch : latch_table) (version : string) (vetoed : list string) : latch_table :=
  match latch !! version with
  | None => <[version := vetoed]> latch
  | Some old => <[version := array_agg_distinct (old ++ vetoed)]> latch
  end.

(** [ORDER BY version DESC] *)
Definition history (latch : latch_table) : list (list string) :=
  omap (fun v => latch !! v) (reverse (merge_sort text_le (elements (dom latch)))).

(** The loop of [consecutive_vetoes]. *)
Fixpoint count_vetoes (rows : list (list string)) : Z :=
  match rows with
  | [] => 0
  | vetoed :: rows' => match vetoed with [] => 0 | _ => 1 + count_vetoes rows' end
  end.

Definition consecutive_vetoes (latch : latch_table) : Z := count_vetoes (history latch).

(** ** Facts *)

Lemma elem_of_array_agg x l : x ∈ array_agg_distinct l <-> x ∈ l.
Proof. unfold array_agg_distinct. by rewrite merge_sort_Permutation, elem_of_dedup. Qed.

Lemma array_agg_nil l : array_agg_distinct l = [] <-> l = [].
Proof.
  split; [|by intros ->]. intros Hn. destruct l as [|x l]; [done|]. exfalso.
  assert (x ∈ array_agg_distinct (x :: l)) as Hx by (apply elem_of_array_agg; left).
  rewrite Hn in Hx. by apply not_elem_of_nil in Hx.
Qed.

Lemma record_extraction_lookup latch v vetoed v' :
  (v' <> v -> record_extraction latch v vetoed !! v' = latch !! v') /\
  exists l, record_extraction latch v vetoed !! v = Some l /\ forall x, x ∈ l <-> x ∈ recorded_vetoes latch v \/ x ∈ vetoed.
Proof.
  unfold record_extraction, recorded_vetoes. destruct (latch !! v) as [old|] eqn:E; simpl.
  - split; [intros; by rewrite lookup_insert_ne|]. eexists. split; [apply lookup_insert_eq|].
    intros x. by rewrite elem_of_array_agg, elem_of_app.
  - split; [intros; by rewrite lookup_insert_ne|]. eexists. split; [apply lookup_insert_eq|]. set_solver.
Qed.

(** Recording a run of signals, in their order. *)
Definition record_all (latch : latch_table) (l : list (string * list string)) : latch_table :=
  foldl (fun t vv => record_extraction t vv.1 vv.2) latch l.

(** A recorded veto is never lost. Over any sequence of recordings, with
    redeliveries and extractions interleaved in any order, the types recorded
    for an extraction are exactly those recorded before together with every type
    any of its recordings named: a redelivered signal cannot shrink the record,
    and repeating one changes nothing. *)
Theorem recorded_vetoes_union latch l v x :
  x ∈ recorded_vetoes (record_all latch l) v <->
  x ∈ recorded_vetoes latch v \/ exists vetoed, (v, vetoed) ∈ l /\ x ∈ vetoed.
Proof.
  unfold record_all. revert latch. induction l as [|[v' vs] l IH]; intros latch; simpl; [set_solver|].
  rewrite IH. destruct (record_extraction_lookup latch v' vs v) as [Hne (u & Hu & Hel)].
  setoid_rewrite elem_of_cons. unfold recorded_vetoes at 1. destruct (decide (v = v')) as [->|Hv].
  - rewrite Hu. simpl. rewrite Hel. naive_solver.
  - rewrite Hne by done. unfold recorded_vetoes. naive_solver.
Qed.

Lemma count_vetoes_nonneg rows : (0 <= count_vetoes rows)%Z.
Proof. induction rows as [|[|x r] rows IH]; simpl; lia. Qed.

(** The number of vetoed extractions at the head of the history. *)
Lemma count_vetoes_spec rows n :
  count_vetoes rows = Z.of_nat n <->
  n <= length rows /\ Forall (fun r => r <> []) (take n rows) /\
  (n < length rows -> rows !! n = Some []).
Proof.
  revert n. induction rows as [|r rows IH]; intros n; simpl.
  - split; [intros; assert (n = 0) by lia; subst; by split_and!; [lia|constructor|lia]|]. intros [? _]. lia.
  - destruct r as [|x r].
    + split; [intros; assert (n = 0) by lia; subst; split_and!; [lia|constructor|done]|].
      intros (_ & HF & _). destruct n; [done|]. inversion HF; done.
    + destruct n as [|n]; simpl.
      * pose proof (count_vetoes_nonneg rows). split; [lia|]. intros (_ & _ & Hn). by specialize (Hn ltac:(lia)).
      * split.
        -- intros Hc. destruct (proj1 (IH n)) as (H1 & H2 & H3); [lia|].
           split_and!; [lia|by constructor|]. intros. apply H3. lia.
        -- intros (H1 & H2 & H3). inversion_clear H2. rewrite (proj2 (IH n)); [lia|].
           split_and!; [lia|done|]. intros. apply H3. lia.
Qed.

Lemma history_newest latch v vetoed :
  latch !! v = None -> (forall v', is_Some (latch !! v') -> text_le v' v) ->
  history (record_extraction latch v vetoed) = vetoed :: history latch.
Proof.
  intros Hnone Hmax. unfold history, record_extraction. rewrite Hnone.
  assert (merge_sort text_le (elements (dom (<[v := vetoed]> latch))) =
    merge_sort text_le (elements (dom latch)) ++ [v]) as ->.
  { apply (StronglySorted_unique text_le).
    - apply (StronglySorted_merge_sort text_le).
    - assert (StronglySorted text_le (merge_sort text_le (elements (dom latch)))) as Hs
        by apply (StronglySorted_merge_sort text_le).
      assert (Forall (fun v' => text_le v' v) (merge_sort text_le (elements (dom latch)))) as HF.
      { apply Forall_forall. intros v'. rewrite merge_sort_Permutation, elem_of_elements, elem_of_dom. apply Hmax. }
      revert HF. clear Hmax Hnone. induction Hs as [|v' l Hs IH Hl]; simpl; [intros _; by repeat constructor|].
      intros HF. inversion_clear HF as [|? ? Hv' HF']. constructor; [by apply IH|]. apply Forall_app. split; [done|by repeat constructor].
    - rewrite !merge_sort_Permutation, dom_insert, elements_union_singleton.
      + by rewrite Permutation_app_comm.
      + by rewrite not_elem_of_dom. }
  rewrite reverse_snoc. csimpl. rewrite lookup_insert_eq. f_equal.
  assert (v ∉ reverse (merge_sort text_le (elements (dom latch)))) as Hnot.
  { rewrite elem_of_reverse, merge_sort_Permutation, elem_of_elements. by rewrite not_elem_of_dom. }
  revert Hnot. generalize (reverse (merge_sort text_le (elements (dom latch)))). intros l Hnot.
  induction l as [|v' l IH]; csimpl; [done|]. rewrite not_elem_of_cons in Hnot. destruct Hnot as [Hne Hnot].
  rewrite lookup_insert_ne by done. destruct (latch !! v'); by rewrite IH.
Qed.

(** C31: the alert counts vetoed extractions in a row, newest first. The count is
    [n] exactly when the newest [n] extractions were vetoed and the one before
    them, if any, was not; and recording a new newest extraction resets it to
    zero when that extraction is clean and raises it by one when it is not. *)
Theorem consecutive_vetoes_spec latch :
  (forall n, consecutive_vetoes latch = Z.of_nat n <->
     n <= length (history latch) /\ Forall (fun r => r <> []) (take n (history latch)) /\
     (n < length (history latch) -> history latch !! n = Some [])) /\
  (forall v vetoed, latch !! v = None -> (forall v', is_Some (latch !! v') -> text_le v' v) ->
     consecutive_vetoes (record_extraction latch v vetoed) =
       match vetoed with [] => 0 | _ => 1 + consecutive_vetoes latch end)%Z.
Proof.
  split; [intros n; apply count_vetoes_spec|]. intros v vetoed Hnone Hmax.
  unfold consecutive_vetoes. rewrite history_newest by done. by destruct vetoed.
Qed.
End collation.
