(* ===== verification/QueueNames.v ===== *)
(** * Broker names

    [brainztableinator/catalog_contract.py] and [queue_names.py]: the entity
    vocabulary, and the names of the exchanges, queues and dead-letter relations
    the service declares. *)

From S2P Require Import Prelude PyValue.
From stdpp Require Import base gmap strings list option.

Definition SOURCE : string := "musicbrainz".
Definition AMQP_EXCHANGE_TYPE : string := "fanout".
Definition ENTITY_TYPES : list string := ["artists"; "labels"; "release-groups"; "releases"].
Definition CONSUMERS : list string := ["brainzgraphinator"; "brainztableinator"].

(** [getenv("MUSICBRAINZ_EXCHANGE_PREFIX", ...)]; [None] for an unset variable. *)
Definition EXCHANGE_PREFIX (env : option string) : string := default "groovemap-musicbrainz" env.

Section names.
Context (prefix : string).

Definition exchange_name (entity : string) : result exn string :=
  if decide (entity ∈ ENTITY_TYPES) then Ok (prefix +:+ "-" +:+ entity)
  else Raise ValueError.

Definition queue_name (consumer entity : string) : result exn string :=
  if decide (consumer ∈ CONSUMERS) then
    if decide (entity ∈ ENTITY_TYPES) then
      Ok (prefix +:+ "-" +:+ consumer +:+ "-" +:+ entity)
    else Raise ValueError
  else Raise ValueError.

Definition dead_letter_exchange_name (consumer entity : string) : result exn string :=
  n ← queue_name consumer entity; Ok (n +:+ ".dlx").

Definition dead_letter_queue_name (consumer entity : string) : result exn string :=
  n ← queue_name consumer entity; Ok (n +:+ ".dlq").
End names.

Definition MUSICBRAINZ_DATA_TYPES : list string := ENTITY_TYPES.
Definition PIPELINE_SOURCE : string := SOURCE.

(** Every broker name the service uses for one entity type. *)
Definition broker_names (prefix consumer entity : string) : result exn (list string) :=
  x ← exchange_name prefix entity;
  q ← queue_name prefix consumer entity;
  dx ← dead_letter_exchange_name prefix consumer entity;
  dq ← dead_letter_queue_name prefix consumer entity;
  Ok [x; q; dx; dq].

(** ** Facts *)

Lemma entity_types_NoDup : NoDup ENTITY_TYPES.
Proof. apply (bool_decide_unpack _). reflexivity. Qed.

(** Every broker name of the service: the exchanges, and each consumer's queues
    and dead-letter relations. *)
Definition all_names (prefix : string) : list (result exn string) :=
  map (exchange_name prefix) ENTITY_TYPES ++
  concat (map (fun c => map (queue_name prefix c) ENTITY_TYPES ++ map (dead_letter_exchange_name prefix c) ENTITY_TYPES ++
                        map (dead_letter_queue_name prefix c) ENTITY_TYPES) CONSUMERS).

(** The same names without their prefix. *)
Definition name_suffixes : list string :=
  map (fun e => "-" +:+ e) ENTITY_TYPES ++
  concat (map (fun c =>
    map (fun e => "-" +:+ c +:+ "-" +:+ e) ENTITY_TYPES ++
    map (fun e => ("-" +:+ c +:+ "-" +:+ e) +:+ ".dlx") ENTITY_TYPES ++
    map (fun e => ("-" +:+ c +:+ "-" +:+ e) +:+ ".dlq") ENTITY_TYPES) CONSUMERS).

Lemma append_assoc (a b c : string) : (a +:+ b) +:+ c = a +:+ (b +:+ c).
Proof.
  induction a as [|x a IH]; [done|]. change (String x ((a +:+ b) +:+ c) = String x (a +:+ (b +:+ c))). by rewrite IH.
Qed.

Lemma append_inj_l (a b c : string) : a +:+ b = a +:+ c -> b = c.
Proof.
  induction a as [|x a IH]; [done|]. change (String x (a +:+ b) = String x (a +:+ c) -> b = c). intros [= Heq]. auto.
Qed.

Lemma all_names_suffixes prefix : all_names prefix = map (fun s => Ok (prefix +:+ s)) name_suffixes.
Proof. unfold all_names, dead_letter_exchange_name, dead_letter_queue_name. simpl. by rewrite !append_assoc. Qed.

Lemma name_suffixes_NoDup : NoDup name_suffixes.
Proof. apply (bool_decide_unpack _). vm_compute. done. Qed.

(** Broker names never collide. Whatever the configured prefix, the
    exchanges, queues, dead-letter exchanges and dead-letter queues of the four
    entity types, of both consumers of the catalog, are defined and pairwise
    distinct; and an entity or consumer outside the vocabulary raises ValueError
    in every name rather than naming a new relation. *)
Theorem broker_names_distinct prefix consumer entity :
  NoDup (all_names prefix) /\ Forall (fun r => is_ok r = true) (all_names prefix) /\
  (consumer ∉ CONSUMERS \/ entity ∉ ENTITY_TYPES ->
     queue_name prefix consumer entity = Raise ValueError /\
     dead_letter_exchange_name prefix consumer entity = Raise ValueError /\
     dead_letter_queue_name prefix consumer entity = Raise ValueError) /\
  (entity ∉ ENTITY_TYPES -> exchange_name prefix entity = Raise ValueError).
Proof.
  rewrite all_names_suffixes. split_and!.
  - apply NoDup_fmap_2_strong; [|apply name_suffixes_NoDup]. intros x y _ _ [= Heq]. by apply append_inj_l in Heq.
  - by apply Forall_map_all.
  - intros Hout. assert (queue_name prefix consumer entity = Raise ValueError) as Hq.
    { unfold queue_name. repeat case_decide; tauto. }
    unfold dead_letter_exchange_name, dead_letter_queue_name. by rewrite Hq.
  - intros Hout. unfold exchange_name. by rewrite decide_False.
Qed.
