(* ===== verification/Consumers.v ===== *)
(** * Consumer lifecycle

    The registration state [brainztableinator/brainztableinator.py] keeps about
    its broker consumers, and the operations on it: registration, the grace
    timers, shutdown cancellation, closing, the alarm and health reports, and
    recovery. The broker's and the clock's answers are arguments. Tags are kept
    in the order of the dict they stand for; times are microseconds. *)

From S2P Require Import Prelude PyValue QueueNames.
From stdpp Require Import base gmap strings list option sorting.
From Stdlib Require Import ZArith Lia.

(** ** Insertion-ordered dicts of strings *)

Abbreviation tags := (list (string * string)).

Fixpoint tag_of (d : tags) (k : string) : option string :=
  match d with
  | [] => None
  | (k', v) :: d' => if decide (k' = k) then Some v else tag_of d' k
  end.

(** [d[k] = v] *)
Fixpoint set_tag (d : tags) (k v : string) : tags :=
  match d with
  | [] => [(k, v)]
  | (k', v') :: d' => if decide (k' = k) then (k, v) :: d' else (k', v') :: set_tag d' k v
  end.

(** [d.pop(k, None)] *)
Definition del_tag (d : tags) (k : string) : tags := filter (fun kv => kv.1 <> k) d.

(** ** State *)

(** The grace timer's task: asleep, or waiting for the broker's cancel-ok. *)
Inductive task_phase : Type := Sleeping | Cancelling.

Record cancel_task : Type := CancelTask {
  ct_data_type : string;
  ct_tag : option string;      (** the tag captured when it was scheduled *)
  ct_phase : task_phase;
}.

(** The dicts of one connection's registrations, and the consumer gauge. *)
Record registry : Type := Registry {
  consumer_tags : tags;
  connection_consumer_tags : tags;
  consumer_gauge : Z;
}.

(** The timers: [consumer_cancel_tasks], and the tasks that are alive. *)
Record timers : Type := Timers {
  consumer_cancel_tasks : gmap string nat;
  live_tasks : gmap nat cancel_task;
  next_task : nat;
}.

(** What deliveries leave for the monitor. *)
Record traffic : Type := Traffic {
  message_counts : gmap string Z;
  last_message_time : gmap string Z;
  completed_files : gset string;
}.

Record consumers : Type := Consumers {
  c_registry : registry;
  c_timers : timers;
  c_traffic : traffic;
  queues : gset string;
  consumer_cancellation_failed : bool;
  active_connection : bool;
  active_channel : bool;
  consumer_watch_started_at : Z;
  idle_mode : bool;
}.

Definition set_registry r st :=
  Consumers r (c_timers st) (c_traffic st) (queues st) (consumer_cancellation_failed st) (active_connection st)
    (active_channel st) (consumer_watch_started_at st) (idle_mode st).
Definition set_timers t st :=
  Consumers (c_registry st) t (c_traffic st) (queues st) (consumer_cancellation_failed st) (active_connection st)
    (active_channel st) (consumer_watch_started_at st) (idle_mode st).
Definition set_traffic t st :=
  Consumers (c_registry st) (c_timers st) t (queues st) (consumer_cancellation_failed st) (active_connection st)
    (active_channel st) (consumer_watch_started_at st) (idle_mode st).
Definition set_queues q st :=
  Consumers (c_registry st) (c_timers st) (c_traffic st) q (consumer_cancellation_failed st) (active_connection st)
    (active_channel st) (consumer_watch_started_at st) (idle_mode st).
Definition set_failed b st :=
  Consumers (c_registry st) (c_timers st) (c_traffic st) (queues st) b (active_connection st)
    (active_channel st) (consumer_watch_started_at st) (idle_mode st).
Definition set_handles connection channel st :=
  Consumers (c_registry st) (c_timers st) (c_traffic st) (queues st) (consumer_cancellation_failed st) connection
    channel (consumer_watch_started_at st) (idle_mode st).
Definition set_watch t st :=
  Consumers (c_registry st) (c_timers st) (c_traffic st) (queues st) (consumer_cancellation_failed st)
    (active_connection st) (active_channel st) t (idle_mode st).
Definition set_idle_mode b st :=
  Consumers (c_registry st) (c_timers st) (c_traffic st) (queues st) (consumer_cancellation_failed st)
    (active_connection st) (active_channel st) (consumer_watch_started_at st) b.

Definition initial_traffic : traffic :=
  Traffic (list_to_map ((fun t => (t, 0%Z)) <$> MUSICBRAINZ_DATA_TYPES))
          (list_to_map ((fun t => (t, 0%Z)) <$> MUSICBRAINZ_DATA_TYPES)) ∅.

Definition initial_consumers : consumers :=
  Consumers (Registry [] [] 0) (Timers ∅ ∅ 0) initial_traffic ∅ false false false 0 false.

Definition tag (st : consumers) (data_type : string) : option string :=
  tag_of (consumer_tags (c_registry st)) data_type.

(** [completed_files.add] and [.discard] *)
Definition complete (data_type : string) (st : consumers) : consumers :=
  let t := c_traffic st in
  set_traffic (Traffic (message_counts t) (last_message_time t) ({[data_type]} ∪ completed_files t)) st.
Definition uncomplete (data_type : string) (st : consumers) : consumers :=
  let t := c_traffic st in
  set_traffic (Traffic (message_counts t) (last_message_time t) (completed_files t ∖ {[data_type]})) st.

(** [_register_consumer] *)
Definition register_consumer (data_type consumer_tag : string) (st : consumers) : consumers :=
  let r := c_registry st in
  set_registry (Registry (set_tag (consumer_tags r) data_type consumer_tag)
                         (set_tag (connection_consumer_tags r) data_type consumer_tag)
                         (consumer_gauge r + 1)) st.

(** The removal of a confirmed consumer: [del consumer_tags[data_type]] and the
    gauge, when the tag is still the one that was cancelled. *)
Definition unregister (data_type consumer_tag : string) (st : consumers) : consumers :=
  if decide (tag st data_type = Some consumer_tag) then
    let r := c_registry st in
    set_registry (Registry (del_tag (consumer_tags r) data_type) (connection_consumer_tags r) (consumer_gauge r - 1)) st
  else st.

(** ** Closing *)

(** [close_rabbitmq_connection]: what each [close()] answers, and whether the
    closure is confirmed. *)
Definition close_rabbitmq_connection (channel_closes connection_closes : bool) (st : consumers) : bool * consumers :=
  let confirmed := negb (active_connection st) && negb (active_channel st)
                   && bool_decide (consumer_tags (c_registry st) = []) in
  let '(confirmed, st) :=
    if active_channel st && channel_closes then (true, set_handles (active_connection st) false st) else (confirmed, st) in
  let '(confirmed, st) :=
    if active_connection st && connection_closes then (true, set_handles false false st) else (confirmed, st) in
  if confirmed then
    let r := c_registry st in
    let st := set_registry (Registry [] [] (consumer_gauge r - Z.of_nat (length (consumer_tags r)))) st in
    let st := set_failed (active_connection st) st in
    (negb (consumer_cancellation_failed st), st)
  else (false, set_failed true st).

(** [check_all_consumers_idle] *)
Definition check_all_consumers_idle (st : consumers) : bool :=
  bool_decide (consumer_tags (c_registry st) = []) &&
  (length MUSICBRAINZ_DATA_TYPES =? size (completed_files (c_traffic st)))%nat.

(** ** Grace timers *)

(** A task ends: it leaves [consumer_cancel_tasks] if it is still the one there. *)
Definition end_task (id : nat) (st : consumers) : consumers :=
  let t := c_timers st in
  let registered :=
    match live_tasks t !! id with
    | Some task =>
        if decide (consumer_cancel_tasks t !! ct_data_type task = Some id)
        then delete (ct_data_type task) (consumer_cancel_tasks t) else consumer_cancel_tasks t
    | None => consumer_cancel_tasks t
    end in
  set_timers (Timers registered (delete id (live_tasks t)) (next_task t)) st.

(** [task.cancel()]: the task gets [CancelledError] where it waits; one that had
    asked the broker leaves the cancellation unconfirmed. *)
Definition cancel_task_ (id : nat) (st : consumers) : consumers :=
  match live_tasks (c_timers st) !! id with
  | Some task =>
      let st := match ct_phase task with Cancelling => set_failed true st | Sleeping => st end in
      end_task id st
  | None => st
  end.

(** [consumer_cancel_tasks.pop(data_type, None)], and [cancel()] if there was one. *)
Definition pop_cancel (data_type : string) (st : consumers) : consumers :=
  match consumer_cancel_tasks (c_timers st) !! data_type with
  | Some id =>
      let t := c_timers st in
      cancel_task_ id (set_timers (Timers (delete data_type (consumer_cancel_tasks t)) (live_tasks t) (next_task t)) st)
  | None => st
  end.

(** [schedule_consumer_cancellation] *)
Definition schedule_consumer_cancellation (data_type : string) (st : consumers) : consumers :=
  let consumer_tag := tag st data_type in
  let st := match consumer_cancel_tasks (c_timers st) !! data_type with Some id => cancel_task_ id st | None => st end in
  let t := c_timers st in
  set_timers (Timers (<[data_type := next_task t]> (consumer_cancel_tasks t))
                     (<[next_task t := CancelTask data_type consumer_tag Sleeping]> (live_tasks t))
                     (S (next_task t))) st.

(** [cancel_after_delay] from the end of its sleep to the broker call. *)
Definition task_wakes (id : nat) (st : consumers) : consumers :=
  match live_tasks (c_timers st) !! id with
  | Some (CancelTask data_type (Some consumer_tag) Sleeping) =>
      if decide (tag st data_type = Some consumer_tag) then
        let t := c_timers st in
        set_timers (Timers (consumer_cancel_tasks t)
                           (<[id := CancelTask data_type (Some consumer_tag) Cancelling]> (live_tasks t)) (next_task t)) st
      else end_task id st
  | Some (CancelTask _ None Sleeping) => end_task id st
  | _ => st
  end.

(** [cancel_after_delay] from the broker's answer to its end. *)
Definition task_answered (id : nat) (cancel_ok channel_closes connection_closes : bool) (st : consumers) : consumers :=
  match live_tasks (c_timers st) !! id with
  | Some (CancelTask data_type (Some consumer_tag) Cancelling) =>
      if cancel_ok then
        let st := unregister data_type consumer_tag st in
        let st :=
          if check_all_consumers_idle st
          then (close_rabbitmq_connection channel_closes connection_closes st).2 else st in
        end_task id st
      else end_task id (set_failed true st)
  | _ => st
  end.

(** ** Shutdown *)

(** The loop of [cancel_all_consumers] over [list(consumer_tags.items())]: a
    missing queue is skipped, a failed call ends the loop. *)
Fixpoint cancel_each (cancel_ok : string -> bool) (items : tags) (st : consumers) : consumers :=
  match items with
  | [] => st
  | (data_type, consumer_tag) :: items' =>
      if decide (data_type ∈ queues st) then
        if cancel_ok data_type then cancel_each cancel_ok items' (unregister data_type consumer_tag st)
        else set_failed true st
      else cancel_each cancel_ok items' (set_failed true st)
  end.

(** [cancel_all_consumers] *)
Definition cancel_all_consumers (cancel_ok : string -> bool) (st : consumers) : consumers :=
  let st := foldl (fun st id => cancel_task_ id st) st (map_to_list (consumer_cancel_tasks (c_timers st))).*2 in
  cancel_each cancel_ok (consumer_tags (c_registry st)) st.

(** ** The monitor *)

Section monitor.
(** [STARTUP_IDLE_TIMEOUT] and [QUEUE_CHECK_INTERVAL], in microseconds. *)
Context (STARTUP_IDLE_TIMEOUT QUEUE_CHECK_INTERVAL : Z).

Definition traffic_seen (st : consumers) : bool :=
  existsb (fun kc => (0 <? kc.2)%Z) (map_to_list (message_counts (c_traffic st))).

Definition grace_expired (now : Z) (st : consumers) : bool :=
  (0 <? consumer_watch_started_at st)%Z && (STARTUP_IDLE_TIMEOUT <=? (now - consumer_watch_started_at st))%Z.

Definition all_siblings_complete (st : consumers) : bool :=
  (length MUSICBRAINZ_DATA_TYPES - 1 <=? size (completed_files (c_traffic st)))%nat.

(** Whether a stream that is not complete is an alarm. *)
Definition alarming (now : Z) (st : consumers) (data_type : string) : bool :=
  bool_decide (tag st data_type = None) ||
  grace_expired now st && all_siblings_complete st &&
    (default 0 (last_message_time (c_traffic st) !! data_type) <=? 0)%Z.

(** [_consumer_alarm_types] *)
Definition consumer_alarm_types (now : Z) (st : consumers) : list string :=
  if negb (traffic_seen st) && negb (grace_expired now st) then []
  else filter (fun t => (t ∉ completed_files (c_traffic st)) /\ alarming now st t = true) MUSICBRAINZ_DATA_TYPES.

(** [check_consumers_unexpectedly_dead] *)
Definition check_consumers_unexpectedly_dead (now : Z) (st : consumers) : bool :=
  bool_decide (consumer_alarm_types now st <> []).

Inductive health_status : Type := Starting | Unhealthy | Healthy.

(** The [status] of [get_health_data]; [pool] is whether the connection pool exists. *)
Definition health (pool : bool) (now : Z) (st : consumers) : health_status :=
  if pool then
    if bool_decide (consumer_alarm_types now st <> []) || consumer_cancellation_failed st then Unhealthy else Healthy
  else if bool_decide (consumer_tags (c_registry st) = []) &&
          forallb (fun kc => (kc.2 =? 0)%Z) (map_to_list (message_counts (c_traffic st)))
       then Starting else Unhealthy.

(** The [current_task] of [get_health_data]. *)
Definition current_task (pool : bool) (now : Z) (st : consumers) : option string :=
  let recent := filter (fun t => let last := default 0 (last_message_time (c_traffic st) !! t) in
                          0 < last /\ now - last < 10000000)%Z MUSICBRAINZ_DATA_TYPES in
  let active := match recent with
                | t :: _ => Some ("Processing " +:+ t)
                | [] => if bool_decide (consumer_tags (c_registry st) <> []) then Some "Idle - waiting for messages" else None
                end in
  let active := if bool_decide (consumer_alarm_types now st <> []) then Some "STUCK - consumers died, awaiting recovery"
                else active in
  if pool then active
  else match health pool now st with Starting => Some "Initializing PostgreSQL connection" | _ => active end.

(** ** Recovery *)

(** What the broker answers a recovery, call by call: the closing of the old
    handles, the new connection, the passive declarations with their message
    counts, QoS, the declarations of one type's exchanges and queues, the
    consumer registrations, and the closing of the temporary handles. *)
Record broker : Type := Broker {
  br_close : bool * bool;
  br_connects : bool;
  br_message_count : string -> option Z;
  br_qos : bool;
  br_declares : string -> bool;
  br_consume : string -> option string;
  br_temp_close : bool * bool;
  br_error_close : bool * bool;
}.

(** The types with a backlog, or [None] when a passive declaration raises. *)
Fixpoint backlog (count : string -> option Z) (types : list string) : option (list string) :=
  match types with
  | [] => Some []
  | t :: types' =>
      n ← count t; l ← backlog count types';
      Some (if (0 <? n)%Z then t :: l else l)
  end.

(** [for data_type in ...: ... queues[data_type] = queue]; [false] when a call raises. *)
Fixpoint declare_queues (declares : string -> bool) (types : list string) (st : consumers) : bool * consumers :=
  match types with
  | [] => (true, st)
  | t :: types' =>
      if declares t then declare_queues declares types' (set_queues ({[t]} ∪ queues st) st)
      else (false, st)
  end.

(** The registration of one type that has a queue and no consumer. *)
Definition start_consumer (now : Z) (pending : list string) (t consumer_tag : string) (st : consumers) : consumers :=
  let st := register_consumer t consumer_tag st in
  let st := if decide (t ∈ pending) then uncomplete t st else st in
  let tr := c_traffic st in
  set_traffic (Traffic (message_counts tr) (<[t := now]> (last_message_time tr)) (completed_files tr)) st.

Fixpoint start_consumers (now : Z) (pending : list string) (consume : string -> option string) (types : list string)
    (st : consumers) : bool * consumers :=
  match types with
  | [] => (true, st)
  | t :: types' =>
      if decide (t ∈ queues st /\ tag st t = None) then
        match consume t with
        | Some consumer_tag => start_consumers now pending consume types' (start_consumer now pending t consumer_tag st)
        | None => (false, st)
        end
      else start_consumers now pending consume types' st
  end.

(** The [except] clause: the temporary handles become the active ones, and are
    closed. *)
Definition recovery_error (br : broker) (st : consumers) : consumers :=
  let '(closed, st) := close_rabbitmq_connection (br_error_close br).1 (br_error_close br).2 (set_handles true true st) in
  if closed then set_queues ∅ st else st.

(** The [try] block after the temporary channel is open; [false] when it raised. *)
Definition restart_consumers (now : Z) (br : broker) (st : consumers) : bool * consumers :=
  match backlog (br_message_count br) MUSICBRAINZ_DATA_TYPES with
  | None => (false, st)
  | Some [] => ((br_temp_close br).1 && (br_temp_close br).2, st)
  | Some pending =>
      let st := set_handles true true st in
      let r := c_registry st in
      let st := set_registry (Registry (consumer_tags r) [] (consumer_gauge r)) st in
      let st := set_watch now st in
      if br_qos br then
        match declare_queues (br_declares br) MUSICBRAINZ_DATA_TYPES (set_queues ∅ st) with
        | (true, st) =>
            match start_consumers now pending (br_consume br) MUSICBRAINZ_DATA_TYPES st with
            | (true, st) => (true, set_idle_mode false st)
            | (false, st) => (false, st)
            end
        | (false, st) => (false, st)
        end
      else (false, st)
  end.

(** [_recover_consumers] *)
Definition recover_consumers (now : Z) (br : broker) (st : consumers) : consumers :=
  let '(proceed, st) :=
    if active_connection st || active_channel st || consumer_cancellation_failed st
    then close_rabbitmq_connection (br_close br).1 (br_close br).2 st else (true, st) in
  if proceed then
    if br_connects br then
      match restart_consumers now br st with
      | (true, st) => st
      | (false, st) => recovery_error br st
      end
    else st
  else st.

(** One round of [periodic_queue_checker] after its sleep, with the time of the
    last full check. *)
Definition periodic_check (now : Z) (br : broker) (last_full_check : Z) (st : consumers) : Z * consumers :=
  if consumer_cancellation_failed st then (last_full_check, recover_consumers now br st)
  else if check_consumers_unexpectedly_dead now st then (last_full_check, recover_consumers now br st)
  else if (now - last_full_check <? QUEUE_CHECK_INTERVAL)%Z then (last_full_check, st)
  else if active_connection st || bool_decide (consumer_tags (c_registry st) <> []) then (last_full_check, st)
  else (now, recover_consumers now br st).
End monitor.

(** ** Startup *)

(** The loop of [main] that registers every type. *)
Fixpoint register_all (consume : string -> option string) (types : list string) (st : consumers) : bool * consumers :=
  match types with
  | [] => (true, st)
  | t :: types' =>
      match consume t with
      | Some consumer_tag => register_all consume types' (register_consumer t consumer_tag st)
      | None => (false, st)
      end
  end.

(** [main] from the open channel to the last registration. *)
Definition startup_consumers (now : Z) (br : broker) (st : consumers) : bool * consumers :=
  let st := set_handles true true st in
  if br_qos br then
    match declare_queues (br_declares br) MUSICBRAINZ_DATA_TYPES (set_queues ∅ st) with
    | (true, st) =>
        let r := c_registry st in
        let st := set_registry (Registry (consumer_tags r) [] (consumer_gauge r)) st in
        register_all (br_consume br) MUSICBRAINZ_DATA_TYPES (set_watch now st)
    | (false, st) => (false, st)
    end
  else (false, st).

(** ** Events *)

(** Everything that changes the lifecycle state, as the event loop interleaves
    it. *)
Inductive lifecycle_event : Type :=
| RecordArrives (data_type : string)        (** a record: re-arms the stream *)
| FileComplete (data_type : string)
| ScheduleCancel (data_type : string)
| TaskWakes (id : nat)
| TaskAnswered (id : nat) (cancel_ok channel_closes connection_closes : bool)
| CheckQueues (now : Z) (br : broker) (last_full_check : Z)
| ShutdownCancel (cancel_ok : string -> bool)
| Close (channel_closes connection_closes : bool).

Definition lifecycle_step (STARTUP_IDLE_TIMEOUT QUEUE_CHECK_INTERVAL : Z) (e : lifecycle_event) (st : consumers) : consumers :=
  match e with
  | RecordArrives t => pop_cancel t (uncomplete t st)
  | FileComplete t => complete t st
  | ScheduleCancel t => schedule_consumer_cancellation t st
  | TaskWakes id => task_wakes id st
  | TaskAnswered id ok a b => task_answered id ok a b st
  | CheckQueues now br last => (periodic_check STARTUP_IDLE_TIMEOUT QUEUE_CHECK_INTERVAL now br last st).2
  | ShutdownCancel ok => cancel_all_consumers ok st
  | Close a b => (close_rabbitmq_connection a b st).2
  end.
