(* ===== verification/ConsumersFacts.v ===== *)
(** * Consumer lifecycle: invariants

    What every interleaving of the lifecycle's events keeps true, and what the
    monitor's reports mean. *)

From S2P Require Import Prelude PyValue QueueNames Consumers.
From stdpp Require Import base gmap strings list option sorting.
From Stdlib Require Import ZArith Lia.

(** ** Tag dicts *)

Lemma tag_of_set d k v k' : tag_of (set_tag d k v) k' = if decide (k' = k) then Some v else tag_of d k'.
Proof.
  induction d as [|[k0 v0] d IH]; simpl; [by repeat case_decide; subst|].
  destruct (decide (k0 = k)) as [->|Hne]; simpl; repeat case_decide; subst; simplify_eq; try done;
    rewrite IH; by case_decide.
Qed.

Lemma tag_of_del d k k' : tag_of (del_tag d k) k' = if decide (k' = k) then None else tag_of d k'.
Proof.
  unfold del_tag. induction d as [|[k0 v0] d IH]; simpl; [by case_decide|].
  rewrite filter_cons. simpl. repeat case_decide; simpl; subst; repeat case_decide; subst; try done; tauto.
Qed.

Lemma tag_of_None d k : tag_of d k = None <-> k ∉ d.*1.
Proof.
  induction d as [|[k0 v0] d IH]; csimpl; [set_solver|]. rewrite not_elem_of_cons. case_decide; subst; [naive_solver|].
  rewrite IH. naive_solver.
Qed.

Lemma set_tag_fresh d k v : tag_of d k = None -> set_tag d k v = d ++ [(k, v)].
Proof.
  induction d as [|[k0 v0] d IH]; simpl; [done|]. case_decide; [done|]. intros Hd. by rewrite IH.
Qed.

Lemma del_tag_length d k : NoDup d.*1 -> is_Some (tag_of d k) -> Z.of_nat (length (del_tag d k)) = (Z.of_nat (length d) - 1)%Z.
Proof.
  unfold del_tag. induction d as [|[k0 v0] d IH]; csimpl; [by intros _ [? ?]|].
  rewrite NoDup_cons. intros [Hnot Hnd] Hk. rewrite filter_cons. simpl in *. destruct (decide (k0 = k)) as [->|Hne].
  - rewrite decide_False by tauto.
    assert (filter (fun kv : string * string => kv.1 <> k) d = d) as ->; [|simpl; lia].
    clear IH Hnd Hk. induction d as [|[k1 v1] d IH]; [done|]. csimpl in *. rewrite not_elem_of_cons in Hnot.
    rewrite filter_cons, decide_True by (simpl; naive_solver). f_equal. apply IH. tauto.
  - rewrite decide_True by done. simpl. rewrite ?decide_False in Hk by done. specialize (IH Hnd Hk). lia.
Qed.

Lemma del_tag_NoDup d k : NoDup d.*1 -> NoDup (del_tag d k).*1.
Proof.
  unfold del_tag. induction d as [|[k0 v0] d IH]; [done|]. rewrite filter_cons. csimpl. rewrite NoDup_cons.
  intros [Hnot Hnd]. case_decide; csimpl; [|auto]. rewrite NoDup_cons. split; [|auto].
  intros Hin. apply Hnot. apply list_elem_of_fmap in Hin as (x & Hx & Hin). apply list_elem_of_filter in Hin as [_ Hin].
  apply list_elem_of_fmap. eauto.
Qed.

(** ** The invariant *)

(** The registry: one tag per type, the gauge is their number, every active tag
    is among the connection's registrations, and a tag without a broker handle
    is known to be uncertain. *)
Record registry_ok (st : consumers) : Prop := RegistryOk {
  tags_distinct : NoDup (consumer_tags (c_registry st)).*1;
  gauge_exact : consumer_gauge (c_registry st) = Z.of_nat (length (consumer_tags (c_registry st)));
  tags_registered : forall k v, tag st k = Some v -> tag_of (connection_consumer_tags (c_registry st)) k = Some v;
  tags_held : consumer_tags (c_registry st) <> [] ->
    active_connection st = true \/ active_channel st = true \/ consumer_cancellation_failed st = true;
}.

(** The timers: the registered tasks are exactly the live ones, each under its
    own type; identifiers are fresh. *)
Record timers_ok (st : consumers) : Prop := TimersOk {
  live_registered : forall id task, live_tasks (c_timers st) !! id = Some task ->
    consumer_cancel_tasks (c_timers st) !! ct_data_type task = Some id;
  registered_live : forall t id, consumer_cancel_tasks (c_timers st) !! t = Some id ->
    exists task, live_tasks (c_timers st) !! id = Some task /\ ct_data_type task = t;
  ids_fresh : forall id task, live_tasks (c_timers st) !! id = Some task -> id < next_task (c_timers st);
}.

Definition lifecycle_ok (st : consumers) : Prop := registry_ok st /\ timers_ok st.

(** Changes outside the registry and the handles keep [registry_ok]. *)
Lemma registry_ok_ext st st' :
  c_registry st' = c_registry st -> active_connection st' = active_connection st ->
  active_channel st' = active_channel st ->
  (consumer_cancellation_failed st = true -> consumer_cancellation_failed st' = true) ->
  registry_ok st -> registry_ok st'.
Proof.
  intros Hr Hc Hch Hf [H1 H2 H3 H4]. unfold tag in *. split; unfold tag; rewrite ?Hr, ?Hc, ?Hch; auto.
  intros Hne. destruct (H4 Hne) as [|[|]]; auto.
Qed.

Lemma timers_ok_ext st st' : c_timers st' = c_timers st -> timers_ok st -> timers_ok st'.
Proof. intros Ht [H1 H2 H3]. split; rewrite Ht; auto. Qed.

(** ** Timers *)

Lemma end_task_ok id st : timers_ok st -> timers_ok (end_task id st).
Proof.
  intros [H1 H2 H3]. unfold end_task. destruct (live_tasks (c_timers st) !! id) as [task|] eqn:E.
  - rewrite decide_True by auto. split; simpl.
    + intros id' task' Hl. apply lookup_delete_Some in Hl as [Hne Hl]. rewrite lookup_delete_ne; [auto|].
      intros Heq. apply H1 in Hl, E. rewrite Heq in E. congruence.
    + intros t id' Hr. apply lookup_delete_Some in Hr as [Hne Hr]. destruct (H2 _ _ Hr) as (task' & Hl & <-).
      exists task'. split; [|done]. rewrite lookup_delete_ne; [done|]. intros ->. congruence.
    + intros id' task' Hl. apply lookup_delete_Some in Hl as [_ Hl]. eauto.
  - split; simpl.
    + intros id' task' Hl. apply lookup_delete_Some in Hl as [_ Hl]. auto.
    + intros t id' Hr. destruct (H2 _ _ Hr) as (task' & Hl & <-). exists task'. split; [|done].
      rewrite lookup_delete_ne; [done|]. intros ->. congruence.
    + intros id' task' Hl. apply lookup_delete_Some in Hl as [_ Hl]. eauto.
Qed.

Lemma end_task_registry id st : registry_ok st -> registry_ok (end_task id st).
Proof. by apply registry_ok_ext. Qed.

Lemma cancel_task_ok id st : lifecycle_ok st -> lifecycle_ok (cancel_task_ id st).
Proof.
  intros [Hr Ht]. unfold cancel_task_. destruct (live_tasks (c_timers st) !! id) as [task|]; [|done].
  split; [apply end_task_registry|apply end_task_ok].
  - destruct (ct_phase task); [done|]. by eapply registry_ok_ext; [..|exact Hr].
  - destruct (ct_phase task); [done|]. by eapply timers_ok_ext; [|exact Ht].
Qed.

Lemma pop_cancel_eq t st :
  timers_ok st ->
  pop_cancel t st = match consumer_cancel_tasks (c_timers st) !! t with Some id => cancel_task_ id st | None => st end.
Proof.
  intros [H1 H2 H3]. unfold pop_cancel. destruct (consumer_cancel_tasks (c_timers st) !! t) as [id|] eqn:E; [|done].
  destruct (H2 _ _ E) as (task & Hl & <-). unfold cancel_task_. simpl. rewrite Hl.
  unfold end_task. destruct (ct_phase task); simpl; rewrite Hl, lookup_delete_eq, decide_False, decide_True by done; done.
Qed.

Lemma pop_cancel_ok t st : lifecycle_ok st -> lifecycle_ok (pop_cancel t st).
Proof.
  intros Hok. rewrite pop_cancel_eq by apply Hok. case_match; [by apply cancel_task_ok|done].
Qed.

Lemma cancel_task_frees id st task :
  timers_ok st -> live_tasks (c_timers st) !! id = Some task ->
  c_timers (cancel_task_ id st) =
    Timers (delete (ct_data_type task) (consumer_cancel_tasks (c_timers st))) (delete id (live_tasks (c_timers st)))
      (next_task (c_timers st)).
Proof.
  intros [H1 H2 H3] Hl. unfold cancel_task_. rewrite Hl. unfold end_task.
  destruct (ct_phase task); simpl; rewrite Hl, decide_True by auto; done.
Qed.

Lemma schedule_ok t st : lifecycle_ok st -> lifecycle_ok (schedule_consumer_cancellation t st).
Proof.
  intros Hok. unfold schedule_consumer_cancellation. set (st1 := match _ with Some id => _ | None => _ end).
  assert (lifecycle_ok st1 /\ consumer_cancel_tasks (c_timers st1) !! t = None) as [[Hr [H1 H2 H3]] Hnone].
  { unfold st1. destruct (consumer_cancel_tasks (c_timers st) !! t) as [id|] eqn:E; [|done].
    split; [by apply cancel_task_ok|]. destruct (registered_live _ (proj2 Hok) _ _ E) as (task & Hl & <-).
    rewrite (cancel_task_frees _ _ task) by (try done; apply Hok). simpl. apply lookup_delete_eq. }
  clearbody st1. split; [by eapply registry_ok_ext; [..|exact Hr]|]. split; simpl.
  - intros id task Hl. apply lookup_insert_Some in Hl as [[<- <-]|[Hne Hl]]; [apply lookup_insert_eq|].
    rewrite lookup_insert_ne; [auto|]. intros ->. apply H1 in Hl. congruence.
  - intros t' id Hreg. apply lookup_insert_Some in Hreg as [[<- <-]|[Hne Hreg]].
    + eexists. split; [apply lookup_insert_eq|done].
    + destruct (H2 _ _ Hreg) as (task & Hl & <-). exists task. split; [|done]. rewrite lookup_insert_ne; [done|].
      apply H3 in Hl. lia.
  - intros id task Hl. apply lookup_insert_Some in Hl as [[<- _]|[_ Hl]]; [lia|]. apply H3 in Hl. lia.
Qed.

(** ** The registry *)

Lemma unregister_ok t v st : registry_ok st -> registry_ok (unregister t v st).
Proof.
  intros Hok. unfold unregister. case_decide as Ht; [|done]. destruct Hok as [H1 H2 H3 H4]. unfold tag in *.
  split; unfold tag; simpl.
  - by apply del_tag_NoDup.
  - rewrite del_tag_length by eauto. lia.
  - intros k v'. rewrite tag_of_del. case_decide; [done|]. auto.
  - intros Hne. apply H4. intros Hnil. rewrite Hnil in Hne. by apply Hne.
Qed.

Lemma close_spec a b st :
  close_rabbitmq_connection a b st =
    let closes_channel := active_channel st && a in
    let closes_connection := active_connection st && b in
    let connection := active_connection st && negb closes_connection in
    let channel := active_channel st && negb closes_channel && negb closes_connection in
    if closes_channel || closes_connection ||
       negb (active_connection st) && negb (active_channel st) && bool_decide (consumer_tags (c_registry st) = [])
    then (negb connection,
          Consumers (Registry [] [] (consumer_gauge (c_registry st) - Z.of_nat (length (consumer_tags (c_registry st)))))
            (c_timers st) (c_traffic st) (queues st) connection connection channel (consumer_watch_started_at st) (idle_mode st))
    else (false, set_failed true st).
Proof.
  unfold close_rabbitmq_connection, set_handles, set_failed, set_registry. destruct st as [r t tr q f conn ch w i]; simpl.
  destruct ch, a, conn, b; simpl; try done; by destruct (bool_decide _).
Qed.

Lemma close_ok a b st : lifecycle_ok st -> lifecycle_ok (close_rabbitmq_connection a b st).2.
Proof.
  intros [[H1 H2 H3 H4] Ht]. rewrite close_spec. cbv zeta. case_match; simpl.
  - split; [|by eapply timers_ok_ext; [|exact Ht]]. split; simpl; [constructor|lia|done|done].
  - split; [|by eapply timers_ok_ext; [|exact Ht]]. split; simpl; auto.
Qed.

Lemma register_ok t v st :
  lifecycle_ok st -> tag st t = None -> active_connection st = true \/ active_channel st = true ->
  lifecycle_ok (register_consumer t v st).
Proof.
  intros [[H1 H2 H3 H4] Ht] Hfree Hheld. split; [|by eapply timers_ok_ext; [|exact Ht]]. unfold tag in *.
  split; unfold tag; simpl.
  - rewrite set_tag_fresh, fmap_app, NoDup_app by done. csimpl. split_and!; [done| |by repeat constructor; set_solver].
    intros k Hk ->%list_elem_of_singleton. by apply tag_of_None in Hfree.
  - rewrite set_tag_fresh, length_app by done. simpl. lia.
  - intros k v'. rewrite !tag_of_set. case_decide; auto.
  - intros _. tauto.
Qed.

Lemma declare_queues_spec declares types st ok st' :
  declare_queues declares types st = (ok, st') ->
  exists q, st' = set_queues q st /\ (ok = true -> q = list_to_set types ∪ queues st).
Proof.
  revert st. induction types as [|t types IH]; intros st; simpl.
  { intros [= <- <-]. exists (queues st). split; [by destruct st|]. intros _. set_solver. }
  destruct (declares t).
  - intros Hd. apply IH in Hd as (q & -> & Hq). exists q. split; [done|]. intros Hok. rewrite Hq by done. simpl. set_solver.
  - intros [= <- <-]. exists (queues st). split; [by destruct st|done].
Qed.

Lemma start_consumer_ok now pending t v st :
  lifecycle_ok st -> tag st t = None -> active_connection st = true \/ active_channel st = true ->
  lifecycle_ok (start_consumer now pending t v st).
Proof.
  intros Hok Hfree Hheld. pose proof (register_ok t v st Hok Hfree Hheld) as [Hr Ht].
  unfold start_consumer. split; [eapply registry_ok_ext; [..|exact Hr]|eapply timers_ok_ext; [|exact Ht]];
    by case_decide.
Qed.

(** What [start_consumers] does to the rest of the state. *)
Lemma start_consumer_frame now pending t v st :
  active_connection (start_consumer now pending t v st) = active_connection st /\
  active_channel (start_consumer now pending t v st) = active_channel st /\
  queues (start_consumer now pending t v st) = queues st /\
  forall k, tag (start_consumer now pending t v st) k = if decide (k = t) then Some v else tag st k.
Proof. unfold start_consumer, tag. case_decide; simpl; split_and!; try done; intros k; apply tag_of_set. Qed.

Lemma start_consumers_spec now pending consume types st ok st' :
  lifecycle_ok st -> active_connection st = true \/ active_channel st = true ->
  start_consumers now pending consume types st = (ok, st') ->
  lifecycle_ok st' /\ (active_connection st' = true \/ active_channel st' = true) /\ queues st' = queues st /\
  (forall k, is_Some (tag st k) -> is_Some (tag st' k)) /\
  (ok = true -> forall k, k ∈ types -> k ∈ queues st -> is_Some (tag st' k)).
Proof.
  revert st. induction types as [|t types IH]; intros st Hok Hheld; simpl.
  { intros [= <- <-]. split_and!; try done. intros _ k Hk. by apply not_elem_of_nil in Hk. }
  destruct (decide (t ∈ queues st /\ tag st t = None)) as [[Hq Hfree]|Hno].
  - destruct (consume t) as [v|].
    + destruct (start_consumer_frame now pending t v st) as (F1 & F2 & F3 & F4).
      intros Hs. apply IH in Hs as (I1 & I2 & I3 & I4 & I5); [| |by rewrite F1, F2].
      2: { by apply start_consumer_ok. }
      split_and!; [done|done|congruence| |].
      * intros k Hk. apply I4. rewrite F4. by case_decide.
      * intros -> k [->|Hk]%elem_of_cons Hkq; [|apply I5; [done|done|by rewrite F3]].
        apply I4. rewrite F4, decide_True; done.
    + intros [= <- <-]. by split_and!.
  - intros Hs. apply IH in Hs as (I1 & I2 & I3 & I4 & I5); [|done|done].
    split_and!; try done. intros -> k [->|Hk]%elem_of_cons Hkq; [|by apply I5].
    apply I4. destruct (tag st t) eqn:E; [done|]. tauto.
Qed.

Lemma recovery_error_ok br st :
  registry_ok (set_handles true true st) -> timers_ok st -> lifecycle_ok (recovery_error br st).
Proof.
  intros Hr Ht. unfold recovery_error.
  pose proof (close_ok (br_error_close br).1 (br_error_close br).2 (set_handles true true st)) as Hc.
  destruct (close_rabbitmq_connection _ _ _) as [closed st1]; simpl in Hc.
  destruct Hc as [Hr1 Ht1]; [split; [done|by eapply timers_ok_ext; [|exact Ht]]|].
  destruct closed; [|done]. split; [by eapply registry_ok_ext; [..|exact Hr1]|by eapply timers_ok_ext; [|exact Ht1]].
Qed.

Lemma registry_ok_handles st : registry_ok st -> registry_ok (set_handles true true st).
Proof. intros [H1 H2 H3 H4]. split; simpl; auto. Qed.

Lemma restart_consumers_ok now br st ok st' :
  lifecycle_ok st -> consumer_tags (c_registry st) = [] ->
  restart_consumers now br st = (ok, st') ->
  lifecycle_ok st' /\
  (ok = true -> forall pending, backlog (br_message_count br) MUSICBRAINZ_DATA_TYPES = Some pending -> pending <> [] ->
     forall t, t ∈ MUSICBRAINZ_DATA_TYPES -> is_Some (tag st' t)).
Proof.
  intros [Hr Ht] Hnone. unfold restart_consumers.
  destruct (backlog _ _) as [[|p pending]|]; [intros [= <- <-]; split; [done|naive_solver]| |intros [= <- <-]; done].
  set (st1 := set_watch now _). assert (lifecycle_ok st1) as Hok1.
  { split; [|by eapply timers_ok_ext; [|exact Ht]]. destruct Hr as [H1 H2 H3 H4].
    split; unfold st1; simpl; auto. unfold tag. simpl. rewrite Hnone. done. }
  destruct (br_qos br); [|intros [= <- <-]; done].
  destruct (declare_queues _ _ _) as [[] st2] eqn:Ed; apply declare_queues_spec in Ed as (q & -> & Hq).
  2: { intros [= <- <-]. split; [|done]. destruct Hok1 as [Hr1 Ht1].
       split; [by eapply registry_ok_ext; [..|exact Hr1]|by eapply timers_ok_ext; [|exact Ht1]]. }
  destruct (start_consumers _ _ _ _ _) as [[] st3] eqn:Es; apply start_consumers_spec in Es as (I1 & I2 & I3 & I4 & I5);
    try (by left); try (destruct Hok1 as [Hr1 Ht1];
       split; [by eapply registry_ok_ext; [..|exact Hr1]|by eapply timers_ok_ext; [|exact Ht1]]).
  - intros [= <- <-]. destruct I1 as [Hr3 Ht3].
    split; [split; [by eapply registry_ok_ext; [..|exact Hr3]|by eapply timers_ok_ext; [|exact Ht3]]|].
    intros _ pending' _ _ t Hin. apply (I5 eq_refl); [done|]. simpl. rewrite Hq by done. set_solver.
  - intros [= <- <-]. done.
Qed.

(** Without a broker handle or a known uncertainty there is no tag. *)
Lemma unheld_no_tags st :
  registry_ok st -> active_connection st || active_channel st || consumer_cancellation_failed st = false ->
  consumer_tags (c_registry st) = [].
Proof.
  intros [_ _ _ Hheld] Hno. rewrite !orb_false_iff in Hno. destruct (consumer_tags (c_registry st)); [done|].
  destruct (Hheld ltac:(done)) as [|[|]]; intuition congruence.
Qed.

Lemma close_confirmed a b st st' :
  close_rabbitmq_connection a b st = (true, st') ->
  consumer_tags (c_registry st') = [] /\ active_connection st' = false /\ consumer_cancellation_failed st' = false.
Proof.
  rewrite close_spec. cbv zeta. case_match; [|done]. intros [= Hc <-]. simpl.
  apply negb_true_iff in Hc. by rewrite Hc.
Qed.

Lemma recover_consumers_ok now br st : lifecycle_ok st -> lifecycle_ok (recover_consumers now br st).
Proof.
  intros Hok. unfold recover_consumers.
  assert (exists go st1, (if active_connection st || active_channel st || consumer_cancellation_failed st
    then close_rabbitmq_connection (br_close br).1 (br_close br).2 st else (true, st)) = (go, st1) /\ lifecycle_ok st1 /\
    (go = true -> consumer_tags (c_registry st1) = [])) as (go & st1 & -> & Hok1 & Hno).
  { destruct (_ || _) eqn:E; [|by eexists _, _; split; [done|]; split; [done|]; intros _; apply unheld_no_tags; [apply Hok|]].
    destruct (close_rabbitmq_connection _ _ st) as [go st1] eqn:Ec. exists go, st1. split_and!; [done| |].
    - pose proof (close_ok (br_close br).1 (br_close br).2 st Hok) as Hc. by rewrite Ec in Hc.
    - intros ->. by apply close_confirmed in Ec as [? _]. }
  destruct go; [|done]. destruct (br_connects br); [|done].
  destruct (restart_consumers now br st1) as [ok st2] eqn:Er.
  destruct (restart_consumers_ok _ _ _ _ _ Hok1 (Hno eq_refl) Er) as [[Hr2 Ht2] _].
  destruct ok; [done|]. apply recovery_error_ok; [by apply registry_ok_handles|done].
Qed.

Lemma cancel_each_ok ok items st : lifecycle_ok st -> lifecycle_ok (cancel_each ok items st).
Proof.
  assert (forall st, lifecycle_ok st -> lifecycle_ok (set_failed true st)) as Hf.
  { intros st' [Hr Ht]. split; [by eapply registry_ok_ext; [..|exact Hr]|by eapply timers_ok_ext; [|exact Ht]]. }
  revert st. induction items as [|[t v] items IH]; intros st Hok; simpl; [done|].
  case_decide; [|by apply IH, Hf]. destruct (ok t); [|by apply Hf]. apply IH. destruct Hok as [Hr Ht].
  split; [by apply unregister_ok|]. eapply timers_ok_ext; [|exact Ht]. unfold unregister. by case_decide.
Qed.

Lemma task_answered_ok id ok a b st : lifecycle_ok st -> lifecycle_ok (task_answered id ok a b st).
Proof.
  intros [Hr Ht]. unfold task_answered.
  destruct (live_tasks (c_timers st) !! id) as [[t [v|] []]|] eqn:E; try done.
  assert (forall st, lifecycle_ok st -> lifecycle_ok (end_task id st)) as He.
  { intros st' [Hr' Ht']. split; [by apply end_task_registry|by apply end_task_ok]. }
  destruct ok; apply He.
  - assert (lifecycle_ok (unregister t v st)) as Hu.
    { split; [by apply unregister_ok|]. eapply timers_ok_ext; [|exact Ht]. unfold unregister. by case_decide. }
    case_match; [by apply close_ok|done].
  - split; [by eapply registry_ok_ext; [..|exact Hr]|by eapply timers_ok_ext; [|exact Ht]].
Qed.

Lemma task_wakes_ok id st : lifecycle_ok st -> lifecycle_ok (task_wakes id st).
Proof.
  intros [Hr Ht]. unfold task_wakes.
  assert (lifecycle_ok (end_task id st)) as He by (split; [by apply end_task_registry|by apply end_task_ok]).
  destruct (live_tasks (c_timers st) !! id) as [[t [v|] []]|] eqn:E; try done.
  case_decide; [|done]. split; [by eapply registry_ok_ext; [..|exact Hr]|]. destruct Ht as [H1 H2 H3]. split; simpl.
  - intros id' task Hl. apply lookup_insert_Some in Hl as [[<- <-]|[_ Hl]]; [simpl; by apply (H1 _ _ E)|auto].
  - intros t' id' Hreg. destruct (H2 _ _ Hreg) as (task & Hl & <-). destruct (decide (id' = id)) as [->|Hne].
    + eexists. split; [apply lookup_insert_eq|]. simpl. by rewrite E in Hl; injection Hl as <-.
    + exists task. by rewrite lookup_insert_ne.
  - intros id' task Hl. apply lookup_insert_Some in Hl as [[<- _]|[_ Hl]]; eauto.
Qed.

Lemma lifecycle_step_ok sit qci e st : lifecycle_ok st -> lifecycle_ok (lifecycle_step sit qci e st).
Proof.
  intros Hok. destruct e as [t|t|t|id|id ok a b|now br last|ok|a b]; simpl.
  - apply pop_cancel_ok. destruct Hok as [Hr Ht]. split; [by eapply registry_ok_ext; [..|exact Hr]|by eapply timers_ok_ext; [|exact Ht]].
  - destruct Hok as [Hr Ht]. split; [by eapply registry_ok_ext; [..|exact Hr]|by eapply timers_ok_ext; [|exact Ht]].
  - by apply schedule_ok.
  - by apply task_wakes_ok.
  - by apply task_answered_ok.
  - unfold periodic_check. repeat case_match; simpl; auto using recover_consumers_ok.
  - unfold cancel_all_consumers. apply cancel_each_ok. revert Hok. generalize (map_to_list (consumer_cancel_tasks (c_timers st))).*2.
    intros l. revert st. induction l as [|id l IH]; intros st Hok; simpl; [done|]. by apply IH, cancel_task_ok.
  - by apply close_ok.
Qed.

(** ** What the tasks leave of the traffic *)

(** The counts stay, and completions only go. *)
Definition keeps_traffic (st st' : consumers) : Prop :=
  message_counts (c_traffic st') = message_counts (c_traffic st) /\
  completed_files (c_traffic st') ⊆ completed_files (c_traffic st).

#[export] Instance keeps_traffic_preorder : PreOrder keeps_traffic.
Proof. split; [by intros st|]. intros a b c [E1 S1] [E2 S2]. split; [congruence|set_solver]. Qed.

Lemma same_traffic st st' : c_traffic st' = c_traffic st -> keeps_traffic st st'.
Proof. unfold keeps_traffic. by intros ->. Qed.

Lemma cancel_task_traffic id st : c_traffic (cancel_task_ id st) = c_traffic st.
Proof. unfold cancel_task_. by repeat case_match. Qed.

Lemma pop_cancel_traffic t st : c_traffic (pop_cancel t st) = c_traffic st.
Proof. unfold pop_cancel. case_match; [|done]. by rewrite cancel_task_traffic. Qed.

Lemma close_traffic a b st : c_traffic (close_rabbitmq_connection a b st).2 = c_traffic st.
Proof. rewrite close_spec. cbv zeta. by case_match. Qed.

Lemma unregister_traffic t v st : c_traffic (unregister t v st) = c_traffic st.
Proof. unfold unregister. by case_match. Qed.

Lemma task_answered_traffic id ok a b st : c_traffic (task_answered id ok a b st) = c_traffic st.
Proof.
  unfold task_answered. repeat (case_match; try done); simpl; by rewrite ?close_traffic, ?unregister_traffic.
Qed.

Lemma task_wakes_traffic id st : c_traffic (task_wakes id st) = c_traffic st.
Proof. unfold task_wakes. by repeat case_match. Qed.

Lemma schedule_traffic t st : c_traffic (schedule_consumer_cancellation t st) = c_traffic st.
Proof. unfold schedule_consumer_cancellation. simpl. case_match; [|done]. apply cancel_task_traffic. Qed.

Lemma cancel_all_traffic ok st : c_traffic (cancel_all_consumers ok st) = c_traffic st.
Proof.
  unfold cancel_all_consumers. set (st1 := foldl _ _ _). assert (c_traffic st1 = c_traffic st) as <-.
  { unfold st1. generalize (map_to_list (consumer_cancel_tasks (c_timers st))).*2. intros ids. clear st1. revert st.
    induction ids as [|id ids IH]; intros st; [done|]. simpl. by rewrite IH, cancel_task_traffic. }
  generalize (consumer_tags (c_registry st1)). intros items. generalize st1. clear.
  induction items as [|[t v] items IH]; intros st; [done|]. simpl. case_decide; [|by rewrite IH].
  destruct (ok t); [|done]. by rewrite IH, unregister_traffic.
Qed.

Lemma start_consumers_traffic now pending consume types st :
  keeps_traffic st (start_consumers now pending consume types st).2.
Proof.
  revert st. induction types as [|t types IH]; intros st; simpl; [done|].
  case_decide; [|apply IH]. destruct (consume t) as [v|]; [|done]. etrans; [|apply IH].
  unfold start_consumer, keeps_traffic. case_decide; simpl; set_solver.
Qed.

Lemma restart_traffic now br st : keeps_traffic st (restart_consumers now br st).2.
Proof.
  unfold restart_consumers. destruct (backlog _ _) as [[|p pending]|]; [done| |done]. destruct (br_qos br); [|done].
  destruct (declare_queues _ _ _) as [ok st2] eqn:Ed. apply declare_queues_spec in Ed as (q & -> & _). destruct ok; [|done].
  set (st2 := set_queues q _). pose proof (start_consumers_traffic now (p :: pending) (br_consume br) MUSICBRAINZ_DATA_TYPES st2) as Hs.
  destruct (start_consumers _ _ _ _ st2) as [[] st3]; exact Hs.
Qed.

Lemma recover_traffic now br st : keeps_traffic st (recover_consumers now br st).
Proof.
  unfold recover_consumers. set (r := if _ : bool then _ else _).
  assert (c_traffic r.2 = c_traffic st) as Hr by (unfold r; case_match; [apply close_traffic|done]).
  destruct r as [go st1]. simpl in Hr. apply same_traffic in Hr. destruct go; [|done]. destruct (br_connects br); [|done].
  pose proof (restart_traffic now br st1) as Hs. destruct (restart_consumers now br st1) as [[] st2]; simpl in Hs; [by etrans|].
  etrans; [exact Hr|]. etrans; [exact Hs|]. apply same_traffic. unfold recovery_error.
  pose proof (close_traffic (br_error_close br).1 (br_error_close br).2 (set_handles true true st2)) as Hc.
  destruct (close_rabbitmq_connection _ _ _) as [[] st3]; exact Hc.
Qed.

Lemma periodic_check_traffic sit qci now br last st :
  keeps_traffic st (periodic_check sit qci now br last st).2.
Proof. unfold periodic_check. repeat case_match; try done; apply recover_traffic. Qed.
