(* ===== verification/ConsumerLifecycle.v ===== *)
(** * Consumer lifecycle: theorems

    The invariant over every interleaving, when a consumer may be forgotten, when
    the connection may be closed, what disarms a grace timer, and that a stuck
    stream is recovered. *)

From S2P Require Import Prelude PyValue QueueNames Consumers ConsumersFacts.
From stdpp Require Import base gmap strings list option sorting.
From Stdlib Require Import ZArith Lia.

Lemma initial_ok : lifecycle_ok initial_consumers.
Proof. split; split; simpl; try done; try constructor. Qed.

Lemma register_all_ok consume types st :
  lifecycle_ok st -> active_connection st = true \/ active_channel st = true -> NoDup types ->
  (forall t, t ∈ types -> tag st t = None) ->
  lifecycle_ok (register_all consume types st).2.
Proof.
  intros Hok Hheld Hnd. revert st Hok Hheld. induction Hnd as [|t types Hnot Hnd IH]; intros st Hok Hheld Hfree; [done|].
  simpl. destruct (consume t) as [v|]; [|done]. apply IH; [|done|].
  - apply register_ok; [done|apply Hfree; left|done].
  - intros t' Ht'. unfold tag. simpl. rewrite tag_of_set, decide_False by (intros ->; done). apply Hfree. by right.
Qed.

Lemma startup_ok now br st :
  lifecycle_ok st -> consumer_tags (c_registry st) = [] -> lifecycle_ok (startup_consumers now br st).2.
Proof.
  intros [Hr Ht] Hnone. unfold startup_consumers.
  assert (forall q, lifecycle_ok (set_queues q (set_handles true true st))) as Hq.
  { intros q. split; [|by eapply timers_ok_ext; [|exact Ht]]. by eapply registry_ok_ext; [..|apply registry_ok_handles, Hr]. }
  destruct (br_qos br).
  2: { split; [by apply registry_ok_handles|by eapply timers_ok_ext; [|exact Ht]]. }
  destruct (declare_queues _ _ _) as [[] st1] eqn:Ed; apply declare_queues_spec in Ed as (q & -> & _); [|apply (Hq q)].
  apply register_all_ok; [|by left|apply entity_types_NoDup|by intros t _; unfold tag; simpl; rewrite Hnone].
  destruct (Hq q) as [[H1 H2 H3 H4] Ht1]. split; [|by eapply timers_ok_ext; [|exact Ht1]].
  split; simpl; auto. unfold tag. simpl. by rewrite Hnone.
Qed.

(** A state the event loop can reach: [main]'s startup, then any events. *)
Definition reachable (sit qci : Z) (st : consumers) : Prop :=
  exists now br l, st = foldl (fun st e => lifecycle_step sit qci e st) (startup_consumers now br initial_consumers).2 l.

Lemma reachable_ok sit qci st : reachable sit qci st -> lifecycle_ok st.
Proof.
  intros (now & br & l & ->). pose proof (startup_ok now br _ initial_ok eq_refl) as Hok. revert Hok.
  generalize (startup_consumers now br initial_consumers).2. induction l as [|e l IH]; intros st Hok; simpl; [done|].
  by apply IH, lifecycle_step_ok.
Qed.

(** C17: the lifecycle invariant. After startup and any interleaving of records,
    completions, timer steps, broker answers, monitor rounds, closings and
    shutdown, every type has at most one tag and the consumer gauge is exactly
    the number of tags; every active tag is among the connection's
    registrations; a tag without a broker handle means the cancellation is
    flagged as failed; and the timer dict holds exactly the live timer tasks,
    each under its own type. *)
Theorem lifecycle_invariant sit qci st :
  reachable sit qci st ->
  NoDup (consumer_tags (c_registry st)).*1 /\
  consumer_gauge (c_registry st) = Z.of_nat (length (consumer_tags (c_registry st))) /\
  (forall k v, tag st k = Some v -> tag_of (connection_consumer_tags (c_registry st)) k = Some v) /\
  (consumer_tags (c_registry st) <> [] -> active_connection st = false -> active_channel st = false ->
     consumer_cancellation_failed st = true) /\
  (forall t id, consumer_cancel_tasks (c_timers st) !! t = Some id <->
     exists task, live_tasks (c_timers st) !! id = Some task /\ ct_data_type task = t).
Proof.
  intros Hreach. destruct (reachable_ok _ _ _ Hreach) as [[H1 H2 H3 H4] [H5 H6 H7]]. split_and!; auto.
  - intros Hne Hc Hch. destruct (H4 Hne) as [|[|]]; congruence.
  - intros t id. split; [auto|]. intros (task & Hl & <-). auto.
Qed.

(** ** Forgetting a consumer *)

(** The broker confirmed, in this event, that the consumer of [k] is gone. *)
Definition confirms (e : lifecycle_event) (st : consumers) (k : string) : Prop :=
  match e with
  | TaskAnswered id ok _ _ =>
      ok = true /\ exists task, live_tasks (c_timers st) !! id = Some task /\ ct_data_type task = k
  | ShutdownCancel ok => ok k = true
  | Close a b => (active_channel st && a || active_connection st && b) = true
  | CheckQueues _ br _ => (active_channel st && (br_close br).1 || active_connection st && (br_close br).2) = true
  | RecordArrives _ | FileComplete _ | ScheduleCancel _ | TaskWakes _ => False
  end.

Lemma tag_cancel_task id st k : tag (cancel_task_ id st) k = tag st k.
Proof. unfold cancel_task_, end_task. repeat case_match; done. Qed.

Lemma tag_unregister t v st k : k <> t -> tag (unregister t v st) k = tag st k.
Proof. intros Hne. unfold unregister, tag. case_decide; [|done]. simpl. by rewrite tag_of_del, decide_False. Qed.

Lemma tag_cancel_each ok items st k v :
  tag st k = Some v -> tag (cancel_each ok items st) k = Some v \/ ok k = true.
Proof.
  revert st. induction items as [|[t tv] items IH]; intros st Hk; simpl; [by left|].
  case_decide; [|by apply IH]. destruct (ok t) eqn:Eok; [|by left]. destruct (decide (k = t)) as [->|Hne]; [by right|].
  apply IH. by rewrite tag_unregister.
Qed.

Lemma tag_close a b st k v :
  tag st k = Some v ->
  tag (close_rabbitmq_connection a b st).2 k = Some v \/ (active_channel st && a || active_connection st && b) = true.
Proof.
  intros Hk. rewrite close_spec. cbv zeta. destruct (active_channel st && a || active_connection st && b) eqn:E; [by right|].
  left. rewrite bool_decide_eq_false_2; [by rewrite andb_false_r|]. intros Hnil. unfold tag in Hk. by rewrite Hnil in Hk.
Qed.

Lemma tag_recover now br st k v :
  lifecycle_ok st -> tag st k = Some v ->
  tag (recover_consumers now br st) k = Some v \/ (active_channel st && (br_close br).1 || active_connection st && (br_close br).2) = true.
Proof.
  intros Hok Hk. unfold recover_consumers.
  destruct (active_connection st || active_channel st || consumer_cancellation_failed st) eqn:E.
  - pose proof (tag_close (br_close br).1 (br_close br).2 st k v Hk) as Hc.
    destruct (close_rabbitmq_connection _ _ st) as [[] st1] eqn:Ec; [|done].
    apply close_confirmed in Ec as [Hnil _]. destruct Hc as [Hc|Hc]; [|by right].
    unfold tag in Hc. simpl in Hc. by rewrite Hnil in Hc.
  - apply unheld_no_tags in E; [|apply Hok]. unfold tag in Hk. by rewrite E in Hk.
Qed.

(** C18: an uncertain consumer is never forgotten. In every reachable state, a
    step keeps the tag of every registered consumer unless the broker confirmed,
    in that step, its cancel or the closing of its channel or connection: a
    timeout, a refused call, a missing queue or a cancelled timer erases
    nothing. *)
Theorem consumer_forgotten_only_if_confirmed sit qci e st k v :
  reachable sit qci st -> tag st k = Some v ->
  tag (lifecycle_step sit qci e st) k = Some v \/ confirms e st k.
Proof.
  intros Hreach Hk. apply reachable_ok in Hreach as Hok.
  destruct e as [t|t|t|id|id ok a b|now br last|ok|a b]; simpl; [left|left|left|left| | | |].
  - rewrite pop_cancel_eq; [|by eapply timers_ok_ext; [|apply Hok]]. case_match; by rewrite ?tag_cancel_task.
  - done.
  - unfold schedule_consumer_cancellation. case_match; [|done].
    change (tag (cancel_task_ n st) k = Some v). by rewrite tag_cancel_task.
  - unfold task_wakes. repeat case_match; done.
  - unfold task_answered. destruct (live_tasks (c_timers st) !! id) as [[t [tv|] []]|] eqn:E; try by left.
    destruct ok; [|by left]. destruct (decide (k = t)) as [->|Hne]; [right; eauto|]. left.
    assert (tag (unregister t tv st) k = Some v) as Hu by (by rewrite tag_unregister).
    unfold check_all_consumers_idle. rewrite bool_decide_eq_false_2; [exact Hu|].
    intros Hnil. unfold tag in Hu. by rewrite Hnil in Hu.
  - unfold periodic_check. repeat case_match; simpl; auto using tag_recover.
  - unfold cancel_all_consumers. set (st1 := foldl _ _ _).
    assert (tag st1 k = Some v) as H1; [|by apply tag_cancel_each].
    unfold st1. revert Hk. clear. generalize (map_to_list (consumer_cancel_tasks (c_timers st))).*2. intros l.
    revert st. induction l as [|id l IH]; intros st Hk; simpl; [done|]. apply IH. by rewrite tag_cancel_task.
  - by apply tag_close.
Qed.

(** Completions are of known types only: [make_data_handler] is given one, and
    nothing but a completion adds to the set. *)
Definition known (e : lifecycle_event) : Prop :=
  match e with FileComplete t => t ∈ MUSICBRAINZ_DATA_TYPES | _ => True end.

(** A state of a service whose handlers are those of [main]. *)
Definition serving (sit qci : Z) (st : consumers) : Prop :=
  exists now br l, Forall known l /\
    st = foldl (fun st e => lifecycle_step sit qci e st) (startup_consumers now br initial_consumers).2 l.

Lemma serving_reachable sit qci st : serving sit qci st -> reachable sit qci st.
Proof. intros (now & br & l & _ & ->). by exists now, br, l. Qed.

Abbreviation completed st := (completed_files (c_traffic st)).

(** No event completes a type but its own completion. *)
Lemma step_completed sit qci e st :
  completed (lifecycle_step sit qci e st) ⊆ completed st \/ exists t, e = FileComplete t /\ completed (lifecycle_step sit qci e st) = {[t]} ∪ completed st.
Proof.
  destruct e as [t|t|t|id|id ok a b|now br last|ok|a b]; cbn [lifecycle_step]; [left|right|left..].
  - rewrite pop_cancel_traffic. simpl. set_solver.
  - by exists t.
  - by rewrite schedule_traffic.
  - by rewrite task_wakes_traffic.
  - by rewrite task_answered_traffic.
  - apply periodic_check_traffic.
  - by rewrite cancel_all_traffic.
  - by rewrite close_traffic.
Qed.

Lemma startup_completed now br : completed (startup_consumers now br initial_consumers).2 = ∅.
Proof.
  unfold startup_consumers. destruct (br_qos br); [|done].
  destruct (declare_queues _ _ _) as [[] st1] eqn:Ed; apply declare_queues_spec in Ed as (q & -> & _); [|done].
  match goal with |- completed (register_all ?c ?ts ?st).2 = _ => assert (completed st = ∅) as Hst by done; generalize dependent st end.
  generalize MUSICBRAINZ_DATA_TYPES. intros types. induction types as [|t types IH]; intros st Hst; simpl; [done|].
  destruct (br_consume br t); [by apply IH|done].
Qed.

Lemma serving_completed sit qci st : serving sit qci st -> completed st ⊆ list_to_set MUSICBRAINZ_DATA_TYPES.
Proof.
  intros (now & br & l & Hl & ->). revert Hl. induction l as [|e l IH] using rev_ind; intros Hl; [simpl; rewrite startup_completed; set_solver|].
  apply Forall_app in Hl as [Hl [He _]%Forall_cons]. rewrite foldl_app. simpl. specialize (IH Hl).
  set (st := foldl _ _ l) in *. destruct (step_completed sit qci e st) as [|(t & -> & ->)]; [set_solver|].
  simpl in He. set_solver.
Qed.

(** C33: a grace timer closes the connection only when everything is done. In every
    state of the service, the answer a timer gets changes a broker handle only if it
    confirms the cancel, the consumer that timer had captured is the only one
    registered, if any is, and every data type is complete: another type's consumer,
    a consumer registered since the timer was armed, or a type not yet complete
    keeps the connection. *)
Theorem timer_closes_only_when_idle sit qci id ok a b st :
  serving sit qci st ->
  let st' := lifecycle_step sit qci (TaskAnswered id ok a b) st in
  active_connection st' <> active_connection st \/ active_channel st' <> active_channel st ->
  ok = true /\
  (exists task, live_tasks (c_timers st) !! id = Some task /\ ct_phase task = Cancelling /\
     forall t v, tag st t = Some v -> t = ct_data_type task /\ ct_tag task = Some v) /\
  forall t, t ∈ MUSICBRAINZ_DATA_TYPES -> t ∈ completed_files (c_traffic st).
Proof.
  intros Hserving%serving_completed st'. unfold st'. cbn [lifecycle_step]. unfold task_answered.
  destruct (live_tasks (c_timers st) !! id) as [[t [v|] []]|] eqn:E; try (by intros [?|?]).
  destruct ok; [|by intros [?|?]].
  assert (active_connection (unregister t v st) = active_connection st /\ active_channel (unregister t v st) = active_channel st) as [U1 U2]
    by (unfold unregister; by case_decide).
  destruct (check_all_consumers_idle (unregister t v st)) eqn:Ei.
  2: { intros [Hc|Hc]; exfalso; apply Hc; [by rewrite <- U1|by rewrite <- U2]. }
  intros _. unfold check_all_consumers_idle in Ei. rewrite andb_true_iff, bool_decide_eq_true, Nat.eqb_eq, unregister_traffic in Ei.
  destruct Ei as [Hnil Hsize]. split_and!; [done| |].
  - exists (CancelTask t (Some v) Cancelling). split_and!; [done..|]. intros t' v' Htag. cbn [ct_data_type ct_tag].
    unfold unregister in Hnil. case_decide as Hv; [|unfold tag in Htag; by rewrite Hnil in Htag].
    destruct (decide (t' = t)) as [->|Hne]; [split; congruence|]. exfalso. simpl in Hnil. unfold tag in Htag.
    pose proof (tag_of_del (consumer_tags (c_registry st)) t t') as Hd. by rewrite Hnil, decide_False, Htag in Hd.
  - intros t' Ht'. rewrite (set_subseteq_size_eq _ _ Hserving); [set_solver|].
    rewrite size_list_to_set by apply entity_types_NoDup. lia.
Qed.

(** C34: a new record disarms the stream's timer. After a record of a type, no
    grace timer of that type is alive, so none armed by an earlier completion
    can cancel its consumer; the type is no longer complete; and no other
    type's timer is touched. *)
Theorem record_disarms_timer sit qci st t :
  reachable sit qci st ->
  let st' := lifecycle_step sit qci (RecordArrives t) st in
  (t ∉ completed_files (c_traffic st')) /\
  (forall id task, live_tasks (c_timers st') !! id = Some task -> ct_data_type task <> t) /\
  (forall id task, live_tasks (c_timers st) !! id = Some task -> ct_data_type task <> t ->
     live_tasks (c_timers st') !! id = Some task).
Proof.
  intros Hreach st'. apply reachable_ok in Hreach as [_ Ht]. unfold st'. simpl.
  assert (timers_ok (uncomplete t st)) as Ht1 by (by eapply timers_ok_ext; [|exact Ht]).
  rewrite pop_cancel_eq by done. simpl. destruct (consumer_cancel_tasks (c_timers st) !! t) as [id0|] eqn:E.
  - destruct (registered_live _ Ht _ _ E) as (task0 & Hl0 & Hdt0).
    rewrite (cancel_task_frees id0 (uncomplete t st) task0) by done. simpl. split_and!.
    + unfold cancel_task_, end_task. simpl. rewrite Hl0. destruct (ct_phase task0); simpl; set_solver.
    + intros id task Hl Heq. apply lookup_delete_Some in Hl as [Hne Hl]. apply (live_registered _ Ht) in Hl. congruence.
    + intros id task Hl Hne. rewrite lookup_delete_ne; [done|]. intros ->. congruence.
  - split_and!; [simpl; set_solver| |done]. intros id task Hl Heq. apply (live_registered _ Ht) in Hl. congruence.
Qed.

(** ** Recovery *)

Section recovery.
Context (sit qci : Z).

(** A broker that answers every call of a recovery. *)
Record answering (br : broker) (pending : list string) : Prop := Answering {
  an_close : br_close br = (true, true);
  an_connects : br_connects br = true;
  an_backlog : backlog (br_message_count br) MUSICBRAINZ_DATA_TYPES = Some pending;
  an_qos : br_qos br = true;
  an_declares : forall t, br_declares br t = true;
  an_consume : forall t, is_Some (br_consume br t);
}.

Lemma declare_queues_all declares types st :
  (forall t, declares t = true) -> (declare_queues declares types st).1 = true.
Proof. intros Hd. revert st. induction types as [|t types IH]; intros st; simpl; [done|]. rewrite Hd. apply IH. Qed.

Lemma start_consumers_all now pending consume types st :
  (forall t, is_Some (consume t)) ->
  (start_consumers now pending consume types st).1 = true.
Proof.
  intros Hc. revert st. induction types as [|t types IH]; intros st; simpl; [done|].
  case_decide; [|apply IH]. destruct (Hc t) as [v ->]. apply IH.
Qed.

Lemma start_consumers_handles now pending consume types st :
  active_connection (start_consumers now pending consume types st).2 = active_connection st /\
  consumer_cancellation_failed (start_consumers now pending consume types st).2 = consumer_cancellation_failed st.
Proof.
  revert st. induction types as [|t types IH]; intros st; simpl; [done|].
  case_decide; [|apply IH]. destruct (consume t) as [v|]; [|done].
  destruct (IH (start_consumer now pending t v st)) as [-> ->]. unfold start_consumer. by case_decide.
Qed.

(** The completions a registration loop withdraws are those of the backlog. *)
Lemma start_consumers_completed now pending consume types st :
  completed_files (c_traffic st) ∖ list_to_set pending ⊆
    completed_files (c_traffic (start_consumers now pending consume types st).2).
Proof.
  revert st. induction types as [|t types IH]; intros st; simpl; [set_solver|].
  case_decide; [|apply IH]. destruct (consume t) as [v|]; [|simpl; set_solver].
  etrans; [|apply IH]; unfold start_consumer. case_decide; simpl; set_solver.
Qed.

(** Consumers are on an open handle. *)
Definition on_handle (st : consumers) : Prop :=
  consumer_tags (c_registry st) <> [] -> (active_connection st || active_channel st) = true.

Lemma close_all_confirmed st :
  lifecycle_ok st -> on_handle st ->
  exists st', close_rabbitmq_connection true true st = (true, st') /\
    consumer_tags (c_registry st') = [] /\ c_traffic st' = c_traffic st /\ lifecycle_ok st' /\
    consumer_cancellation_failed st' = false.
Proof.
  intros Hok Hon. pose proof (close_ok true true st Hok) as Hc. rewrite close_spec in Hc |- *. cbv zeta in *. unfold on_handle in Hon.
  destruct (active_connection st) eqn:Ec, (active_channel st) eqn:Eh; simpl in *; try (eexists; split_and!; done).
  rewrite bool_decide_eq_true_2 in Hc |- * by (destruct (consumer_tags (c_registry st)); [done|by specialize (Hon ltac:(done))]).
  eexists. split_and!; done.
Qed.

(** A restart the broker answers, with a backlog. *)
Lemma restart_answered now br pending st :
  answering br pending -> pending <> [] ->
  exists st', restart_consumers now br st = (true, st') /\ active_connection st' = true /\
    consumer_cancellation_failed st' = consumer_cancellation_failed st /\
    completed_files (c_traffic st) ∖ list_to_set pending ⊆ completed_files (c_traffic st').
Proof.
  intros [A1 A2 A3 A4 A5 A6] Hp. unfold restart_consumers. rewrite A3. destruct pending as [|p pending]; [done|]. rewrite A4.
  set (s0 := set_queues ∅ _). pose proof (declare_queues_all (br_declares br) MUSICBRAINZ_DATA_TYPES s0 A5) as Hd.
  destruct (declare_queues _ _ s0) as [ok s1] eqn:Ed. simpl in Hd. subst ok.
  apply declare_queues_spec in Ed as (q & -> & _).
  pose proof (start_consumers_all now (p :: pending) (br_consume br) MUSICBRAINZ_DATA_TYPES (set_queues q s0) A6) as Hs.
  pose proof (start_consumers_completed now (p :: pending) (br_consume br) MUSICBRAINZ_DATA_TYPES (set_queues q s0)) as Hcm.
  pose proof (start_consumers_handles now (p :: pending) (br_consume br) MUSICBRAINZ_DATA_TYPES (set_queues q s0)) as [F1 F2].
  destruct (start_consumers _ _ _ _ _) as [ok s2]. simpl in Hs, Hcm, F1, F2. subst ok.
  by exists (set_idle_mode false s2).
Qed.

(** A recovery the broker answers, with a backlog. *)
Definition recovered (pending : list string) (st st' : consumers) : Prop :=
  (forall t', t' ∈ MUSICBRAINZ_DATA_TYPES -> is_Some (tag st' t')) /\
  active_connection st' = true /\ consumer_cancellation_failed st' = false /\
  completed_files (c_traffic st) ∖ list_to_set pending ⊆ completed_files (c_traffic st') /\
  consumer_gauge (c_registry st') = Z.of_nat (length (consumer_tags (c_registry st'))).

Lemma recover_answered now br pending st :
  lifecycle_ok st -> on_handle st -> answering br pending -> pending <> [] -> recovered pending st (recover_consumers now br st).
Proof.
  intros Hok Hon Ha Hp. pose proof Ha as [A1 A2 A3 _ _ _]. unfold recover_consumers.
  assert (exists st1, (if active_connection st || active_channel st || consumer_cancellation_failed st
    then close_rabbitmq_connection (br_close br).1 (br_close br).2 st else (true, st)) = (true, st1) /\
    consumer_tags (c_registry st1) = [] /\ c_traffic st1 = c_traffic st /\ lifecycle_ok st1 /\
    consumer_cancellation_failed st1 = false) as (st1 & -> & E1 & E2 & E3 & E4).
  { rewrite A1. simpl. destruct (_ || _) eqn:E; [by apply close_all_confirmed|]. exists st. split_and!; [done| |done..|].
    - apply unheld_no_tags; [apply Hok|done].
    - by apply orb_false_iff in E as [_ E]. }
  rewrite A2. destruct (restart_answered now br pending st1 Ha Hp) as (st2 & Hr & R1 & R2 & R3). rewrite Hr.
  destruct (restart_consumers_ok _ _ _ _ _ E3 E1 Hr) as [[Hr2 _] Hall]. split_and!;
    [by apply (Hall eq_refl pending)|done|congruence|by rewrite <- E2|apply Hr2].
Qed.

(** A type that is neither complete nor consumed is in alarm, once there has been
    traffic or the grace period is over. *)
Lemma unconsumed_alarm now st t :
  t ∈ MUSICBRAINZ_DATA_TYPES -> tag st t = None -> t ∉ completed_files (c_traffic st) ->
  (traffic_seen st || grace_expired sit now st) = true -> check_consumers_unexpectedly_dead sit now st = true.
Proof.
  intros Hin Htag Hcomp Hseen. unfold check_consumers_unexpectedly_dead. apply bool_decide_eq_true_2.
  unfold consumer_alarm_types. rewrite <- negb_orb, Hseen. simpl negb. cbv iota.
  intros Hnil. assert (t ∈ filter (fun t => (t ∉ completed_files (c_traffic st)) /\ alarming sit now st t = true)
    MUSICBRAINZ_DATA_TYPES) as Hf; [|rewrite Hnil in Hf; by apply not_elem_of_nil in Hf].
  apply list_elem_of_filter. split; [|done]. split; [done|]. unfold alarming. by rewrite bool_decide_eq_true_2.
Qed.

(** A stuck stream is recovered. When a stream is neither complete nor
    consumed, after traffic or the grace period, one round of the checker
    against a broker that answers and reports a backlog leaves every data type
    with a consumer, on an open connection, with nothing flagged as failed, and
    withdraws no completion but those of the types with a backlog: no type is
    left without a consumer for want of a message at that instant. *)
Theorem stuck_stream_recovered now br last st t pending :
  reachable sit qci st ->
  t ∈ MUSICBRAINZ_DATA_TYPES -> tag st t = None -> t ∉ completed_files (c_traffic st) ->
  (traffic_seen st || grace_expired sit now st) = true ->
  (active_connection st || active_channel st) = true ->
  answering br pending -> pending <> [] ->
  let st' := (periodic_check sit qci now br last st).2 in
  (forall t', t' ∈ MUSICBRAINZ_DATA_TYPES -> is_Some (tag st' t')) /\
  active_connection st' = true /\ consumer_cancellation_failed st' = false /\
  completed_files (c_traffic st) ∖ list_to_set pending ⊆ completed_files (c_traffic st') /\
  consumer_gauge (c_registry st') = Z.of_nat (length (consumer_tags (c_registry st'))).
Proof.
  intros Hreach Hin Htag Hcomp Hseen Hheld Ha Hp st'. apply reachable_ok in Hreach as Hok.
  assert (st' = recover_consumers now br st) as ->.
  { unfold st', periodic_check. destruct (consumer_cancellation_failed st); [done|]. by rewrite (unconsumed_alarm now st t). }
  apply recover_answered; [done| |done|done]. by intros _.
Qed.
End recovery.
