(* ===== verification/Database.v ===== *)
(** * The database the loader writes

    The tables of the [musicbrainz], [graph] and [public] schemas that
    [brainztableinator/_persistence.py] and [_reconciliation.py] write, and the
    effect of each SQL statement those files hold, transcribed from its text:
    the inserted columns, the conflict target, the assignments on conflict and
    the link event derived from the same statement. PostgreSQL itself (how a
    column type reads a parameter, the [relationship_key] hash, and any error it
    may answer a statement with) is the class [Postgres]. *)

From S2P Require Import Prelude PyValue.
From stdpp Require Import base gmap strings list option.
From Stdlib Require Import ZArith Lia.

(** ** Tables *)

(** A bound parameter: plain, or wrapped by [psycopg]'s [Jsonb], under which a
    Python [None] is the JSON null and not the SQL one. *)
Inductive param : Type :=
| Plain (v : value)
| Jsonb (v : value).

#[export] Instance param_eq_dec : EqDecision param.
Proof. solve_decision. Defined.

(** A row of an entity table: its columns by name, and [updated_at]. *)
Record row : Type := Row {
  row_columns : gmap string value;
  row_updated_at : Z;
}.

(** The eight values [musicbrainz.relationship_key] hashes. *)
Record rel_key : Type := RelKey {
  rk_source_mbid : string;
  rk_target_mbid : string;
  rk_source_entity_type : string;
  rk_target_entity_type : string;
  rk_relationship_type : string;
  rk_begin_date : value;
  rk_end_date : value;
  rk_attributes : value;
}.

#[export] Instance rel_key_eq_dec : EqDecision rel_key.
Proof. solve_decision. Defined.

Record relationship_row : Type := RelationshipRow {
  rel_columns : rel_key;
  rel_ended : value;
  rel_updated_at : Z;
}.

(** [(mbid, entity_type, service_name, url)] *)
Abbreviation link_key := (string * string * string * string)%type.

Inductive link_change : Type := LinkAdded | LinkChanged | LinkRemoved.

#[export] Instance link_change_eq_dec : EqDecision link_change.
Proof. solve_decision. Defined.

Record link_event : Type := LinkEvent {
  ev_provider : string;
  ev_entity_kind : string;
  ev_external_id : string;
  ev_event : link_change;
  ev_before : value;
  ev_after : value;
  ev_at : Z;
  ev_dated_from : string;
  ev_source_ref : value;
}.

#[export] Instance link_event_eq_dec : EqDecision link_event.
Proof. solve_decision. Defined.

(** [identity_link_events_idempotence_key] *)
Definition idempotence_key (e : link_event) :
    string * value * string * string * string * link_change * Z :=
  (ev_dated_from e, ev_source_ref e, ev_provider e, ev_entity_kind e, ev_external_id e, ev_event e, ev_at e).

(** The identity service's [provider_aliases]: which native item a provider's
    own identifier names. *)
Record alias_ref : Type := AliasRef {
  ref_provider : string;
  ref_entity_kind : string;
  ref_external_id : value;
}.

#[export] Instance alias_ref_eq_dec : EqDecision alias_ref.
Proof. solve_decision. Defined.

Abbreviation uuid := string.
Abbreviation ledger := (list (alias_ref * uuid)).

(** [mapping.get(ref)] *)
Fixpoint lookup_ref (m : ledger) (r : alias_ref) : option uuid :=
  match m with
  | [] => None
  | (r', u) :: m' => if decide (r' = r) then Some u else lookup_ref m' r
  end.

Inductive entity_table : Type := Artists | Labels | Releases | ReleaseGroups.

#[export] Instance entity_table_eq_dec : EqDecision entity_table.
Proof. solve_decision. Defined.

Inductive child_table : Type := Relationships | ExternalLinks.

#[export] Instance child_table_eq_dec : EqDecision child_table.
Proof. solve_decision. Defined.

Record db : Type := Db {
  artists : gmap uuid row;
  labels : gmap uuid row;
  releases : gmap uuid row;
  release_groups : gmap uuid row;
  relationships : gmap string relationship_row;
  external_links : gmap link_key Z;
  identity_link_events : list link_event;
  provider_aliases : ledger;
  media_family : gset string;
  medium : gmap string (string * string);
  issued_on : gmap (string * string * string) Z;
}.

Definition entity_rows (t : entity_table) (d : db) : gmap uuid row :=
  match t with
  | Artists => artists d
  | Labels => labels d
  | Releases => releases d
  | ReleaseGroups => release_groups d
  end.

Definition set_entity_rows (t : entity_table) (m : gmap uuid row) (d : db) : db :=
  match t with
  | Artists => Db m (labels d) (releases d) (release_groups d) (relationships d) (external_links d)
                 (identity_link_events d) (provider_aliases d) (media_family d) (medium d) (issued_on d)
  | Labels => Db (artists d) m (releases d) (release_groups d) (relationships d) (external_links d)
                 (identity_link_events d) (provider_aliases d) (media_family d) (medium d) (issued_on d)
  | Releases => Db (artists d) (labels d) m (release_groups d) (relationships d) (external_links d)
                 (identity_link_events d) (provider_aliases d) (media_family d) (medium d) (issued_on d)
  | ReleaseGroups => Db (artists d) (labels d) (releases d) m (relationships d) (external_links d)
                 (identity_link_events d) (provider_aliases d) (media_family d) (medium d) (issued_on d)
  end.

Definition set_relationships m d : db :=
  Db (artists d) (labels d) (releases d) (release_groups d) m (external_links d)
     (identity_link_events d) (provider_aliases d) (media_family d) (medium d) (issued_on d).
Definition set_external_links m d : db :=
  Db (artists d) (labels d) (releases d) (release_groups d) (relationships d) m
     (identity_link_events d) (provider_aliases d) (media_family d) (medium d) (issued_on d).
Definition set_link_events m d : db :=
  Db (artists d) (labels d) (releases d) (release_groups d) (relationships d) (external_links d)
     m (provider_aliases d) (media_family d) (medium d) (issued_on d).
Definition set_provider_aliases m d : db :=
  Db (artists d) (labels d) (releases d) (release_groups d) (relationships d) (external_links d)
     (identity_link_events d) m (media_family d) (medium d) (issued_on d).
Definition set_media_family m d : db :=
  Db (artists d) (labels d) (releases d) (release_groups d) (relationships d) (external_links d)
     (identity_link_events d) (provider_aliases d) m (medium d) (issued_on d).
Definition set_medium m d : db :=
  Db (artists d) (labels d) (releases d) (release_groups d) (relationships d) (external_links d)
     (identity_link_events d) (provider_aliases d) (media_family d) m (issued_on d).
Definition set_issued_on m d : db :=
  Db (artists d) (labels d) (releases d) (release_groups d) (relationships d) (external_links d)
     (identity_link_events d) (provider_aliases d) (media_family d) (medium d) m.

Definition empty_db : db := Db ∅ ∅ ∅ ∅ ∅ ∅ [] [] ∅ ∅ ∅.

(** ** Entity upserts

    The parts of an [INSERT ... ON CONFLICT (mbid) DO UPDATE] that differ
    between the four statements. *)
Record upsert_spec : Type := UpsertSpec {
  up_table : entity_table;
  up_columns : list string;       (** INSERT INTO ... ( ... ) *)
  up_assigned : list string;      (** SET c = EXCLUDED.c, ... *)
  up_link : string;               (** the Discogs id column the event compares *)
  up_entity_kind : string;        (** the event's entity_kind literal *)
}.

#[export] Instance upsert_spec_eq_dec : EqDecision upsert_spec.
Proof. solve_decision. Defined.

Definition artist_upsert : upsert_spec :=
  UpsertSpec Artists
    ["mbid"; "name"; "sort_name"; "type"; "gender"; "begin_date"; "end_date"; "ended";
     "area"; "begin_area"; "end_area"; "disambiguation"; "discogs_artist_id"; "aliases"; "tags"; "data"; "gm_item_id"]
    ["name"; "sort_name"; "type"; "gender"; "begin_date"; "end_date"; "ended"; "area";
     "begin_area"; "end_area"; "disambiguation"; "discogs_artist_id"; "aliases"; "tags"; "gm_item_id"; "data"]
    "discogs_artist_id" "artist".

Definition label_upsert : upsert_spec :=
  UpsertSpec Labels
    ["mbid"; "name"; "type"; "label_code"; "begin_date"; "end_date"; "ended"; "area"; "disambiguation";
     "discogs_label_id"; "data"; "gm_item_id"]
    ["name"; "type"; "label_code"; "begin_date"; "end_date"; "ended"; "area"; "disambiguation";
     "discogs_label_id"; "gm_item_id"; "data"]
    "discogs_label_id" "label".

Definition release_upsert : upsert_spec :=
  UpsertSpec Releases
    ["mbid"; "name"; "barcode"; "status"; "release_group_mbid"; "discogs_release_id"; "media"; "data"; "gm_item_id"]
    ["name"; "barcode"; "status"; "release_group_mbid"; "discogs_release_id"; "media"; "gm_item_id"; "data"]
    "discogs_release_id" "release".

Definition release_group_upsert : upsert_spec :=
  UpsertSpec ReleaseGroups
    ["mbid"; "name"; "type"; "secondary_types"; "first_release_date"; "disambiguation"; "discogs_master_id"; "data"; "gm_item_id"]
    ["name"; "type"; "secondary_types"; "first_release_date"; "disambiguation"; "discogs_master_id"; "gm_item_id"; "data"]
    "discogs_master_id" "master".

(** ** Statements

    One constructor per SQL statement of the sources, with its parameters;
    [executemany] is one statement per row. The identity service's two calls run
    their own statements on the same connection. *)
Inductive statement : Type :=
| EntityUpsert (s : upsert_spec) (params : list param)
| RelationshipUpsert (refresh : bool) (params : list param)
| ExternalLinkUpsert (refresh : bool) (params : list param)
| MediaFamilyInsert (name : string)
| MediumInsert (medium_id family label : string)
| AdvisoryXactLock (key : string)
| DeleteReleaseMedia (release_id source : string)
| InsertReleaseMedia (release_id medium_id source : string) (qty : Z)
| ResolveAliases (refs : list alias_ref)
| AttachAliases (mapping : ledger)
| CountAll (t : child_table)
| CountStale (t : child_table) (boundary : Z)
| DeleteStale (t : child_table) (boundary : Z).

#[export] Instance statement_eq_dec : EqDecision statement.
Proof. solve_decision. Defined.

(** A statement that changes a table, as opposed to reading or locking. *)
Definition is_write (s : statement) : bool :=
  match s with
  | AdvisoryXactLock _ | CountAll _ | CountStale _ _ => false
  | _ => true
  end.

(** What PostgreSQL and the identity library bring. [pg_error] is any error the
    server answers a statement with: a lost connection, a value its column type
    or a constraint refuses, the btree limit. *)
Class Postgres : Type := {
  uuid_in : param -> uuid;
  text_in : param -> string;
  column_in : entity_table -> string -> param -> value;
  relationship_key : rel_key -> string;
  pg_error : statement -> db -> option exn;
  resolve_aliases : list alias_ref -> ledger -> result exn ledger * ledger;
  attach_aliases : ledger -> ledger -> result exn ledger * ledger;
}.

Section statements.
Context `{Postgres}.

(** A stored column: SQL NULL stays NULL in every type. *)
Definition stored (t : entity_table) (column : string) (p : param) : value :=
  match p with Plain VNull => VNull | _ => column_in t column p end.

(** [EXCLUDED], the row proposed for insertion. *)
Definition excluded (s : upsert_spec) (params : list param) : gmap string value :=
  list_to_map (zip_with (fun c p => (c, stored (up_table s) c p)) (up_columns s) params).

(** [SET c = EXCLUDED.c] for each assigned column. *)
Definition assign (assigned : list string) (new old : gmap string value) : gmap string value :=
  foldl (fun m c => match new !! c with Some v => <[c:=v]> m | None => m end) old assigned.

(** [INSERT ... ON CONFLICT ON CONSTRAINT identity_link_events_idempotence_key DO NOTHING] *)
Definition insert_link_event (e : link_event) (l : list link_event) : list link_event :=
  if decide (idempotence_key e ∈ map idempotence_key l) then l else l ++ [e].

(** The event of an upsert that changed the Discogs id of an existing row. *)
Definition link_change_of (before after : value) : link_change :=
  match before, after with
  | VNull, _ => LinkAdded
  | _, VNull => LinkRemoved
  | _, _ => LinkChanged
  end.

Definition link_column (s : upsert_spec) (r : row) : value := default VNull (row_columns r !! up_link s).

(** The row an upsert leaves: as proposed when the key is free, the existing row
    with its assigned columns replaced otherwise. *)
Definition upserted (s : upsert_spec) (now : Z) (new : gmap string value) (old : option row) : row :=
  match old with
  | None => Row new now
  | Some r => Row (assign (up_assigned s) new (row_columns r)) now
  end.

(** [WITH upsert AS (...), old AS (...) INSERT INTO public.identity_link_events ...]:
    the three parts see the rows as they were before the statement. *)
Definition upsert_entity (s : upsert_spec) (now : Z) (params : list param) (d : db) : result exn db :=
  let n := length (up_columns s) in
  match take n params, drop n params with
  | (mbid :: _) as values, [old_mbid; Plain source_ref] =>
      let rows := entity_rows (up_table s) d in
      let upsert := upserted s now (excluded s values) (rows !! uuid_in mbid) in
      let d' := set_entity_rows (up_table s) (<[uuid_in mbid := upsert]> rows) d in
      match rows !! uuid_in old_mbid with
      | Some old =>
          let before := link_column s old in
          let after := link_column s upsert in
          if decide (before = after) then Ok d'
          else Ok (set_link_events
                     (insert_link_event
                        (LinkEvent "musicbrainz" (up_entity_kind s) (uuid_in mbid) (link_change_of before after)
                           before after now "groovemap_load" source_ref)
                        (identity_link_events d)) d')
      | None => Ok d'
      end
  | _, _ => Raise OtherDatabaseError
  end.

Definition rel_key_of_params (ps : list param) : option (rel_key * param) :=
  match ps with
  | [source_mbid; source_type; target_mbid; target_type; type; attributes; begin_date; end_date; ended] =>
      Some (RelKey (uuid_in source_mbid) (uuid_in target_mbid) (text_in source_type) (text_in target_type)
              (text_in type)
              (match begin_date with Plain v | Jsonb v => v end)
              (match end_date with Plain v | Jsonb v => v end)
              (match attributes with Plain v | Jsonb v => v end), ended)
  | _ => None
  end.

(** [RELATIONSHIP_UPSERTS]: a new row takes the column default of [updated_at],
    a conflicting one is refreshed only by the second spelling. *)
Definition upsert_relationship (refresh : bool) (now : Z) (params : list param) (d : db) : result exn db :=
  match rel_key_of_params params with
  | Some (k, ended) =>
      let v := match ended with Plain v | Jsonb v => v end in
      let r :=
        match relationships d !! relationship_key k with
        | None => RelationshipRow k v now
        | Some r => RelationshipRow (rel_columns r) v (if refresh then now else rel_updated_at r)
        end in
      Ok (set_relationships (<[relationship_key k := r]> (relationships d)) d)
  | None => Raise OtherDatabaseError
  end.

(** [EXTERNAL_LINK_UPSERTS]; [SET url = EXCLUDED.url] assigns a column of the
    conflict target its own value. *)
Definition upsert_external_link (refresh : bool) (now : Z) (params : list param) (d : db) : result exn db :=
  match params with
  | [mbid; entity_type; url; service_name] =>
      let k := (uuid_in mbid, text_in entity_type, text_in service_name, text_in url) in
      let t :=
        match external_links d !! k with
        | None => now
        | Some t => if refresh then now else t
        end in
      Ok (set_external_links (<[k := t]> (external_links d)) d)
  | _ => Raise OtherDatabaseError
  end.

Definition stale_relationships (boundary : Z) (d : db) : gmap string relationship_row :=
  filter (fun kr => rel_updated_at kr.2 < boundary)%Z (relationships d).
Definition stale_external_links (boundary : Z) (d : db) : gmap link_key Z :=
  filter (fun kt => kt.2 < boundary)%Z (external_links d).

(** [SELECT count] of all rows, and of those [updated_at < boundary]. *)
Definition count_all (t : child_table) (d : db) : Z :=
  match t with
  | Relationships => Z.of_nat (size (relationships d))
  | ExternalLinks => Z.of_nat (size (external_links d))
  end.

Definition count_stale (t : child_table) (boundary : Z) (d : db) : Z :=
  match t with
  | Relationships => Z.of_nat (size (stale_relationships boundary d))
  | ExternalLinks => Z.of_nat (size (stale_external_links boundary d))
  end.

(** [DELETE FROM t WHERE updated_at < boundary] *)
Definition delete_stale (t : child_table) (boundary : Z) (d : db) : db :=
  match t with
  | Relationships =>
      set_relationships (filter (fun kr => ~ rel_updated_at kr.2 < boundary)%Z (relationships d)) d
  | ExternalLinks =>
      set_external_links (filter (fun kt => ~ kt.2 < boundary)%Z (external_links d)) d
  end.

(** The effect of one statement inside a transaction that began at [now]. *)
Definition effect (now : Z) (s : statement) (d : db) : result exn db :=
  match s with
  | EntityUpsert sp ps => upsert_entity sp now ps d
  | RelationshipUpsert refresh ps => upsert_relationship refresh now ps d
  | ExternalLinkUpsert refresh ps => upsert_external_link refresh now ps d
  | MediaFamilyInsert name => Ok (set_media_family ({[name]} ∪ media_family d) d)
  | MediumInsert m family label =>
      Ok (match medium d !! m with
          | Some _ => d
          | None => set_medium (<[m := (family, label)]> (medium d)) d
          end)
  | AdvisoryXactLock _ => Ok d
  | DeleteReleaseMedia release_id source =>
      Ok (set_issued_on (filter (fun kq => ~ (kq.1.1.1 = release_id /\ kq.1.2 = source)) (issued_on d)) d)
  | InsertReleaseMedia release_id m source qty =>
      match issued_on d !! (release_id, m, source) with
      | Some _ => Raise IntegrityError
      | None => Ok (set_issued_on (<[(release_id, m, source) := qty]> (issued_on d)) d)
      end
  | ResolveAliases refs => let '(_, l) := resolve_aliases refs (provider_aliases d) in Ok (set_provider_aliases l d)
  | AttachAliases m => let '(_, l) := attach_aliases m (provider_aliases d) in Ok (set_provider_aliases l d)
  | CountAll _ | CountStale _ _ => Ok d
  | DeleteStale t b => Ok (delete_stale t b d)
  end.
End statements.

(** ** Facts: entity upserts *)

Definition known_upserts : list upsert_spec :=
  [artist_upsert; label_upsert; release_upsert; release_group_upsert].

(** The conflict clause of a statement assigns every inserted column but the key. *)
Definition covers (s : upsert_spec) : Prop :=
  NoDup (up_columns s) /\ up_link s ∈ up_assigned s /\ head (up_columns s) = Some "mbid" /\
  (forall c, c ∈ up_columns s -> c = "mbid" \/ c ∈ up_assigned s) /\
  (forall c, c ∈ up_assigned s -> c ∈ up_columns s).

Lemma known_upserts_cover s : s ∈ known_upserts -> covers s.
Proof.
  intros Hs. unfold covers.
  assert (Forall (fun s => NoDup (up_columns s) /\ up_link s ∈ up_assigned s /\ head (up_columns s) = Some "mbid" /\
     Forall (fun c => c = "mbid" \/ c ∈ up_assigned s) (up_columns s) /\
     Forall (fun c => c ∈ up_columns s) (up_assigned s)) known_upserts) as HF.
  { apply (bool_decide_unpack _). vm_compute. done. }
  rewrite Forall_forall in HF. apply list_elem_of_In in Hs.
  destruct (HF s Hs) as (?&?&?&HF1&HF2). rewrite Forall_forall in HF1, HF2.
  repeat split; auto; intros c Hc%list_elem_of_In; auto.
Qed.

Section facts.
Context `{Postgres}.
Implicit Types (d : db) (s : upsert_spec) (ps : list param).

Lemma assign_lookup l (new old : gmap string value) c :
  assign l new old !! c =
    if decide (c ∈ l) then match new !! c with Some v => Some v | None => old !! c end else old !! c.
Proof.
  unfold assign. revert old. induction l as [|x l IH]; intros old; simpl.
  - done.
  - rewrite IH. destruct (decide (c = x)) as [->|].
    + rewrite (decide_True (P := x ∈ x :: l)) by set_solver.
      destruct (new !! x) eqn:E; rewrite ?lookup_insert_eq; by case_decide.
    + assert ((c ∈ x :: l) <-> (c ∈ l)) as Hiff by set_solver.
      rewrite (decide_ext (c ∈ x :: l) (c ∈ l)) by done.
      destruct (new !! x); by rewrite ?lookup_insert_ne by done.
Qed.

Lemma excluded_lookup s ps i c p :
  NoDup (up_columns s) -> up_columns s !! i = Some c -> ps !! i = Some p ->
  excluded s ps !! c = Some (stored (up_table s) c p).
Proof.
  intros Hnd Hc Hp. unfold excluded. apply elem_of_list_to_map_1.
  - revert Hnd. generalize (up_columns s). clear. intros cols. revert ps.
    induction cols as [|c cols IH]; intros [|p ps]; simpl; intros Hnd; inversion Hnd; subst; constructor.
    + intros Hin. apply list_elem_of_fmap in Hin as ([c' v] & -> & Hin).
      apply elem_of_lookup_zip_with in Hin as (j & c1 & p1 & [= -> ->] & Hj & _).
      apply list_elem_of_lookup_2 in Hj. done.
    + auto.
  - apply list_elem_of_lookup_2 with i. rewrite lookup_zip_with, Hc. simpl. by rewrite Hp.
Qed.

Lemma excluded_Some s ps c :
  length (up_columns s) <= length ps -> NoDup (up_columns s) -> c ∈ up_columns s -> is_Some (excluded s ps !! c).
Proof.
  intros Hlen Hnd (i & Hi)%list_elem_of_lookup_1.
  destruct (lookup_lt_is_Some_2 ps i) as [p Hp]; [apply lookup_lt_Some in Hi; lia|].
  erewrite excluded_lookup by done. eauto.
Qed.

(** The row an upsert leaves holds the proposed value in every column but the
    key, whether or not the row existed. *)
Lemma upserted_lookup s now ps old i c p :
  covers s -> length ps = length (up_columns s) ->
  up_columns s !! i = Some c -> c <> "mbid" -> ps !! i = Some p ->
  row_columns (upserted s now (excluded s ps) old) !! c = Some (stored (up_table s) c p).
Proof.
  intros (Hnd & _ & _ & Hcov & _) Hlen Hc Hk Hp.
  destruct old as [r|]; simpl; [|by eapply excluded_lookup].
  rewrite assign_lookup, decide_True; [by erewrite excluded_lookup|].
  destruct (Hcov c); [by eapply list_elem_of_lookup_2|done|done].
Qed.

Lemma set_entity_rows_same t m d : entity_rows t (set_entity_rows t m d) = m.
Proof. by destruct t. Qed.

Lemma set_entity_rows_other t t' m d : t <> t' -> entity_rows t' (set_entity_rows t m d) = entity_rows t' d.
Proof. by destruct t, t'. Qed.

Lemma entity_rows_set_link_events t l d : entity_rows t (set_link_events l d) = entity_rows t d.
Proof. by destruct t. Qed.

(** An upsert in its parts: the parameters are the columns, the key again and
    the provenance, and one row is written. *)
Lemma upsert_entity_inv s now ps d d' :
  upsert_entity s now ps d = Ok d' ->
  exists mbid values old_mbid source_ref,
    ps = (mbid :: values) ++ [old_mbid; Plain source_ref] /\
    length (mbid :: values) = length (up_columns s) /\
    let rows := entity_rows (up_table s) d in
    let r := upserted s now (excluded s (mbid :: values)) (rows !! uuid_in mbid) in
    let d1 := set_entity_rows (up_table s) (<[uuid_in mbid := r]> rows) d in
    d' = match rows !! uuid_in old_mbid with
         | Some old =>
             if decide (link_column s old = link_column s r) then d1
             else set_link_events (insert_link_event
               (LinkEvent "musicbrainz" (up_entity_kind s) (uuid_in mbid)
                  (link_change_of (link_column s old) (link_column s r))
                  (link_column s old) (link_column s r) now "groovemap_load" source_ref)
               (identity_link_events d)) d1
         | None => d1
         end.
Proof.
  unfold upsert_entity. intros Hu.
  destruct (take _ ps) as [|mbid values] eqn:Et; [done|].
  destruct (drop _ ps) as [|old_mbid [|[source_ref|] [|]]] eqn:Ed; try done.
  exists mbid, values, old_mbid, source_ref.
  assert (length ps = length (up_columns s) + 2) as Hlen.
  { apply (f_equal length) in Ed. rewrite length_drop in Ed. simpl in Ed. lia. }
  split; [by rewrite <- Et, <- Ed, take_drop|].
  split; [rewrite <- Et, length_take; lia|].
  cbv zeta in *. destruct (entity_rows (up_table s) d !! uuid_in old_mbid); [|by injection Hu].
  case_decide; by injection Hu.
Qed.

Lemma upsert_entity_rows s now mbid values rest d d' :
  length (mbid :: values) = length (up_columns s) ->
  upsert_entity s now ((mbid :: values) ++ rest) d = Ok d' ->
  entity_rows (up_table s) d' =
    <[uuid_in mbid := upserted s now (excluded s (mbid :: values)) (entity_rows (up_table s) d !! uuid_in mbid)]>
      (entity_rows (up_table s) d).
Proof.
  intros Hlen Hu. apply upsert_entity_inv in Hu as (mbid' & values' & om & src & Hps & Hlen' & ->).
  apply app_inj_1 in Hps as [[= <- <-] _]; [|simpl in *; lia].
  case_match; [case_decide|]; by rewrite ?entity_rows_set_link_events, set_entity_rows_same.
Qed.
End facts.
