(* ===== verification/LinkEvents.v ===== *)
(** * The link history

    The events the four upserts of [brainztableinator/_persistence.py] append to
    [public.identity_link_events] when the Discogs id of a stored row changes:
    what one statement appends, and what a sequence of them leaves as the
    history of one entity. *)

From S2P Require Import Prelude PyValue Database.
From stdpp Require Import base gmap strings list option sorting.
From Stdlib Require Import ZArith Lia.

(** One execution of an upsert: the statement, the transaction's [NOW()] and the
    parameters, the key bound a second time for the comparison. *)
Record load_step : Type := LoadStep {
  step_upsert : upsert_spec;
  step_now : Z;
  step_mbid : param;
  step_values : list param;
  step_source : value;
}.

Definition step_params (st : load_step) : list param :=
  (step_mbid st :: step_values st) ++ [step_mbid st; Plain (step_source st)].

(** [before -> after] for each event in turn, ending at the last [after]. *)
Fixpoint chained (before : value) (l : list link_event) (after : value) : Prop :=
  match l with
  | [] => before = after
  | e :: l' =>
      ev_before e = before /\ ev_after e <> before /\ ev_event e = link_change_of before (ev_after e) /\
      chained (ev_after e) l' after
  end.

Definition concerns (s : upsert_spec) (u : uuid) (e : link_event) : Prop :=
  ev_provider e = "musicbrainz" /\ ev_entity_kind e = up_entity_kind s /\ ev_external_id e = u.

#[export] Instance concerns_dec s u e : Decision (concerns s u e).
Proof. unfold concerns. apply _. Defined.

(** The recorded history of one entity, and the link its row holds now. *)
Definition history (s : upsert_spec) (u : uuid) (d : db) : list link_event :=
  filter (concerns s u) (identity_link_events d).

Section history.
Context `{Postgres}.

Definition run_step (st : load_step) (d : db) : result exn db :=
  effect (step_now st) (EntityUpsert (step_upsert st) (step_params st)) d.

Fixpoint run_steps (l : list load_step) (d : db) : result exn db :=
  match l with
  | [] => Ok d
  | st :: l' => match run_step st d with Ok d1 => run_steps l' d1 | Raise e => Raise e end
  end.

(** The step writes the row of entity [u] of statement [s]. *)
Definition touches (s : upsert_spec) (u : uuid) (st : load_step) : Prop :=
  step_upsert st = s /\ uuid_in (step_mbid st) = u.

#[export] Instance touches_dec s u st : Decision (touches s u st).
Proof. unfold touches. apply _. Defined.

Lemma known_upserts_kind s1 s2 :
  s1 ∈ known_upserts -> s2 ∈ known_upserts -> up_entity_kind s1 = up_entity_kind s2 -> s1 = s2.
Proof. unfold known_upserts. rewrite !list_elem_of_In. simpl. intuition subst; try done. Qed.

Lemma known_upserts_table s1 s2 :
  s1 ∈ known_upserts -> s2 ∈ known_upserts -> up_table s1 = up_table s2 -> s1 = s2.
Proof. unfold known_upserts. rewrite !list_elem_of_In. simpl. intuition subst; try done. Qed.

Lemma link_change_of_spec before after :
  before <> after ->
  match link_change_of before after with
  | LinkAdded => before = VNull /\ after <> VNull
  | LinkRemoved => before <> VNull /\ after = VNull
  | LinkChanged => before <> VNull /\ after <> VNull
  end.
Proof. destruct before, after; simpl; naive_solver. Qed.

(** The event a step appends when its key is fresh. *)
Definition step_event (st : load_step) (before after : value) : link_event :=
  LinkEvent "musicbrainz" (up_entity_kind (step_upsert st)) (uuid_in (step_mbid st))
    (link_change_of before after) before after (step_now st) "groovemap_load" (step_source st).

(** The row and the events a step leaves. *)
Lemma run_step_inv st d d' :
  run_step st d = Ok d' ->
  let rows := entity_rows (up_table (step_upsert st)) in
  let u := uuid_in (step_mbid st) in
  exists r', rows d' = <[u := r']> (rows d) /\
    (forall t, t <> up_table (step_upsert st) -> entity_rows t d' = entity_rows t d) /\
    identity_link_events d' =
      match rows d !! u with
      | Some old =>
          let before := link_column (step_upsert st) old in
          let after := link_column (step_upsert st) r' in
          if decide (before = after) then identity_link_events d
          else insert_link_event (step_event st before after) (identity_link_events d)
      | None => identity_link_events d
      end.
Proof.
  unfold run_step. simpl. intros Hu. set (s := step_upsert st) in *.
  apply upsert_entity_inv in Hu as (m & vs & om & src & Hps & Hlen & Hd').
  unfold step_params in Hps. apply app_inj_2 in Hps as [[= <- <-] [= <- <-]]; [|done].
  cbv zeta in *. set (r' := upserted _ _ _ _) in *. clearbody r'. exists r'. split; [|split].
  - rewrite Hd'. case_match; [case_decide|]; by rewrite ?entity_rows_set_link_events, set_entity_rows_same.
  - intros t Ht. rewrite Hd'. case_match; [case_decide|];
      by rewrite ?entity_rows_set_link_events, set_entity_rows_other.
  - rewrite Hd'. case_match; [case_decide|]; by destruct (up_table s).
Qed.

Lemma run_step_rows st d d' :
  run_step st d = Ok d' ->
  let s := step_upsert st in
  let values := step_mbid st :: step_values st in
  let u := uuid_in (step_mbid st) in
  length values = length (up_columns s) /\
  entity_rows (up_table s) d' =
    <[u := upserted s (step_now st) (excluded s values) (entity_rows (up_table s) d !! u)]> (entity_rows (up_table s) d).
Proof.
  unfold run_step. simpl effect. intros Hu. cbv zeta.
  assert (length (step_mbid st :: step_values st) = length (up_columns (step_upsert st))) as Hlen.
  { pose proof Hu as Hu'. apply upsert_entity_inv in Hu' as (m & vs & om & src & Hps & Hlen & _).
    unfold step_params in Hps. apply (f_equal length) in Hps. rewrite !length_app in Hps. simpl in *. lia. }
  split; [done|]. by eapply upsert_entity_rows.
Qed.

Lemma insert_link_event_fresh e l :
  (forall e', e' ∈ l -> ev_provider e' = ev_provider e -> ev_entity_kind e' = ev_entity_kind e ->
     ev_external_id e' = ev_external_id e -> ev_at e' <> ev_at e) ->
  insert_link_event e l = l ++ [e].
Proof.
  intros Hf. unfold insert_link_event. rewrite decide_False; [done|].
  intros (e' & Hk & Hin)%list_elem_of_fmap. unfold idempotence_key in Hk. simplify_eq. by eapply Hf.
Qed.

(** The events of one entity after a step, for a history older than the step. *)
Lemma run_step_history s u st d d' :
  s ∈ known_upserts -> step_upsert st ∈ known_upserts ->
  (touches s u st -> Forall (fun e => ev_at e < step_now st)%Z (history s u d)) ->
  run_step st d = Ok d' ->
  if decide (touches s u st) then
    exists r', entity_rows (up_table s) d' !! u = Some r' /\
      history s u d' = history s u d ++
        match entity_rows (up_table s) d !! u with
        | Some old =>
            if decide (link_column s old = link_column s r') then []
            else [step_event st (link_column s old) (link_column s r')]
        | None => []
        end
  else entity_rows (up_table s) d' !! u = entity_rows (up_table s) d !! u /\ history s u d' = history s u d.
Proof.
  intros Hs Hk Hold Hrun. apply run_step_inv in Hrun as (r' & Hrows & Hother & Hev).
  unfold history in *. case_decide as Ht.
  - destruct (Ht) as [<- <-]. exists r'. rewrite Hrows, lookup_insert_eq. split; [done|].
    rewrite Hev. case_match; [cbv zeta; case_decide|]; rewrite ?app_nil_r; [done| |done].
    rewrite insert_link_event_fresh.
    + rewrite filter_app, filter_cons, filter_nil. rewrite decide_True; [done|]. repeat split.
    + intros e Hin Hp Hkind Hid Hat. specialize (Hold Ht). rewrite Forall_forall in Hold.
      specialize (Hold e). simpl in *. rewrite list_elem_of_filter in Hold.
      assert (ev_at e < step_now st)%Z; [apply Hold; by repeat split|lia].
  - split.
    + destruct (decide (up_table (step_upsert st) = up_table s)) as [Heq|Hne]; [|by rewrite Hother].
      apply known_upserts_table in Heq; [|done..]. subst s. rewrite Hrows, lookup_insert_ne; [done|].
      intros <-. by apply Ht.
    + rewrite Hev. case_match; [cbv zeta; case_decide|]; [done| |done].
      unfold insert_link_event. case_decide; [done|]. rewrite filter_app, filter_cons, filter_nil.
      rewrite decide_False; [by rewrite app_nil_r|]. intros (_ & Hkind & Hid). simpl in *.
      apply known_upserts_kind in Hkind; [|done..]. by apply Ht.
Qed.

Lemma chained_app a l b k c : chained a l b -> chained b k c -> chained a (l ++ k) c.
Proof. revert a. induction l as [|e l IH]; simpl; intros a; [by intros ->|]. naive_solver. Qed.

(** C16: the link history of an entity whose upserts do not race is complete. Take
    any sequence of upserts, of any of the four tables, run one whole transaction
    after the other, where the entity has a row at the start and each upsert of it
    runs at a [NOW()] later than the last and later than every event it has. The
    events appended for it form a chain from the link its row held before to the
    link it holds now: each event starts where the previous one ended, records a
    real change, and is of the kind its two ends say. (Two upserts at one [NOW()]
    keep only the first event, and racing ones can both start from the same link:
    see [Races].) *)
Theorem link_history_complete s u l d d' old :
  s ∈ known_upserts -> Forall (fun st => step_upsert st ∈ known_upserts) l ->
  StronglySorted (fun a b => touches s u a -> touches s u b -> step_now a < step_now b)%Z l ->
  Forall (fun st => touches s u st -> Forall (fun e => ev_at e < step_now st)%Z (history s u d)) l ->
  entity_rows (up_table s) d !! u = Some old ->
  run_steps l d = Ok d' ->
  exists r appended,
    entity_rows (up_table s) d' !! u = Some r /\
    history s u d' = history s u d ++ appended /\
    chained (link_column s old) appended (link_column s r).
Proof.
  intros Hs Hl Hsort. revert d old Hl.
  induction Hsort as [|st l Hsort IH Hst]; intros d old Hl Hat Hold Hrun; simpl in Hrun.
  { injection Hrun as <-. exists old, []. by rewrite app_nil_r. }
  destruct (run_step st d) as [d1|] eqn:E; [|done].
  inversion_clear Hl as [|? ? Hk Hl']. inversion_clear Hat as [|? ? Hst_at Hat'].
  pose proof (run_step_history s u st d d1 Hs Hk Hst_at E) as Hstep.
  case_decide as Ht.
  - destruct Hstep as (r1 & Hr1 & Hh1). rewrite Hold in Hh1.
    destruct (IH d1 r1 Hl') as (r & app & Hr & Hh & Hc); [|done..|].
    { rewrite Forall_forall in Hat', Hst |- *. intros st' Hin Ht'. rewrite Hh1. apply Forall_app. split; [by auto|].
      case_decide; constructor; [|constructor]. by apply Hst. }
    exists r. eexists. split; [done|]. split; [by rewrite Hh, Hh1, <- app_assoc|].
    apply (chained_app _ _ (link_column s r1)); [|done]. case_decide; simpl; [done|].
    repeat split; congruence.
  - destruct Hstep as [Hr1 Hh1]. rewrite <- Hh1 in *. rewrite Hold in Hr1.
    destruct (IH d1 old Hl') as (r & app & Hr & Hh & Hc); [by rewrite Hh1 in *|done..|].
    by exists r, app.
Qed.

Lemma assign_again l (new old : gmap string value) : assign l new (assign l new old) = assign l new old.
Proof. apply map_eq. intros c. rewrite !assign_lookup. repeat case_match; congruence. Qed.

Lemma assign_self l (new : gmap string value) : assign l new new = new.
Proof. apply map_eq. intros c. rewrite assign_lookup. repeat case_match; congruence. Qed.

Lemma upserted_again s now now' new old :
  upserted s now' new (Some (upserted s now new old)) = Row (row_columns (upserted s now new old)) now'.
Proof. destruct old; simpl; by rewrite ?assign_again, ?assign_self. Qed.

(** C28: an upsert is idempotent under redelivery. Running it again, in a later
    transaction and whatever its provenance, keeps every column of the row,
    refreshes its [updated_at], and appends no second link event. *)
Theorem upsert_redelivery st st' d d1 d2 :
  step_upsert st' = step_upsert st -> step_mbid st' = step_mbid st -> step_values st' = step_values st ->
  run_step st d = Ok d1 -> run_step st' d1 = Ok d2 ->
  let t := up_table (step_upsert st) in
  let u := uuid_in (step_mbid st) in
  exists r, entity_rows t d1 !! u = Some r /\
    entity_rows t d2 = <[u := Row (row_columns r) (step_now st')]> (entity_rows t d1) /\
    identity_link_events d2 = identity_link_events d1.
Proof.
  intros Hs Hm Hv H1 H2 t u.
  pose proof (run_step_inv _ _ _ H2) as (r' & Hr' & _ & He).
  apply run_step_rows in H1 as [_ H1], H2 as [_ H2].
  rewrite Hs, Hm, Hv in *. cbv zeta in *. fold t u in H1, H2, Hr', He.
  set (r := upserted _ _ _ _) in H1.
  assert (entity_rows t d1 !! u = Some r) as Hu by (by rewrite H1, lookup_insert_eq).
  rewrite Hu in H2, He. unfold r in H2 at 1. rewrite upserted_again in H2. fold r in H2.
  exists r. split_and!; [done|done|].
  assert (r' = Row (row_columns r) (step_now st')) as ->.
  { rewrite Hr' in H2. apply (f_equal (lookup u)) in H2. rewrite !lookup_insert_eq in H2. by injection H2. }
  rewrite He. by rewrite decide_True.
Qed.
End history.
