(* ===== verification/Persistence.v ===== *)
(** * The PostgreSQL writer

    [brainztableinator/_persistence.py]: a session is one transaction's
    connection (the database, the transaction's [NOW()], and the statements
    issued so far); a method of [PostgreSQLMusicBrainzWriter] is a computation
    over it. *)

From S2P Require Import Prelude PyValue Database.
From stdpp Require Import base gmap strings list option.
From Stdlib Require Import ZArith Lia.

Record session : Type := Session {
  s_db : db;
  s_now : Z;
  s_trace : list statement;
}.

Definition set_s_db (d : db) (se : session) : session := Session d (s_now se) (s_trace se).
Definition log_statement (s : statement) (se : session) : session :=
  Session (s_db se) (s_now se) (s_trace se ++ [s]).

Abbreviation sql A := (comp session exn A).

Section writer.
Context `{Postgres}.

(** [await cursor.execute(...)] *)
Definition execute (s : statement) : sql unit := fun se =>
  let se' := log_statement s se in
  match pg_error s (s_db se) with
  | Some e => (Raise e, se')
  | None =>
      match effect (s_now se) s (s_db se) with
      | Ok d => (Ok tt, set_s_db d se')
      | Raise e => (Raise e, se')
      end
  end.

(** [await cursor.executemany(...)] *)
Definition executemany {A} (statement_of : A -> statement) (rows : list A) : sql unit :=
  for_each rows (fun r => execute (statement_of r)).

(** [async with conn.transaction()]: an exception rolls the database back. *)
Definition transaction {A} (m : sql A) : sql A := fun se =>
  match m se with
  | (Raise e, se') => (Raise e, set_s_db (s_db se) se')
  | r => r
  end.

(** [values[i]] *)
Definition item (values : list value) (i : nat) : value := default VNull (values !! i).

(** The slice [values[a:b]], bound as plain parameters. *)
Definition plains (a b : nat) (values : list value) : list param := Plain <$> take (b - a) (drop a values).

Definition upsert_artist (values : list value) (source_ref : string) : sql unit :=
  execute (EntityUpsert artist_upsert
    (plains 0 13 values ++
     [Jsonb (item values 13); Jsonb (item values 14); Jsonb (item values 15); Plain (item values 16);
      Plain (item values 0); Plain (VStr source_ref)])).

Definition upsert_label (values : list value) (source_ref : string) : sql unit :=
  execute (EntityUpsert label_upsert
    (plains 0 10 values ++
     [Jsonb (item values 10); Plain (item values 11); Plain (item values 0); Plain (VStr source_ref)])).

Definition upsert_release (values : list value) (source_ref : string) : sql unit :=
  execute (EntityUpsert release_upsert
    (plains 0 6 values ++
     [Jsonb (item values 6); Jsonb (item values 7); Plain (item values 8); Plain (item values 0);
      Plain (VStr source_ref)])).

Definition upsert_release_group (values : list value) (source_ref : string) : sql unit :=
  execute (EntityUpsert release_group_upsert
    (plains 0 3 values ++ [Jsonb (item values 3)] ++ plains 4 7 values ++
     [Jsonb (item values 7); Plain (item values 8); Plain (item values 0); Plain (VStr source_ref)])).

(** [row[:5]], then [Jsonb(row[5])], then [row[6:]] *)
Definition relationship_params (row : list value) : list param :=
  plains 0 5 row ++ [Jsonb (item row 5)] ++ (Plain <$> drop 6 row).

Definition insert_relationships (refresh_updated_at : bool) (rows : list (list value)) : sql unit :=
  executemany (fun row => RelationshipUpsert refresh_updated_at (relationship_params row)) rows.

Definition insert_external_links (refresh_updated_at : bool) (rows : list (list value)) : sql unit :=
  executemany (fun row => ExternalLinkUpsert refresh_updated_at (Plain <$> row)) rows.

Definition upsert_media_families (names : list string) : sql unit :=
  match names with
  | [] => mret tt
  | _ => executemany MediaFamilyInsert names
  end.

Definition upsert_media (rows : list (string * string * string)) : sql unit :=
  match rows with
  | [] => mret tt
  | _ => executemany (fun '(medium_id, family, label) => MediumInsert medium_id family label) rows
  end.

(** The text hashed into the advisory lock's key. *)
Definition media_lock_key (source release_id : string) : string :=
  "graph.issued_on:" +:+ source +:+ ":" +:+ release_id.

Definition lock_release_media (release_id source : string) : sql unit :=
  execute (AdvisoryXactLock (media_lock_key source release_id)).

Definition replace_release_media_edges (release_id source : string)
    (rows : list (string * string * string * Z)) : sql unit :=
  lock_release_media release_id source ≫= fun _ =>
  execute (DeleteReleaseMedia release_id source) ≫= fun _ =>
  match rows with
  | [] => mret tt
  | _ => executemany (fun '(r, m, s, q) => InsertReleaseMedia r m s q) rows
  end.

(** The identity library's calls, on the same connection. *)
Definition identity_resolve (refs : list alias_ref) : sql ledger := fun se =>
  let '(answer, l) := resolve_aliases refs (provider_aliases (s_db se)) in
  match execute (ResolveAliases refs) se with
  | (Ok _, se') => (answer, se')
  | (Raise e, se') => (Raise e, se')
  end.

Definition identity_attach (mapping : ledger) : sql ledger := fun se =>
  let '(answer, l) := attach_aliases mapping (provider_aliases (s_db se)) in
  match execute (AttachAliases mapping) se with
  | (Ok _, se') => (answer, se')
  | (Raise e, se') => (Raise e, se')
  end.

(** ** Facts about sessions *)

Lemma execute_ok s se se' :
  execute s se = (Ok tt, se') ->
  pg_error s (s_db se) = None /\ effect (s_now se) s (s_db se) = Ok (s_db se') /\
  s_now se' = s_now se /\ s_trace se' = s_trace se ++ [s].
Proof.
  unfold execute. destruct (pg_error s (s_db se)); [done|].
  destruct (effect _ s _) as [d|e]; [|done]. by intros [= <-].
Qed.

Lemma execute_now s se : s_now (execute s se).2 = s_now se.
Proof. unfold execute. repeat case_match; done. Qed.

Lemma execute_trace s se : s_trace (execute s se).2 = s_trace se ++ [s].
Proof. unfold execute. repeat case_match; done. Qed.

Lemma execute_raise_db s se e se' : execute s se = (Raise e, se') -> s_db se' = s_db se.
Proof. unfold execute. repeat case_match; by intros [= <- <-]. Qed.

(** A transaction that raises leaves the database as it found it. *)
Lemma transaction_raise {A} (m : sql A) se e se' :
  transaction m se = (Raise e, se') -> s_db se' = s_db se.
Proof. unfold transaction. destruct (m se) as [[a|e'] se1]; [done|]. by intros [= _ <-]. Qed.

Lemma transaction_ok {A} (m : sql A) se a se' :
  transaction m se = (Ok a, se') <-> m se = (Ok a, se').
Proof. unfold transaction. destruct (m se) as [[a'|e'] se1]; naive_solver. Qed.

(** What holds of every statement of a batch holds of the batch. *)
Lemma executemany_ind {A} (f : A -> statement) (P : list A -> db -> db -> Prop) :
  (forall d, P [] d d) ->
  (forall x l d d1 d2 now, effect now (f x) d = Ok d1 -> P l d1 d2 -> P (x :: l) d d2) ->
  forall rows se se', executemany f rows se = (Ok tt, se') -> P rows (s_db se) (s_db se').
Proof.
  intros Hnil Hcons rows. induction rows as [|x rows IH]; intros se se' Hrun.
  - by injection Hrun as <-.
  - unfold executemany in Hrun. simpl in Hrun. run_inv. destruct a.
    apply execute_ok in Hrun0 as (_ & He & _). eapply Hcons; [exact He|]. by apply IH.
Qed.

(** ** The log determines the database

    Every write goes through [execute], so what a run that returns leaves is the
    replay of the statements it logged; a run that raises has logged a prefix. *)

Fixpoint replay (now : Z) (tr : list statement) (d : db) : result exn db :=
  match tr with
  | [] => Ok d
  | s :: tr' => match effect now s d with Ok d' => replay now tr' d' | Raise e => Raise e end
  end.

Lemma replay_app now tr1 tr2 d :
  replay now (tr1 ++ tr2) d = match replay now tr1 d with Ok d1 => replay now tr2 d1 | Raise e => Raise e end.
Proof. revert d. induction tr1 as [|s tr1 IH]; intros d; simpl; [done|]. by destruct (effect now s d). Qed.

Lemma replay_split now tr1 tr2 d d' :
  replay now (tr1 ++ tr2) d = Ok d' -> exists d1, replay now tr1 d = Ok d1 /\ replay now tr2 d1 = Ok d'.
Proof. rewrite replay_app. destruct (replay now tr1 d) as [d1|]; [|done]. eauto. Qed.

Lemma replay_one now s d d' : replay now [s] d = Ok d' -> effect now s d = Ok d'.
Proof. simpl. by destruct (effect now s d). Qed.

(** What holds of one statement's effect holds of a replay. *)
Lemma replay_ind now (P : list statement -> db -> db -> Prop) :
  (forall d, P [] d d) ->
  (forall s tr d d1 d2, effect now s d = Ok d1 -> P tr d1 d2 -> P (s :: tr) d d2) ->
  forall tr d d', replay now tr d = Ok d' -> P tr d d'.
Proof.
  intros Hnil Hcons tr. induction tr as [|s tr IH]; intros d d'; simpl; [by intros [= <-]|].
  destruct (effect now s d) as [d1|] eqn:E; [|done]. eauto.
Qed.

(** What every statement of a replay keeps, the replay keeps. *)
Lemma replay_frame {A} (f : db -> A) now tr d d' :
  Forall (fun s => forall d d', effect now s d = Ok d' -> f d' = f d) tr ->
  replay now tr d = Ok d' -> f d' = f d.
Proof.
  intros HF Hr. revert HF. revert tr d d' Hr. apply (replay_ind now (fun tr d d' => _ -> f d' = f d)); [done|].
  intros s tr d d1 d2 He IH HF. inversion_clear HF as [|? ? Hs Htr]. rewrite IH by done. by apply Hs.
Qed.

(** [m] logs [tr] when it returns, a prefix of it when it raises. *)
Definition logs {A} (m : sql A) (tr : list statement) : Prop := forall se,
  let '(r, se') := m se in
  s_now se' = s_now se /\
  match r with
  | Ok _ => s_trace se' = s_trace se ++ tr /\ replay (s_now se) tr (s_db se) = Ok (s_db se')
  | Raise _ => exists tr', tr' `prefix_of` tr /\ s_trace se' = s_trace se ++ tr'
  end.

Lemma execute_logs s : logs (execute s) [s].
Proof.
  intros se. unfold execute. destruct (pg_error s (s_db se)); [|destruct (effect _ s _) eqn:E];
    simpl; rewrite ?E; eauto.
Qed.

Lemma ret_logs {A} (a : A) : logs (mret a) [].
Proof. intros se. simpl. by rewrite app_nil_r. Qed.

Lemma bind_logs {A B} (m : sql A) (f : A -> sql B) tr1 tr2 :
  logs m tr1 -> (forall a, logs (f a) tr2) -> logs (m ≫= f) (tr1 ++ tr2).
Proof.
  intros Hm Hf se. specialize (Hm se). unfold mbind, comp_bind.
  destruct (m se) as [[a|e] se1]; destruct Hm as [Hn Hm].
  - destruct Hm as [Ht Hr]. specialize (Hf a se1). destruct (f a se1) as [[b|e] se2]; destruct Hf as [Hn2 Hf].
    + destruct Hf as [Ht2 Hr2]. rewrite Hn in *. split; [done|]. split; [by rewrite Ht2, Ht, <- app_assoc|].
      by rewrite replay_app, Hr.
    + rewrite Hn in *. split; [done|]. destruct Hf as (tr' & Hp & Ht2). exists (tr1 ++ tr'). split; [by apply prefix_app|].
      by rewrite Ht2, Ht, <- app_assoc.
  - split; [done|]. destruct Hm as (tr' & Hp & Ht). exists tr'. split; [by apply prefix_app_r|done].
Qed.

Lemma executemany_logs {A} (f : A -> statement) rows : logs (executemany f rows) (map f rows).
Proof.
  unfold executemany. induction rows as [|x rows IH]; simpl; [apply ret_logs|].
  apply (bind_logs _ _ [f x]); [apply execute_logs|done].
Qed.

Lemma session_logs_run {A} (m : sql A) tr se a se' :
  logs m tr -> m se = (Ok a, se') ->
  s_now se' = s_now se /\ s_trace se' = s_trace se ++ tr /\ replay (s_now se) tr (s_db se) = Ok (s_db se').
Proof. intros Hm Hrun. specialize (Hm se). rewrite Hrun in Hm. naive_solver. Qed.

(** The identity calls answer from the ledger they find. *)
Lemma identity_resolve_logs refs : logs (identity_resolve refs) [ResolveAliases refs].
Proof.
  intros se. unfold identity_resolve, execute, effect.
  destruct (resolve_aliases _ _) as [answer l] eqn:E. destruct (pg_error _ _); simpl; [by eauto|].
  rewrite E. destruct answer; eauto.
Qed.

Lemma identity_attach_logs m : logs (identity_attach m) [AttachAliases m].
Proof.
  intros se. unfold identity_attach, execute, effect.
  destruct (attach_aliases _ _) as [answer l] eqn:E. destruct (pg_error _ _); simpl; [by eauto|].
  rewrite E. destruct answer; eauto.
Qed.

Lemma upsert_media_families_logs names : logs (upsert_media_families names) (map MediaFamilyInsert names).
Proof. destruct names; [apply ret_logs|apply executemany_logs]. Qed.

Lemma upsert_media_logs rows :
  logs (upsert_media rows) (map (fun '(medium_id, family, label) => MediumInsert medium_id family label) rows).
Proof. destruct rows; [apply ret_logs|apply (executemany_logs _ (_ :: _))]. Qed.

Lemma replace_release_media_edges_logs release_id source rows :
  logs (replace_release_media_edges release_id source rows)
    (AdvisoryXactLock (media_lock_key source release_id) :: DeleteReleaseMedia release_id source ::
       map (fun '(r, m, s, q) => InsertReleaseMedia r m s q) rows).
Proof.
  apply (bind_logs _ _ [_]); [apply execute_logs|]. intros _.
  apply (bind_logs _ _ [_]); [apply execute_logs|]. intros _.
  destruct rows; [apply ret_logs|apply (executemany_logs _ (_ :: _))].
Qed.

(** ** Running a list of statements *)

Definition executes (tr : list statement) : sql unit := for_each tr execute.

(** [m] runs exactly the statements [tr], stopping at the first error. *)
Definition issues (m : sql unit) (tr : list statement) : Prop := forall se, m se = executes tr se.

Lemma executes_app tr1 tr2 se : executes (tr1 ++ tr2) se = (executes tr1 ≫= fun _ => executes tr2) se.
Proof.
  unfold executes, mbind, comp_bind. revert se. induction tr1 as [|s tr1 IH]; intros se; [done|].
  simpl. unfold mbind, comp_bind. destruct (execute s se) as [[?|e] se1]; [apply IH|done].
Qed.

Lemma execute_issues s : issues (execute s) [s].
Proof.
  intros se. unfold executes. simpl. unfold mbind, comp_bind. by destruct (execute s se) as [[[]|e] se1].
Qed.

Lemma bind_issues (m k : sql unit) tr1 tr2 :
  issues m tr1 -> issues k tr2 -> issues (m ≫= fun _ => k) (tr1 ++ tr2).
Proof.
  intros Hm Hk se. rewrite executes_app. unfold mbind, comp_bind. rewrite Hm.
  by destruct (executes tr1 se) as [[?|e] se1].
Qed.

Lemma executemany_issues {A} (f : A -> statement) rows : issues (executemany f rows) (map f rows).
Proof.
  intros se. unfold executemany, executes. revert se. induction rows as [|x rows IH]; intros se; [done|].
  simpl. unfold mbind, comp_bind. destruct (execute (f x) se) as [[?|e] se1]; [apply IH|done].
Qed.

Lemma upsert_media_families_issues names : issues (upsert_media_families names) (map MediaFamilyInsert names).
Proof. destruct names; [done|apply executemany_issues]. Qed.

Lemma upsert_media_issues rows :
  issues (upsert_media rows) (map (fun '(medium_id, family, label) => MediumInsert medium_id family label) rows).
Proof. destruct rows; [done|apply (executemany_issues _ (_ :: _))]. Qed.

Lemma replace_release_media_edges_issues release_id source rows :
  issues (replace_release_media_edges release_id source rows)
    (AdvisoryXactLock (media_lock_key source release_id) :: DeleteReleaseMedia release_id source ::
       map (fun '(r, m, s, q) => InsertReleaseMedia r m s q) rows).
Proof.
  apply (bind_issues _ _ [_]); [apply execute_issues|]. apply (bind_issues _ _ [_]); [apply execute_issues|].
  destruct rows; [done|apply (executemany_issues _ (_ :: _))].
Qed.

(** Statements the server answers run to the end, whatever the database. *)
Lemma executes_ok tr se d :
  (forall s d, s ∈ tr -> pg_error s d = None) ->
  replay (s_now se) tr (s_db se) = Ok d ->
  executes tr se = (Ok tt, Session d (s_now se) (s_trace se ++ tr)).
Proof.
  revert se. induction tr as [|s tr IH]; intros se Hpg; simpl.
  - intros [= <-]. rewrite app_nil_r. by destruct se.
  - destruct (effect (s_now se) s (s_db se)) as [d1|] eqn:E; [|done]. intros Hr.
    unfold executes. simpl. unfold mbind, comp_bind, execute at 1. rewrite Hpg by set_solver. rewrite E.
    change (for_each tr execute) with (executes tr). rewrite IH; [|set_solver|done].
    simpl. by rewrite <- app_assoc.
Qed.
End writer.

#[export] Hint Resolve execute_logs ret_logs executemany_logs identity_resolve_logs identity_attach_logs
  upsert_media_families_logs upsert_media_logs replace_release_media_edges_logs : loader.
