(* ===== verification/ChildRows.v ===== *)
(** * Child-row batches

    What [insert_relationships] and [insert_external_links] of
    [brainztableinator/_persistence.py] leave: one [executemany] over a batch,
    against a reference that groups the batch by key. *)

From S2P Require Import Prelude PyValue Database Persistence.
From stdpp Require Import base gmap strings list option sorting.
From Stdlib Require Import ZArith Lia.

(** The relationship a parameter row names: its key, its hashed columns, its
    [ended]. *)
Record rel_entry : Type := RelEntry {
  re_key : string;
  re_columns : rel_key;
  re_ended : value;
}.

(** ** The reference

    A key the batch names ends with the columns of the row that first held it
    and the last [ended] bound for it. A new row is written at [now]; an old one
    keeps its time unless the statement refreshes it. *)
Definition batch_row (refresh : bool) (now : Z) (es : list rel_entry) (old : option relationship_row) :
    option relationship_row :=
  match head es, last es with
  | Some first, Some final =>
      Some (RelationshipRow
        (match old with Some r => rel_columns r | None => re_columns first end)
        (re_ended final)
        (match old with Some r => if refresh then now else rel_updated_at r | None => now end))
  | _, _ => old
  end.

Definition batch_link (refresh : bool) (now : Z) (named : bool) (old : option Z) : option Z :=
  if named then Some (match old with Some t => if refresh then now else t | None => now end) else old.

Section child_rows.
Context `{Postgres}.

Definition rel_entry_of (ps : list param) : option rel_entry :=
  match rel_key_of_params ps with
  | Some (k, Plain v) | Some (k, Jsonb v) => Some (RelEntry (relationship_key k) k v)
  | None => None
  end.

(** The entries of a batch for one key. *)
Definition entries_for (k : string) (batch : list (list param)) : list rel_entry :=
  filter (fun e => re_key e = k) (omap rel_entry_of batch).

Definition link_key_of (ps : list param) : option link_key :=
  match ps with
  | [mbid; entity_type; url; service_name] =>
      Some (uuid_in mbid, text_in entity_type, text_in service_name, text_in url)
  | _ => None
  end.

(** ** The batches implement the reference *)

Lemma upsert_relationship_inv refresh now ps d d' :
  upsert_relationship refresh now ps d = Ok d' ->
  exists e, rel_entry_of ps = Some e /\
    d' = set_relationships (<[re_key e := default (RelationshipRow (re_columns e) (re_ended e) now)
            (batch_row refresh now [e] (relationships d !! re_key e))]> (relationships d)) d.
Proof.
  unfold upsert_relationship, rel_entry_of.
  destruct (rel_key_of_params ps) as [[k [v|v]]|]; intros [= <-]; eexists; (split; [done|]); simpl; by case_match.
Qed.

Lemma batch_row_snoc refresh now es e old :
  batch_row refresh now (es ++ [e]) old = batch_row refresh now [e] (batch_row refresh now es old).
Proof.
  unfold batch_row. rewrite last_snoc. destruct es as [|e0 es]; simpl; [done|].
  destruct (last (e0 :: es)) as [f|] eqn:E; [by destruct old, refresh|].
  by apply last_None in E.
Qed.

Lemma batch_row_cons refresh now e es old :
  batch_row refresh now (e :: es) old = batch_row refresh now es (batch_row refresh now [e] old).
Proof.
  induction es as [|e' es IH] using rev_ind; [done|].
  by rewrite app_comm_cons, !batch_row_snoc, IH.
Qed.

Lemma relationships_set m d : relationships (set_relationships m d) = m.
Proof. done. Qed.

Lemma relationship_batch_eq refresh now batch d d' :
  replay now (map (RelationshipUpsert refresh) batch) d = Ok d' ->
  (forall k, relationships d' !! k = batch_row refresh now (entries_for k batch) (relationships d !! k)) /\
  d' = set_relationships (relationships d') d.
Proof.
  revert d. induction batch as [|ps batch IH]; intros d; simpl.
  { intros [= <-]. split; [done|by destruct d]. }
  destruct (upsert_relationship refresh now ps d) as [d1|] eqn:E; [|done]. intros Hr.
  destruct (IH d1 Hr) as [Hk Hd]. apply upsert_relationship_inv in E as (e & He & ->).
  split; [|by rewrite Hd at 1]. intros k. rewrite Hk, relationships_set.
  unfold entries_for. csimpl. rewrite He, filter_cons. case_decide as Hek.
  - subst k. rewrite lookup_insert_eq, batch_row_cons. by destruct (relationships d !! re_key e).
  - by rewrite lookup_insert_ne.
Qed.

(** A batch replayed again leaves what one replay at the later time leaves. *)
Lemma batch_row_again refresh now now' es old :
  batch_row refresh now' es (batch_row refresh now es old) =
    match batch_row refresh now es old with
    | Some r => Some (RelationshipRow (rel_columns r) (rel_ended r)
                  (if bool_decide (es <> []) && refresh then now' else rel_updated_at r))
    | None => None
    end.
Proof.
  unfold batch_row. destruct es as [|e es]; [by destruct old as [[]|]|].
  rewrite (bool_decide_eq_true_2 (e :: es <> [])) by done. simpl head.
  destruct (last (e :: es)) eqn:E; [by destruct old, refresh|]. by apply last_None in E.
Qed.

(** C27: a batch of relationships groups by key, and its redelivery is a refresh.
    After [executemany] over any batch, every key it names holds the columns
    that first claimed the key, the last [ended] bound for it and the refreshed
    time, every other key is as before, and no other table changes. Executing
    the same batch again, in a later transaction, changes no column: it only
    moves the [updated_at] of the named rows, and that only when the statement
    refreshes it. *)
Theorem relationship_batch_groups refresh now now' batch d d1 d2 :
  replay now (map (RelationshipUpsert refresh) batch) d = Ok d1 ->
  replay now' (map (RelationshipUpsert refresh) batch) d1 = Ok d2 ->
  (forall k, relationships d1 !! k = batch_row refresh now (entries_for k batch) (relationships d !! k)) /\
  d1 = set_relationships (relationships d1) d /\
  (forall k, relationships d2 !! k =
     match relationships d1 !! k with
     | Some r => Some (RelationshipRow (rel_columns r) (rel_ended r)
                   (if bool_decide (entries_for k batch <> []) && refresh then now' else rel_updated_at r))
     | None => None
     end) /\
  d2 = set_relationships (relationships d2) d1.
Proof.
  intros H1 H2. apply relationship_batch_eq in H1 as [Hk1 Hd1], H2 as [Hk2 Hd2].
  split_and!; [done|done| |done]. intros k. rewrite Hk2, Hk1. apply batch_row_again.
Qed.

Lemma external_link_batch_eq refresh now batch d d' :
  replay now (map (ExternalLinkUpsert refresh) batch) d = Ok d' ->
  (forall k, external_links d' !! k =
     batch_link refresh now (bool_decide (k ∈ omap link_key_of batch)) (external_links d !! k)) /\
  d' = set_external_links (external_links d') d.
Proof.
  revert d. induction batch as [|ps batch IH]; intros d; simpl.
  { intros [= <-]. split; [done|by destruct d]. }
  destruct (upsert_external_link refresh now ps d) as [d1|] eqn:E; [|done]. intros Hr.
  destruct (IH d1 Hr) as [Hk Hd]. unfold upsert_external_link in E.
  destruct ps as [|mbid [|ty [|url [|service []]]]]; try done. injection E as <-.
  split; [|by rewrite Hd at 1]. intros k. rewrite Hk. simpl external_links. csimpl.
  set (k0 := (uuid_in mbid, text_in ty, text_in service, text_in url)). unfold batch_link.
  destruct (decide (k = k0)) as [->|Hne].
  - rewrite lookup_insert_eq, (bool_decide_eq_true_2 (k0 ∈ k0 :: _)) by set_solver.
    case_bool_decide; [|done]. destruct (external_links d !! k0); [by destruct refresh|by destruct refresh].
  - rewrite lookup_insert_ne by done.
    rewrite (bool_decide_ext (k ∈ k0 :: omap link_key_of batch) (k ∈ omap link_key_of batch)) by set_solver. done.
Qed.
End child_rows.
