(* ===== verification/Media.v ===== *)
(** * Release media

    The derivation of the [graph.issued_on] rows from a canonical media block:
    [_medium_quantity], [_medium_label] and [media_edge_rows] of
    [brainztableinator/_record_processing.py]. The medium vocabulary is
    [common.media]'s, a parameter. *)

From S2P Require Import Prelude PyValue.
From stdpp Require Import base gmap strings list option sorting.
From Stdlib Require Import ZArith Lia.

Definition MEDIA_SOURCE : string := "musicbrainz".
Definition MAX_MEDIUM_QUANTITY : Z := 999999999.

(** [_medium_quantity]: a bool is an int to Python, and is not a quantity. *)
Definition medium_quantity (v : value) : Z :=
  match v with
  | VInt z => if ((1 <=? z) && (z <=? MAX_MEDIUM_QUANTITY))%Z then z else 1
  | _ => 1
  end.

Record edge_row : Type := EdgeRow {
  edge_medium : string;
  edge_family : string;
  edge_label : string;
  edge_qty : Z;
}.

#[export] Instance edge_row_eq_dec : EqDecision edge_row.
Proof. solve_decision. Defined.

Section media.
(** [common.media.medium_label], [None] for its KeyError. *)
Context (vocabulary : string -> option string).

(** [_medium_label] *)
Definition medium_label (medium_id : string) : string := default medium_id (vocabulary medium_id).

(** The medium, family and quantity of an entry that names both. *)
Definition media_entry (item : value) : option (string * string * Z) :=
  d ← as_dict item;
  medium_id ← as_str (get d "medium");
  family ← as_str (get d "family");
  if decide (medium_id = "" \/ family = "") then None
  else Some (medium_id, family, medium_quantity (get d "qty")).

(** One iteration of the loop over the items. *)
Definition add_media_item (rows : gmap string edge_row) (item : value) : gmap string edge_row :=
  match media_entry item with
  | None => rows
  | Some (medium_id, family, quantity) =>
      match rows !! medium_id with
      | None => <[medium_id := EdgeRow medium_id family (medium_label medium_id) quantity]> rows
      | Some r =>
          <[medium_id := EdgeRow (edge_medium r) (edge_family r) (edge_label r) (edge_qty r + quantity)]> rows
      end
  end.

Definition collect_media (items : list value) : gmap string edge_row := foldl add_media_item ∅ items.

(** [[rows[m] for m in sorted(rows)]] *)
Definition sorted_rows (rows : gmap string edge_row) : list edge_row :=
  omap (fun m => rows !! m) (sorted (map_to_list rows).*1).

Definition media_edge_rows (media : dict) : result exn (list edge_row) :=
  items ← py_iter (or_else (get media "items") (VList []));
  Ok (sorted_rows (collect_media items)).

(** ** The reference: [GROUP BY medium] with [SUM(qty)] *)

Definition entries (items : list value) : list (string * string * Z) := omap media_entry items.

Definition group_qty (m : string) (l : list (string * string * Z)) : Z :=
  sumZ (map (fun e => e.2) (filter (fun e => e.1.1 = m) l)).

Definition first_family (m : string) (l : list (string * string * Z)) : option string :=
  e ← head (filter (fun e => e.1.1 = m) l); Some e.1.2.

(** The row the grouping query yields for a medium, when it has an entry. *)
Definition group_row (l : list (string * string * Z)) (m : string) : option edge_row :=
  family ← first_family m l; Some (EdgeRow m family (medium_label m) (group_qty m l)).

(** The grouping query as a whole, ordered by medium. *)
Definition group_rows (l : list (string * string * Z)) : list edge_row :=
  omap (group_row l) (sorted (dedup (map (fun e => e.1.1) l))).

(** ** Facts *)

Lemma medium_quantity_bounds v : (1 <= medium_quantity v <= MAX_MEDIUM_QUANTITY)%Z.
Proof.
  unfold medium_quantity, MAX_MEDIUM_QUANTITY. repeat case_match; lia.
Qed.

Lemma media_entry_qty item m f q :
  media_entry item = Some (m, f, q) -> (1 <= q <= MAX_MEDIUM_QUANTITY)%Z.
Proof.
  unfold media_entry. destruct (as_dict item) as [d|]; [|done]; cbn.
  destruct (as_str (get d "medium")); [|done]; cbn.
  destruct (as_str (get d "family")); [|done]; cbn.
  case_decide; [done|]. intros [= <- <- <-]. apply medium_quantity_bounds.
Qed.

Lemma group_qty_snoc m l e :
  group_qty m (l ++ [e]) = (group_qty m l + if decide (e.1.1 = m) then e.2 else 0)%Z.
Proof.
  unfold group_qty. rewrite filter_app, map_app, sumZ_app, filter_cons, filter_nil.
  case_decide; simpl; lia.
Qed.

Lemma first_family_snoc m l e :
  first_family m (l ++ [e]) =
    match first_family m l with
    | Some f => Some f
    | None => if decide (e.1.1 = m) then Some e.1.2 else None
    end.
Proof.
  unfold first_family. rewrite filter_app, filter_cons, filter_nil.
  destruct (filter _ l) as [|x l']; simpl; [|done]. by case_decide.
Qed.

Lemma first_family_None m l : first_family m l = None -> group_qty m l = 0%Z.
Proof.
  unfold first_family, group_qty. by destruct (filter _ l) as [|x l'].
Qed.

(** The loop computes the grouping, medium by medium. *)
Lemma collect_media_lookup items m :
  collect_media items !! m = group_row (entries items) m.
Proof.
  unfold collect_media, entries. revert m. induction items as [|x items IH] using rev_ind; intros m.
  - simpl. by rewrite lookup_empty.
  - rewrite foldl_app, omap_app; simpl. unfold add_media_item.
    destruct (media_entry x) as [[[k f] q]|]; [|by rewrite app_nil_r].
    unfold group_row. rewrite first_family_snoc, group_qty_snoc; simpl.
    rewrite IH. unfold group_row at 1. destruct (decide (k = m)) as [->|Hne].
    + destruct (first_family m (omap media_entry items)) eqn:E; simpl; rewrite lookup_insert_eq; [done|].
      by rewrite first_family_None.
    + destruct (first_family k (omap media_entry items)); simpl; rewrite lookup_insert_ne by done;
        rewrite IH; unfold group_row; destruct (first_family m _); simpl; by rewrite ?Z.add_0_r.
Qed.

Lemma group_row_Some l m : is_Some (group_row l m) <-> m ∈ map (fun e => e.1.1) l.
Proof.
  unfold group_row, first_family. rewrite list_elem_of_fmap.
  destruct (filter (fun e => e.1.1 = m) l) as [|e l'] eqn:E; simpl.
  - split; [by intros [? ?]|]. intros (e & -> & He).
    assert (e ∈ filter (fun x : string * string * Z => x.1.1 = e.1.1) l) as Hin
      by (by apply list_elem_of_filter).
    rewrite E in Hin. by apply not_elem_of_nil in Hin.
  - split; [intros _|by eauto].
    assert (e ∈ filter (fun x : string * string * Z => x.1.1 = m) l) as Hin by (rewrite E; constructor).
    apply list_elem_of_filter in Hin as [<- Hin]. eauto.
Qed.

Lemma collect_media_keys items :
  (map_to_list (collect_media items)).*1 ≡ₚ dedup (map (fun e => e.1.1) (entries items)).
Proof.
  apply NoDup_Permutation; [apply NoDup_fst_map_to_list|apply dedup_NoDup|]. intros m.
  rewrite elem_of_dedup, <- group_row_Some, <- collect_media_lookup, list_elem_of_fmap. split.
  - intros ([m' r] & -> & Hr%elem_of_map_to_list). eauto.
  - intros [r Hr]. exists (m, r). by rewrite elem_of_map_to_list.
Qed.

Lemma sorted_rows_collect items : sorted_rows (collect_media items) = group_rows (entries items).
Proof.
  unfold sorted_rows, group_rows. rewrite (sorted_ext _ _ (collect_media_keys items)).
  apply list_omap_ext. apply Forall2_same_length_lookup_2; [done|].
  intros k m m' Hm Hm'. simplify_eq. by rewrite collect_media_lookup.
Qed.

Lemma group_row_qty_bounds l m r :
  Forall (fun e => 1 <= e.2 <= MAX_MEDIUM_QUANTITY)%Z l ->
  group_row l m = Some r ->
  edge_medium r = m /\ (1 <= edge_qty r <= MAX_MEDIUM_QUANTITY * Z.of_nat (length l))%Z.
Proof.
  intros Hl Hr. unfold group_row, first_family in Hr.
  destruct (filter (fun e => e.1.1 = m) l) as [|e l'] eqn:E; simpl in Hr; simplify_eq. simpl.
  split; [done|]. unfold group_qty. rewrite E.
  assert (Forall (fun q => 1 <= q <= MAX_MEDIUM_QUANTITY)%Z (map (fun e => e.2) (e :: l'))) as Hb.
  { rewrite <- E. apply Forall_forall. intros q (x & -> & [_ Hx]%list_elem_of_filter)%list_elem_of_fmap.
    rewrite Forall_forall in Hl. by apply Hl. }
  apply sumZ_bounds in Hb. rewrite length_map in Hb. cbn [length] in Hb.
  assert (length (e :: l') <= length l)%nat as Hle by (rewrite <- E; apply length_filter).
  cbn [length] in Hle. unfold MAX_MEDIUM_QUANTITY in *. lia.
Qed.

Lemma entries_bounds items : Forall (fun e => 1 <= e.2 <= MAX_MEDIUM_QUANTITY)%Z (entries items).
Proof.
  unfold entries. apply Forall_forall. intros [[m f] q] (x & _ & Hx)%list_elem_of_omap.
  by apply media_entry_qty in Hx.
Qed.

Lemma entries_length items : (length (entries items) <= length items)%nat.
Proof.
  unfold entries. induction items as [|x items IH]; csimpl; [lia|].
  destruct (media_entry x); simpl; lia.
Qed.

Lemma group_rows_mediums l : map edge_medium (group_rows l) = sorted (dedup (map (fun e => e.1.1) l)).
Proof.
  unfold group_rows.
  assert (forall k, Forall (fun m => is_Some (group_row l m)) k ->
            map edge_medium (omap (group_row l) k) = k) as Hk.
  { induction 1 as [|m k [r Hr] _ IH]; csimpl; [done|]. rewrite Hr; csimpl. rewrite IH. f_equal.
    unfold group_row, first_family in Hr.
    destruct (filter _ l); simpl in Hr; by simplify_eq. }
  apply Hk, Forall_forall. intros m. rewrite elem_of_sorted, elem_of_dedup. apply group_row_Some.
Qed.

Lemma media_edge_rows_eq (media : dict) :
  media_edge_rows media =
    (items ← py_iter (or_else (get media "items") (VList [])); Ok (group_rows (entries items))).
Proof.
  unfold media_edge_rows. destruct (py_iter _) as [items|e]; cbn; [|done].
  by rewrite sorted_rows_collect.
Qed.

Lemma media_edge_rows_NoDup (media : dict) rows : media_edge_rows media = Ok rows -> NoDup (map edge_medium rows).
Proof.
  rewrite media_edge_rows_eq. destruct (py_iter _); [|done]. intros [= <-].
  rewrite group_rows_mediums. auto with loader.
Qed.

(** C38: [media_edge_rows] is the grouping query: for every block, one
    row per medium in sorted order, its family and label those of the medium's
    first entry, its quantity the sum over the medium's entries; it raises
    exactly when [items] is truthy and cannot be iterated. *)
Theorem media_edge_rows_group_by (media : dict) :
  media_edge_rows media =
    match py_iter (or_else (get media "items") (VList [])) with
    | Ok items => Ok (group_rows (entries items))
    | Raise e => Raise e
    end.
Proof. rewrite media_edge_rows_eq. by destruct (py_iter _). Qed.

(** The rows of a block have distinct mediums in increasing
    order, and every quantity is at least one and at most nine digits' worth per
    item of the block, so it cannot overflow the [bigint] column for any block a
    message can carry. *)
Theorem media_edge_rows_sorted_bounded (media : dict) (rows : list edge_row) :
  media_edge_rows media = Ok rows ->
  NoDup (map edge_medium rows) /\
  StronglySorted String.le (map edge_medium rows) /\
  exists items, py_iter (or_else (get media "items") (VList [])) = Ok items /\
    Forall (fun r => 1 <= edge_qty r <= 999999999 * Z.of_nat (length items))%Z rows.
Proof.
  rewrite (media_edge_rows_eq media). destruct (py_iter _) as [items|e]; [intros [= <-]|done].
  rewrite group_rows_mediums. split; [auto with loader|]. split; [auto with loader|].
  exists items. split; [done|]. apply Forall_forall. intros r (m & _ & Hr)%list_elem_of_omap.
  apply group_row_qty_bounds in Hr as [_ Hr]; [|apply entries_bounds].
  pose proof (entries_length items). unfold MAX_MEDIUM_QUANTITY in Hr. lia.
Qed.
End media.
