(* ===== verification/RecordProcessing.v ===== *)
(** * Record processing

    [brainztableinator/_record_processing.py]: the mapping of a catalog record
    onto its rows, and the four [process_*] methods. The world of a computation
    is the message's session together with what the observer recorded and the
    alias-conflict summary. [common]'s media mapper, medium vocabulary and
    identifier helper are the class [Common]. *)

From S2P Require Import Prelude PyValue Database Persistence Media.
From stdpp Require Import base gmap strings list option.
From Stdlib Require Import ZArith Lia.

(** ** The world *)

(** What reaches the [BatchObserver] and the info log. *)
Inductive observation : Type :=
| FlushOpened (entity : string)
| BatchRecorded (entity : string) (size : Z) (timed : bool) (outcome : string)
      (** [timed] when [perf_counter] was read around the write; a skipped batch has [0.0] *)
| OutcomeSet (outcome : string)
| AliasConflict (entity identifier : string)
| ConflictSummary (conflicts : Z) (by_kind : gmap (string * string) Z).

(** [_AliasConflictSummary]; times are microseconds of the monotonic clock. *)
Record summary : Type := Summary {
  pending : gmap (string * string) Z;
  last_emitted : Z;
}.

Record world : Type := World {
  w_session : session;
  w_observed : list observation;
  w_summary : summary;
  w_monotonic : Z;
}.

Definition set_session (se : session) (w : world) : world :=
  World se (w_observed w) (w_summary w) (w_monotonic w).
Definition observe (o : observation) (w : world) : world :=
  World (w_session w) (w_observed w ++ [o]) (w_summary w) (w_monotonic w).
Definition set_summary (s : summary) (w : world) : world :=
  World (w_session w) (w_observed w) s (w_monotonic w).

Abbreviation proc A := (comp world exn A).

Definition on_session {A} (m : sql A) : proc A := zoom w_session set_session m.
Definition observes (o : observation) : proc unit := modifies (observe o).

(** ** Alias-conflict summary *)

Definition ALIAS_CONFLICT_SUMMARY_INTERVAL : Z := 60000000.

Definition sum_counts (m : gmap (string * string) Z) : Z := sumZ (map_to_list m).*2.

(** [_AliasConflictSummary.add] *)
Definition summary_add (entity identifier : string) : proc unit := fun w =>
  let s := w_summary w in
  let k := (entity, identifier) in
  let p := <[k := (default 0 (pending s !! k) + 1)%Z]> (pending s) in
  let now := w_monotonic w in
  if (now - last_emitted s <? ALIAS_CONFLICT_SUMMARY_INTERVAL)%Z
  then (Ok tt, set_summary (Summary p (last_emitted s)) w)
  else (Ok tt, set_summary (Summary ∅ now) (observe (ConflictSummary (sum_counts p) p) w)).

(** ** Field helpers *)

(** [_get_or]: the default when the producer emitted an explicit null. *)
Definition get_or (record : dict) (key : string) (d : value) : value :=
  match get record key with VNull => d | v => v end.

Definition UNVERSIONED_SOURCE_REF : string := "unversioned".

Definition source_ref (record : dict) : string :=
  match get record "dump_version" with
  | VStr s => if decide (s = "") then UNVERSIONED_SOURCE_REF else s
  | _ => UNVERSIONED_SOURCE_REF
  end.

Definition CHILD_ROW_KEYS : list string := ["relations"; "external_links"].

Definition stored_data (record : dict) : dict := filter (fun kv => kv.1 ∉ CHILD_ROW_KEYS) record.

Definition life_span (record : dict) : dict := default [] (as_dict (get record "life_span")).

(** [_canonical_entity_type]: the dict lookup raises on an unhashable key. *)
Definition canonical_entity_type (v : value) : result exn value :=
  if hashable v then
    Ok (if decide (v = VStr "release_group") then VStr "release-group" else v)
  else Raise TypeError.

(** [record.get("mbid", record.get("id", ""))] *)
Definition mbid_of (record : dict) : value :=
  get_default record "mbid" (get_default record "id" (VStr "")).

(** ** The compatibility identifiers block *)

Definition identifier_item (identifier_type value source_field : string) : PyValue.value :=
  VDict [("type", VStr identifier_type); ("value", VStr value); ("description", VNull);
         ("source", VDict [("provider", VStr "musicbrainz"); ("type", VNull); ("field", VStr source_field)])].

(** The catalogue number an entry names. *)
Definition catalog_number (entry : value) : option string :=
  d ← as_dict entry; nonblank (get d "catalog_number").

(** The items of the block, each with its type. *)
Definition legacy_items (record : dict) : list (string * value) :=
  match nonblank (get record "barcode") with
  | Some barcode => [("barcode", identifier_item "barcode" barcode "barcode")]
  | None => []
  end ++
  match get record "catalog_numbers" with
  | VList entries =>
      (fun n => ("catalog_number", identifier_item "catalog_number" n "label-info[].catalog-number"))
        <$> omap catalog_number entries
  | _ => []
  end.

Definition legacy_identifiers_block (record : dict) : option value :=
  match legacy_items record with
  | [] => None
  | items =>
      Some (VDict [("identifiers_version", VStr "1");
                   ("items", VList (snd <$> items));
                   ("types", VList (VStr <$> dedup (fst <$> items)));
                   ("aliases", VList []);
                   ("unmapped", VDict [("types", VList [])])])
  end.

(** ** Child rows *)

(** The row of one relationship, [None] when it lacks a target or a type. A
    backward relationship is stored from its target's side. *)
Definition relationship_row (source_mbid source_type : value) (relationship : value) : result exn (option (list value)) :=
  r ← dict_of relationship;
  if truthy (get r "target_mbid") && truthy (get r "target_type") && truthy (get r "type") then
    target_type ← canonical_entity_type (get r "target_type");
    let target_mbid := get r "target_mbid" in
    let endpoints :=
      if decide (get r "direction" = VStr "backward")
      then [target_mbid; target_type; source_mbid; source_type]
      else [source_mbid; source_type; target_mbid; target_type] in
    Ok (Some (endpoints ++
         [get_default r "type" (VStr ""); get_or r "attributes" (VList []);
          get r "begin_date"; get r "end_date"; get_or r "ended" (VBool false)]))
  else Ok None.

Definition relationship_rows (source_mbid : value) (source_type : string) (relationships : value) :
    result exn (list (list value)) :=
  canonical ← canonical_entity_type (VStr source_type);
  l ← py_iter relationships;
  rows ← traverse (relationship_row source_mbid canonical) l;
  Ok (somes rows).

Definition external_link_row (mbid : value) (entity_type : string) (link : value) : result exn (option (list value)) :=
  d ← dict_of link;
  Ok (if truthy (get d "url") && truthy (get d "service")
      then Some [mbid; VStr entity_type; get_default d "url" (VStr ""); get_default d "service" (VStr "")]
      else None).

Definition external_link_rows (mbid : value) (entity_type : string) (links : value) : result exn (list (list value)) :=
  l ← py_iter links;
  rows ← traverse (external_link_row mbid entity_type) l;
  Ok (somes rows).

(** ** What [common] brings *)

Class Common : Type := {
  (** [common.media.medium_label] *)
  vocabulary : string -> option string;
  (** [common.map_musicbrainz_release] *)
  media_mapper : dict -> result exn dict;
  (** [common.identifiers.alias_refs_for_release] *)
  alias_refs_for_release : value -> result exn (list alias_ref);
  (** [common.flush_span], called by the observer's [flush] unguarded: what opening
      the span of an entity raises, after so many events. *)
  flush_span_error : nat -> string -> option exn;
}.

(** The value bound for an optional native id. *)
Definition uuid_value (u : option uuid) : value := match u with Some u => VStr u | None => VNull end.

Definition RELEASE_GROUP_ENTITY_KIND : string := "master".

Section processor.
Context `{PyRepr} `{Postgres} `{Common}.
(** [PostgreSQLMusicBrainzWriter.refresh_updated_at] *)
Context (refresh_updated_at : bool).

(** [with self._observer.flush(entity)]: a span that does not open raises. *)
Definition open_flush (entity : string) : proc unit :=
  reads (fun w => flush_span_error (length (w_observed w)) entity) ≫= fun error =>
  match error with
  | Some e => raise e
  | None => observes (FlushOpened entity)
  end.

(** The batch protocol the two child-row writes share: one flush span, and once
    it is open one record and one outcome, on every path out. *)
Definition write_batch (entity : string) (rows : list (list value)) (write : sql unit) : proc unit :=
  open_flush entity ≫= fun _ =>
  match rows with
  | [] =>
      observes (BatchRecorded entity 0 false "skipped") ≫= fun _ =>
      observes (OutcomeSet "skipped")
  | _ =>
      catch (on_session write)
        (fun e =>
           observes (BatchRecorded entity (Z.of_nat (length rows)) true "failed") ≫= fun _ =>
           observes (OutcomeSet "failed") ≫= fun _ =>
           raise e) ≫= fun _ =>
      observes (BatchRecorded entity (Z.of_nat (length rows)) true "processed") ≫= fun _ =>
      observes (OutcomeSet "processed")
  end.

(** The canonical spelling of a type the loader itself names. *)
Definition canonical_label (entity_type : string) : string :=
  if decide (entity_type = "release_group") then "release-group" else entity_type.

Definition process_relationships (source_mbid : value) (source_type : string) (relationships : value) : proc unit :=
  lift (relationship_rows source_mbid source_type relationships) ≫= fun rows =>
  write_batch (canonical_label source_type) rows (insert_relationships refresh_updated_at rows).

Definition process_external_links (mbid : value) (entity_type : string) (links : value) : proc unit :=
  lift (external_link_rows mbid entity_type links) ≫= fun rows =>
  write_batch (canonical_label entity_type) rows (insert_external_links refresh_updated_at rows).

(** An [AliasRef] as a dictionary's key: hashing it hashes its external id. *)
Definition hash_ref (ref : alias_ref) : proc unit :=
  if hashable (ref_external_id ref) then mret tt else raise TypeError.

(** [_native_id]: attach to the Discogs item when its alias resolves, mint
    through the MusicBrainz alias otherwise. *)
Definition native_id (entity_kind : string) (mbid discogs_id : value) : proc (option uuid) :=
  if truthy mbid then
    let musicbrainz_ref := AliasRef "musicbrainz" entity_kind mbid in
    let mint :=
      on_session (identity_resolve [musicbrainz_ref]) ≫= fun m =>
      hash_ref musicbrainz_ref ≫= fun _ => mret (lookup_ref m musicbrainz_ref) in
    if truthy discogs_id then
      let discogs_ref := AliasRef "discogs" entity_kind (VStr (py_str discogs_id)) in
      on_session (identity_resolve [discogs_ref]) ≫= fun m =>
      match lookup_ref m discogs_ref with
      | Some native =>
          hash_ref musicbrainz_ref ≫= fun _ =>
          on_session (identity_attach [(musicbrainz_ref, native)]) ≫= fun attached =>
          mret (Some (default native (lookup_ref attached musicbrainz_ref)))
      | None => mint
      end
    else mint
  else mret None.

Definition process_artist (record : dict) : proc unit :=
  let mbid := mbid_of record in
  let span := life_span record in
  native_id "artist" mbid (get record "discogs_artist_id") ≫= fun gm_item_id =>
  on_session (upsert_artist
    [mbid;
     get_default record "name" (VStr "");
     get_default record "sort_name" (VStr "");
     get_default record "mb_type" (VStr "");
     get_default record "gender" (VStr "");
     get_or record "begin_date" (get span "begin");
     get_or record "end_date" (get span "end");
     get_or record "ended" (get_or span "ended" (VBool false));
     get_default record "area" (VStr "");
     get_default record "begin_area" (VStr "");
     get_default record "end_area" (VStr "");
     get_default record "disambiguation" (VStr "");
     get record "discogs_artist_id";
     get_or record "aliases" (VList []);
     get_or record "tags" (VList []);
     VDict (stored_data record);
     uuid_value gm_item_id]
    (source_ref record)) ≫= fun _ =>
  process_relationships mbid "artist" (get_default record "relations" (VList [])) ≫= fun _ =>
  process_external_links mbid "artist" (get_default record "external_links" (VList [])).

Definition process_label (record : dict) : proc unit :=
  let mbid := mbid_of record in
  let span := life_span record in
  native_id "label" mbid (get record "discogs_label_id") ≫= fun gm_item_id =>
  on_session (upsert_label
    [mbid;
     get_default record "name" (VStr "");
     get_default record "mb_type" (VStr "");
     get record "label_code";
     get_or record "begin_date" (get span "begin");
     get_or record "end_date" (get span "end");
     get_or record "ended" (get_or span "ended" (VBool false));
     get_default record "area" (VStr "");
     get_default record "disambiguation" (VStr "");
     get record "discogs_label_id";
     VDict (stored_data record);
     uuid_value gm_item_id]
    (source_ref record)) ≫= fun _ =>
  process_relationships mbid "label" (get_default record "relations" (VList [])) ≫= fun _ =>
  process_external_links mbid "label" (get_default record "external_links" (VList [])).

(** [release_media_block] *)
Definition release_media_block (record : dict) : result exn dict :=
  match get record "media" with
  | VDict media => Ok media
  | _ =>
      media_mapper
        [("media", or_else (get record "media_raw") (VList []));
         ("status", get record "status");
         ("packaging", get record "packaging");
         ("release_group", get record "release_group")]
  end.

(** [write_release_media]: whether media was written. *)
Definition write_release_media (record media : dict) : proc bool :=
  if is_none (get record "discogs_release_id") then mret false
  else
    let release_id := py_str (get record "discogs_release_id") in
    lift (media_edge_rows vocabulary media) ≫= fun rows =>
    on_session (upsert_media_families (sorted (dedup (map edge_family rows)))) ≫= fun _ =>
    on_session (upsert_media (map (fun r => (edge_medium r, edge_family r, edge_label r)) rows)) ≫= fun _ =>
    on_session (replace_release_media_edges release_id MEDIA_SOURCE
      (map (fun r => (release_id, edge_medium r, MEDIA_SOURCE, edge_qty r)) rows)) ≫= fun _ =>
    mret true.

(** [_attach_identifier_aliases] *)
Definition attach_identifier_aliases (record : dict) (native : option uuid) : proc unit :=
  match native with
  | None => mret tt
  | Some native_id =>
      let attach (refs : list alias_ref) : proc unit :=
        match refs with
        | [] => mret tt
        | _ =>
            on_session (identity_attach (map (fun r => (r, native_id)) (dedup refs))) ≫= fun attached =>
            for_each (filter (fun ru => ru.2 <> native_id) attached) (fun ru =>
              observes (AliasConflict (ref_entity_kind ru.1) (ref_provider ru.1)) ≫= fun _ =>
              summary_add (ref_entity_kind ru.1) (ref_provider ru.1))
        end in
      match lookup_key record "identifiers" with
      | Some block => lift (alias_refs_for_release block) ≫= attach
      | None =>
          match legacy_identifiers_block record with
          | None => mret tt
          | Some block => lift (alias_refs_for_release block) ≫= attach
          end
      end
  end.

Definition process_release (record : dict) : proc unit :=
  let mbid := mbid_of record in
  (if is_none (get record "discogs_release_id") then mret tt
   else on_session (lock_release_media (py_str (get record "discogs_release_id")) MEDIA_SOURCE)) ≫= fun _ =>
  native_id "release" mbid (get record "discogs_release_id") ≫= fun gm_item_id =>
  lift (release_media_block record) ≫= fun media =>
  on_session (upsert_release
    [mbid;
     get_default record "name" (VStr "");
     get record "barcode";
     get_default record "status" (VStr "");
     get record "release_group_mbid";
     get record "discogs_release_id";
     VDict media;
     VDict (stored_data record);
     uuid_value gm_item_id]
    (source_ref record)) ≫= fun _ =>
  write_release_media record media ≫= fun _ =>
  process_relationships mbid "release" (get_default record "relations" (VList [])) ≫= fun _ =>
  process_external_links mbid "release" (get_default record "external_links" (VList [])) ≫= fun _ =>
  attach_identifier_aliases record gm_item_id.

Definition process_release_group (record : dict) : proc unit :=
  let mbid := mbid_of record in
  native_id RELEASE_GROUP_ENTITY_KIND mbid (get record "discogs_master_id") ≫= fun gm_item_id =>
  on_session (upsert_release_group
    [mbid;
     get_default record "name" (VStr "");
     get_default record "mb_type" (VStr "");
     get_or record "secondary_types" (VList []);
     get record "first_release_date";
     get_default record "disambiguation" (VStr "");
     get record "discogs_master_id";
     VDict (stored_data record);
     uuid_value gm_item_id]
    (source_ref record)) ≫= fun _ =>
  process_relationships mbid "release-group" (get_default record "relations" (VList [])) ≫= fun _ =>
  process_external_links mbid "release-group" (get_default record "external_links" (VList [])).

(** [PROCESSORS] *)
Definition processor_of (data_type : string) : option (dict -> proc unit) :=
  if decide (data_type = "artists") then Some process_artist
  else if decide (data_type = "labels") then Some process_label
  else if decide (data_type = "release-groups") then Some process_release_group
  else if decide (data_type = "releases") then Some process_release
  else None.
End processor.
