(* ===== verification/Typing.v ===== *)
(** * The typing of statements

    Which statements the loader may send, and with which parameters: the arity of
    each statement, [Jsonb] exactly at the [jsonb] columns, the refresh clause the
    writer was configured with, and who may own a release's media. Processing a
    record sends nothing else, however it ends. *)

From S2P Require Import Prelude PyValue Database Persistence ChildRows Media RecordProcessing.
From stdpp Require Import base gmap strings list option sorting.
From Stdlib Require Import ZArith Lia.

(** ** Parameters *)

Definition is_jsonb (p : param) : bool := match p with Jsonb _ => true | Plain _ => false end.

(** The [jsonb] columns of the entity tables. *)
Definition JSONB_COLUMNS : list string := ["aliases"; "tags"; "data"; "media"; "secondary_types"].

Definition column_typed (column : string) (p : param) : Prop :=
  is_jsonb p = bool_decide (column ∈ JSONB_COLUMNS).

(** The values of an entity upsert: one per column, the key again, and a
    provenance that is never blank. *)
Definition upsert_typed (s : upsert_spec) (ps : list param) : Prop :=
  s ∈ known_upserts /\
  exists key values src,
    ps = (key :: values) ++ [key; Plain (VStr src)] /\ src <> "" /\
    Forall2 column_typed (up_columns s) (key :: values).

Definition relationship_shape : list bool := [false; false; false; false; false; true; false; false; false].

(** A reference the identity library is asked for: the record's own MusicBrainz
    id, never a missing one, or a Discogs id in its printed form. *)
Definition ref_typed (r : alias_ref) : Prop :=
  ref_entity_kind r ∈ ["artist"; "label"; "release"; RELEASE_GROUP_ENTITY_KIND] /\
  (ref_provider r = "musicbrainz" /\ truthy (ref_external_id r) = true \/
   ref_provider r = "discogs" /\ exists s, ref_external_id r = VStr s).

Definition statement_typed (refresh : bool) (s : statement) : Prop :=
  match s with
  | EntityUpsert sp ps => upsert_typed sp ps
  | RelationshipUpsert r ps => r = refresh /\ is_jsonb <$> ps = relationship_shape
  | ExternalLinkUpsert r ps => r = refresh /\ is_jsonb <$> ps = [false; false; false; false]
  | MediaFamilyInsert _ | MediumInsert _ _ _ => True
  | AdvisoryXactLock key => exists release_id, key = media_lock_key MEDIA_SOURCE release_id
  | DeleteReleaseMedia _ source => source = MEDIA_SOURCE
  | InsertReleaseMedia _ _ source qty => source = MEDIA_SOURCE /\ (1 <= qty)%Z
  | ResolveAliases refs => exists r, refs = [r] /\ ref_typed r
  | AttachAliases m => m <> [] /\ exists native, Forall (fun ru => ru.2 = native) m
  | CountAll _ | CountStale _ _ | DeleteStale _ _ => False
  end.

Section typing.
Context `{PyRepr} `{Postgres} `{Common}.
Context (refresh_updated_at : bool).

(** ** Computations that send typed statements only *)

Definition sends {W A} (trace : W -> list statement) (m : comp W exn A) : Prop := forall w,
  exists tr, trace (m w).2 = trace w ++ tr /\ Forall (statement_typed refresh_updated_at) tr.

Abbreviation psends := (sends (fun w : world => s_trace (w_session w))).

Lemma sends_bind {W A B} trace (m : comp W exn A) (f : A -> comp W exn B) :
  sends trace m -> (forall a, sends trace (f a)) -> sends trace (m ≫= f).
Proof.
  intros Hm Hf w. destruct (Hm w) as (tr1 & Ht1 & HF1). unfold mbind, comp_bind.
  destruct (m w) as [[a|e] w1]; simpl in *; [|by exists tr1].
  destruct (Hf a w1) as (tr2 & Ht2 & HF2). exists (tr1 ++ tr2).
  rewrite Ht2, Ht1, app_assoc. split; [done|]. by apply Forall_app.
Qed.

Lemma sends_none {W A} trace (m : comp W exn A) : (forall w, trace (m w).2 = trace w) -> sends trace m.
Proof. intros Hm w. exists []. by rewrite app_nil_r. Qed.

Lemma sends_ret {W A} trace (a : A) : sends trace (mret a : comp W exn A).
Proof. by apply sends_none. Qed.

Lemma sends_lift {W A} trace (r : result exn A) : sends trace (lift r : comp W exn A).
Proof. by apply sends_none. Qed.

Lemma sends_lift_bind {W A B} trace (r : result exn A) (f : A -> comp W exn B) :
  (forall a, r = Ok a -> sends trace (f a)) -> sends trace (lift r ≫= f).
Proof. intros Hf w. unfold mbind, comp_bind, lift. destruct r; [by apply Hf|]. exists []. by rewrite app_nil_r. Qed.

(** A part of the writer, by the statements it logs. *)
Lemma logs_sends {A} (m : sql A) tr :
  logs m tr -> Forall (statement_typed refresh_updated_at) tr -> psends (on_session m).
Proof.
  intros Hm HF w. specialize (Hm (w_session w)). unfold on_session, zoom.
  destruct (m (w_session w)) as [[a|e] se]; destruct Hm as [_ Hm]; simpl.
  - exists tr. split; [apply Hm|done].
  - destruct Hm as (tr' & [k ->] & Ht). exists tr'. split; [done|]. by apply Forall_app in HF as [? _].
Qed.

Lemma sends_observes o : psends (observes o).
Proof. by apply sends_none. Qed.

Lemma sends_raise {W A} trace e : sends trace (raise e : comp W exn A).
Proof. by apply sends_none. Qed.

Lemma sends_catch {W A} trace (m : comp W exn A) h :
  sends trace m -> (forall e, sends trace (h e)) -> sends trace (catch m h).
Proof.
  intros Hm Hh w. destruct (Hm w) as (tr1 & Ht1 & HF1). unfold catch.
  destruct (m w) as [[a|e] w1]; simpl in *; [by exists tr1|].
  destruct (Hh e w1) as (tr2 & Ht2 & HF2). exists (tr1 ++ tr2).
  rewrite Ht2, Ht1, app_assoc. split; [done|]. by apply Forall_app.
Qed.

#[local] Hint Resolve sends_ret sends_lift sends_observes sends_raise : loader.

Lemma sends_quiet {A} (m : proc A) : (forall w, w_session (m w).2 = w_session w) -> psends m.
Proof. intros Hm w. exists []. rewrite Hm, app_nil_r. by split. Qed.

Lemma sends_open_flush entity : psends (open_flush entity).
Proof.
  apply sends_quiet. intros w. unfold open_flush, mbind, comp_bind, reads. by destruct (flush_span_error _ entity).
Qed.

Lemma sends_hash_ref r : psends (hash_ref r).
Proof. apply sends_quiet. intros w. unfold hash_ref. by destruct (hashable _). Qed.

#[local] Hint Resolve sends_open_flush sends_hash_ref : loader.

Lemma sends_write_batch entity rows write tr :
  logs write tr -> Forall (statement_typed refresh_updated_at) tr -> psends (write_batch entity rows write).
Proof.
  intros Hl HF. unfold write_batch. apply sends_bind; [auto with loader|intros _].
  destruct rows; [apply sends_bind; auto with loader|].
  apply sends_bind; [|intros _; apply sends_bind; auto with loader].
  apply sends_catch; [by eapply logs_sends|]. intros e. repeat (apply sends_bind; [auto with loader|intros _]).
  auto with loader.
Qed.

(** ** Child rows *)

Lemma relationship_row_length m t rel row : relationship_row m t rel = Ok (Some row) -> length row = 9.
Proof.
  unfold relationship_row, mbind, result_bind. destruct (dict_of rel) as [r|]; [|done].
  destruct (_ && _ && _); [|done]. destruct (canonical_entity_type _); [|done].
  case_decide; by intros [= <-].
Qed.

Lemma relationship_params_shape row : length row = 9 -> is_jsonb <$> relationship_params row = relationship_shape.
Proof. do 10 (destruct row as [|? row]; try done). Qed.

Lemma sends_process_relationships mbid ty rels : psends (process_relationships refresh_updated_at mbid ty rels).
Proof.
  apply sends_lift_bind. intros rows Er. eapply sends_write_batch; [apply executemany_logs|]. unfold relationship_rows in Er.
  unfold mbind, result_bind in Er. destruct (canonical_entity_type _) as [c|]; [|done].
  destruct (py_iter rels) as [l|]; [|done]. destruct (traverse _ l) as [os|] eqn:Et; [|done]. injection Er as <-.
  apply Forall_fmap, Forall_forall. intros row Hrow. destruct (traverse_rows _ _ _ _ Et Hrow) as [rel Hrel].
  apply relationship_row_length in Hrel. split; [done|]. by apply relationship_params_shape.
Qed.

Lemma sends_process_external_links mbid ty links : psends (process_external_links refresh_updated_at mbid ty links).
Proof.
  apply sends_lift_bind. intros rows Er. eapply sends_write_batch; [apply executemany_logs|]. unfold external_link_rows, mbind, result_bind in Er.
  destruct (py_iter links) as [l|]; [|done]. destruct (traverse _ l) as [os|] eqn:Et; [|done]. injection Er as <-.
  apply Forall_fmap, Forall_forall. intros row Hrow. destruct (traverse_rows _ _ _ _ Et Hrow) as [link Hlink].
  revert Hlink. unfold external_link_row, mbind, result_bind. destruct (dict_of link); [|done].
  destruct (_ && _); [|done]. by intros [= <-].
Qed.

(** ** The identity library *)

Lemma sends_resolve r : ref_typed r -> psends (on_session (identity_resolve [r])).
Proof. intros Hr. eapply logs_sends; [apply identity_resolve_logs|]. repeat constructor. by exists r. Qed.

Lemma sends_attach m native :
  m <> [] -> Forall (fun ru : alias_ref * uuid => ru.2 = native) m -> psends (on_session (identity_attach m)).
Proof. intros Hne HF. eapply logs_sends; [apply identity_attach_logs|]. repeat constructor; eauto. Qed.

Lemma sends_native_id kind mbid discogs_id :
  kind ∈ ["artist"; "label"; "release"; RELEASE_GROUP_ENTITY_KIND] -> psends (native_id kind mbid discogs_id).
Proof.
  intros Hk. unfold native_id. destruct (truthy mbid) eqn:Em; [|auto with loader].
  assert (psends (on_session (identity_resolve [AliasRef "musicbrainz" kind mbid])
    ≫= fun m => hash_ref (AliasRef "musicbrainz" kind mbid) ≫= fun _ => mret (lookup_ref m (AliasRef "musicbrainz" kind mbid)))) as Hmint.
  { apply sends_bind; [|intros m; apply sends_bind; auto with loader]. apply sends_resolve. split; [done|by left]. }
  destruct (truthy discogs_id); [|exact Hmint]. apply sends_bind.
  - apply sends_resolve. split; [done|]. right. split; [done|by eexists].
  - intros m. destruct (lookup_ref m _); [|exact Hmint]. apply sends_bind; [auto with loader|intros _].
    apply sends_bind; [|auto with loader].
    eapply sends_attach; [done|]. by constructor.
Qed.

Lemma sends_for_each {W A} trace (l : list A) (body : A -> comp W exn unit) :
  (forall x, sends trace (body x)) -> sends trace (for_each l body).
Proof. intros Hb. induction l as [|x l IH]; simpl; [apply sends_ret|]. by apply sends_bind. Qed.

Lemma sends_attach_identifier_aliases record native : psends (attach_identifier_aliases record native).
Proof.
  destruct native as [u|]; [|apply sends_ret]. unfold attach_identifier_aliases.
  set (attach := fun refs : list alias_ref => _ : proc unit).
  assert (forall refs, psends (attach refs)) as Ha.
  { unfold attach. intros [|r refs]; [auto with loader|]. apply sends_bind.
    - eapply (sends_attach _ u); [done|]. apply Forall_map_all. done.
    - intros m. apply sends_for_each. intros x. apply sends_bind; [auto with loader|]. intros _.
      apply sends_none. intros w. unfold summary_add. by case_match. }
  repeat case_match; auto using sends_bind, sends_lift, sends_ret.
Qed.

(** ** Release media *)

Lemma media_edge_rows_positive media rows :
  media_edge_rows vocabulary media = Ok rows -> Forall (fun r => 1 <= edge_qty r)%Z rows.
Proof.
  rewrite media_edge_rows_eq. destruct (py_iter _) as [items|e]; [|done]. intros [= <-].
  unfold group_rows. apply Forall_forall. intros r (m & _ & Hr)%list_elem_of_omap.
  apply group_row_qty_bounds in Hr; [lia|apply entries_bounds].
Qed.

Lemma sends_write_release_media record media : psends (write_release_media record media).
Proof.
  unfold write_release_media. destruct (is_none _); [auto with loader|].
  apply sends_lift_bind. intros rows Er%media_edge_rows_positive.
  apply sends_bind; [|intros _; apply sends_bind; [|intros _; apply sends_bind; [|intros _; apply sends_ret]]].
  - eapply logs_sends; [apply upsert_media_families_logs|]. by apply Forall_map_all.
  - eapply logs_sends; [apply upsert_media_logs|]. apply Forall_map_all. by intros [[]].
  - eapply logs_sends; [apply replace_release_media_edges_logs|]. constructor; [by eexists|].
    constructor; [done|]. rewrite map_map. clear -Er. induction Er; simpl; by constructor.
Qed.

Lemma sends_lock release_id : psends (on_session (lock_release_media release_id MEDIA_SOURCE)).
Proof. eapply logs_sends; [apply execute_logs|]. repeat constructor. by eexists. Qed.

(** ** Entity upserts *)

Lemma source_ref_nonblank record : source_ref record <> "".
Proof. unfold source_ref. repeat case_match; done. Qed.

Lemma upsert_typed_split s ps key values src :
  s ∈ known_upserts -> take (length (up_columns s)) ps = key :: values ->
  drop (length (up_columns s)) ps = [key; Plain (VStr src)] -> src <> "" ->
  Forall2 column_typed (up_columns s) (key :: values) -> upsert_typed s ps.
Proof.
  intros Hs Ht Hd Hsrc HF. split; [done|]. exists key, values, src.
  by rewrite <- (take_drop (length (up_columns s)) ps), Ht, Hd.
Qed.

Ltac upsert_is_typed :=
  eapply logs_sends; [apply execute_logs|]; apply Forall_singleton;
  eapply upsert_typed_split;
  [apply list_elem_of_In; simpl; tauto|reflexivity|reflexivity|apply source_ref_nonblank|repeat constructor].

Lemma sends_upsert_artist mbid a b c d e f g h i j k l m n o q record :
  psends (on_session (upsert_artist [mbid; a; b; c; d; e; f; g; h; i; j; k; l; m; n; o; q] (source_ref record))).
Proof. upsert_is_typed. Qed.

Lemma sends_upsert_label mbid a b c d e f g h i j k record :
  psends (on_session (upsert_label [mbid; a; b; c; d; e; f; g; h; i; j; k] (source_ref record))).
Proof. upsert_is_typed. Qed.

Lemma sends_upsert_release mbid a b c d e f g h record :
  psends (on_session (upsert_release [mbid; a; b; c; d; e; f; g; h] (source_ref record))).
Proof. upsert_is_typed. Qed.

Lemma sends_upsert_release_group mbid a b c d e f g h record :
  psends (on_session (upsert_release_group [mbid; a; b; c; d; e; f; g; h] (source_ref record))).
Proof. upsert_is_typed. Qed.

#[local] Hint Resolve sends_upsert_artist sends_upsert_label sends_upsert_release sends_upsert_release_group
  sends_process_relationships sends_process_external_links sends_write_release_media sends_lock
  sends_attach_identifier_aliases : loader.

(** C21: every statement is well typed. Processing any record of any data type
    sends, whether it returns or raises and wherever the server stops it, only
    statements of the right arity, with [Jsonb] at exactly the [jsonb] columns,
    the key repeated where the link event reads it, a provenance that is never
    blank, and the configured refresh clause; it locks and replaces media of its
    own source only, in quantities of at least one, asks the identity library
    about one existing id at a time and attaches aliases to one item; and it
    never reads or deletes stale rows. *)
Theorem statements_well_typed data_type processor record w r w' :
  processor_of refresh_updated_at data_type = Some processor ->
  processor record w = (r, w') ->
  exists tr, s_trace (w_session w') = s_trace (w_session w) ++ tr /\
    Forall (statement_typed refresh_updated_at) tr.
Proof.
  intros Hp Hr. assert (psends (processor record)) as Hs; [|specialize (Hs w); by rewrite Hr in Hs].
  assert (forall k, k ∈ ["artist"; "label"; "release"; RELEASE_GROUP_ENTITY_KIND] ->
    forall m d, psends (native_id k m d)) as Hn by (intros; by apply sends_native_id).
  unfold processor_of in Hp. repeat case_decide; simplify_eq.
  - unfold process_artist. apply sends_bind; [apply Hn; set_solver|]. intros u. repeat (apply sends_bind; [auto with loader|intros _]).
    auto with loader.
  - unfold process_label. apply sends_bind; [apply Hn; set_solver|]. intros u. repeat (apply sends_bind; [auto with loader|intros _]).
    auto with loader.
  - unfold process_release_group. apply sends_bind; [apply Hn; set_solver|]. intros u.
    repeat (apply sends_bind; [auto with loader|intros _]). auto with loader.
  - unfold process_release. apply sends_bind; [destruct (is_none _); auto with loader|]. intros _.
    apply sends_bind; [apply Hn; set_solver|]. intros u. apply sends_bind; [auto with loader|]. intros media.
    repeat (apply sends_bind; [auto with loader|intros _]). auto with loader.
Qed.
End typing.
