(* ===== verification/ProcessTrace.v ===== *)
(** * What processing a record does to the database

    The statements each [process_*] method of
    [brainztableinator/_record_processing.py] issues, in order, and what follows:
    the row a processed record leaves, its child rows and its release media, and
    everything it leaves alone. *)

From S2P Require Import Prelude PyValue Database Persistence ChildRows Media RecordProcessing.
From stdpp Require Import base gmap strings list option sorting.
From Stdlib Require Import ZArith Lia.

(** ** Worlds and the statements between them *)

Section extends.
Context `{PyRepr} `{Postgres} `{Common}.
Context (refresh_updated_at : bool).

Definition db_of (w : world) : db := s_db (w_session w).
Definition now_of (w : world) : Z := s_now (w_session w).
Definition trace_of (w : world) : list statement := s_trace (w_session w).

(** [w'] follows [w] by exactly the statements [tr]. *)
Definition extends (w : world) (tr : list statement) (w' : world) : Prop :=
  now_of w' = now_of w /\ trace_of w' = trace_of w ++ tr /\ replay (now_of w) tr (db_of w) = Ok (db_of w').

Definition is_identity (s : statement) : Prop :=
  match s with ResolveAliases _ | AttachAliases _ => True | _ => False end.

Lemma extends_refl w : extends w [] w.
Proof. unfold extends. rewrite app_nil_r. done. Qed.

Lemma extends_same w w' : w_session w' = w_session w -> extends w [] w'.
Proof. unfold extends, now_of, trace_of, db_of. intros ->. by rewrite app_nil_r. Qed.

Lemma extends_app w tr1 w1 tr2 w2 : extends w tr1 w1 -> extends w1 tr2 w2 -> extends w (tr1 ++ tr2) w2.
Proof.
  intros (Hn1 & Ht1 & Hr1) (Hn2 & Ht2 & Hr2). rewrite Hn1 in *. unfold extends.
  split; [done|]. split; [by rewrite Ht2, Ht1, <- app_assoc|]. by rewrite replay_app, Hr1.
Qed.

Lemma on_session_extends {A} (m : sql A) tr w a w' :
  logs m tr -> on_session m w = (Ok a, w') -> extends w tr w'.
Proof.
  intros Hm. unfold on_session, zoom. destruct (m (w_session w)) as [r se] eqn:E. intros [= -> <-].
  destruct (session_logs_run _ _ _ _ _ Hm E) as (Hn & Ht & Hr). done.
Qed.

Lemma observes_extends o w a w' : observes o w = (Ok a, w') -> extends w [] w'.
Proof. intros [= _ <-]. by apply extends_same. Qed.

Lemma observes2_extends o o' w a w' :
  (observes o ≫= fun _ => observes o') w = (Ok a, w') -> extends w [] w'.
Proof.
  intros Hrun. run_inv. eapply (extends_app _ [] _ []); eapply observes_extends; eassumption.
Qed.

Lemma lift_run {A} (r : result exn A) (w : world) a w' : lift r w = (Ok a, w') -> r = Ok a /\ w' = w.
Proof. by intros [= -> <-]. Qed.

(** ** The parts of a processor *)

Ltac logged_steps :=
  repeat match goal with
  | H : on_session _ _ = (Ok _, _) |- _ => eapply on_session_extends in H; [|solve [auto 2 with loader]]
  end.

Lemma hash_ref_run ref (w : world) a w' : hash_ref ref w = (Ok a, w') -> w' = w.
Proof. unfold hash_ref. destruct (hashable _); by intros [= _ <-]. Qed.

Lemma open_flush_run entity (w : world) a w' : open_flush entity w = (Ok a, w') -> w' = observe (FlushOpened entity) w.
Proof.
  unfold open_flush, mbind, comp_bind, reads. destruct (flush_span_error _ entity); by intros [= <-].
Qed.

Lemma native_id_extends kind mbid discogs_id w u w' :
  native_id kind mbid discogs_id w = (Ok u, w') -> exists tr, Forall is_identity tr /\ extends w tr w'.
Proof.
  set (mint := on_session (identity_resolve [AliasRef "musicbrainz" kind mbid]) ≫=
         fun m => hash_ref (AliasRef "musicbrainz" kind mbid) ≫= fun _ =>
         mret (lookup_ref m (AliasRef "musicbrainz" kind mbid)) : proc (option uuid)).
  assert (forall w u w', mint w = (Ok u, w') -> exists tr, Forall is_identity tr /\ extends w tr w') as Hmint.
  { unfold mint. intros w1 u1 w1' Hrun. run_inv.
    match goal with Hh : hash_ref _ _ = _ |- _ => apply hash_ref_run in Hh as -> end. eexists. split; [|eapply on_session_extends; [|done]; auto with loader].
    by repeat constructor. }
  unfold native_id. fold mint. destruct (truthy mbid).
  2: { intros [= <- <-]. exists []. split; [constructor|apply extends_refl]. }
  destruct (truthy discogs_id); [|apply Hmint]. intros Hrun. run_inv.
  apply (on_session_extends _ _ _ _ _ (identity_resolve_logs _)) in Hrun0.
  destruct (lookup_ref a _) as [native|].
  - run_inv. match goal with Hh : hash_ref _ _ = _ |- _ => apply hash_ref_run in Hh as -> end.
    eexists. split; [|eapply extends_app; [done|eapply on_session_extends; [apply identity_attach_logs|done]]].
    by repeat constructor.
  - apply Hmint in Hrun1 as (tr & Htr & He). eexists. split; [|by eapply extends_app].
    by repeat constructor.
Qed.

Lemma write_batch_extends entity rows write tr w a w' :
  logs write tr -> (rows = [] -> tr = []) ->
  write_batch entity rows write w = (Ok a, w') -> extends w tr w'.
Proof.
  intros Hlogs Hnil Hrun. unfold write_batch in Hrun. apply comp_bind_ok in Hrun as (? & w0 & Hrun0 & Hrun).
  apply open_flush_run in Hrun0. change tr with ([] ++ tr). apply (extends_app w [] w0); [by subst w0; apply extends_same|].
  destruct rows as [|r rows].
  - rewrite Hnil by done. by eapply observes2_extends.
  - apply comp_bind_ok in Hrun as (? & w1 & Hrun & Hobs).
    rewrite <- (app_nil_r tr). eapply extends_app; [|by eapply observes2_extends].
    unfold catch in Hrun. destruct (on_session write w0) as [[b|e] w1'] eqn:E.
    + injection Hrun as _ ->. by eapply on_session_extends.
    + run_inv.
Qed.

Definition relationship_statements (rows : list (list value)) : list statement :=
  map (RelationshipUpsert refresh_updated_at) (map relationship_params rows).
Definition link_statements (rows : list (list value)) : list statement :=
  map (ExternalLinkUpsert refresh_updated_at) (map (fun row => Plain <$> row) rows).

Lemma process_relationships_extends mbid ty rels w a w' :
  process_relationships refresh_updated_at mbid ty rels w = (Ok a, w') ->
  exists rows, relationship_rows mbid ty rels = Ok rows /\ extends w (relationship_statements rows) w'.
Proof.
  unfold process_relationships. intros Hrun. run_inv. apply lift_run in Hrun0 as [Hrows ->].
  exists a0. split; [done|]. eapply write_batch_extends; [| |done].
  - unfold relationship_statements. rewrite map_map. apply executemany_logs.
  - by intros ->.
Qed.

Lemma process_external_links_extends mbid ty links w a w' :
  process_external_links refresh_updated_at mbid ty links w = (Ok a, w') ->
  exists rows, external_link_rows mbid ty links = Ok rows /\ extends w (link_statements rows) w'.
Proof.
  unfold process_external_links. intros Hrun. run_inv. apply lift_run in Hrun0 as [Hrows ->].
  exists a0. split; [done|]. eapply write_batch_extends; [| |done].
  - unfold link_statements. rewrite map_map. apply executemany_logs.
  - by intros ->.
Qed.

(** The statements of [write_release_media]. *)
Definition media_statements (release_id : string) (rows : list edge_row) : list statement :=
  map MediaFamilyInsert (sorted (dedup (map edge_family rows))) ++
  map (fun r => MediumInsert (edge_medium r) (edge_family r) (edge_label r)) rows ++
  [AdvisoryXactLock (media_lock_key MEDIA_SOURCE release_id); DeleteReleaseMedia release_id MEDIA_SOURCE] ++
  map (fun r => InsertReleaseMedia release_id (edge_medium r) MEDIA_SOURCE (edge_qty r)) rows.

Lemma write_release_media_extends record media w b w' :
  write_release_media record media w = (Ok b, w') ->
  if is_none (get record "discogs_release_id") then extends w [] w'
  else exists rows, media_edge_rows vocabulary media = Ok rows /\
         extends w (media_statements (py_str (get record "discogs_release_id")) rows) w'.
Proof.
  unfold write_release_media. destruct (is_none _).
  { intros [= _ <-]. apply extends_refl. }
  intros Hrun. run_inv. apply lift_run in Hrun0 as [Hrows ->]. exists a. split; [done|].
  logged_steps. rewrite map_map in *. unfold media_statements. eauto using extends_app.
Qed.

Lemma for_each_silent {A} (l : list A) (body : A -> proc unit) w a w' :
  (forall x w w', body x w = (Ok tt, w') -> w_session w' = w_session w) ->
  for_each l body w = (Ok a, w') -> w_session w' = w_session w.
Proof.
  intros Hbody. revert w. induction l as [|x l IH]; intros w; simpl.
  - by intros [= _ <-].
  - intros Hrun. run_inv. destruct a0. apply Hbody in Hrun0. rewrite <- Hrun0. by apply IH.
Qed.

Lemma summary_add_session e i w : w_session (summary_add e i w).2 = w_session w.
Proof. unfold summary_add. by case_match. Qed.

Lemma attach_identifier_aliases_extends record native w a w' :
  attach_identifier_aliases record native w = (Ok a, w') -> exists tr, Forall is_identity tr /\ extends w tr w'.
Proof.
  destruct native as [u|]; [|intros [= _ <-]; exists []; split; [constructor|apply extends_refl]].
  unfold attach_identifier_aliases. set (attach := fun refs : list alias_ref => _ : proc unit).
  assert (forall refs w a w', attach refs w = (Ok a, w') -> exists tr, Forall is_identity tr /\ extends w tr w') as Ha.
  { unfold attach. intros [|r refs] w1 a1 w1'; [intros [= _ <-]; exists []; split; [constructor|apply extends_refl]|].
    intros Hrun. run_inv. apply for_each_silent in Hrun1.
    - logged_steps. eexists. split; [|by eapply extends_app; [|by apply extends_same]].
      by repeat constructor.
    - intros x w2 w2' Hx. run_inv. injection Hrun as _ <-. apply (f_equal snd) in Hrun2. simpl in Hrun2.
      by rewrite <- Hrun2, summary_add_session. }
  repeat case_match; intros Hrun; run_inv;
    try (match goal with Hl : lift _ _ = _ |- _ => apply lift_run in Hl as [_ ->] end; by eapply Ha).
  exists []. split; [constructor|apply extends_refl].
Qed.
End extends.
