(* ===== verification/ProcessSpec.v ===== *)
(** * The contract of record processing

    The row each entity's table promises for a record, column by column, and the
    theorems that the [process_*] methods leave it there, with the record's child
    rows fresh, its release media replaced, and everything else as it was. *)

From S2P Require Import Prelude PyValue Database LinkEvents Persistence ChildRows Media RecordProcessing.
From S2P Require Import ProcessTrace.
From stdpp Require Import base gmap strings list option sorting.
From Stdlib Require Import ZArith Lia.

(** ** The promised columns *)

Definition artist_columns (record : dict) (native : option uuid) : list (string * param) :=
  [("mbid", Plain (mbid_of record));
   ("name", Plain (get_default record "name" (VStr "")));
   ("sort_name", Plain (get_default record "sort_name" (VStr "")));
   ("type", Plain (get_default record "mb_type" (VStr "")));
   ("gender", Plain (get_default record "gender" (VStr "")));
   ("begin_date", Plain (get_or record "begin_date" (get (life_span record) "begin")));
   ("end_date", Plain (get_or record "end_date" (get (life_span record) "end")));
   ("ended", Plain (get_or record "ended" (get_or (life_span record) "ended" (VBool false))));
   ("area", Plain (get_default record "area" (VStr "")));
   ("begin_area", Plain (get_default record "begin_area" (VStr "")));
   ("end_area", Plain (get_default record "end_area" (VStr "")));
   ("disambiguation", Plain (get_default record "disambiguation" (VStr "")));
   ("discogs_artist_id", Plain (get record "discogs_artist_id"));
   ("aliases", Jsonb (get_or record "aliases" (VList [])));
   ("tags", Jsonb (get_or record "tags" (VList [])));
   ("data", Jsonb (VDict (stored_data record)));
   ("gm_item_id", Plain (uuid_value native))].

Definition label_columns (record : dict) (native : option uuid) : list (string * param) :=
  [("mbid", Plain (mbid_of record));
   ("name", Plain (get_default record "name" (VStr "")));
   ("type", Plain (get_default record "mb_type" (VStr "")));
   ("label_code", Plain (get record "label_code"));
   ("begin_date", Plain (get_or record "begin_date" (get (life_span record) "begin")));
   ("end_date", Plain (get_or record "end_date" (get (life_span record) "end")));
   ("ended", Plain (get_or record "ended" (get_or (life_span record) "ended" (VBool false))));
   ("area", Plain (get_default record "area" (VStr "")));
   ("disambiguation", Plain (get_default record "disambiguation" (VStr "")));
   ("discogs_label_id", Plain (get record "discogs_label_id"));
   ("data", Jsonb (VDict (stored_data record)));
   ("gm_item_id", Plain (uuid_value native))].

Definition release_columns (record media : dict) (native : option uuid) : list (string * param) :=
  [("mbid", Plain (mbid_of record));
   ("name", Plain (get_default record "name" (VStr "")));
   ("barcode", Plain (get record "barcode"));
   ("status", Plain (get_default record "status" (VStr "")));
   ("release_group_mbid", Plain (get record "release_group_mbid"));
   ("discogs_release_id", Plain (get record "discogs_release_id"));
   ("media", Jsonb (VDict media));
   ("data", Jsonb (VDict (stored_data record)));
   ("gm_item_id", Plain (uuid_value native))].

Definition release_group_columns (record : dict) (native : option uuid) : list (string * param) :=
  [("mbid", Plain (mbid_of record));
   ("name", Plain (get_default record "name" (VStr "")));
   ("type", Plain (get_default record "mb_type" (VStr "")));
   ("secondary_types", Jsonb (get_or record "secondary_types" (VList [])));
   ("first_release_date", Plain (get record "first_release_date"));
   ("disambiguation", Plain (get_default record "disambiguation" (VStr "")));
   ("discogs_master_id", Plain (get record "discogs_master_id"));
   ("data", Jsonb (VDict (stored_data record)));
   ("gm_item_id", Plain (uuid_value native))].

(** What the contract needs to know of a data type: its upsert, the spelling of
    its child rows, and the promised columns. *)
Record entity_contract `{Common} : Type := EntityContract {
  ec_upsert : upsert_spec;
  ec_child_type : string;
  ec_columns : dict -> option uuid -> result exn (list (string * param));
}.

Section contract.
Context `{PyRepr} `{Postgres} `{Common}.

Definition contract_of (data_type : string) : option entity_contract :=
  if decide (data_type = "artists") then
    Some (EntityContract _ artist_upsert "artist" (fun r n => Ok (artist_columns r n)))
  else if decide (data_type = "labels") then
    Some (EntityContract _ label_upsert "label" (fun r n => Ok (label_columns r n)))
  else if decide (data_type = "release-groups") then
    Some (EntityContract _ release_group_upsert "release-group" (fun r n => Ok (release_group_columns r n)))
  else if decide (data_type = "releases") then
    Some (EntityContract _ release_upsert "release"
            (fun r n => media ← release_media_block r; Ok (release_columns r media n)))
  else None.

(** The parameters of the upsert: the columns, the key again, the provenance. *)
Definition upsert_params (record : dict) (columns : list (string * param)) : list param :=
  columns.*2 ++ [Plain (mbid_of record); Plain (VStr (source_ref record))].

(** A statement that leaves the entity tables and the child tables alone. *)
Definition is_auxiliary (s : statement) : bool :=
  match s with
  | ResolveAliases _ | AttachAliases _ | MediaFamilyInsert _ | MediumInsert _ _ _ | AdvisoryXactLock _
  | DeleteReleaseMedia _ _ | InsertReleaseMedia _ _ _ _ => true
  | _ => false
  end.

Lemma identity_auxiliary tr : Forall is_identity tr -> Forall (fun s => is_auxiliary s = true) tr.
Proof. intros HF. eapply Forall_impl; [done|]. by intros []. Qed.

Lemma media_auxiliary rid rows : Forall (fun s => is_auxiliary s = true) (media_statements rid rows).
Proof.
  unfold media_statements. repeat (apply Forall_app; split); [by apply Forall_map_all..| |by apply Forall_map_all].
  by repeat constructor.
Qed.

(** ** The statements of a processor *)

Context (refresh_updated_at : bool).

(** The statements that replace a release's media, for a release linked to
    Discogs; no other record has any. *)
Definition media_part (data_type : string) (record : dict) (tr : list statement) : Prop :=
  if decide (data_type = "releases" /\ is_none (get record "discogs_release_id") = false) then
    exists media rows, release_media_block record = Ok media /\ media_edge_rows vocabulary media = Ok rows /\
      tr = media_statements (py_str (get record "discogs_release_id")) rows
  else tr = [].

(** The statements before the upsert: the release's media lock, and what the
    identity library runs. *)
Definition before_part (data_type : string) (record : dict) (tr : list statement) : Prop :=
  exists ids, Forall is_identity ids /\
    tr = (if decide (data_type = "releases" /\ is_none (get record "discogs_release_id") = false)
          then [AdvisoryXactLock (media_lock_key MEDIA_SOURCE (py_str (get record "discogs_release_id")))] else []) ++ ids.

Lemma before_part_auxiliary dt record tr : before_part dt record tr -> Forall (fun s => is_auxiliary s = true) tr.
Proof.
  intros (ids & Hids & ->). apply Forall_app. split; [|by apply identity_auxiliary]. case_decide; by repeat constructor.
Qed.

Lemma before_identity dt record tr : dt <> "releases" -> Forall is_identity tr -> before_part dt record tr.
Proof. intros Hne Htr. exists tr. split; [done|]. by rewrite decide_False by tauto. Qed.

Lemma media_part_auxiliary dt record tr : media_part dt record tr -> Forall (fun s => is_auxiliary s = true) tr.
Proof.
  unfold media_part. case_decide; [|by intros ->]. intros (? & ? & _ & _ & ->). apply media_auxiliary.
Qed.

(** A successful run, in its parts. *)
Record processed (data_type : string) (c : entity_contract) (record : dict) (w w' : world) : Prop := Processed {
  pr_run : exists native columns rels links before media after,
    ec_columns c record native = Ok columns /\
    relationship_rows (mbid_of record) (ec_child_type c) (get_default record "relations" (VList [])) = Ok rels /\
    external_link_rows (mbid_of record) (ec_child_type c) (get_default record "external_links" (VList [])) = Ok links /\
    before_part data_type record before /\ Forall is_identity after /\ media_part data_type record media /\
    extends w (before ++ [EntityUpsert (ec_upsert c) (upsert_params record columns)] ++ media ++
               relationship_statements refresh_updated_at rels ++ link_statements refresh_updated_at links ++ after) w'
}.

Lemma upsert_logs_run {w : world} {m : sql unit} {s a w'} :
  m = execute s -> on_session m w = (Ok a, w') -> extends w [s] w'.
Proof. intros -> Hrun. eapply on_session_extends; [apply execute_logs|done]. Qed.

Ltac children_steps :=
  repeat match goal with
  | Hn : native_id _ _ _ _ = (Ok _, _) |- _ => apply native_id_extends in Hn as (? & ? & ?)
  | Hr : process_relationships _ _ _ _ _ = (Ok _, _) |- _ => apply process_relationships_extends in Hr as (? & ? & ?)
  | Hl : process_external_links _ _ _ _ _ = (Ok _, _) |- _ => apply process_external_links_extends in Hl as (? & ? & ?)
  | Ha : attach_identifier_aliases _ _ _ = (Ok _, _) |- _ => apply attach_identifier_aliases_extends in Ha as (? & ? & ?)
  | Hm : write_release_media _ _ _ = (Ok _, _) |- _ => apply write_release_media_extends in Hm
  | Hl : lift _ _ = (Ok _, _) |- _ => apply lift_run in Hl as [? ->]
  end.

Ltac assemble := repeat (eapply extends_app; [eassumption|]); eassumption.

(** The successful run of a processor, given its upsert. *)
Ltac processed_by upsert :=
  let Hrun := fresh in let c := fresh in intros Hrun c [= <-]; run_inv;
  match goal with Hu : on_session (upsert _ _) _ = _ |- _ => apply (upsert_logs_run eq_refl) in Hu end;
  children_steps; constructor;
  match goal with _ : context [uuid_value ?n] |- _ => exists n end.

Lemma process_artist_run record w a w' :
  process_artist refresh_updated_at record w = (Ok a, w') ->
  forall c, contract_of "artists" = Some c -> processed "artists" c record w w'.
Proof.
  unfold process_artist. processed_by upsert_artist.
  do 6 eexists. split_and!; [done|done|done|by apply before_identity|by apply Forall_nil_2|done|].
  rewrite app_nil_l, app_nil_r. assemble.
Qed.

Lemma process_label_run record w a w' :
  process_label refresh_updated_at record w = (Ok a, w') ->
  forall c, contract_of "labels" = Some c -> processed "labels" c record w w'.
Proof.
  unfold process_label. processed_by upsert_label.
  do 6 eexists. split_and!; [done|done|done|by apply before_identity|by apply Forall_nil_2|done|].
  rewrite app_nil_l, app_nil_r. assemble.
Qed.

Lemma process_release_group_run record w a w' :
  process_release_group refresh_updated_at record w = (Ok a, w') ->
  forall c, contract_of "release-groups" = Some c -> processed "release-groups" c record w w'.
Proof.
  unfold process_release_group. processed_by upsert_release_group.
  do 6 eexists. split_and!; [done|done|done|by apply before_identity|by apply Forall_nil_2|done|].
  rewrite app_nil_l, app_nil_r. assemble.
Qed.

Lemma process_release_run record w a w' :
  process_release refresh_updated_at record w = (Ok a, w') ->
  forall c, contract_of "releases" = Some c -> processed "releases" c record w w'.
Proof.
  unfold process_release. processed_by upsert_release.
  match goal with Hb : release_media_block record = Ok ?m |- _ => rename m into block; rename Hb into Hblock end.
  assert (exists tl, (forall ids, Forall is_identity ids -> before_part "releases" record (tl ++ ids)) /\ extends w tl w0)
    as (tl & Htl & Hlock).
  { unfold before_part. destruct (is_none _); case_decide as Hd; [by destruct Hd| | |tauto].
    - run_inv. exists []. split; [intros ids Hids; by exists ids|apply extends_refl].
    - eexists. split; [|eapply on_session_extends; [apply execute_logs|done]]. intros ids Hids. by exists ids. }
  assert (exists ms, media_part "releases" record ms /\ extends w3 ms w4) as (ms & Hms & Hmedia).
  { unfold media_part. destruct (is_none _); case_decide as Hd; [by destruct Hd|by exists []| |tauto].
    match goal with Hr : exists rows, _ |- _ => destruct Hr as (rows & Hrows & He) end. eauto 10. }
  exists (release_columns record block a1). do 2 eexists. exists (tl ++ x). do 2 eexists.
  split_and!; [by simpl; rewrite Hblock|done|done|by apply Htl|done|exact Hms|].
  rewrite <- app_assoc. assemble.
Qed.

Lemma processor_run dt p c record w a w' :
  processor_of refresh_updated_at dt = Some p -> contract_of dt = Some c ->
  p record w = (Ok a, w') -> processed dt c record w w'.
Proof.
  unfold processor_of. intros Hp Hc Hrun.
  repeat case_decide; subst; simplify_eq;
    eauto using process_artist_run, process_label_run, process_release_group_run, process_release_run.
Qed.

(** ** What each kind of statement leaves alone *)

Definition keeps {A} (f : db -> A) (s : statement) : Prop :=
  forall now d d', effect now s d = Ok d' -> f d' = f d.

Lemma replay_keeps {A} (f : db -> A) now tr d d' :
  Forall (keeps f) tr -> replay now tr d = Ok d' -> f d' = f d.
Proof. intros HF. apply replay_frame. eapply Forall_impl; [exact HF|]. intros s Hs ? ?. apply Hs. Qed.

Lemma auxiliary_keeps s :
  is_auxiliary s = true ->
  (forall t, keeps (entity_rows t) s) /\ keeps relationships s /\ keeps external_links s /\ keeps identity_link_events s.
Proof.
  destruct s; intros [=]; split_and!; repeat intros ?; simpl in *; repeat case_match; simplify_eq;
    try match goal with t : entity_table |- _ => destruct t end; done.
Qed.

Lemma auxiliary_all_keep tr :
  Forall (fun s => is_auxiliary s = true) tr ->
  (forall t, Forall (keeps (entity_rows t)) tr) /\ Forall (keeps relationships) tr /\
  Forall (keeps external_links) tr /\ Forall (keeps identity_link_events) tr.
Proof.
  intros HF. split_and!; [intros t|..]; eapply Forall_impl; try exact HF; intros s Hs; by apply auxiliary_keeps.
Qed.

Lemma upsert_keeps sp ps :
  keeps relationships (EntityUpsert sp ps) /\ keeps external_links (EntityUpsert sp ps) /\
  keeps issued_on (EntityUpsert sp ps) /\ (forall t, t <> up_table sp -> keeps (entity_rows t) (EntityUpsert sp ps)).
Proof.
  split_and!; [intros now d d' Hu..|intros t Ht now d d' Hu]; simpl in Hu;
    apply upsert_entity_inv in Hu as (? & ? & ? & ? & _ & _ & ->);
    case_match; try case_decide; rewrite ?entity_rows_set_link_events, ?set_entity_rows_other by done;
    by destruct (up_table sp).
Qed.

Lemma relationship_statements_keep rows {A} (f : db -> A) :
  (forall m d, f (set_relationships m d) = f d) -> Forall (keeps f) (relationship_statements refresh_updated_at rows).
Proof.
  intros Hf. apply Forall_map_all. intros ps now d d' Hu. simpl in Hu.
  apply upsert_relationship_inv in Hu as (e & _ & ->). apply Hf.
Qed.

Lemma link_statements_keep rows {A} (f : db -> A) :
  (forall m d, f (set_external_links m d) = f d) -> Forall (keeps f) (link_statements refresh_updated_at rows).
Proof.
  intros Hf. apply Forall_map_all. intros ps now d d' Hu. simpl in Hu. unfold upsert_external_link in Hu.
  repeat case_match; simplify_eq; apply Hf.
Qed.


(** The databases between the parts of a successful run. *)
Lemma processed_parts dt c record w w' :
  processed dt c record w w' ->
  exists native columns rels links media d1 d2 d3 d4 d5 before after,
    ec_columns c record native = Ok columns /\
    relationship_rows (mbid_of record) (ec_child_type c) (get_default record "relations" (VList [])) = Ok rels /\
    external_link_rows (mbid_of record) (ec_child_type c) (get_default record "external_links" (VList [])) = Ok links /\
    Forall (fun s => is_auxiliary s = true) before /\ Forall is_identity after /\ media_part dt record media /\
    replay (now_of w) before (db_of w) = Ok d1 /\
    upsert_entity (ec_upsert c) (now_of w) (upsert_params record columns) d1 = Ok d2 /\
    replay (now_of w) media d2 = Ok d3 /\
    replay (now_of w) (relationship_statements refresh_updated_at rels) d3 = Ok d4 /\
    replay (now_of w) (link_statements refresh_updated_at links) d4 = Ok d5 /\
    replay (now_of w) after d5 = Ok (db_of w').
Proof.
  intros [(native & columns & rels & links & before & media & after & Hc & Hr & Hl & Hb & Ha & Hm & _ & _ & Hrun)].
  repeat match goal with Hs : replay _ (_ ++ _) _ = Ok _ |- _ => apply replay_split in Hs as (? & ? & Hs) end.
  match goal with Hs : replay _ [_] _ = Ok _ |- _ => apply replay_one in Hs end.
  apply before_part_auxiliary in Hb. do 12 eexists. split_and!; eassumption.
Qed.

Lemma contract_columns dt c record native columns :
  contract_of dt = Some c -> ec_columns c record native = Ok columns ->
  ec_upsert c ∈ known_upserts /\ columns.*1 = up_columns (ec_upsert c) /\
  (exists rest, columns.*2 = Plain (mbid_of record) :: rest).
Proof.
  unfold contract_of. intros Hc Hcol. repeat case_decide; simplify_eq; simpl in Hcol;
    try (destruct (release_media_block record); [|done]; simpl in Hcol);
    injection Hcol as <-; (split; [apply list_elem_of_In; simpl; tauto|split; [done|by eexists]]).
Qed.

(** C10: a processed record is stored. When a processor returns, the row of the
    record's mbid in its own table holds every promised column, each with the
    record's value for it as the column's type reads it (explicit nulls and
    missing fields defaulted as the source says), stamped with the
    transaction's time, whether the row was new or replaced; every other row of
    the four entity tables is as it was. *)
Theorem processed_record_stored dt p c record w w' :
  processor_of refresh_updated_at dt = Some p -> contract_of dt = Some c ->
  p record w = (Ok tt, w') ->
  let t := up_table (ec_upsert c) in
  exists native columns r,
    ec_columns c record native = Ok columns /\
    entity_rows t (db_of w') = <[uuid_in (Plain (mbid_of record)) := r]> (entity_rows t (db_of w)) /\
    row_updated_at r = now_of w /\
    Forall (fun cp => cp.1 <> "mbid" -> row_columns r !! cp.1 = Some (stored t cp.1 cp.2)) columns /\
    forall t', t' <> t -> entity_rows t' (db_of w') = entity_rows t' (db_of w).
Proof.
  intros Hp Hc Hrun t. pose proof (processor_run _ _ _ _ _ _ _ Hp Hc Hrun) as Hpr.
  apply processed_parts in Hpr as (native & columns & rels & links & media & d1 & d2 & d3 & d4 & d5 & before & after &
    Hcol & _ & _ & Hb & Ha & Hm & R1 & R2 & R3 & R4 & R5 & R6).
  destruct (contract_columns _ _ _ _ _ Hc Hcol) as (Hknown & Hnames & rest & Hvals).
  assert (length (columns.*2) = length (up_columns (ec_upsert c))) as Hlen by (by rewrite <- Hnames, !length_fmap).
  assert (forall t', entity_rows t' (db_of w') = entity_rows t' d2 /\ entity_rows t' d1 = entity_rows t' (db_of w)) as Hk.
  { intros t'. split; [|eapply replay_keeps; [by apply auxiliary_all_keep|done]].
    transitivity (entity_rows t' d5); [eapply replay_keeps; [|done]; by apply auxiliary_all_keep, identity_auxiliary|].
    transitivity (entity_rows t' d4); [eapply replay_keeps; [|done]; apply link_statements_keep; by destruct t'|].
    transitivity (entity_rows t' d3); [eapply replay_keeps; [|done]; apply relationship_statements_keep; by destruct t'|].
    eapply replay_keeps; [|done]. by eapply auxiliary_all_keep, media_part_auxiliary. }
  exists native, columns. eexists. split; [done|]. split; [|split; [|split]].
  - destruct (Hk t) as [-> <-]. unfold upsert_params in R2. rewrite Hvals in R2, Hlen.
    eapply upsert_entity_rows; [exact Hlen|exact R2].
  - unfold upserted. by case_match.
  - rewrite Forall_forall. intros [col par] (i & Hi)%list_elem_of_lookup Hne. simpl in *. rewrite <- Hvals.
    eapply upserted_lookup; [by apply known_upserts_cover|done| |done|].
    + rewrite <- Hnames, list_lookup_fmap, Hi. done.
    + rewrite list_lookup_fmap, Hi. done.
  - intros t' Ht'. destruct (Hk t') as [-> <-]. eapply upsert_keeps; [exact Ht'|]. exact R2.
Qed.

Lemma processed_children_eq dt p c record w w' :
  processor_of refresh_updated_at dt = Some p -> contract_of dt = Some c ->
  p record w = (Ok tt, w') ->
  exists rels links,
    relationship_rows (mbid_of record) (ec_child_type c) (get_default record "relations" (VList [])) = Ok rels /\
    external_link_rows (mbid_of record) (ec_child_type c) (get_default record "external_links" (VList [])) = Ok links /\
    (forall k, relationships (db_of w') !! k =
       batch_row refresh_updated_at (now_of w) (entries_for k (map relationship_params rels))
         (relationships (db_of w) !! k)) /\
    (forall k, external_links (db_of w') !! k =
       batch_link refresh_updated_at (now_of w) (bool_decide (k ∈ omap link_key_of (map (fun row => Plain <$> row) links)))
         (external_links (db_of w) !! k)).
Proof.
  intros Hp Hc Hrun. pose proof (processor_run _ _ _ _ _ _ _ Hp Hc Hrun) as Hpr.
  apply processed_parts in Hpr as (native & columns & rels & links & media & d1 & d2 & d3 & d4 & d5 & before & after &
    Hcol & Hr & Hl & Hb & Ha & Hm & R1 & R2 & R3 & R4 & R5 & R6).
  apply auxiliary_all_keep in Hb as (_ & Kb1 & Kb2 & _).
  apply media_part_auxiliary, auxiliary_all_keep in Hm as (_ & Km1 & Km2 & _).
  apply identity_auxiliary, auxiliary_all_keep in Ha as (_ & Ka1 & Ka2 & _).
  destruct (upsert_keeps (ec_upsert c) (upsert_params record columns)) as (Ku1 & Ku2 & _).
  pose proof (replay_keeps _ _ _ _ _ (relationship_statements_keep rels external_links (fun _ _ => eq_refl)) R4) as E4.
  pose proof (replay_keeps _ _ _ _ _ (link_statements_keep links relationships (fun _ _ => eq_refl)) R5) as E5.
  apply relationship_batch_eq in R4 as [Hrel _]. apply external_link_batch_eq in R5 as [Hlink _].
  exists rels, links. split_and!; [done|done| |]; intros k.
  - by rewrite (replay_keeps _ _ _ _ _ Ka1 R6), E5, Hrel, (replay_keeps _ _ _ _ _ Km1 R3), (Ku1 _ _ _ R2),
      (replay_keeps _ _ _ _ _ Kb1 R1).
  - by rewrite (replay_keeps _ _ _ _ _ Ka2 R6), Hlink, E4, (replay_keeps _ _ _ _ _ Km2 R3), (Ku2 _ _ _ R2),
      (replay_keeps _ _ _ _ _ Kb2 R1).
Qed.

(** C26: a processed record's child rows are written. When a processor returns,
    the relationships and external links of the record are derived, and each of
    the two tables is, key by key, what the grouped reference makes of those
    rows over the table as it was: nothing the record does not name changes, and
    the media, identity and link-event statements around them touch neither. *)
Theorem processed_children dt p c record w w' :
  processor_of refresh_updated_at dt = Some p -> contract_of dt = Some c ->
  p record w = (Ok tt, w') ->
  exists rels links,
    relationship_rows (mbid_of record) (ec_child_type c) (get_default record "relations" (VList [])) = Ok rels /\
    external_link_rows (mbid_of record) (ec_child_type c) (get_default record "external_links" (VList [])) = Ok links /\
    (forall k, relationships (db_of w') !! k =
       batch_row refresh_updated_at (now_of w) (entries_for k (map relationship_params rels))
         (relationships (db_of w) !! k)) /\
    (forall k, external_links (db_of w') !! k =
       batch_link refresh_updated_at (now_of w) (bool_decide (k ∈ omap link_key_of (map (fun row => Plain <$> row) links)))
         (external_links (db_of w) !! k)).
Proof. apply processed_children_eq. Qed.
End contract.
