(* ===== verification/ReleaseMedia.v ===== *)
(** * Replacing a release's media

    [write_release_media] and [replace_release_media_edges]: after the
    replacement, [graph.issued_on] holds for the release and this loader's source
    exactly the derived rows, and the vocabulary tables hold their keys. *)

From S2P Require Import Prelude PyValue Database Persistence Media RecordProcessing ProcessTrace ProcessSpec.
From stdpp Require Import base gmap strings list option sorting.
From Stdlib Require Import ZArith Lia.

Section release_media.
Context `{PyRepr} `{Postgres} `{Common}.

(** The quantity a set of rows gives a medium. *)
Definition qty_of (rows : list edge_row) (m : string) : option Z :=
  edge_qty <$> head (filter (fun r => edge_medium r = m) rows).

(** The edge table after the replacement. *)
Definition replaced_edges (release_id : string) (rows : list edge_row)
    (old : gmap (string * string * string) Z) (k : string * string * string) : option Z :=
  if decide (k.1.1 = release_id /\ k.2 = MEDIA_SOURCE) then qty_of rows k.1.2 else old !! k.

Lemma insert_edges_run now rid rows d :
  NoDup (map edge_medium rows) ->
  (forall m, m ∈ map edge_medium rows -> issued_on d !! (rid, m, MEDIA_SOURCE) = None) ->
  exists d', replay now (map (fun r => InsertReleaseMedia rid (edge_medium r) MEDIA_SOURCE (edge_qty r)) rows) d = Ok d' /\
    d' = set_issued_on (issued_on d') d /\
    forall k, issued_on d' !! k =
      if decide (k.1.1 = rid /\ k.2 = MEDIA_SOURCE) then
        match qty_of rows k.1.2 with Some q => Some q | None => issued_on d !! k end
      else issued_on d !! k.
Proof.
  revert d. induction rows as [|r rows IH]; intros d; simpl.
  { intros _ _. exists d. split_and!; [done|by destruct d|]. intros k. by case_decide. }
  rewrite NoDup_cons. intros [Hnot Hnd] Hfree.
  rewrite Hfree by (simpl; left). 
  destruct (IH (set_issued_on (<[(rid, edge_medium r, MEDIA_SOURCE) := edge_qty r]> (issued_on d)) d)) as (d' & Hr & Hd & Hk); [done| |].
  { intros m Hm. simpl. rewrite lookup_insert_ne; [apply Hfree; by right|]. intros [= <-]. done. }
  exists d'. split_and!; [done|by rewrite Hd|]. intros [[rid' m] src]. rewrite Hk. simpl.
  unfold qty_of. rewrite filter_cons. case_decide as Hdec.
  - destruct Hdec as [-> ->]. simpl. destruct (decide (edge_medium r = m)) as [<-|Hne]; simpl.
    + rewrite lookup_insert_eq. destruct (filter (fun r0 => edge_medium r0 = edge_medium r) rows) as [|r' l] eqn:E; [done|].
      exfalso. assert (r' ∈ filter (fun r0 => edge_medium r0 = edge_medium r) rows) as Hin by (rewrite E; left).
      apply list_elem_of_filter in Hin as [Heq Hin]. apply Hnot, list_elem_of_fmap. eauto.
    + rewrite lookup_insert_ne by congruence. done.
  - rewrite lookup_insert_ne; [done|]. intros [= <- <- <-]. tauto.
Qed.

Lemma vocabulary_run now names rows d :
  exists d', replay now (map MediaFamilyInsert names ++
      map (fun r => MediumInsert (edge_medium r) (edge_family r) (edge_label r)) rows) d = Ok d' /\
    issued_on d' = issued_on d /\ media_family d' = list_to_set names ∪ media_family d /\
    forall m, medium d' !! m =
      match medium d !! m with
      | Some e => Some e
      | None => (fun r => (edge_family r, edge_label r)) <$> head (filter (fun r => edge_medium r = m) rows)
      end.
Proof.
  revert d. induction names as [|name names IH]; intros d; simpl.
  - revert d. induction rows as [|r rows IH]; intros d; simpl.
    + exists d. split_and!; [done|done|set_solver|]. intros m. by case_match.
    + edestruct IH as (d' & Hr & Hi & Hf & Hm). exists d'. split_and!; [exact Hr| | |].
      * rewrite Hi. by case_match.
      * rewrite Hf. by case_match.
      * intros m. rewrite Hm, filter_cons. destruct (medium d !! edge_medium r) eqn:E; simpl.
        -- case_decide as Hd; [subst m; by rewrite E|done].
        -- case_decide as Hd; [subst m; by rewrite lookup_insert_eq, E|by rewrite lookup_insert_ne].
  - edestruct IH as (d' & Hr & Hi & Hf & Hm). exists d'. split_and!; [exact Hr|done| |done].
    rewrite Hf. simpl. set_solver.
Qed.

Lemma media_statements_run now rid rows d :
  NoDup (map edge_medium rows) ->
  exists d', replay now (media_statements rid rows) d = Ok d' /\
    (forall k, issued_on d' !! k = replaced_edges rid rows (issued_on d) k) /\
    media_family d' = list_to_set (map edge_family rows) ∪ media_family d /\
    forall r, r ∈ rows -> is_Some (medium d' !! edge_medium r).
Proof.
  intros Hnd. destruct (vocabulary_run now (sorted (dedup (map edge_family rows))) rows d) as (d1 & R1 & Hi & Hf & Hm).
  set (d2 := set_issued_on (filter (fun kq => ~ (kq.1.1.1 = rid /\ kq.1.2 = MEDIA_SOURCE)) (issued_on d1)) d1).
  destruct (insert_edges_run now rid rows d2 Hnd) as (d3 & R3 & Hd3 & Hk).
  { intros m _. apply map_lookup_filter_None. right. intros q _. simpl. tauto. }
  exists d3. split_and!.
  - unfold media_statements. rewrite app_assoc, replay_app, R1. simpl. exact R3.
  - intros k. rewrite Hk. unfold replaced_edges. rewrite <- Hi. simpl. case_decide as Hdec.
    + destruct (qty_of rows k.1.2); [done|]. apply map_lookup_filter_None. right. intros q _. simpl. tauto.
    + destruct (issued_on d1 !! k) as [q|] eqn:E.
      * apply map_lookup_filter_Some. done.
      * apply map_lookup_filter_None. by left.
  - rewrite Hd3. simpl. rewrite Hf. f_equal. apply set_eq. intros x.
    by rewrite !elem_of_list_to_set, elem_of_sorted, elem_of_dedup.
  - intros r Hr. rewrite Hd3. simpl. rewrite Hm. destruct (medium d !! edge_medium r); [done|].
    destruct (filter (fun r0 => edge_medium r0 = edge_medium r) rows) eqn:E; [|done].
    exfalso. assert (r ∈ filter (fun r0 => edge_medium r0 = edge_medium r) rows) as Hin by (by apply list_elem_of_filter).
    rewrite E in Hin. by apply not_elem_of_nil in Hin.
Qed.

(** C14: replacing a release's media succeeds and is exact. On a server that
    answers its statements, [write_release_media] of a release linked to
    Discogs, whose block derives rows, returns [True] whatever the tables held:
    the per-medium primary key cannot be hit. Afterwards the edges of this
    release from this source are the derived rows and no others, the edges of
    every other release and source are as they were, and every medium and family
    the edges name is in its vocabulary table. *)
Theorem write_release_media_exact record media rows w :
  is_none (get record "discogs_release_id") = false ->
  media_edge_rows vocabulary media = Ok rows ->
  let rid := py_str (get record "discogs_release_id") in
  (forall s d, s ∈ media_statements rid rows -> pg_error s d = None) ->
  exists w', write_release_media record media w = (Ok true, w') /\
    trace_of w' = trace_of w ++ media_statements rid rows /\
    (forall k, issued_on (db_of w') !! k = replaced_edges rid rows (issued_on (db_of w)) k) /\
    media_family (db_of w') = list_to_set (map edge_family rows) ∪ media_family (db_of w) /\
    (forall r, r ∈ rows -> is_Some (medium (db_of w') !! edge_medium r)).
Proof.
  intros Hid Hrows rid Hpg. pose proof (media_edge_rows_NoDup _ _ _ Hrows) as Hnd.
  destruct (media_statements_run (now_of w) rid rows (db_of w) Hnd) as (d' & Hr & Hi & Hf & Hm).
  pose proof (executes_ok _ _ _ Hpg Hr) as Hex.
  exists (set_session (Session d' (now_of w) (trace_of w ++ media_statements rid rows)) w).
  split; [|done]. unfold write_release_media. rewrite Hid, Hrows.
  set (all := trace_of w ++ _) in *. unfold media_statements in Hex.
  unfold lift, on_session, zoom, mbind, comp_bind. simpl.
  rewrite executes_app in Hex. unfold mbind, comp_bind in Hex.
  rewrite upsert_media_families_issues. destruct (executes _ (w_session w)) as [[?|e] se1]; [|done].
  rewrite executes_app in Hex. unfold mbind, comp_bind in Hex.
  simpl. rewrite upsert_media_issues, map_map. destruct (executes _ se1) as [[?|e] se2]; [|done].
  simpl. rewrite replace_release_media_edges_issues, map_map. fold rid.
  simpl app in Hex. unfold all in *. rewrite Hex. done.
Qed.
End release_media.
