(* ===== verification/RecordFacts.v ===== *)
(** * Properties of record processing

    Locking, native identity, directions of relationships, the compatibility
    identifiers block and the alias-conflict summary of
    [brainztableinator/_record_processing.py]. *)

From S2P Require Import Prelude PyValue Database Persistence ChildRows Media RecordProcessing ProcessTrace.
From stdpp Require Import base gmap strings list option sorting.
From Stdlib Require Import ZArith Lia.

(** ** Directions *)

(** [r'] is the relationship [r] seen from its other end. *)
Record reversed (source_mbid source_type : value) (r r' : dict) : Prop := Reversed {
  rev_backward : get r "direction" = VStr "backward";
  rev_forward : get r' "direction" <> VStr "backward";
  rev_target : get r' "target_mbid" = source_mbid;
  rev_target_type : get r' "target_type" = source_type;
  rev_fields : Forall (fun k => lookup_key r' k = lookup_key r k) ["type"; "attributes"; "begin_date"; "end_date"; "ended"];
}.

(** Both sides of a relationship store one row. A backward relationship
    met on one entity's record and the forward one on its counterpart's record
    derive the same row, so the two records of a pair cannot leave a duplicate
    or contradict each other's orientation. *)
Theorem reversed_relationship_same_row m1 t1 r r' m2 t2 :
  reversed m1 (VStr t1) r r' ->
  truthy m1 = true -> truthy (VStr t1) = true ->
  get r "target_mbid" = m2 -> get r "target_type" = VStr t2 ->
  canonical_entity_type (VStr t1) = Ok (VStr t1) -> canonical_entity_type (VStr t2) = Ok (VStr t2) ->
  truthy m2 = true -> truthy (VStr t2) = true ->
  relationship_row m1 (VStr t1) (VDict r) = relationship_row m2 (VStr t2) (VDict r').
Proof.
  intros [Hb Hf Ht Htt Hfs] Hm1 Ht1 Hr Hrt Hc1 Hc2 Hm2 Ht2.
  rewrite !Forall_cons in Hfs. destruct Hfs as (F1 & F2 & F3 & F4 & F5 & _).
  unfold relationship_row, get_or, get_default in *. simpl. unfold mbind, result_bind.
  assert (forall k, lookup_key r' k = lookup_key r k -> get r' k = get r k) as Hg.
  { intros k Hk. unfold get, get_default. by rewrite Hk. }
  rewrite Ht, Htt, Hr, Hrt, Hm1, Ht1, Hm2, Ht2, (Hg "type"), (Hg "attributes"), (Hg "begin_date"), (Hg "end_date"),
    (Hg "ended"), F1, Hc1, Hc2 by done. simpl.
  rewrite (decide_True (P := get r "direction" = _)), (decide_False (P := get r' "direction" = _)) by done. done.
Qed.

(** ** The compatibility identifiers block *)

(** The non-blank catalogue numbers, in order. *)
Definition catalog_numbers (record : dict) : list string :=
  match get record "catalog_numbers" with VList entries => omap catalog_number entries | _ => [] end.

(** The legacy identifiers block. A record yields a block exactly when it
    has a non-blank barcode or catalogue number; the block lists the barcode
    first, then every catalogue number in order, verbatim, and its [types] are
    the distinct types of its items. *)
Theorem legacy_block_spec record :
  let barcode := nonblank (get record "barcode") in
  let numbers := catalog_numbers record in
  legacy_identifiers_block record =
    match barcode, numbers with
    | None, [] => None
    | _, _ =>
        Some (VDict [
          ("identifiers_version", VStr "1");
          ("items", VList (from_option (fun b => [identifier_item "barcode" b "barcode"]) [] barcode ++
             map (fun n => identifier_item "catalog_number" n "label-info[].catalog-number") numbers));
          ("types", VList (map VStr (from_option (fun _ => ["barcode"]) [] barcode ++
             match numbers with [] => [] | _ => ["catalog_number"] end)));
          ("aliases", VList []);
          ("unmapped", VDict [("types", VList [])])])
    end.
Proof.
  intros barcode numbers.
  set (entry := fun n => ("catalog_number", identifier_item "catalog_number" n "label-info[].catalog-number")).
  assert (forall k, snd <$> (entry <$> k) = map (fun n => (entry n).2) k) as Hsnd.
  { intros k. by rewrite <- list_fmap_compose. }
  assert (forall n l, dedup (fst <$> (entry <$> n :: l)) = ["catalog_number"]) as Hd.
  { intros n l. revert n. induction l as [|x l IH]; intros n; [done|].
    specialize (IH x). csimpl in *. rewrite IH. done. }
  assert (legacy_items record =
    from_option (fun b => [("barcode", identifier_item "barcode" b "barcode")]) [] barcode ++ (entry <$> numbers)) as Hi.
  { unfold legacy_items, barcode, numbers, catalog_numbers.
    destruct (nonblank (get record "barcode")); simpl; by destruct (get record "catalog_numbers"). }
  unfold legacy_identifiers_block. rewrite Hi. clearbody barcode numbers. clear Hi.
  destruct numbers as [|n l]; [by destruct barcode|].
  specialize (Hsnd (n :: l)). specialize (Hd n l). set (k := entry <$> n :: l) in *. clearbody k.
  destruct k as [|e k]; [done|]. destruct barcode as [b|]; simpl from_option.
  - change ([("barcode", identifier_item "barcode" b "barcode")] ++ e :: k) with
      (("barcode", identifier_item "barcode" b "barcode") :: e :: k).
    remember (e :: k) as ek. csimpl. rewrite Hsnd, Hd. done.
  - rewrite !app_nil_l, Hsnd, Hd. done.
Qed.

(** ** The alias-conflict summary *)

(** A conflict met at a time of the monotonic clock. *)
Definition timed_add (c : Z * string * string) : proc unit :=
  modifies (fun w => World (w_session w) (w_observed w) (w_summary w) c.1.1) ≫= fun _ =>
  summary_add c.1.2 c.2.

(** The conflicts of a kind that the emitted summaries count. *)
Definition emitted_for (k : string * string) (l : list observation) : Z :=
  sumZ (map (fun o => match o with ConflictSummary _ m => default 0%Z (m !! k) | _ => 0%Z end) l).

Definition summary_total_ok (o : observation) : Prop :=
  match o with ConflictSummary n m => n = sum_counts m | _ => True end.

Lemma timed_add_run c w :
  exists w' emitted, timed_add c w = (Ok tt, w') /\ w_observed w' = w_observed w ++ emitted /\
    Forall summary_total_ok emitted /\ w_session w' = w_session w /\
    forall k, (emitted_for k emitted + default 0 (pending (w_summary w') !! k) =
      default 0 (pending (w_summary w) !! k) + if decide (k = (c.1.2, c.2)) then 1 else 0)%Z.
Proof.
  destruct c as [[t e] i]. unfold timed_add, summary_add, modifies, mbind, comp_bind. simpl.
  set (p := <[_ := _]> _).
  assert (forall k, default 0 (p !! k) = default 0 (pending (w_summary w) !! k) + if decide (k = (e, i)) then 1 else 0)%Z as Hp.
  { intros k. unfold p. case_decide as Hk; [subst; by rewrite lookup_insert_eq|]. rewrite lookup_insert_ne by done. lia. }
  case_match; eexists.
  - exists []. split_and!; [done|by rewrite app_nil_r|constructor|done|]. intros k. simpl. rewrite Hp. unfold emitted_for. simpl. lia.
  - exists [ConflictSummary (sum_counts p) p]. split_and!; [done|done|by repeat constructor|done|].
    intros k. simpl. unfold emitted_for. simpl. rewrite Hp, lookup_empty. simpl. lia.
Qed.

(** No alias conflict is lost or counted twice. Over any run of conflicts,
    at whatever times, the summary never raises, every summary it emits totals
    its own table, and for each kind the conflicts emitted plus those still
    pending are those pending before plus the conflicts of that kind met. *)
Theorem alias_conflicts_conserved (l : list (Z * string * string)) w :
  exists w' emitted, for_each l timed_add w = (Ok tt, w') /\ w_observed w' = w_observed w ++ emitted /\
    Forall summary_total_ok emitted /\
    forall k, (emitted_for k emitted + default 0 (pending (w_summary w') !! k) =
      default 0 (pending (w_summary w) !! k) +
      Z.of_nat (length (filter (fun c => k = (c.1.2, c.2)) l)))%Z.
Proof.
  revert w. induction l as [|c l IH]; intros w; simpl.
  { exists w, []. split_and!; [done|by rewrite app_nil_r|constructor|]. intros k. unfold emitted_for. simpl. lia. }
  destruct (timed_add_run c w) as (w1 & em1 & R1 & O1 & T1 & _ & C1).
  destruct (IH w1) as (w2 & em2 & R2 & O2 & T2 & C2).
  exists w2, (em1 ++ em2). split_and!.
  - by rewrite (comp_bind_run _ _ _ _ _ R1).
  - by rewrite O2, O1, <- app_assoc.
  - by apply Forall_app.
  - intros k. specialize (C1 k). specialize (C2 k). unfold emitted_for in *.
    rewrite map_app, sumZ_app, filter_cons. case_decide; simpl length; lia.
Qed.
