(* ===== verification/NativeIdentity.v ===== *)
(** * Native identity and the release lock

    [_native_id] against what the identity library promises of its two calls,
    and the order in which [process_release] takes its advisory lock. *)

From S2P Require Import Prelude PyValue Database Persistence ChildRows Media RecordProcessing ProcessTrace.
From stdpp Require Import base gmap strings list option sorting.
From Stdlib Require Import ZArith Lia.

(** What [resolve_aliases] and [attach_aliases] promise: the ledger is only ever
    added to, and an answer is what the ledger holds afterwards. An attach
    records its alias when the ledger has none. *)
Class IdentityLaws `{Postgres} : Prop := {
  resolve_keeps refs l m l' r u :
    resolve_aliases refs l = (Ok m, l') -> lookup_ref l r = Some u -> lookup_ref l' r = Some u;
  resolve_only refs l m l' r :
    resolve_aliases refs l = (Ok m, l') -> r ∉ refs -> lookup_ref l' r = lookup_ref l r;
  resolve_answers refs l m l' r :
    resolve_aliases refs l = (Ok m, l') -> r ∈ refs -> lookup_ref m r = lookup_ref l' r;
  attach_keeps mapping l m l' r u :
    attach_aliases mapping l = (Ok m, l') -> lookup_ref l r = Some u -> lookup_ref l' r = Some u;
  attach_answers mapping l m l' r u :
    attach_aliases mapping l = (Ok m, l') -> (r, u) ∈ mapping -> lookup_ref m r = lookup_ref l' r;
  attach_records r u l m l' :
    attach_aliases [(r, u)] l = (Ok m, l') -> lookup_ref l r = None -> lookup_ref l' r = Some u;
}.

Section identity.
Context `{PyRepr} `{Hpg : Postgres} `{!IdentityLaws} `{Common}.

Definition ledger_of (w : world) : ledger := provider_aliases (db_of w).

Lemma resolve_run refs w m w' :
  on_session (identity_resolve refs) w = (Ok m, w') ->
  resolve_aliases refs (ledger_of w) = (Ok m, ledger_of w').
Proof.
  unfold on_session, zoom, identity_resolve, execute, ledger_of, db_of, effect. simpl.
  destruct (resolve_aliases _ _) as [r l] eqn:E.
  destruct (pg_error _ _); simpl; [done|]. by intros [= -> <-].
Qed.

Lemma attach_run mapping w m w' :
  on_session (identity_attach mapping) w = (Ok m, w') ->
  attach_aliases mapping (ledger_of w) = (Ok m, ledger_of w').
Proof.
  unfold on_session, zoom, identity_attach, execute, ledger_of, db_of, effect. simpl.
  destruct (attach_aliases _ _) as [r l] eqn:E.
  destruct (pg_error _ _); simpl; [done|]. by intros [= -> <-].
Qed.

(** Minting through the record's own alias. *)
Lemma mint_run r w u w' :
  (on_session (identity_resolve [r]) ≫= fun m => hash_ref r ≫= fun _ => mret (lookup_ref m r)) w = (Ok u, w') ->
  u = lookup_ref (ledger_of w') r /\
  forall r' u', lookup_ref (ledger_of w) r' = Some u' -> lookup_ref (ledger_of w') r' = Some u'.
Proof.
  intros Hrun. run_inv. match goal with Hh : hash_ref _ _ = _ |- _ => apply hash_ref_run in Hh as -> end.
  match goal with Hr : on_session _ _ = _ |- _ => apply resolve_run in Hr end.
  split; [by eapply resolve_answers; [done|left]|]. intros r' u'. by apply (resolve_keeps _ _ _ _ _ _ Hrun0).
Qed.

(** C13: the native id of a record. The id [_native_id] returns is the one
    the ledger holds for the record's own MusicBrainz alias when it is done; no
    alias the ledger held is overwritten; an alias the record already had wins;
    and a record whose own alias is new but whose Discogs alias is claimed gets
    the Discogs item's id rather than a parallel one. *)
Theorem native_id_spec kind mbid discogs_id w u w' :
  truthy mbid = true ->
  native_id kind mbid discogs_id w = (Ok u, w') ->
  let own := AliasRef "musicbrainz" kind mbid in
  let discogs := AliasRef "discogs" kind (VStr (py_str discogs_id)) in
  u = lookup_ref (ledger_of w') own /\
  (forall r u', lookup_ref (ledger_of w) r = Some u' -> lookup_ref (ledger_of w') r = Some u') /\
  (forall u', lookup_ref (ledger_of w) own = Some u' -> u = Some u') /\
  (forall n, truthy discogs_id = true -> lookup_ref (ledger_of w) discogs = Some n ->
     lookup_ref (ledger_of w) own = None -> u = Some n).
Proof.
  intros Hm Hrun own discogs.
  assert (u = lookup_ref (ledger_of w') own /\
    (forall r u', lookup_ref (ledger_of w) r = Some u' -> lookup_ref (ledger_of w') r = Some u') /\
    (forall n, truthy discogs_id = true -> lookup_ref (ledger_of w) discogs = Some n ->
       lookup_ref (ledger_of w) own = None -> u = Some n)) as (Hu & Hk & Hd).
  { unfold native_id in Hrun. rewrite Hm in Hrun. fold own discogs in Hrun.
    destruct (truthy discogs_id) eqn:Ed; [|apply mint_run in Hrun as [-> Hk]; done].
    apply comp_bind_ok in Hrun as (m & w1 & Hres & Hrun). apply resolve_run in Hres.
    assert (lookup_ref m discogs = lookup_ref (ledger_of w1) discogs) as Hmd by (by eapply resolve_answers; [done|left]).
    destruct (lookup_ref m discogs) as [native|] eqn:En.
    - run_inv. match goal with Hh : hash_ref _ _ = _ |- _ => apply hash_ref_run in Hh as -> end.
      match goal with Ha : on_session _ _ = _ |- _ => apply attach_run in Ha as Hat end.
      assert (lookup_ref a0 own = lookup_ref (ledger_of w') own) as Ha by (by eapply attach_answers; [done|left]).
      assert (lookup_ref (ledger_of w1) own = lookup_ref (ledger_of w) own) as Hown
        by (eapply resolve_only; [done|by intros ?%list_elem_of_singleton]).
      assert (forall r u', lookup_ref (ledger_of w) r = Some u' -> lookup_ref (ledger_of w') r = Some u') as Hk.
      { intros r u' Hr. eapply attach_keeps; [done|]. by eapply resolve_keeps. }
      destruct (lookup_ref (ledger_of w) own) as [u0|] eqn:Eown.
      + rewrite Ha, (Hk _ _ Eown). done.
      + rewrite Ha. assert (lookup_ref (ledger_of w') own = Some native) as -> by (by eapply attach_records).
        split_and!; [done|done|]. intros n _ Hn _. simpl. f_equal.
        apply (resolve_keeps _ _ _ _ _ _ Hres) in Hn. congruence.
    - apply mint_run in Hrun as [-> Hk]. split_and!; [done|by eauto using resolve_keeps|].
      intros n _ Hn _. apply (resolve_keeps _ _ _ _ _ _ Hres) in Hn. congruence. }
  split_and!; [done|done| |done]. intros u' Hu'. rewrite Hu. by apply Hk.
Qed.
End identity.

(** ** The release lock *)

Section lock.
Context `{PyRepr} `{Postgres} `{Common}.

(** [m] only ever adds to the log. *)
Definition grows {A} (m : proc A) : Prop := forall w, trace_of w `prefix_of` trace_of (m w).2.

Lemma ret_grows {A} (a : A) : grows (mret a).
Proof. by intros w. Qed.

Lemma bind_grows {A B} (m : proc A) (f : A -> proc B) : grows m -> (forall a, grows (f a)) -> grows (m ≫= f).
Proof.
  intros Hm Hf w. specialize (Hm w). unfold mbind, comp_bind. destruct (m w) as [[a|e] w1]; simpl in *; [|done].
  etrans; [done|]. apply Hf.
Qed.

Lemma lift_grows {A} (r : result exn A) : grows (lift r).
Proof. by intros w. Qed.

Lemma raise_grows {A} e : grows (raise e : proc A).
Proof. by intros w. Qed.

Lemma observes_grows o : grows (observes o).
Proof. by intros w. Qed.

Lemma catch_grows {A} (m : proc A) h : grows m -> (forall e, grows (h e)) -> grows (catch m h).
Proof.
  intros Hm Hh w. specialize (Hm w). unfold catch. destruct (m w) as [[a|e] w1]; simpl in *; [done|].
  etrans; [done|]. apply Hh.
Qed.

Lemma for_each_grows {A} (l : list A) (body : A -> proc unit) : (forall x, grows (body x)) -> grows (for_each l body).
Proof. intros Hb. induction l as [|x l IH]; simpl; [apply ret_grows|]. by apply bind_grows. Qed.

Lemma on_session_grows {A} (m : sql A) tr : logs m tr -> grows (on_session m).
Proof.
  intros Hm w. specialize (Hm (w_session w)). unfold on_session, zoom, trace_of.
  destruct (m (w_session w)) as [[a|e] se]; destruct Hm as [_ Hm]; simpl.
  - destruct Hm as [-> _]. by exists tr.
  - destruct Hm as (tr' & _ & ->). by exists tr'.
Qed.

Lemma summary_add_grows e i : grows (summary_add e i).
Proof. intros w. unfold trace_of. by rewrite summary_add_session. Qed.

Lemma insert_relationships_logs b rows :
  logs (insert_relationships b rows) (map (fun row => RelationshipUpsert b (relationship_params row)) rows).
Proof. apply executemany_logs. Qed.

Lemma insert_external_links_logs b rows :
  logs (insert_external_links b rows) (map (fun row => ExternalLinkUpsert b (Plain <$> row)) rows).
Proof. apply executemany_logs. Qed.

Lemma upsert_release_logs values src : exists ps, logs (upsert_release values src) [EntityUpsert release_upsert ps].
Proof. eexists. apply execute_logs. Qed.

Lemma quiet_grows {A} (m : proc A) : (forall w, w_session (m w).2 = w_session w) -> grows m.
Proof. intros Hm w. unfold trace_of. by rewrite Hm. Qed.

Lemma hash_ref_grows r : grows (hash_ref r).
Proof. apply quiet_grows. intros w. unfold hash_ref. by destruct (hashable _). Qed.

Lemma open_flush_grows entity : grows (open_flush entity).
Proof.
  apply quiet_grows. intros w. unfold open_flush, mbind, comp_bind, reads. by destruct (flush_span_error _ entity).
Qed.

Local Hint Resolve ret_grows lift_grows raise_grows observes_grows summary_add_grows hash_ref_grows open_flush_grows : loader.

Ltac grow := repeat first
  [ progress auto with loader nocore
  | apply bind_grows; [|intros ?] | apply catch_grows; [|intros ?] | apply for_each_grows; intros ?
  | eapply on_session_grows; solve [eauto using insert_relationships_logs, insert_external_links_logs with loader]
  | case_match ].

Lemma native_id_grows kind mbid discogs_id : grows (native_id kind mbid discogs_id).
Proof. unfold native_id. grow. Qed.

Lemma process_relationships_grows b mbid ty rels : grows (process_relationships b mbid ty rels).
Proof. unfold process_relationships, write_batch. grow. Qed.

Lemma process_external_links_grows b mbid ty links : grows (process_external_links b mbid ty links).
Proof. unfold process_external_links, write_batch. grow. Qed.

Lemma write_release_media_grows record media : grows (write_release_media record media).
Proof. unfold write_release_media. grow. Qed.

Lemma attach_identifier_aliases_grows record native : grows (attach_identifier_aliases record native).
Proof. unfold attach_identifier_aliases. grow. Qed.

Lemma on_session_upsert_release_grows values src : grows (on_session (upsert_release values src)).
Proof. destruct (upsert_release_logs values src) as [ps Hps]. by eapply on_session_grows. Qed.

(** The lock is taken before anything else. Whatever becomes of the run,
    the first statement [process_release] issues for a release linked to Discogs
    is the advisory lock on that release's media, under the key the media
    writers share; it precedes every alias, row and child-row statement, so two
    messages that race on one release queue here rather than deadlock later. *)
Theorem release_lock_first b record w :
  is_none (get record "discogs_release_id") = false ->
  exists rest, trace_of (process_release b record w).2 =
    trace_of w ++ AdvisoryXactLock ("graph.issued_on:musicbrainz:" +:+ py_str (get record "discogs_release_id")) :: rest.
Proof.
  intros Hid. unfold process_release. rewrite Hid.
  set (k := fun _ : unit => _ : proc unit).
  assert (forall u, grows (k u)) as Hk.
  { intros u. unfold k. repeat first
      [ solve [auto using native_id_grows, lift_grows, on_session_upsert_release_grows, write_release_media_grows,
          process_relationships_grows, process_external_links_grows, attach_identifier_aliases_grows]
      | apply bind_grows; [|intros ?] ]. }
  set (m := on_session _). unfold mbind, comp_bind.
  assert (trace_of (m w).2 =
    trace_of w ++ [AdvisoryXactLock ("graph.issued_on:musicbrainz:" +:+ py_str (get record "discogs_release_id"))]) as Hm.
  { unfold m, on_session, zoom, lock_release_media, trace_of.
    pose proof (execute_trace (AdvisoryXactLock (media_lock_key MEDIA_SOURCE (py_str (get record "discogs_release_id"))))
      (w_session w)) as Ht. destruct (execute _ _). exact Ht. }
  destruct (m w) as [[u|e] w1]; simpl in Hm |- *.
  - destruct (Hk u w1) as [rest Hrest]. exists rest. by rewrite Hrest, Hm, <- app_assoc.
  - by exists [].
Qed.
End lock.
