(* ===== verification/Reconciliation.v ===== *)
(** * Delete-reconciliation

    [brainztableinator/_reconciliation.py]: the startup probe's verdict, the
    parse of the extraction's start, and [StaleChildRowPurge], the latch that
    collects the four completion signals and the guarded purge it allows. *)

From S2P Require Import Prelude PyValue PyDatetime QueueNames Database Persistence.
From stdpp Require Import base gmap strings list option.
From Stdlib Require Import ZArith Lia Floats.SpecFloat.

(** ** Constants *)

Definition RECONCILED_TABLES : list child_table := [Relationships; ExternalLinks].

Definition RECONCILIATION_COLUMN_TYPE : string := "timestamp with time zone".

(** The double nearest to 0.9. *)
Definition DEFAULT_MAX_DELETE_FRACTION : spec_float := S754_finite false 8106479329266893 (-53).

(** [f"{schema}.{table}"] *)
Definition qualified (t : child_table) : string :=
  match t with
  | Relationships => "musicbrainz.relationships"
  | ExternalLinks => "musicbrainz.external_links"
  end.

(** ** The startup probe *)

(** [reconciliation_columns_present]: [declared t] is the [data_type]
    [information_schema.columns] holds for the column, if any. *)
Definition reconciliation_columns_present (declared : child_table -> option string) (tables : list child_table) : bool :=
  let missing := filter (fun t => default "" (declared t) = "") tables in
  let wrong_type := filter (fun t => default "" (declared t) <> "" /\ declared t <> Some RECONCILIATION_COLUMN_TYPE) tables in
  match missing, wrong_type with
  | [], [] => true
  | _, _ => false
  end.

(** ** The extraction's start *)

(** [parse_started_at]; a naive timestamp is read as UTC. *)
Definition parse_started_at (started_at : value) : option Z :=
  match started_at with
  | VStr s =>
      if decide (s = "") then None
      else parsed ← fromisoformat s; Some (instant parsed)
  | _ => None
  end.

(** ** The latch *)

Record purge_state : Type := PurgeState {
  boundary : option Z;
  signals : gmap string (option Z);
  dead_lettered : gset string;
  settled_boundary : option Z;
}.

Record purge_config : Type := PurgeConfig {
  max_delete_fraction : spec_float;
  tables : list child_table;
  expected_data_types : gset string;
  has_admission : bool;
}.

Definition default_config : purge_config :=
  PurgeConfig DEFAULT_MAX_DELETE_FRACTION RECONCILED_TABLES (list_to_set MUSICBRAINZ_DATA_TYPES) true.

(** [__init__] *)
Definition initial_purge : purge_state := PurgeState None ∅ ∅ None.

Definition reset (st : purge_state) : purge_state := PurgeState None ∅ ∅ (settled_boundary st).

Definition record_dead_letter (data_type : string) (st : purge_state) : purge_state :=
  PurgeState (boundary st) (signals st) ({[data_type]} ∪ dead_lettered st) (settled_boundary st).

(** The count a signal reports for its own type. *)
Definition signal_count (data_type : string) (message : dict) : option Z :=
  counts ← as_dict (get message "record_counts"); as_int (get counts data_type).

Definition record_completion (data_type : string) (message : dict) (st : purge_state) : purge_state :=
  match parse_started_at (get message "started_at") with
  | None => PurgeState None ∅ (dead_lettered st) (settled_boundary st)
  | Some started_at =>
      let collect (signals : gmap string (option Z)) :=
        PurgeState (Some started_at) (<[data_type := signal_count data_type message]> signals)
          (dead_lettered st) (settled_boundary st) in
      match boundary st with
      | None => collect ∅
      | Some b =>
          if (started_at <? b)%Z then st
          else if (b <? started_at)%Z then collect ∅
          else collect (signals st)
      end
  end.

Definition signalled (st : purge_state) : gset string := dom (signals st).

Section latch.
Context (cfg : purge_config).

Definition is_latched (st : purge_state) : bool :=
  bool_decide (boundary st <> None) && bool_decide (expected_data_types cfg ⊆ signalled st).

Definition pending_data_types (st : purge_state) : list string :=
  sorted (elements (expected_data_types cfg ∖ signalled st)).

Definition is_settled (st : purge_state) : bool :=
  bool_decide (boundary st <> None) && bool_decide (settled_boundary st = boundary st).

Definition settle (b : option Z) (st : purge_state) : purge_state :=
  PurgeState (boundary st) (signals st) ∅ b.

Inductive veto : Type :=
| NotAllSignalled (pending : list string)
| AlreadySettled
| DeadLettered (types : list string)
| NoRecords (types : list string).

(** The types whose extractor reported nothing: a missing count or a zero. *)
Definition empty_types (st : purge_state) : list string :=
  sorted (elements (dom (filter (fun kc => kc.2 = None \/ kc.2 = Some 0%Z) (signals st)))).

Definition veto_reason (st : purge_state) : option veto :=
  if is_latched st then
    if bool_decide (settled_boundary st <> None) && bool_decide (settled_boundary st = boundary st) then Some AlreadySettled
    else if decide (dead_lettered st = ∅) then
      match empty_types st with
      | [] => None
      | types => Some (NoRecords types)
      end
    else Some (DeadLettered (sorted (elements (dead_lettered st))))
  else Some (NotAllSignalled (pending_data_types st)).

(** ** The purge *)

(** [stale_count / total_count] for positive counts: the quotient rounded to
    a double once, as Python divides two ints. *)
Definition true_div (s t : Z) : spec_float :=
  match s, t with
  | Zpos s, Zpos t => SFdiv 53 1024 (S754_finite false s 0) (S754_finite false t 0)
  | _, _ => S754_zero false
  end.

(** [delete_fraction >= self._max_delete_fraction] *)
Definition reaches_cap (stale total : Z) : bool := SFleb (max_delete_fraction cfg) (true_div stale total).

Section database.
Context `{Postgres}.

(** A counting query and its row, and a DELETE with its [rowcount]. *)
Definition fetch_count (s : statement) (answer : db -> Z) : sql Z :=
  reads (fun se => answer (s_db se)) ≫= fun n => execute s ≫= fun _ => mret n.

Definition purge_table (t : child_table) (b : Z) : sql Z :=
  fetch_count (CountAll t) (count_all t) ≫= fun total_count =>
  if (total_count =? 0)%Z then mret 0%Z
  else
    fetch_count (CountStale t b) (count_stale t b) ≫= fun stale_count =>
    if (stale_count =? 0)%Z then mret 0%Z
    else if reaches_cap stale_count total_count then mret 0%Z
    else fetch_count (DeleteStale t b) (count_stale t b).

Fixpoint purge_tables (ts : list child_table) (b : Z) : sql (list (string * Z)) :=
  match ts with
  | [] => mret []
  | t :: ts' =>
      purge_table t b ≫= fun n =>
      purge_tables ts' b ≫= fun rest =>
      mret ((qualified t, n) :: rest)
  end.

(** [StaleChildRowPurge.purge]; [connected] is the error that taking a write
    slot or a connection raises, if any. *)
Definition purge (connected : option exn) : comp (purge_state * session) exn (list (string * Z)) :=
  fun '(st, se) =>
    match veto_reason st with
    | Some _ => (Ok [], (if is_latched st then settle (boundary st) st else st, se))
    | None =>
        match boundary st with
        | None => (Ok [], (st, se))
        | Some b =>
            if has_admission cfg then
              match connected with
              | Some e => (Raise e, (st, se))
              | None =>
                  match transaction (purge_tables (tables cfg) b) se with
                  | (Ok deleted, se') => (Ok deleted, (settle (Some b) st, se'))
                  | (Raise e, se') => (Raise e, (st, se'))
                  end
              end
            else (Raise DatabaseUnavailableError, (st, se))
        end
    end.
End database.
End latch.
