(* ===== verification/Isoformat.v ===== *)
(** * [datetime.isoformat], and reading it back

    The loader logs a boundary with [isoformat] and reads one with
    [fromisoformat] ([_reconciliation.py], [parse_started_at]). Here is the
    standard library's printer, by its reference implementation, with the
    calendar computation from an ordinal to a date; every datetime it prints is
    read back as it was. *)

From S2P Require Import Prelude PyValue PyDatetime Reconciliation.
From stdpp Require Import base gmap strings list option.
From Stdlib Require Import ZArith Lia.

Local Open Scope Z_scope.

(** ** From an ordinal to a date *)

Definition DAYS_BEFORE_MONTH : list Z := [-1; 0; 31; 59; 90; 120; 151; 181; 212; 243; 273; 304; 334].

Definition days_before (leap : bool) (month : Z) : Z :=
  default 0 (DAYS_BEFORE_MONTH !! Z.to_nat month) + (if (2 <? month) && leap then 1 else 0).

Definition month_days (leap : bool) (month : Z) : Z :=
  match month with
  | 2 => if leap then 29 else 28
  | 4 | 6 | 9 | 11 => 30
  | _ => 31
  end.

(** The month and the day of the [n]th day of a year. *)
Definition month_and_day (leap : bool) (n : Z) : Z * Z :=
  let month := (n + 50) / 32 in
  let preceding := days_before leap month in
  let '(month, preceding) :=
    if n <? preceding then (month - 1, preceding - month_days leap (month - 1)) else (month, preceding) in
  (month, n - preceding + 1).

(** [_ord2ymd] *)
Definition ord2ymd (n : Z) : Z * Z * Z :=
  let n := n - 1 in
  let n400 := n / 146097 in let n := n mod 146097 in
  let n100 := n / 36524 in let n := n mod 36524 in
  let n4 := n / 1461 in let n := n mod 1461 in
  let n1 := n / 365 in let n := n mod 365 in
  let year := n400 * 400 + 1 + n100 * 100 + n4 * 4 + n1 in
  if (n1 =? 4) || (n100 =? 4) then (year - 1, 12, 31)
  else
    let leap := (n1 =? 3) && (negb (n4 =? 24) || (n100 =? 3)) in
    let '(m, d) := month_and_day leap n in (year, m, d).

Lemma month_days_year y m : days_in_month y m = month_days (is_leap y) m.
Proof. done. Qed.

Lemma days_before_month_year y m : 1 <= m <= 12 -> days_before_month y m = days_before (is_leap y) m.
Proof.
  intros Hm. unfold days_before_month. assert (forall i, days_in_month y i = month_days (is_leap y) i) as Hd by done.
  assert (m = 1 \/ m = 2 \/ m = 3 \/ m = 4 \/ m = 5 \/ m = 6 \/ m = 7 \/ m = 8 \/ m = 9 \/ m = 10 \/ m = 11 \/ m = 12) as Hc by lia.
  repeat destruct Hc as [->|Hc]; try subst m; simpl; rewrite ?Hd; by destruct (is_leap y).
Qed.

(** Every day of a year but a leap year's last is where its date says. *)
Definition day_found (leap : bool) (n : Z) : bool :=
  let '(m, d) := month_and_day leap n in
  (1 <=? m) && (m <=? 12) && (1 <=? d) && (d <=? month_days leap m) && (days_before leap m + d =? n + 1).

Lemma days_found leap n : 0 <= n < 365 -> day_found leap n = true.
Proof.
  intros Hn. assert (forallb (fun i => day_found true (Z.of_nat i) && day_found false (Z.of_nat i)) (seq 0 365) = true) as Hall
    by (vm_compute; reflexivity).
  rewrite forallb_forall in Hall. specialize (Hall (Z.to_nat n)). rewrite Z2Nat.id in Hall by lia.
  apply andb_true_iff in Hall as [Ht Hf]; [by destruct leap|]. apply in_seq. lia.
Qed.

(** The years of a 400-year cycle. *)
Section cycle.
Context (a b c e : Z) (Hb : 0 <= b <= 3) (Hc : 0 <= c <= 24) (He : 0 <= e <= 3).

Lemma cycle_days : days_before_year (400 * a + 100 * b + 4 * c + e + 1) = 146097 * a + 36524 * b + 1461 * c + 365 * e.
Proof.
  unfold days_before_year. replace (400 * a + 100 * b + 4 * c + e + 1 - 1) with (400 * a + 100 * b + 4 * c + e) by lia.
  rewrite <- (Z.div_unique (400 * a + 100 * b + 4 * c + e) 4 (100 * a + 25 * b + c) e) by lia.
  rewrite <- (Z.div_unique (400 * a + 100 * b + 4 * c + e) 100 (4 * a + b) (4 * c + e)) by lia.
  rewrite <- (Z.div_unique (400 * a + 100 * b + 4 * c + e) 400 a (100 * b + 4 * c + e)) by lia. lia.
Qed.

Lemma cycle_leap :
  is_leap (400 * a + 100 * b + 4 * c + e + 1) = (e =? 3) && (negb (c =? 24) || (b =? 3)).
Proof.
  unfold is_leap. destruct (Z.eqb_spec e 3) as [->|Hne]; simpl.
  - rewrite <- (Z.mod_unique (400 * a + 100 * b + 4 * c + 3 + 1) 4 (100 * a + 25 * b + c + 1) 0) by lia. simpl.
    destruct (Z.eqb_spec c 24) as [->|Hn]; simpl.
    + rewrite <- (Z.mod_unique (400 * a + 100 * b + 4 * 24 + 3 + 1) 100 (4 * a + b + 1) 0) by lia. simpl.
      destruct (Z.eqb_spec b 3) as [->|Hn].
      * by rewrite <- (Z.mod_unique (400 * a + 100 * 3 + 4 * 24 + 3 + 1) 400 (a + 1) 0) by lia.
      * rewrite <- (Z.mod_unique (400 * a + 100 * b + 4 * 24 + 3 + 1) 400 a (100 * b + 100)) by lia.
        apply Z.eqb_neq. lia.
    + rewrite <- (Z.mod_unique (400 * a + 100 * b + 4 * c + 3 + 1) 100 (4 * a + b) (4 * c + 4)) by lia.
      rewrite (proj2 (Z.eqb_neq _ _)) by lia. done.
  - rewrite <- (Z.mod_unique (400 * a + 100 * b + 4 * c + e + 1) 4 (100 * a + 25 * b + c) (e + 1)) by lia.
    by rewrite (proj2 (Z.eqb_neq _ _)) by lia.
Qed.
End cycle.

(** December 31st of a leap year. *)
Lemma last_day y : is_leap y = true -> ymd2ord y 12 31 = days_before_year y + 366.
Proof. intros Hy. unfold ymd2ord. rewrite days_before_month_year, Hy by lia. change (days_before true 12) with 335. lia. Qed.

(** The date of an ordinal has it. *)
Lemma ord2ymd_date n : 1 <= n <= max_ordinal -> let '(y, m, d) := ord2ymd n in date y m d = Some n.
Proof.
  intros Hn. change max_ordinal with 3652059 in Hn. unfold ord2ymd. cbv zeta.
  set (a := (n - 1) / 146097). set (r := (n - 1) mod 146097). set (b := r / 36524). set (r2 := r mod 36524).
  set (c := r2 / 1461). set (r3 := r2 mod 1461). set (e := r3 / 365). set (k := r3 mod 365).
  pose proof (Z.div_mod (n - 1) 146097 ltac:(lia)) as Ea. pose proof (Z.mod_pos_bound (n - 1) 146097 ltac:(lia)) as Ba.
  pose proof (Z.div_mod r 36524 ltac:(lia)) as Eb. pose proof (Z.mod_pos_bound r 36524 ltac:(lia)) as Bb.
  pose proof (Z.div_mod r2 1461 ltac:(lia)) as Ec. pose proof (Z.mod_pos_bound r2 1461 ltac:(lia)) as Bc.
  pose proof (Z.div_mod r3 365 ltac:(lia)) as Ee. pose proof (Z.mod_pos_bound r3 365 ltac:(lia)) as Be.
  fold a in Ea. fold r in Ea, Ba. fold b in Eb. fold r2 in Eb, Bb. fold c in Ec. fold r3 in Ec, Bc. fold e in Ee. fold k in Ee, Be.
  clearbody a r b r2 c r3 e k.
  destruct (Z.eqb_spec e 4) as [->|He]; [|destruct (Z.eqb_spec b 4) as [->|Hb]]; simpl orb; cbn iota.
  - assert (k = 0 /\ 0 <= b <= 3 /\ 0 <= c <= 23) as (-> & Hb & Hc) by lia.
    replace (a * 400 + 1 + b * 100 + c * 4 + 4 - 1) with (400 * a + 100 * b + 4 * c + 3 + 1) by lia.
    pose proof (cycle_leap a b c 3 ltac:(lia) ltac:(lia) ltac:(lia)) as Hl.
    rewrite (proj2 (Z.eqb_neq c 24)) in Hl by lia. simpl in Hl.
    pose proof (cycle_days a b c 3 ltac:(lia) ltac:(lia) ltac:(lia)) as Hd.
    unfold date. change (days_in_month _ 12) with 31. rewrite (last_day _ Hl), Hd.
    unfold MINYEAR, MAXYEAR.
    repeat (rewrite (proj2 (Z.leb_le _ _)) by lia). simpl. f_equal. lia.
  - assert (r2 = 0 /\ c = 0 /\ r3 = 0 /\ e = 0 /\ k = 0) as (-> & -> & -> & -> & ->) by lia.
    replace (a * 400 + 1 + 4 * 100 + 0 * 4 + 0 - 1) with (400 * a + 100 * 3 + 4 * 24 + 3 + 1) by lia.
    pose proof (cycle_leap a 3 24 3 ltac:(lia) ltac:(lia) ltac:(lia)) as Hl. simpl in Hl.
    pose proof (cycle_days a 3 24 3 ltac:(lia) ltac:(lia) ltac:(lia)) as Hd.
    unfold date. change (days_in_month _ 12) with 31. rewrite (last_day _ Hl), Hd.
    unfold MINYEAR, MAXYEAR. repeat (rewrite (proj2 (Z.leb_le _ _)) by lia). simpl. f_equal. lia.
  - assert (0 <= b <= 3 /\ 0 <= c <= 24 /\ 0 <= e <= 3) as (Hb' & Hc' & He') by lia.
    replace (a * 400 + 1 + b * 100 + c * 4 + e) with (400 * a + 100 * b + 4 * c + e + 1) by lia.
    pose proof (cycle_leap a b c e Hb' Hc' He') as Hl. pose proof (cycle_days a b c e Hb' Hc' He') as Hd.
    rewrite <- Hl. set (y := 400 * a + 100 * b + 4 * c + e + 1) in *.
    pose proof (days_found (is_leap y) k ltac:(lia)) as Hf. unfold day_found in Hf.
    destruct (month_and_day (is_leap y) k) as [m d]. rewrite !andb_true_iff, Z.eqb_eq, !Z.leb_le in Hf.
    destruct Hf as ((((H1 & H2) & H3) & H4) & H5). unfold date, ymd2ord, MINYEAR, MAXYEAR.
    rewrite month_days_year, days_before_month_year, Hd by lia.
    assert (1 <= y <= 9999) by lia.
    repeat (rewrite (proj2 (Z.leb_le _ _)) by lia). simpl. f_equal. lia.
Qed.

(** ** The text *)

Definition digit_of (d : Z) : string := chr (Z.to_N (48 + d)).

(** ["%0nd" % x] *)
Fixpoint digits (n : nat) (x : Z) : list string :=
  match n with O => [] | S n => digits n (x / 10) ++ [digit_of (x mod 10)] end.

(** The fields of a time of day or of an offset. *)
Definition clock_of (t : Z) : clock :=
  Clock (t / 1000000 / 60 / 60) (t / 1000000 / 60 mod 60) (t / 1000000 mod 60) (t mod 1000000).

Definition fraction_text (us : Z) : list string := if us =? 0 then [] else "." :: digits 6 us.

(** [_format_time] with [timespec='auto'] *)
Definition time_text (c : clock) : list string :=
  digits 2 (hh c) ++ ":" :: digits 2 (mm c) ++ ":" :: digits 2 (ss c) ++ fraction_text (us c).

(** [_format_offset] *)
Definition offset_clock_text (c : clock) : list string :=
  digits 2 (hh c) ++ ":" :: digits 2 (mm c) ++
  (if (ss c =? 0) && (us c =? 0) then [] else ":" :: digits 2 (ss c) ++ fraction_text (us c)).

Definition offset_text (offset : option Z) : list string :=
  match offset with
  | None => []
  | Some o => (if o <? 0 then "-" else "+") :: offset_clock_text (clock_of (Z.abs o))
  end.

(** [datetime.isoformat] *)
Definition isoformat (dt : datetime) : string :=
  let '(y, m, d) := ord2ymd (dt_day dt) in
  PyValue.join (digits 4 y ++ "-" :: digits 2 m ++ "-" :: digits 2 d ++ "T" :: time_text (clock_of (dt_time dt)) ++ offset_text (dt_offset dt)).

Example isoformat_offset :
  isoformat (Datetime 739910 601250000 (Some (-7200000000))) = "2026-10-21T00:10:01.250000-02:00".
Proof. vm_compute. reflexivity. Qed.

(** ** Digits *)

#[local] Arguments digit_of : simpl never.
#[local] Arguments number : simpl never.
#[local] Arguments field : simpl never.

Lemma digit_digit_of d : 0 <= d < 10 -> digit (digit_of d) = Some d.
Proof.
  intros Hd. assert (d = 0 \/ d = 1 \/ d = 2 \/ d = 3 \/ d = 4 \/ d = 5 \/ d = 6 \/ d = 7 \/ d = 8 \/ d = 9) as Hc by lia.
  repeat destruct Hc as [->|Hc]; try subst d; reflexivity.
Qed.

Lemma number_app acc l l' : number acc (l ++ l') = number acc l ≫= fun n => number n l'.
Proof.
  revert acc. induction l as [|ch l IH]; intros acc; [done|]. unfold number. simpl. fold number.
  destruct (digit ch) as [d|]; [|done]. exact (IH (acc * 10 + d)).
Qed.

Lemma number_digits n x acc : 0 <= x < 10 ^ Z.of_nat n -> number acc (digits n x) = Some (acc * 10 ^ Z.of_nat n + x).
Proof.
  revert x. induction n as [|n IH]; intros x Hx.
  - simpl in *. unfold number. f_equal. lia.
  - rewrite Nat2Z.inj_succ, Z.pow_succ_r in * by lia. pose proof (Z.div_mod x 10 ltac:(lia)) as Hdm.
    pose proof (Z.mod_pos_bound x 10 ltac:(lia)) as Hm. simpl digits. rewrite number_app, IH by lia.
    simpl. unfold number. rewrite digit_digit_of by done. simpl. f_equal. lia.
Qed.

Lemma digits_length n x : length (digits n x) = n.
Proof. revert x. induction n as [|n IH]; intros x; [done|]. simpl. rewrite length_app, IH. simpl. lia. Qed.

Lemma field_digits n x : 0 <= x < 10 ^ Z.of_nat n -> field n (digits n x) = Some x.
Proof. intros Hx. unfold field. by rewrite digits_length, Nat.eqb_refl, number_digits by done. Qed.

Lemma field_two x : 0 <= x < 100 -> field 2 [digit_of (x / 10 mod 10); digit_of (x mod 10)] = Some x.
Proof. exact (field_digits 2 x). Qed.

Lemma digits_are n x : Forall (fun ch => exists d, 0 <= d < 10 /\ ch = digit_of d) (digits n x).
Proof.
  revert x. induction n as [|n IH]; intros x; [constructor|]. simpl. apply Forall_app. split; [done|].
  constructor; [|done]. exists (x mod 10). split; [apply Z.mod_pos_bound; lia|done].
Qed.

Lemma digit_of_is d : 0 <= d < 10 -> is_digit (digit_of d) = true.
Proof. intros Hd. unfold is_digit. rewrite digit_digit_of by done. by apply bool_decide_eq_true_2. Qed.

Lemma digit_of_not d ch : 0 <= d < 10 -> is_digit ch = false -> digit_of d <> ch.
Proof. intros Hd Hch <-. by rewrite digit_of_is in Hch. Qed.

Lemma mod_digit x : 0 <= x mod 10 < 10.
Proof. apply Z.mod_pos_bound. lia. Qed.

(** ** Characters *)

Definition plain (ch : string) : Prop := exists c, ch = String c "" /\ is_continuation c = false.

Lemma chars_join l : Forall plain l -> chars (PyValue.join l) = l.
Proof.
  induction 1 as [|ch l (c & -> & Hc) HF IH]; [done|]. change (PyValue.join (String c "" :: l)) with (String c (PyValue.join l)).
  simpl chars. rewrite IH. destruct HF as [|ch' l (c' & -> & Hc') _]; [done|]. by rewrite Hc'.
Qed.

Lemma plain_digit d : 0 <= d < 10 -> plain (digit_of d).
Proof.
  intros Hd. assert (d = 0 \/ d = 1 \/ d = 2 \/ d = 3 \/ d = 4 \/ d = 5 \/ d = 6 \/ d = 7 \/ d = 8 \/ d = 9) as Hc by lia.
  repeat destruct Hc as [->|Hc]; try subst d; (eexists; split; [reflexivity|reflexivity]).
Qed.

Lemma plain_digits n x : Forall plain (digits n x).
Proof. refine (List.Forall_impl _ _ (digits_are n x)). intros ch (d & Hd & ->). by apply plain_digit. Qed.

(** ** Times read back *)

(** A clock whose fields are in range. *)
Record in_range (c : clock) : Prop := InRange {
  ir_h : 0 <= hh c < 100;
  ir_m : 0 <= mm c < 60;
  ir_s : 0 <= ss c < 60;
  ir_u : 0 <= us c < 1000000;
}.

Lemma fraction_read u : 0 <= u < 1000000 -> parse_fraction (fraction_text u) = Some u.
Proof.
  intros Hu. unfold fraction_text. destruct (Z.eqb_spec u 0) as [->|]; [done|]. unfold parse_fraction.
  rewrite bool_decide_eq_true_2 by (left). rewrite digits_length.
  assert (forallb is_digit (digits 6 u) = true) as ->.
  { apply forallb_forall. intros ch Hch. pose proof (digits_are 6 u) as Hd. rewrite List.Forall_forall in Hd.
    destruct (Hd ch Hch) as (d & Hr & ->). by apply digit_of_is. }
  simpl andb. cbn iota. rewrite (firstn_all2 (n := 6) (digits 6 u)) by (by rewrite digits_length).
  rewrite number_digits, digits_length by done. simpl. f_equal. lia.
Qed.

Lemma time_read c : in_range c -> parse_clock (time_text c) = Some c.
Proof.
  intros [Hh Hm Hs Hu]. unfold time_text. destruct c as [h m s u]. simpl in *. unfold parse_clock. simpl.
  rewrite (field_two h) by lia. simpl. rewrite (field_two m) by lia. simpl.
  rewrite take_0, drop_0, (field_two s) by lia. simpl. by rewrite fraction_read.
Qed.

Lemma offset_clock_read c : in_range c -> parse_clock (offset_clock_text c) = Some c.
Proof.
  intros Hc. unfold offset_clock_text. destruct ((ss c =? 0) && (us c =? 0)) eqn:Ez; [|by apply time_read].
  apply andb_true_iff in Ez as [Hs%Z.eqb_eq Hu%Z.eqb_eq]. destruct Hc as [Hh Hm _ _], c as [h m s u]. simpl in *. subst s u.
  unfold parse_clock. simpl. rewrite (field_two h) by lia. simpl. by rewrite (field_two m) by lia.
Qed.

Lemma clock_of_us t : clock_us (clock_of t) = t.
Proof.
  unfold clock_us, clock_of. simpl. pose proof (Z.div_mod t 1000000). pose proof (Z.div_mod (t / 1000000) 60).
  pose proof (Z.div_mod (t / 1000000 / 60) 60). lia.
Qed.

Lemma clock_of_range t : 0 <= t < 86400000000 -> in_range (clock_of t) /\ hh (clock_of t) < 24.
Proof.
  intros Ht. pose proof (Z.mod_pos_bound t 1000000). pose proof (Z.mod_pos_bound (t / 1000000) 60).
  pose proof (Z.mod_pos_bound (t / 1000000 / 60) 60).
  assert (0 <= t / 1000000 / 60 / 60 < 24) as Hh.
  { rewrite !Z.div_div by lia. split; [apply Z.div_pos; lia|apply Z.div_lt_upper_bound; lia]. }
  split; [|simpl; lia]. split; simpl; lia.
Qed.

(** ** The offset read back *)

Lemma index_of_none ch l : ch ∉ l -> index_of ch l = None.
Proof.
  induction l as [|x l IH]; [done|]. intros Hn. simpl. rewrite not_elem_of_cons in Hn.
  rewrite decide_False by (intros ->; by destruct Hn). by rewrite IH by apply Hn.
Qed.

Lemma index_of_app ch l l' : ch ∉ l -> index_of ch (l ++ ch :: l') = Some (length l).
Proof.
  induction l as [|x l IH]; intros Hn; simpl; [by rewrite decide_True|]. rewrite not_elem_of_cons in Hn.
  rewrite decide_False by (intros ->; by destruct Hn). by rewrite IH by apply Hn.
Qed.

(** The characters of a time, or of an offset's clock. *)
Definition time_char (ch : string) : Prop := is_digit ch = true \/ ch = ":" \/ ch = ".".

Lemma digits_time n x : Forall time_char (digits n x).
Proof. refine (List.Forall_impl _ _ (digits_are n x)). intros ch (d & Hd & ->). left. by apply digit_of_is. Qed.

Lemma fraction_time u : Forall time_char (fraction_text u).
Proof. unfold fraction_text. destruct (u =? 0); constructor; [by right; right|apply digits_time]. Qed.

Lemma time_chars c : Forall time_char (time_text c).
Proof.
  unfold time_text. repeat (apply Forall_app; split; [apply digits_time|]; constructor; [by right; left|]).
  apply Forall_app. split; [apply digits_time|apply fraction_time].
Qed.

Lemma offset_clock_chars c : Forall time_char (offset_clock_text c).
Proof.
  unfold offset_clock_text. apply Forall_app. split; [apply digits_time|]. constructor; [by right; left|].
  apply Forall_app. split; [apply digits_time|]. destruct (_ && _); constructor; [by right; left|].
  apply Forall_app. split; [apply digits_time|apply fraction_time].
Qed.

Lemma sign_not_in l ch : Forall time_char l -> ch ∈ ["-"; "+"; "Z"] -> ch ∉ l.
Proof.
  rewrite !list_elem_of_In. intros HF Hch Hin. rewrite List.Forall_forall in HF. simpl in Hch.
  destruct (HF ch Hin) as [Hd|[->| ->]]; naive_solver.
Qed.

Lemma offset_clock_length c : length (offset_clock_text c) ∉ [0; 1; 3]%nat.
Proof.
  unfold offset_clock_text. simpl. intros Hin. apply list_elem_of_In in Hin. simpl in Hin.
  destruct (_ && _); simpl in Hin; lia.
Qed.

Lemma first_found {A} (p : A) y : Some p ∪ y = Some p.
Proof. by destruct y. Qed.

Lemma none_found {A} (y : option A) : None ∪ y = y.
Proof. by destruct y. Qed.

Lemma signed_read l sg (neg : bool) o :
  Forall time_char l -> sg = (if neg then "-" else "+") -> 0 <= o < 86400000000 ->
  parse_offset (l ++ sg :: offset_clock_text (clock_of o)) = Some (l, Some (if neg then - o else o)).
Proof.
  intros HF Hsg Ho. pose proof (fun ch => sign_not_in l ch HF) as Hno. unfold parse_offset.
  set (c := clock_of o). destruct (clock_of_range o Ho) as [Hc _]. fold c in Hc.
  pose proof (fun ch => sign_not_in _ ch (offset_clock_chars c)) as Hno'.
  assert (index_of "-" (l ++ sg :: offset_clock_text c) ∪ index_of "+" (l ++ sg :: offset_clock_text c) ∪
          index_of "Z" (l ++ sg :: offset_clock_text c) = Some (length l)) as ->.
  { destruct neg; subst sg; [by rewrite index_of_app, !first_found by (apply Hno; set_solver)|].
    rewrite (index_of_none "-"); [by rewrite none_found, index_of_app, first_found by (apply Hno; set_solver)|].
    rewrite elem_of_app, elem_of_cons. intros [Hl|[Hl|Hl]]; [|done|]; [apply (Hno "-") in Hl|apply (Hno' "-") in Hl]; set_solver. }
  assert (at_ (l ++ sg :: offset_clock_text c) (length l) = sg) as -> by (unfold at_; by rewrite list_lookup_middle).
  assert (drop (length l + 1) (l ++ sg :: offset_clock_text c) = offset_clock_text c) as ->.
  { rewrite skipn_app. rewrite skipn_all2 by lia. by replace (length l + 1 - length l)%nat with 1%nat by lia. }
  rewrite take_app_length. rewrite (bool_decide_eq_false_2 (sg = "Z")) by (by destruct neg; subst sg).
  rewrite bool_decide_eq_false_2 by apply offset_clock_length. rewrite (offset_clock_read c Hc). simpl.
  unfold c. rewrite clock_of_us, (proj2 (Z.ltb_lt _ _)) by lia. by destruct neg; subst sg.
Qed.

Lemma offset_read l o :
  Forall time_char l -> match o with Some o => Z.abs o < 86400000000 | None => True end ->
  parse_offset (l ++ offset_text o) = Some (l, o).
Proof.
  intros HF Ho. destruct o as [o|]; simpl offset_text.
  - rewrite (signed_read l _ (o <? 0)) by (done || lia). destruct (Z.ltb_spec o 0); do 3 f_equal; lia.
  - rewrite app_nil_r. unfold parse_offset. pose proof (fun ch => sign_not_in l ch HF) as Hno.
    by rewrite !index_of_none by (apply Hno; set_solver).
Qed.

(** ** The whole text read back *)

(** A datetime Python can hold. *)
Record representable (dt : datetime) : Prop := Representable {
  rp_day : 1 <= dt_day dt <= max_ordinal;
  rp_time : 0 <= dt_time dt < 86400000000;
  rp_offset : match dt_offset dt with Some o => Z.abs o < 86400000000 | None => True end;
}.

Definition date_text (y m d : Z) : list string := digits 4 y ++ "-" :: digits 2 m ++ "-" :: digits 2 d.

Lemma date_read y m d n : date y m d = Some n -> parse_date (date_text y m d) = Some n.
Proof.
  intros Hd. pose proof Hd as Hr. unfold date in Hr. destruct (_ && _) eqn:Eb in Hr; [|done]. clear Hr.
  rewrite !andb_true_iff, !Z.leb_le in Eb. destruct Eb as (((((Y1 & Y2) & M1) & M2) & D1) & D2). unfold MINYEAR, MAXYEAR in *.
  assert (d <= 31) as D3.
  { rewrite month_days_year in D2. unfold month_days in D2. destruct (is_leap y); repeat case_match; lia. }
  unfold parse_date, date_text, slice. simpl take. pose proof (field_digits 4 y ltac:(simpl; lia)) as Hy. simpl in Hy. rewrite Hy. simpl.
  unfold at_. simpl. rewrite (bool_decide_eq_false_2 (digit_of (m / 10 mod 10) = "W"))
    by (apply digit_of_not; [apply mod_digit|done]).
  rewrite (field_two m) by lia. simpl. by rewrite (field_two d) by lia.
Qed.

Lemma separator_found y m d t : find_separator (date_text y m d ++ "T" :: t) = 10%nat.
Proof.
  unfold find_separator, at_. simpl. rewrite bool_decide_eq_false_2; [done|]. apply digit_of_not; [apply mod_digit|done].
Qed.

Lemma plain_text y m d t : Forall plain t -> Forall plain (date_text y m d ++ "T" :: t).
Proof.
  intros Ht. assert (forall c, is_continuation c = false -> plain (String c "")) as Hp by (intros c Hc; by exists c).
  unfold date_text. apply Forall_app. split; [|by constructor; [apply Hp|]].
  apply Forall_app. split; [apply plain_digits|]. constructor; [by apply Hp|].
  apply Forall_app. split; [apply plain_digits|]. constructor; [by apply Hp|apply plain_digits].
Qed.

Lemma plain_time l : Forall time_char l -> Forall plain l.
Proof.
  intros HF. refine (List.Forall_impl _ _ HF). intros ch [Hd|[->| ->]]; [|by eexists|by eexists].
  unfold is_digit in Hd. apply bool_decide_eq_true_1 in Hd as [d Hd]. destruct ch as [|c [|c' ch]]; try done.
  exists c. split; [done|]. unfold digit in Hd. unfold is_continuation. destruct (_ && _) eqn:E in Hd; [|done].
  apply andb_true_iff in E as [_ E%Z.leb_le]. apply andb_false_iff. left. apply N.leb_gt. lia.
Qed.

Lemma plain_offset o : Forall plain (offset_text o).
Proof.
  destruct o as [o|]; [|constructor]. constructor; [|apply plain_time, offset_clock_chars].
  destruct (o <? 0); by eexists.
Qed.

Lemma isoformat_read dt : representable dt -> fromisoformat (isoformat dt) = Some dt.
Proof.
  intros [Hd Ht Ho].
  unfold isoformat. pose proof (ord2ymd_date _ Hd) as Hdate. destruct (ord2ymd (dt_day dt)) as [[y m] d].
  set (time := time_text (clock_of (dt_time dt))). destruct (clock_of_range _ Ht) as [Hc Hh].
  assert (Forall time_char time) as Htime by apply time_chars.
  change (digits 4 y ++ _) with (date_text y m d ++ "T" :: time ++ offset_text (dt_offset dt)).
  unfold fromisoformat. rewrite chars_join.
  2: { apply plain_text, Forall_app. split; [by apply plain_time|apply plain_offset]. }
  rewrite separator_found. cbv zeta. set (l := date_text y m d ++ "T" :: time ++ offset_text (dt_offset dt)).
  assert (take 10 l = date_text y m d) as -> by reflexivity.
  assert (drop (10 + 1) l = time ++ offset_text (dt_offset dt)) as -> by reflexivity.
  assert ((length l <? 7)%nat = false) as -> by reflexivity. rewrite (date_read _ _ _ _ Hdate). simpl mbind.
  match goal with |- context [parse_offset ?t] => change t with (time ++ offset_text (dt_offset dt)) end.
  rewrite (offset_read _ _ Htime Ho). unfold time. rewrite (time_read _ Hc).
  simpl mbind. unfold time_of_day. destruct Hc as [H1 H2 H3 H4]. rewrite (proj2 (Z.eqb_neq _ _)) by lia.
  rewrite !(proj2 (Z.ltb_lt _ _)) by lia. simpl. rewrite clock_of_us, (proj2 (Z.leb_le _ _)) by lia. by destruct dt.
Qed.

Lemma isoformat_instant dt : representable dt -> parse_started_at (VStr (isoformat dt)) = Some (instant dt).
Proof.
  intros Hr. pose proof (isoformat_read dt Hr) as Hread.
  unfold parse_started_at. rewrite Hread. case_decide as He; [|done]. by rewrite He in Hread.
Qed.

(** What [isoformat] prints is read back. For every datetime Python can hold
    (any day from year 1 to 9999, any microsecond, naive or at any UTC offset of
    less than a day) [fromisoformat] of its [isoformat] is that datetime, so a
    boundary taken from a log names, as a [started_at], the very instant of the
    run that logged it. *)
Theorem isoformat_roundtrip dt :
  representable dt ->
  fromisoformat (isoformat dt) = Some dt /\ parse_started_at (VStr (isoformat dt)) = Some (instant dt).
Proof. intros Hr. split; [by apply isoformat_read|by apply isoformat_instant]. Qed.
