(* ===== verification/Health.v ===== *)
(** * The health report

    [get_health_data] of [brainztableinator/brainztableinator.py]: what the health
    endpoint answers. The two dictionaries and the set are copies; their order in
    the JSON is not modelled. *)

From S2P Require Import Prelude PyValue PyDatetime QueueNames Consumers Reconciliation Isoformat.
From stdpp Require Import base gmap strings list option.
From Stdlib Require Import ZArith Lia.

Definition SERVICE_NAME : string := "musicbrainz-sql-loader".

(** [datetime.now(UTC)], of microseconds since 1970. *)
Definition utc (stamp : Z) : datetime :=
  Datetime (719163 + stamp / 86400000000) (stamp mod 86400000000) (Some 0%Z).

Record health_data : Type := HealthData {
  hd_status : health_status;
  hd_service : string;
  hd_current_task : option string;
  hd_message_counts : gmap string Z;
  hd_last_message_time : gmap string Z;
  hd_cancellation_failed : bool;
  hd_active_consumers : list string;
  hd_alarm_types : list string;
  hd_completed_files : gset string;
  hd_timestamp : string;
}.

(** [now] is what [time.time] answers, [stamp] what [datetime.now] does after it;
    [progress] is a constant, since nothing assigns [current_progress]. *)
Definition get_health_data (STARTUP_IDLE_TIMEOUT : Z) (pool : bool) (now stamp : Z) (st : consumers) : health_data :=
  HealthData (health STARTUP_IDLE_TIMEOUT pool now st) SERVICE_NAME (current_task STARTUP_IDLE_TIMEOUT pool now st)
    (message_counts (c_traffic st)) (last_message_time (c_traffic st)) (consumer_cancellation_failed st)
    (consumer_tags (c_registry st)).*1 (consumer_alarm_types STARTUP_IDLE_TIMEOUT now st)
    (completed_files (c_traffic st)) (isoformat (utc stamp)).

(** A report is consistent: it calls a service with a pool healthy exactly when it
    names no alarm and no failed cancellation, every alarm it names is of a type
    not complete, and its timestamp is read back as the time it was made. *)
Lemma health_consistent timeout pool now stamp st :
  (0 <= stamp < 253402300800000000)%Z ->
  let h := get_health_data timeout pool now stamp st in
  (hd_status h = Healthy <-> pool = true /\ hd_alarm_types h = [] /\ hd_cancellation_failed h = false) /\
  (forall t, t ∈ hd_alarm_types h -> t ∈ MUSICBRAINZ_DATA_TYPES /\ t ∉ hd_completed_files h) /\
  parse_started_at (VStr (hd_timestamp h)) = Some (719163 * 86400000000 + stamp)%Z.
Proof.
  intros Hn h. split_and!.
  - simpl. unfold health. destruct pool; [|case_match; naive_solver].
    destruct (bool_decide_reflect (consumer_alarm_types timeout now st <> [])); simpl; [naive_solver|].
    destruct (consumer_cancellation_failed st); [naive_solver|]. split; [|done]. intros _. split_and!; [done| |done]. by apply dec_stable.
  - intros t. simpl. unfold consumer_alarm_types. case_match; [by intros ?%not_elem_of_nil|]. rewrite list_elem_of_filter. tauto.
  - simpl hd_timestamp. pose proof (Z.div_mod stamp 86400000000 ltac:(lia)) as Hdm.
    assert (representable (utc stamp)) as Hr.
    { pose proof (Z.mod_pos_bound stamp 86400000000 eq_refl). split; cbn [utc dt_day dt_time dt_offset]; [|lia|lia].
      assert (max_ordinal = 3652059)%Z as -> by (vm_compute; reflexivity). lia. }
    rewrite (isoformat_instant _ Hr). f_equal. unfold instant. cbn [utc dt_day dt_time dt_offset from_option id]. lia.
Qed.
