(* ===== verification/Locks.v ===== *)
(** * Transactions against each other's locks

    Each record is written in one transaction, and a prefetch above one keeps
    several open on as many connections. A statement that reaches a row, an index
    key or an advisory lock another open transaction holds waits until that one
    ends. [_persistence.py] and [_record_processing.py] order their statements so
    that no such waits close a cycle; this file says when they do not. *)

From S2P Require Import Prelude.
From stdpp Require Import base list option sorting.
From Stdlib Require Import Lia.

(** ** Open transactions *)

Section locks.
Context {Req Lock : Type} `{EqDecision Lock} (lock_of : Req -> option Lock).

(** The statements a transaction has had answered, those it has still to send,
    and whether it is open. *)
Record txn : Type := Txn { tx_sent : list Req; tx_todo : list Req; tx_open : bool }.

(** Locks are kept to the end of the transaction. *)
Definition locks (l : list Req) : list Lock := omap lock_of l.
Definition holds (t : txn) : list Lock := if tx_open t then locks (tx_sent t) else [].

Definition start (trs : list (list Req)) : list txn := map (fun tr => Txn [] tr true) trs.

(** No other transaction holds [l]. *)
Definition free (s : list txn) (i : nat) (l : Lock) : bool :=
  forallb (fun jt => bool_decide (jt.1 = i \/ l ∉ holds jt.2)) (zip (seq 0 (length s)) s).

Definition granted (s : list txn) (i : nat) (st : Req) : bool :=
  match lock_of st with Some l => free s i l | None => true end.

(** The next statement of [i] is answered, or its commit; [None] while it waits. *)
Definition advance (s : list txn) (i : nat) : option (list txn) :=
  match s !! i with
  | Some (Txn sent (st :: todo) true) => if granted s i st then Some (<[i := Txn (sent ++ [st]) todo true]> s) else None
  | Some (Txn sent [] true) => Some (<[i := Txn sent [] false]> s)
  | _ => None
  end.

(** A transaction is rolled back: its statement fails, or its connection. *)
Definition roll_back (s : list txn) (i : nat) : list txn :=
  match s !! i with Some (Txn sent todo _) => <[i := Txn sent todo false]> s | None => s end.

Inductive event : Type := Go (i : nat) | Fail (i : nat).

Definition happens (s : list txn) (e : event) : list txn :=
  match e with Go i => default s (advance s i) | Fail i => roll_back s i end.

Definition execution (s : list txn) (events : list event) : list txn := foldl happens s events.

(** Transactions are open and none of them can go on. *)
Definition deadlocked (s : list txn) : Prop :=
  Exists (fun t => tx_open t = true) s /\ forall i, advance s i = None.

(** ** An order of acquisition *)

(** What [ok] says of each lock a transaction takes, given those it has. *)
Fixpoint acquires (ok : list Lock -> Lock -> Prop) (held : list Lock) (tr : list Req) : Prop :=
  match tr with
  | [] => True
  | st :: tr =>
      match lock_of st with Some l => l ∈ held \/ ok held l | None => True end /\
      acquires ok (held ++ locks [st]) tr
  end.

(** A lock under a guard is only taken by who holds the guard. The others are
    taken in the order [before]. *)
Context (guard : Lock -> option Lock) (before : relation Lock).

Definition in_order (held : list Lock) (l : Lock) : Prop :=
  match guard l with
  | Some g => g ∈ held
  | None => forall l', l' ∈ held -> guard l' = None -> before l' l
  end.

Definition disciplined (tr : list Req) : Prop := acquires in_order [] tr.

Lemma locks_app l k : locks (l ++ k) = locks l ++ locks k.
Proof. apply omap_app. Qed.

Lemma locks_one st l : lock_of st = Some l -> locks [st] = [l].
Proof. unfold locks. simpl. by intros ->. Qed.

Lemma acquires_app ok held a b : acquires ok held (a ++ b) <-> acquires ok held a /\ acquires ok (held ++ locks a) b.
Proof.
  revert held. induction a as [|st a IH]; intros held; [change (locks []) with (@nil Lock); rewrite app_nil_r; simpl; tauto|].
  cbn [acquires app]. rewrite IH, <- app_assoc, <- locks_app. simpl. tauto.
Qed.

(** Statements that take no lock. *)
Lemma acquires_none ok held tr : Forall (fun st => lock_of st = None) tr -> acquires ok held tr /\ locks tr = [].
Proof.
  intros HF. revert held. induction HF as [|st tr Hst _ IH]; intros held; [done|]. simpl. unfold locks. simpl. rewrite Hst. simpl.
  rewrite app_nil_r. destruct (IH held) as [Ha Hl]. by split_and!.
Qed.

(** Statements whose locks are taken in order. *)
Lemma acquires_sorted {A} (st : A -> Req) (lk : A -> Lock) held xs :
  (forall a, a ∈ xs -> lock_of (st a) = Some (lk a) /\ guard (lk a) = None /\ forall l, l ∈ held -> guard l = None -> before l (lk a)) ->
  StronglySorted (fun a b => before (lk a) (lk b)) xs ->
  acquires in_order held (map st xs).
Proof.
  intros Hxs Hs. revert held Hxs. induction Hs as [|a xs _ IH HF]; intros held Hxs; [done|]. simpl.
  destruct (Hxs a) as (Hl & Hg & Hb); [by left|]. unfold locks. simpl. rewrite Hl. split.
  - right. unfold in_order. by rewrite Hg.
  - apply IH. intros b Hin. destruct (Hxs b) as (Hl' & Hg' & Hb'); [by right|]. split_and!; [done|done|].
    intros l [Hin'|Heq%list_elem_of_singleton]%elem_of_app Hgl; [by apply Hb'|]. subst. rewrite Forall_forall in HF. by apply HF.
Qed.

(** Statements whose locks are under guards already held. *)
Lemma acquires_guarded held tr :
  Forall (fun st => forall l, lock_of st = Some l -> exists g, guard l = Some g /\ g ∈ held) tr -> acquires in_order held tr.
Proof.
  intros HF. revert held HF. induction tr as [|st tr IH]; intros held HF; [done|]. apply Forall_cons in HF as [Hst HF]. simpl. split.
  - destruct (lock_of st) as [l|]; [|done]. destruct (Hst l eq_refl) as (g & Hg & Hin). right. unfold in_order. by rewrite Hg.
  - apply IH. refine (List.Forall_impl _ _ HF). intros st' Hst' l Hl. destruct (Hst' l Hl) as (g & Hg & Hin).
    exists g. split; [done|]. apply elem_of_app. by left.
Qed.

(** A guard is held as long as what it guards. *)
Lemma guard_kept held tr l g :
  (forall l' g', l' ∈ held -> guard l' = Some g' -> g' ∈ held) ->
  acquires in_order held tr -> l ∈ held ++ locks tr -> guard l = Some g -> g ∈ held ++ locks tr.
Proof.
  revert held. induction tr as [|st tr IH]; intros held Hheld Ha Hl Hg.
  - change (locks []) with (@nil Lock) in *. rewrite app_nil_r in *. by eapply Hheld.
  - cbn [acquires] in Ha. destruct Ha as [Hst Ha]. change (st :: tr) with ([st] ++ tr) in *. rewrite locks_app, app_assoc in *.
    apply IH; [|done..]. intros l' g' Hl' Hg'. apply elem_of_app in Hl' as [Hl'|Hl']; apply elem_of_app; left; [by eapply Hheld|].
    unfold locks in Hl'. simpl in Hl'. destruct (lock_of st) as [k|]; simpl in Hl'; [|by apply not_elem_of_nil in Hl'].
    apply list_elem_of_singleton in Hl' as ->. destruct Hst as [Hk|Hk]; [by eapply Hheld|]. unfold in_order in Hk. by rewrite Hg' in Hk.
Qed.

(** ** What every state of an execution keeps *)

Record sane (s : list txn) : Prop := Sane {
  sn_disciplined : forall i t, s !! i = Some t -> disciplined (tx_sent t ++ tx_todo t);
  sn_exclusive : forall i j t u l, s !! i = Some t -> s !! j = Some u -> l ∈ holds t -> l ∈ holds u -> i = j;
}.

Lemma free_spec s i l : free s i l = true <-> forall j t, s !! j = Some t -> l ∈ holds t -> j = i.
Proof.
  unfold free. rewrite forallb_forall. split.
  - intros Hf j t Hj Hl. specialize (Hf (j, t)). rewrite bool_decide_eq_true in Hf. simpl in Hf. destruct Hf as [Hf|Hf]; [|done|done].
    apply list_elem_of_In, list_elem_of_lookup. exists j. apply lookup_zip_with_Some. exists j, t. split_and!; [done| |done].
    apply lookup_seq. split; [done|by eapply lookup_lt_Some].
  - intros Hf [j t] (k & Hk)%list_elem_of_In%list_elem_of_lookup. apply lookup_zip_with_Some in Hk as (k' & t' & [= -> ->] & Hk & Ht).
    apply lookup_seq in Hk as [-> _]. simpl in *. apply bool_decide_eq_true. destruct (decide (l ∈ holds t')) as [Hl|]; [left|by right]. by eapply Hf.
Qed.

Lemma sane_insert s i t u :
  sane s -> s !! i = Some t -> disciplined (tx_sent u ++ tx_todo u) ->
  (forall l, l ∈ holds u -> l ∈ holds t \/ forall j v, s !! j = Some v -> l ∈ holds v -> j = i) ->
  sane (<[i := u]> s).
Proof.
  intros [Hd Hx] Hi Hu Hh. split.
  - intros j v [(-> & -> & _)|[_ Hj]]%list_lookup_insert_Some; [done|by eapply Hd].
  - assert (forall j v l, j <> i -> s !! j = Some v -> l ∈ holds u -> l ∈ holds v -> False) as Hno.
    { intros j v l Hne Hj Hl Hv. destruct (Hh l Hl) as [Ht|Hf]; [|by apply Hne, (Hf j v)]. apply Hne. by eapply (Hx j i). }
    intros j k v w l [(-> & -> & _)|[Hj Hv]]%list_lookup_insert_Some [(-> & -> & _)|[Hk Hw]]%list_lookup_insert_Some Hlv Hlw;
      [done|exfalso; by eapply Hno..|by eapply Hx].
Qed.

Lemma advance_sane s i s' : sane s -> advance s i = Some s' -> sane s'.
Proof.
  intros Hs. unfold advance. destruct (s !! i) as [[sent [|st todo] []]|] eqn:Hi; try done.
  - intros [= <-]. eapply sane_insert; [done..| |].
    + by apply (sn_disciplined _ Hs) in Hi.
    + intros l []%not_elem_of_nil.
  - destruct (granted s i st) eqn:Hg; [|done]. intros [= <-]. eapply sane_insert; [done..| |].
    + apply (sn_disciplined _ Hs) in Hi. simpl in *. by rewrite <- app_assoc.
    + intros l. unfold holds, granted, locks in *. cbn [tx_open tx_sent] in *. rewrite omap_app. intros [Hl|Hl]%elem_of_app; [by left|].
      simpl in Hl. destruct (lock_of st) as [k|]; simpl in Hl; [|by apply not_elem_of_nil in Hl].
      apply list_elem_of_singleton in Hl as ->. right. by apply free_spec.
Qed.

Lemma roll_back_sane s i : sane s -> sane (roll_back s i).
Proof.
  intros Hs. unfold roll_back. destruct (s !! i) as [[sent todo o]|] eqn:Hi; [|done]. eapply sane_insert; [done..| |].
  - by apply (sn_disciplined _ Hs) in Hi.
  - intros l []%not_elem_of_nil.
Qed.

Lemma execution_sane s events : sane s -> sane (execution s events).
Proof.
  revert s. induction events as [|e events IH]; intros s Hs; [done|]. apply IH. destruct e as [i|i]; simpl; [|by apply roll_back_sane].
  destruct (advance s i) eqn:Ha; [|done]. by eapply advance_sane.
Qed.

Lemma start_sane trs : Forall disciplined trs -> sane (start trs).
Proof.
  intros HF. split.
  - intros i t Ht. unfold start in Ht. rewrite list_lookup_fmap in Ht. apply fmap_Some in Ht as (tr & Htr & ->). simpl.
    by eapply Forall_lookup_1.
  - intros i j t u l Ht _ Hl. unfold start in Ht. rewrite list_lookup_fmap in Ht. apply fmap_Some in Ht as (tr & Htr & ->).
    by apply not_elem_of_nil in Hl.
Qed.

(** ** No cycle of waits *)

Context `{!Transitive before, !Irreflexive before, !RelDecision before}.

Lemma last_exists (l : list Lock) : l <> [] -> exists x, x ∈ l /\ forall y, y ∈ l -> ~ before x y.
Proof.
  induction l as [|a l IH]; intros Hne; [done|]. destruct (decide (l = [])) as [->|Hl].
  - exists a. split; [by left|]. intros y ->%list_elem_of_singleton. apply irreflexivity. apply _.
  - destruct (IH Hl) as (x & Hx & Hmax). destruct (decide (before x a)) as [Hb|Hb].
    + exists a. split; [by left|]. intros y [->|Hy]%elem_of_cons; [apply irreflexivity; apply _|].
      intros Hay. apply (Hmax y Hy). by transitivity a.
    + exists x. split; [by right|]. intros y [->|Hy]%elem_of_cons; [done|by apply Hmax].
Qed.

(** The lock a transaction would wait for. *)
Definition next_lock (t : txn) : option Lock :=
  if tx_open t then match tx_todo t with st :: _ => lock_of st | [] => None end else None.

(** Who can not go on waits for a lock of another. *)
Lemma stuck_waits s i t :
  s !! i = Some t -> tx_open t = true -> advance s i = None ->
  exists l j u, next_lock t = Some l /\ s !! j = Some u /\ j <> i /\ l ∈ holds u.
Proof.
  unfold advance, next_lock. intros -> Ho. destruct t as [sent [|st todo] o]; simpl in Ho; subst; [done|]. simpl.
  destruct (granted s i st) eqn:Hg; [done|]. intros _. unfold granted in Hg. destruct (lock_of st) as [l|]; [|done].
  apply not_true_iff_false in Hg. rewrite free_spec in Hg. exists l.
  destruct (decide (Exists (fun ju => ju.1 <> i /\ l ∈ holds ju.2) (zip (seq 0 (length s)) s))) as [He|He].
  - apply Exists_exists in He as ([j u] & Hin & Hne & Hl). apply list_elem_of_lookup in Hin as (k & Hk).
    apply lookup_zip_with_Some in Hk as (k' & u' & [= -> ->] & Hk & Hu). apply lookup_seq in Hk as [-> _]. by exists k, u'.
  - exfalso. apply Hg. intros j u Hj Hl. destruct (decide (j = i)) as [|Hne]; [done|]. exfalso. apply He, Exists_exists.
    exists (j, u). split; [|done]. apply list_elem_of_lookup. exists j. apply lookup_zip_with_Some. exists j, u. split_and!; [done| |done].
    apply lookup_seq. split; [done|by eapply lookup_lt_Some].
Qed.

(** It waits for no guarded lock, and for one that comes after all it has. *)
Lemma waits_in_order s i t l j u :
  sane s -> s !! i = Some t -> next_lock t = Some l -> s !! j = Some u -> j <> i -> l ∈ holds u ->
  guard l = None /\ forall l', l' ∈ holds t -> guard l' = None -> before l' l.
Proof.
  intros Hs Hi Hn Hj Hne Hl. unfold next_lock in Hn. destruct t as [sent [|st todo] []]; try done. simpl in Hn.
  pose proof (sn_disciplined _ Hs _ _ Hi) as Hd. unfold disciplined in Hd. simpl in Hd. apply acquires_app in Hd as [Hd Hst].
  cbn [acquires] in Hst. rewrite Hn in Hst. destruct Hst as [[Hin|Hin] _].
  - exfalso. apply Hne. exact (sn_exclusive _ Hs j i u _ l Hj Hi Hl Hin).
  - unfold in_order in Hin. destruct (guard l) as [g|] eqn:Hg; [|by split].
    exfalso. apply Hne. refine (sn_exclusive _ Hs j i u _ g Hj Hi _ Hin).
    pose proof (sn_disciplined _ Hs _ _ Hj) as Hu. unfold disciplined in Hu. apply acquires_app in Hu as [Hu _].
    unfold holds in *. destruct (tx_open u); [|by apply not_elem_of_nil in Hl].
    refine (guard_kept [] _ _ _ _ Hu Hl Hg). by intros ? ? ?%not_elem_of_nil.
Qed.

Lemma no_deadlock s : sane s -> ~ deadlocked s.
Proof.
  intros Hs [Hex Hstuck]. apply Exists_exists in Hex as (t0 & Hin & Ho). apply list_elem_of_lookup in Hin as [i0 Hi0].
  destruct (last_exists (omap next_lock s)) as (l & Hl & Hmax).
  { destruct (stuck_waits s i0 t0 Hi0 Ho (Hstuck i0)) as (l & _ & _ & Hn & _). intros Hnil.
    assert (l ∈ omap next_lock s) as Hin by (apply list_elem_of_omap; exists t0; split; [by eapply list_elem_of_lookup_2|done]).
    rewrite Hnil in Hin. by apply not_elem_of_nil in Hin. }
  apply list_elem_of_omap in Hl as (t & Ht & Hn). apply list_elem_of_lookup in Ht as [i Hi].
  assert (tx_open t = true) as Hot by (unfold next_lock in Hn; by destruct (tx_open t)).
  destruct (stuck_waits s i t Hi Hot (Hstuck i)) as (l1 & j & u & Hn1 & Hj & Hne & Hl). rewrite Hn in Hn1. injection Hn1 as <-.
  destruct (waits_in_order s i t l j u Hs Hi Hn Hj Hne Hl) as [Hg _].
  assert (tx_open u = true) as Hou by (unfold holds in Hl; destruct (tx_open u); [done|by apply not_elem_of_nil in Hl]).
  destruct (stuck_waits s j u Hj Hou (Hstuck j)) as (l' & k & v & Hn' & Hk & Hne' & Hl').
  destruct (waits_in_order s j u l' k v Hs Hj Hn' Hk Hne' Hl') as [_ Hb].
  apply (Hmax l'); [|by apply Hb]. apply list_elem_of_omap. exists u. split; [by eapply list_elem_of_lookup_2|done].
Qed.

(** ** Every transaction ends *)

(** What a transaction has left to do. *)
Definition left_of (t : txn) : nat := if tx_open t then 1 + length (tx_todo t) else 0.
Definition left_all (s : list txn) : nat := sum_list (map left_of s).

Lemma advance_left s i s' : advance s i = Some s' -> left_all s' < left_all s.
Proof.
  unfold advance, left_all. destruct (s !! i) as [[sent [|st todo] []]|] eqn:Hi; try done.
  - intros [= <-]. pose proof (sum_insert left_of _ _ _ (Txn sent [] false) Hi). unfold left_of in *. simpl in *. lia.
  - destruct (granted s i st); [|done]. intros [= <-].
    pose proof (sum_insert left_of _ _ _ (Txn (sent ++ [st]) todo true) Hi). unfold left_of in *. simpl in *. lia.
Qed.

Lemma happens_left s e : happens s e = s \/ left_all (happens s e) < left_all s.
Proof.
  destruct e as [i|i]; simpl.
  - destruct (advance s i) as [s'|] eqn:Ha; [right; by eapply advance_left|by left].
  - unfold roll_back. destruct (s !! i) as [[sent todo []]|] eqn:Hi; [right| |by left].
    + pose proof (sum_insert left_of _ _ _ (Txn sent todo false) Hi). unfold left_all, left_of in *. simpl in *. lia.
    + left. by apply list_insert_id.
Qed.

Lemma execution_left s events : left_all (execution s events) <= left_all s.
Proof.
  revert s. induction events as [|e events IH]; intros s; simpl; [done|]. specialize (IH (happens s e)).
  destruct (happens_left s e) as [Heq|]; [rewrite Heq in *|]; simpl in *; lia.
Qed.

Lemma happens_length s e : length (happens s e) = length s.
Proof.
  destruct e as [i|i]; simpl; [unfold advance|unfold roll_back]; repeat case_match; simpl; rewrite ?length_insert; done.
Qed.

Lemma execution_length s events : length (execution s events) = length s.
Proof. revert s. induction events as [|e events IH]; intros s; simpl; [done|]. by rewrite IH, happens_length. Qed.

Lemma turn_left s round i s' :
  advance s i = Some s' -> Go i ∈ round -> left_all (execution s round) < left_all s.
Proof.
  intros Ha. induction round as [|e round IH]; intros Hin; [by apply not_elem_of_nil in Hin|]. simpl.
  destruct (happens_left s e) as [Heq|Hlt].
  - apply elem_of_cons in Hin as [<-|Hin]; [|rewrite Heq; by apply IH].
    simpl in Heq. rewrite Ha in Heq. simpl in Heq. subst. apply advance_left in Ha. lia.
  - pose proof (execution_left (happens s e) round). simpl in *. lia.
Qed.

(** While one is open, a round in which each gets a turn makes progress. *)
Lemma round_progress s round :
  sane s -> Exists (fun t => tx_open t = true) s -> (forall i, i < length s -> Go i ∈ round) ->
  left_all (execution s round) < left_all s.
Proof.
  intros Hs Hex Hround. destruct (decide (Exists (fun i => is_Some (advance s i)) (seq 0 (length s)))) as [He|He].
  - apply Exists_exists in He as (i & Hi & [s' Ha]). apply (turn_left s round i s' Ha), Hround. apply elem_of_seq in Hi. lia.
  - exfalso. apply (no_deadlock s Hs). split; [done|]. intros i. destruct (advance s i) as [s'|] eqn:Ha; [|done]. exfalso. apply He, Exists_exists.
    exists i. split; [|by exists s']. apply elem_of_seq. split; [lia|]. unfold advance in Ha.
    destruct (s !! i) eqn:Hi; [apply lookup_lt_Some in Hi; lia|done].
Qed.

Lemma rounds_close s rounds n :
  sane s -> length s = n -> Forall (fun round => forall i, i < n -> Go i ∈ round) rounds -> left_all s <= length rounds ->
  Forall (fun t => tx_open t = false) (execution s (concat rounds)).
Proof.
  intros Hs Hn HF. revert s Hs Hn. induction HF as [|round rounds Hround _ IH]; intros s Hs Hn Hl.
  - apply Forall_forall. intros t Ht. assert (left_of t <= left_all s) as Hle.
    { change (t ∈ s) in Ht. unfold left_all. generalize left_of. clear -Ht. intros f. induction Ht as [v l|v u l _ IH]; simpl; lia. }
    unfold left_of in Hle. simpl in Hl. destruct (tx_open t); [lia|done].
  - simpl. unfold execution. rewrite foldl_app. fold (execution s round). apply IH; [by apply execution_sane|by rewrite execution_length|].
    destruct (decide (Exists (fun t => tx_open t = true) s)) as [Hex|Hno].
    + rewrite <- Hn in Hround. pose proof (round_progress s round Hs Hex Hround). simpl in Hl. lia.
    + pose proof (execution_left s round). assert (left_all s = 0) as Hz; [|lia].
      unfold left_all. apply not_Exists_Forall in Hno; [|apply _]. clear -Hno. induction Hno as [|v l Hv _ IH]; [done|].
      simpl. rewrite IH. unfold left_of. simpl in Hv. destruct (tx_open v); [by destruct Hv|done].
Qed.

(** A transaction keeps its statements, and one that closed without a failure has
    sent them all. *)
Lemma happens_keeps s e i t :
  happens s e !! i = Some t ->
  exists t0, s !! i = Some t0 /\ tx_sent t ++ tx_todo t = tx_sent t0 ++ tx_todo t0 /\
    (tx_open t = false -> tx_open t0 = false /\ t = t0 \/ tx_todo t = [] \/ e = Fail i).
Proof.
  assert (forall j u t0, s !! j = Some t0 -> tx_sent u ++ tx_todo u = tx_sent t0 ++ tx_todo t0 ->
    (tx_open u = false -> tx_todo u = [] \/ e = Fail j) -> <[j := u]> s !! i = Some t -> 
    exists t0, s !! i = Some t0 /\ tx_sent t ++ tx_todo t = tx_sent t0 ++ tx_todo t0 /\
      (tx_open t = false -> tx_open t0 = false /\ t = t0 \/ tx_todo t = [] \/ e = Fail i)) as Hput.
  { intros j u t0 Hj Hst Hc [(-> & <- & _)|[_ Hi]]%list_lookup_insert_Some; [exists t0; by split_and!; auto|].
    exists t. split_and!; [done..|]. by left. }
  destruct e as [j|j]; simpl.
  - unfold advance. destruct (s !! j) as [[sent [|st todo] []]|] eqn:Hj; simpl; try (intros Hi; exists t; split_and!; [done..|by left]).
    + apply (Hput j _ _ Hj); [done|by left].
    + destruct (granted s j st); simpl; [|intros Hi; exists t; split_and!; [done..|by left]].
      apply (Hput j _ _ Hj); [by simpl; rewrite <- app_assoc|done].
  - unfold roll_back. destruct (s !! j) as [[sent todo o]|] eqn:Hj; [|intros Hi; exists t; split_and!; [done..|by left]].
    apply (Hput j _ _ Hj); [done|by right].
Qed.

Lemma execution_keeps s events i t :
  execution s events !! i = Some t ->
  exists t0, s !! i = Some t0 /\ tx_sent t ++ tx_todo t = tx_sent t0 ++ tx_todo t0 /\
    (tx_open t = false -> tx_open t0 = false \/ tx_todo t = [] \/ Fail i ∈ events).
Proof.
  revert t. induction events as [|e events IH] using rev_ind; intros t Ht; [exists t; split_and!; [done..|by left]|].
  unfold execution in Ht. rewrite foldl_app in Ht. apply happens_keeps in Ht as (t1 & H1 & Hs & Hc). apply IH in H1 as (t0 & H0 & Hs0 & Hc0).
  exists t0. split_and!; [done|by rewrite Hs|]. intros Ho. rewrite elem_of_app.
  destruct (Hc Ho) as [[Ho1 ->]|[Hnil| ->]]; [|by right; left|right; right; right; by left].
  destruct (Hc0 Ho1) as [|[|]]; auto.
Qed.

(** Transactions that take their locks in order all end, whatever the order the
    server answers them in, and each that is not made to fail has sent every one
    of its statements. *)
Lemma all_end trs rounds :
  Forall disciplined trs -> Forall (fun round => forall i, i < length trs -> Go i ∈ round) rounds ->
  sum_list (map (fun tr => 1 + length tr) trs) <= length rounds ->
  forall i tr, trs !! i = Some tr -> exists t, execution (start trs) (concat rounds) !! i = Some t /\
    tx_open t = false /\ (t = Txn tr [] false \/ Fail i ∈ concat rounds).
Proof.
  intros Hd Hf Hl i tr Htr.
  assert (length (start trs) = length trs) as Hlen by apply length_map.
  pose proof (rounds_close (start trs) rounds _ (start_sane _ Hd) Hlen Hf) as Hc.
  assert (left_all (start trs) = sum_list (map (fun tr => 1 + length tr) trs)) as Hleft by (unfold left_all, start; by rewrite map_map).
  rewrite Hleft in Hc. specialize (Hc Hl).
  destruct (lookup_lt_is_Some_2 (execution (start trs) (concat rounds)) i) as [t Ht].
  { rewrite execution_length, Hlen. by eapply lookup_lt_Some. }
  exists t. split; [done|]. pose proof (Forall_lookup_1 _ _ _ _ Hc Ht) as Ho. split; [done|].
  apply execution_keeps in Ht as (t0 & H0 & Hs & Hk). unfold start in H0. rewrite list_lookup_fmap, Htr in H0. injection H0 as <-.
  destruct (Hk Ho) as [|[Hnil|]]; [done|left|by right]. destruct t as [sent todo o]. simpl in *. subst. by rewrite app_nil_r.
Qed.
End locks.

(** What is acquired depends on the locks only. *)
Lemma acquires_locks {Req Lock} (lock_of : Req -> option Lock) ok held tr :
  acquires lock_of ok held tr <-> acquires Some ok held (locks lock_of tr).
Proof.
  revert held. induction tr as [|st tr IH]; intros held; [done|]. unfold locks in *. cbn [acquires].
  simpl. destruct (lock_of st) as [l|]; simpl; rewrite IH; [done|]. rewrite app_nil_r. tauto.
Qed.

Lemma locks_map_some {Req Lock A} (lock_of : Req -> option Lock) (st : A -> Req) (lk : A -> Lock) l :
  (forall a, lock_of (st a) = Some (lk a)) -> locks lock_of (map st l) = map lk l.
Proof. intros Hst. unfold locks. induction l as [|a l IH]; [done|]. simpl. rewrite Hst. simpl. f_equal. exact IH. Qed.
