(* ===== verification/RecordLocks.v ===== *)
(** * The locks of a record's transaction

    Which row, key or advisory lock each statement of a record takes, and the
    order the processors take them in: the release's range, the identity keys of
    [_native_id], the entity's row, the media vocabulary in name order, the child
    rows, and the identity keys of [_attach_identifier_aliases]. [_persistence.py]
    ([lock_release_media]) and [_record_processing.py] ([media_edge_rows],
    [write_release_media]) say why. The order is not given in two places: the row
    of a relationship is shared by the records of its two ends, and the identity
    keys are locked by calls to a library. *)

From S2P Require Import Prelude PyValue Database Persistence Media RecordProcessing ProcessTrace ProcessSpec Locks.
From stdpp Require Import base gmap strings list option sorting.
From Stdlib Require Import ZArith Lia.

Inductive lock : Type :=
| OnRange (hash : Z)
| OnEntity (t : entity_table) (mbid : uuid)
| OnFamily (name : string)
| OnMedium (medium_id : string)
| OnEdges (release_id source : string)
| OnRelationship (key : string)
| OnLink (key : link_key).

#[export] Instance lock_eq_dec : EqDecision lock.
Proof. solve_decision. Defined.

Section record_locks.
Context `{PyRepr} `{Postgres} `{Common}.
(** [hashtextextended(text, 0)] *)
Context (hashtextextended : string -> Z).

(** What a statement locks for itself: the row an upsert writes, the key an
    insert claims, the rows of a release's range. An insert that does nothing
    because its key is already committed takes no lock; it is counted here as if it
    did, which only adds waits. What the identity library locks when it is called is
    [requested] below, and no record sends the purge's statements. *)
Definition lock_of (s : statement) : option lock :=
  match s with
  | EntityUpsert sp ps => match ps with mbid :: _ => Some (OnEntity (up_table sp) (uuid_in mbid)) | [] => None end
  | RelationshipUpsert _ ps =>
      match rel_key_of_params ps with Some (k, _) => Some (OnRelationship (relationship_key k)) | None => None end
  | ExternalLinkUpsert _ ps =>
      match ps with
      | [mbid; entity_type; url; service_name] =>
          Some (OnLink (uuid_in mbid, text_in entity_type, text_in service_name, text_in url))
      | _ => None
      end
  | MediaFamilyInsert name => Some (OnFamily name)
  | MediumInsert m _ _ => Some (OnMedium m)
  | AdvisoryXactLock key => Some (OnRange (hashtextextended key))
  | DeleteReleaseMedia release_id source => Some (OnEdges release_id source)
  | InsertReleaseMedia release_id _ source _ => Some (OnEdges release_id source)
  | _ => None
  end.

(** Whose external links a type spells. *)
Definition table_of (entity_type : string) : option entity_table :=
  if decide (entity_type = "artist") then Some Artists
  else if decide (entity_type = "label") then Some Labels
  else if decide (entity_type = "release") then Some Releases
  else if decide (entity_type = "release-group") then Some ReleaseGroups
  else None.

(** A release's edges are only written under its range, an entity's links only
    under its row. *)
Definition guard (l : lock) : option lock :=
  match l with
  | OnEdges release_id source => Some (OnRange (hashtextextended (media_lock_key source release_id)))
  | OnLink (mbid, entity_type, _, _) => (fun t => OnEntity t mbid) <$> table_of entity_type
  | _ => None
  end.

Definition rank (l : lock) : nat :=
  match l with
  | OnRange _ => 0 | OnEntity _ _ => 1 | OnFamily _ => 2 | OnMedium _ => 3
  | OnRelationship _ => 4 | OnEdges _ _ | OnLink _ => 5
  end.

(** Relationships in the order [rk] gives. *)
Context (rk : string -> nat).

Definition before (l l' : lock) : Prop :=
  match l, l' with
  | OnFamily a, OnFamily b | OnMedium a, OnMedium b => strict String.le a b
  | OnRelationship a, OnRelationship b => rk a < rk b
  | _, _ => rank l < rank l'
  end.

#[export] Instance before_dec : RelDecision before.
Proof. intros l l'. destruct l, l'; unfold before; apply _. Defined.

#[export] Instance before_irreflexive : Irreflexive before.
Proof. intros l Hl. destruct l; simpl in Hl; try lia; by apply (irreflexivity (strict String.le) _ Hl). Qed.

#[export] Instance before_transitive : Transitive before.
Proof.
  intros a b c. destruct a, b; simpl; try lia; destruct c; simpl; try lia; intros; try done; by etrans.
Qed.

(** The relationships of a batch come in the order [rk] gives. *)
Definition agrees (held : list lock) (l : lock) : Prop :=
  match l with
  | OnRelationship k => forall k', OnRelationship k' ∈ held -> rk k' < rk k
  | _ => True
  end.

Abbreviation in_order := (in_order guard before).
Abbreviation locks := (locks lock_of).

(** Nothing held is guarded by nothing and of rank [n] or above. *)
Definition below (n : nat) (held : list lock) : Prop := forall l, l ∈ held -> guard l = None -> rank l < n.

Lemma below_app n a b : below n (a ++ b) <-> below n a /\ below n b.
Proof. unfold below. setoid_rewrite elem_of_app. naive_solver. Qed.

Lemma below_le n m held : below n held -> n <= m -> below m held.
Proof. intros Hb Hle l Hl Hg. specialize (Hb l Hl Hg). lia. Qed.

Lemma before_rank l l' : rank l < rank l' -> before l l'.
Proof. destruct l, l'; simpl; lia. Qed.

Lemma sorted_strict l : NoDup l -> StronglySorted String.le l -> StronglySorted (strict String.le) l.
Proof.
  intros Hnd Hs. induction Hs as [|x l _ IH HF]; [constructor|]. apply NoDup_cons in Hnd as [Hx Hnd]. constructor; [by apply IH|].
  rewrite Forall_forall in HF |- *. intros y Hy. rewrite strict_spec_alt. split; [by apply HF|]. by intros ->.
Qed.

(** ** The parts of a transaction *)

Lemma identity_no_lock tr : Forall is_identity tr -> Forall (fun st => lock_of st = None) tr.
Proof. intros HF. refine (List.Forall_impl _ _ HF). by intros []. Qed.

(** Names inserted in their order, after nothing of their rank. *)
Lemma acquires_names (st : string -> statement) (lk : string -> lock) n held l :
  (forall a, lock_of (st a) = Some (lk a) /\ guard (lk a) = None /\ rank (lk a) = n) ->
  (forall a b, strict String.le a b -> before (lk a) (lk b)) ->
  below n held -> StronglySorted (strict String.le) l ->
  acquires lock_of in_order held (map st l).
Proof.
  intros Hst Hb Hheld Hs. apply acquires_sorted with lk.
  - intros a _. destruct (Hst a) as (Hl & Hg & Hr). split_and!; [done..|]. intros l' Hl' Hg'. apply before_rank. rewrite Hr. by apply Hheld.
  - clear -Hs Hb. induction Hs as [|a l _ IH HF]; constructor; [done|]. refine (List.Forall_impl _ _ HF). apply Hb.
Qed.

Lemma below_map {A} (lk : A -> lock) n l : (forall a, rank (lk a) < n) -> below n (map lk l).
Proof. intros Hr x (a & -> & _)%list_elem_of_fmap _. apply Hr. Qed.

Definition vocabulary_part (rows : list edge_row) : list statement :=
  map MediaFamilyInsert (sorted (dedup (map edge_family rows))) ++
  map (fun r => MediumInsert (edge_medium r) (edge_family r) (edge_label r)) rows.

Lemma vocabulary_acquires held media rows :
  media_edge_rows vocabulary media = Ok rows -> below 2 held ->
  acquires lock_of in_order held (vocabulary_part rows) /\ below 4 (locks (vocabulary_part rows)).
Proof.
  intros Hrows Hb. unfold vocabulary_part.
  assert (locks (map MediaFamilyInsert (sorted (dedup (map edge_family rows)))) = map OnFamily (sorted (dedup (map edge_family rows)))) as Hf
    by (by apply locks_map_some).
  assert (locks (map (fun r => MediumInsert (edge_medium r) (edge_family r) (edge_label r)) rows) =
    map (fun r => OnMedium (edge_medium r)) rows) as Hm by (by apply locks_map_some).
  split.
  - apply acquires_app. split.
    + apply acquires_names with OnFamily 2; [done|done|done|]. apply sorted_strict; [apply sorted_NoDup, dedup_NoDup|apply sorted_StronglySorted].
    + rewrite Hf. apply acquires_sorted with (fun r => OnMedium (edge_medium r)).
      * intros r _. split_and!; [done..|]. intros l [Hl|Hl]%elem_of_app Hg; apply before_rank; simpl; [by specialize (Hb l Hl Hg); lia|].
        apply list_elem_of_fmap in Hl as (a & -> & _). simpl. lia.
      * rewrite media_edge_rows_eq in Hrows. destruct (py_iter _) as [items|]; [|done]. injection Hrows as <-.
        pose proof (group_rows_mediums vocabulary (entries items)) as Hmed.
        assert (StronglySorted (strict String.le) (map edge_medium (group_rows vocabulary (entries items)))) as Hs.
        { rewrite Hmed. apply sorted_strict; [apply sorted_NoDup, dedup_NoDup|apply sorted_StronglySorted]. }
        clear -Hs. induction (group_rows vocabulary (entries items)) as [|r l IH]; [constructor|]. simpl in Hs. apply StronglySorted_inv in Hs as [Hs HF].
        constructor; [by apply IH|]. exact (proj1 (List.Forall_map _ _ _) HF).
  - rewrite Locks.locks_app, Hf, Hm. apply below_app. split; apply below_map; simpl; lia.
Qed.

Definition edges_part (release_id : string) (rows : list edge_row) : list statement :=
  [AdvisoryXactLock (media_lock_key MEDIA_SOURCE release_id); DeleteReleaseMedia release_id MEDIA_SOURCE] ++
  map (fun r => InsertReleaseMedia release_id (edge_medium r) MEDIA_SOURCE (edge_qty r)) rows.

Lemma edges_acquires held release_id rows :
  OnRange (hashtextextended (media_lock_key MEDIA_SOURCE release_id)) ∈ held ->
  acquires lock_of in_order held (edges_part release_id rows) /\
  forall l, l ∈ locks (edges_part release_id rows) -> l ∈ held \/ guard l <> None.
Proof.
  intros Hr. unfold edges_part. assert (locks (map (fun r => InsertReleaseMedia release_id (edge_medium r) MEDIA_SOURCE (edge_qty r)) rows) =
    map (fun _ => OnEdges release_id MEDIA_SOURCE) rows) as Hm by (by apply locks_map_some).
  split.
  - cbn [app acquires]. split; [by left|]. cbn [acquires]. split; [right; unfold Locks.in_order; simpl; apply elem_of_app; by left|].
    apply acquires_guarded, Forall_map_all. intros r l [= <-]. eexists. split; [done|]. rewrite !elem_of_app. tauto.
  - intros l. rewrite Locks.locks_app, Hm. unfold Locks.locks. simpl.
    rewrite !elem_of_cons. intros [->|[->|Hl]]; [by left|by right|]. apply list_elem_of_fmap in Hl as (a & -> & _). by right.
Qed.

(** What has been taken when the child rows come: nothing beyond their rank. *)
Lemma media_acquires held dt record tr :
  media_part dt record tr -> below 2 held ->
  (dt = "releases" -> is_none (get record "discogs_release_id") = false ->
     OnRange (hashtextextended (media_lock_key MEDIA_SOURCE (py_str (get record "discogs_release_id")))) ∈ held) ->
  acquires lock_of in_order held tr /\ below 4 (held ++ locks tr).
Proof.
  unfold media_part. intros Htr Hb Hr. case_decide as Hd.
  2: { subst. split; [done|]. change (locks []) with (@nil lock). rewrite app_nil_r. eapply below_le; [done|lia]. }
  destruct Hd as [-> Hn]. destruct Htr as (media & rows & _ & Hrows & ->). specialize (Hr eq_refl Hn).
  set (rid := py_str _) in *. assert (media_statements rid rows = vocabulary_part rows ++ edges_part rid rows) as ->
    by (unfold media_statements, vocabulary_part, edges_part; by rewrite <- !app_assoc).
  destruct (vocabulary_acquires held media rows Hrows Hb) as [Hv Hvb].
  destruct (edges_acquires (held ++ locks (vocabulary_part rows)) rid rows) as [He Heb]; [apply elem_of_app; by left|].
  split; [by apply acquires_app|]. rewrite Locks.locks_app, app_assoc.
  assert (below 4 (held ++ locks (vocabulary_part rows))) as Hh by (apply below_app; split; [apply below_le with 2; [done|lia]|done]).
  apply below_app. split; [done|]. intros l Hl Hg. destruct (Heb l Hl); [by apply Hh|done].
Qed.

(** The relationships, in an order that agrees. *)
Lemma relationships_acquire refresh held rows :
  (forall l, l ∈ held -> guard l = None -> rank l < 4 \/ exists k, l = OnRelationship k) ->
  acquires lock_of agrees held (relationship_statements refresh rows) ->
  acquires lock_of in_order held (relationship_statements refresh rows).
Proof.
  unfold relationship_statements. generalize (map relationship_params rows). intros l. revert held.
  induction l as [|ps l IH]; intros held Hb; [done|]. cbn [map acquires]. intros [Hst Ha]. split.
  - simpl lock_of in *. destruct (rel_key_of_params ps) as [[k v]|]; [|done]. destruct Hst as [Hin|Hag]; [by left|right].
    intros l' Hl' Hg. destruct (Hb l' Hl' Hg) as [Hlt|[k' ->]]; [by apply before_rank|by apply Hag].
  - apply IH; [|done]. intros l' [Hl'|Hl']%elem_of_app Hg; [by apply Hb|]. unfold Locks.locks in Hl'. simpl in Hl'.
    destruct (rel_key_of_params ps) as [[k v]|]; simpl in Hl'; [|by apply not_elem_of_nil in Hl'].
    apply list_elem_of_singleton in Hl' as ->. right. by exists (relationship_key k).
Qed.

(** The server keeps the four spellings of a type as they are. *)
Definition spelled : Prop := Forall (fun t => text_in (Plain (VStr t)) = t) ["artist"; "label"; "release"; "release-group"].

Lemma links_acquire refresh held mbid ty links rows t :
  external_link_rows mbid ty links = Ok rows -> text_in (Plain (VStr ty)) = ty -> table_of ty = Some t ->
  OnEntity t (uuid_in (Plain mbid)) ∈ held ->
  acquires lock_of in_order held (link_statements refresh rows).
Proof.
  intros Hrows Hty Ht Hheld. apply acquires_guarded. unfold link_statements. rewrite map_map. apply Forall_forall.
  intros st (row & -> & Hrow)%list_elem_of_fmap l Hl. unfold external_link_rows in Hrows.
  destruct (py_iter links) as [items|]; [|done]. simpl in Hrows. destruct (traverse _ items) as [os|] eqn:Eo; [|done].
  injection Hrows as <-. apply somes_elem in Hrow. eapply traverse_elem in Hrow as (link & _ & Hlink); [|exact Eo].
  unfold external_link_row in Hlink. destruct (dict_of link) as [d|]; [|done]. simpl in Hlink. case_match; [|done].
  injection Hlink as <-. simpl in Hl. injection Hl as <-. exists (OnEntity t (uuid_in (Plain mbid))). split; [|done].
  simpl. by rewrite Hty, Ht.
Qed.

(** ** A record's transaction *)

Lemma contract_table dt c : contract_of dt = Some c ->
  table_of (ec_child_type c) = Some (up_table (ec_upsert c)) /\ ec_child_type c ∈ ["artist"; "label"; "release"; "release-group"] /\
  ec_upsert c ∈ known_upserts.
Proof.
  unfold contract_of. intros Hc. repeat case_decide; simplify_eq; (split_and!; [done| |]); apply list_elem_of_In; simpl; tauto.
Qed.

(** The release's range and the entity's row. *)
Lemma head_acquires dt record bf up t u :
  before_part dt record bf -> lock_of up = Some (OnEntity t u) ->
  acquires lock_of in_order [] (bf ++ [up]) /\ below 2 (locks (bf ++ [up])) /\ OnEntity t u ∈ locks (bf ++ [up]) /\
  (dt = "releases" -> is_none (get record "discogs_release_id") = false ->
     OnRange (hashtextextended (media_lock_key MEDIA_SOURCE (py_str (get record "discogs_release_id")))) ∈ locks (bf ++ [up])).
Proof.
  intros (ids & Hids & ->) Hup. set (first := if decide _ then _ else _).
  destruct (acquires_none lock_of in_order (locks first) ids (identity_no_lock ids Hids)) as [Hia Hil].
  assert (locks ((first ++ ids) ++ [up]) = locks first ++ [OnEntity t u]) as ->
    by (by rewrite !Locks.locks_app, Hil, app_nil_r, (Locks.locks_one _ _ _ Hup)).
  assert (first = [] \/ first = [AdvisoryXactLock (media_lock_key MEDIA_SOURCE (py_str (get record "discogs_release_id")))]) as Hfirst
    by (unfold first; case_decide; [by right|by left]).
  assert (below 1 (locks first)) as Hb1.
  { destruct Hfirst as [->| ->]; [by intros l ?%not_elem_of_nil|]. intros l ->%list_elem_of_singleton _. simpl. lia. }
  split_and!.
  - rewrite <- app_assoc. apply acquires_app. split; [|apply acquires_app; split; [done|]].
    + destruct Hfirst as [->| ->]; [done|]. split; [|done]. right. by intros l ?%not_elem_of_nil.
    + rewrite Hil, app_nil_r. cbn [acquires]. rewrite Hup. split; [|done]. right. intros l Hl Hg. apply before_rank, (Hb1 l Hl Hg).
  - apply below_app. split; [apply below_le with 1; [done|lia]|]. intros l ->%list_elem_of_singleton _. simpl. lia.
  - apply elem_of_app. right. by left.
  - intros Hdt Hn. unfold first. rewrite decide_True by done. by left.
Qed.

Lemma processed_disciplined refresh dt c record w w' tr :
  spelled -> contract_of dt = Some c -> processed refresh dt c record w w' -> trace_of w' = trace_of w ++ tr ->
  acquires lock_of agrees [] tr -> disciplined lock_of guard before tr.
Proof.
  intros Hsp Hc [(native & columns & rels & links & bf & media & after & Hcol & _ & Hlinks & Hbf & Haf & Hmedia & _ & Htr & _)] Htr' Hag.
  rewrite Htr in Htr'. apply app_inv_head in Htr' as <-.
  destruct (contract_columns dt c record native columns Hc Hcol) as (_ & _ & (rest & Hrest)).
  destruct (contract_table dt c Hc) as (Htab & Hty & _).
  assert (text_in (Plain (VStr (ec_child_type c))) = ec_child_type c) as Htext by (unfold spelled in Hsp; rewrite Forall_forall in Hsp; by apply Hsp).
  set (up := EntityUpsert (ec_upsert c) (upsert_params record columns)) in *.
  assert (lock_of up = Some (OnEntity (up_table (ec_upsert c)) (uuid_in (Plain (mbid_of record))))) as Hup
    by (unfold up, upsert_params; simpl; by rewrite Hrest).
  destruct (head_acquires dt record bf up _ _ Hbf Hup) as (Hhead & Hb2 & Hentity & Hrange).
  rewrite app_assoc in Hag |- *. unfold disciplined. apply acquires_app in Hag as [_ Hag]. apply acquires_app. split; [done|].
  rewrite app_nil_l in *. destruct (media_acquires _ dt record media Hmedia Hb2 Hrange) as [Hma Hb4].
  apply acquires_app in Hag as [_ Hag]. apply acquires_app in Hag as [Hag _].
  apply acquires_app. split; [done|]. apply acquires_app. split.
  { apply relationships_acquire; [|done]. intros l Hl Hg. left. by apply Hb4. }
  apply acquires_app. split; [|by apply acquires_none, identity_no_lock].
  apply (links_acquire _ _ _ _ _ _ _ Hlinks Htext Htab). rewrite !elem_of_app. by do 2 left.
Qed.

(** The statements of a record's transaction, from begin to commit. *)
Definition record_transaction (refresh : bool) (tr : list statement) : Prop :=
  exists dt p record w w', processor_of refresh dt = Some p /\ p record w = (Ok tt, w') /\ trace_of w' = trace_of w ++ tr.

(** Where its calls to the identity library come: between the release's range and
    the entity's row, and after everything. *)
Definition in_parts (tr : list statement) : Prop :=
  exists first ids up mid after t u, tr = first ++ ids ++ (up :: mid) ++ after /\
    (first = [] \/ exists key, first = [AdvisoryXactLock key]) /\ Forall is_identity ids /\ Forall is_identity after /\
    Forall (fun s => ~ is_identity s) (up :: mid) /\ lock_of up = Some (OnEntity t u).

Lemma children_own refresh dt record media rels links :
  media_part dt record media ->
  Forall (fun s => ~ is_identity s) (media ++ relationship_statements refresh rels ++ link_statements refresh links).
Proof.
  intros Hm. rewrite !Forall_app. split_and!.
  - unfold media_part in Hm. case_decide; [|by subst]. destruct Hm as (block & rows & _ & _ & ->). unfold media_statements.
    rewrite !Forall_app. split_and!; try (by apply Forall_map_all; intros ? ?). repeat constructor; intros ?; done.
  - unfold relationship_statements. rewrite map_map. apply Forall_map_all. by intros ? ?.
  - unfold link_statements. rewrite map_map. apply Forall_map_all. by intros ? ?.
Qed.

Lemma transaction_parts refresh tr : record_transaction refresh tr -> in_parts tr.
Proof.
  intros (dt & p & record & w & w' & Hp & Hrun & Htr).
  assert (exists c, contract_of dt = Some c) as [c Hc] by (unfold processor_of, contract_of in *; repeat case_decide; simplify_eq; by eexists).
  assert (processed refresh dt c record w w') as [(native & columns & rels & links & bf & media & after & Hcol & _ & _ & Hbf & Haf & Hmedia & _ & Htr' & _)]
    by (eapply processor_run; [exact Hp|exact Hc|exact Hrun]).
  rewrite Htr' in Htr. apply app_inv_head in Htr as <-. destruct Hbf as (ids & Hids & ->).
  destruct (contract_columns dt c record native columns Hc Hcol) as (_ & _ & (rest & Hrest)).
  set (up := EntityUpsert _ _). set (first := if decide _ then _ else _).
  exists first, ids, up, (media ++ relationship_statements refresh rels ++ link_statements refresh links), after,
    (up_table (ec_upsert c)), (uuid_in (Plain (mbid_of record))).
  split; [cbn [app]; by rewrite <- !app_assoc|].
  split_and!; [unfold first; case_decide; [right; by eexists|by left]|done|done| |].
  - constructor; [by intros ?|by eapply children_own].
  - unfold up, upsert_params. simpl. by rewrite Hrest.
Qed.

Lemma transaction_disciplined refresh tr :
  spelled -> record_transaction refresh tr -> acquires lock_of agrees [] tr -> disciplined lock_of guard before tr.
Proof.
  intros Hsp (dt & p & record & w & w' & Hp & Hrun & Htr) Hag.
  assert (exists c, contract_of dt = Some c) as [c Hc] by (unfold processor_of, contract_of in *; repeat case_decide; simplify_eq; by eexists).
  eapply processed_disciplined; [exact Hsp|exact Hc|eapply processor_run; [exact Hp|exact Hc|exact Hrun]|exact Htr|exact Hag].
Qed.
End record_locks.

(** ** The identity library's locks *)

(** Which index keys of [provider_aliases] and rows of [catalog_items]
    [resolve_aliases] and [attach_aliases] lock is the library's affair, and which
    they turn out to be depends on the rows it finds. A call may lock any of them,
    in any order, before it answers, and they too are kept to the end of the
    transaction. *)
Inductive resource : Type := Row (l : lock) | Identity (key : string).

#[export] Instance resource_eq_dec : EqDecision resource.
Proof. solve_decision. Defined.

(** What the connection of a record is asked for: a statement of the loader's, or
    an identity key by a call of the library. *)
Inductive request : Type := Sends (s : statement) | Takes (key : string).

(** The statements of a record, with the keys its calls to the library lock. *)
Inductive requested : list statement -> list request -> Prop :=
| requested_nil : requested [] []
| requested_own s tr rqs : ~ is_identity s -> requested tr rqs -> requested (s :: tr) (Sends s :: rqs)
| requested_identity s keys tr rqs :
    is_identity s -> requested tr rqs -> requested (s :: tr) (map Takes keys ++ Sends s :: rqs).

Lemma requested_app a b rqs :
  requested (a ++ b) rqs -> exists ra rb, rqs = ra ++ rb /\ requested a ra /\ requested b rb.
Proof.
  revert rqs. induction a as [|s a IH]; intros rqs Hr; [exists [], rqs; by split_and!; [|constructor|]|].
  simpl in Hr. inversion Hr as [|? ? rqs' Hs Hr'|? keys ? rqs' Hs Hr']; subst; apply IH in Hr' as (ra & rb & -> & Ha & Hb).
  - exists (Sends s :: ra), rb. split_and!; [done|by constructor|done].
  - exists (map Takes keys ++ Sends s :: ra), rb. split_and!; [by rewrite <- app_assoc|by constructor|done].
Qed.

Lemma requested_plain a rqs : Forall (fun s => ~ is_identity s) a -> requested a rqs -> rqs = map Sends a.
Proof. intros HF Hr. induction Hr; [done|apply Forall_cons in HF as [Hs HF]..]; [simpl; f_equal; by apply IHHr|done]. Qed.

Section requests.
Context `{PyRepr} `{Postgres} `{Common}.
Context (hashtextextended : string -> Z).
(** The order of the relationships, the order of the identity keys, and which of
    these are locked after the entity's row. *)
Context (rk ik : string -> nat) (late : string -> bool).

Abbreviation lock_of := (lock_of hashtextextended).
Abbreviation guard := (guard hashtextextended).

Definition resource_of (r : request) : option resource :=
  match r with Sends s => Row <$> lock_of s | Takes key => Some (Identity key) end.

Definition guarded_by (r : resource) : option resource :=
  match r with Row l => Row <$> guard l | Identity _ => None end.

(** The keys of [_native_id] between the release's range and the entity's row, those
    of [_attach_identifier_aliases] after everything. *)
Definition earlier (a b : resource) : Prop :=
  match a, b with
  | Row l, Row l' => before rk l l'
  | Identity k, Identity k' => if late k then late k' = true /\ ik k < ik k' else late k' = true \/ ik k < ik k'
  | Row l, Identity k => late k = true \/ rank l = 0
  | Identity k, Row l => late k = false /\ 0 < rank l
  end.

#[export] Instance earlier_dec : RelDecision earlier.
Proof. intros a b. destruct a, b; simpl; [| |destruct (late _)..]; apply _. Defined.

#[export] Instance earlier_irreflexive : Irreflexive earlier.
Proof. clear hashtextextended. intros [l|k]; [exact (irreflexivity (before rk) l)|]. unfold complement. simpl. destruct (late k) eqn:E; intros Hk; intuition (congruence || lia). Qed.

Lemma before_ranks l l' : before rk l l' -> rank l <= rank l'.
Proof. destruct l, l'; simpl; lia. Qed.

#[export] Instance earlier_transitive : Transitive earlier.
Proof.
  clear hashtextextended. intros [a|a] [b|b] [c|c]; simpl; try (by intros; etrans); intros Hab Hbc;
    try (destruct (late a) eqn:Ea); try (destruct (late b) eqn:Eb); try (destruct (late c) eqn:Ec);
    try (pose proof (before_ranks _ _ Hab)); try (pose proof (before_ranks _ _ Hbc)); intuition (try congruence; try lia).
  apply before_rank. lia.
Qed.

(** The relationships come in the order [rk] gives. The keys locked before the
    entity's row are not those locked after it, and each come in the order [ik]
    gives. *)
Definition is_entity (r : resource) : bool := match r with Row (OnEntity _ _) => true | _ => false end.

Definition agree (held : list resource) (r : resource) : Prop :=
  match r with
  | Row (OnRelationship k) => forall k', Row (OnRelationship k') ∈ held -> rk k' < rk k
  | Row _ => True
  | Identity k => late k = existsb is_entity held /\ forall k', Identity k' ∈ held -> late k' = late k -> ik k' < ik k
  end.

Abbreviation in_turn := (Locks.in_order guarded_by earlier).
Abbreviation resources := (Locks.locks resource_of).

Lemma no_entity held : (forall t u, Row (OnEntity t u) ∉ held) -> existsb is_entity held = false.
Proof.
  intros Hno. apply not_true_iff_false. rewrite existsb_exists. intros (r & Hr%list_elem_of_In & He).
  destruct r as [[]|]; try done. by eapply Hno.
Qed.

Lemma some_entity held t u : Row (OnEntity t u) ∈ held -> existsb is_entity held = true.
Proof. intros Hin. apply existsb_exists. exists (Row (OnEntity t u)). by rewrite <- list_elem_of_In. Qed.

(** Nothing but the release's range and the keys locked before the entity's row. *)
Definition opening (held : list resource) : Prop :=
  Forall (fun r => match r with Row l => rank l = 0 | Identity k => late k = false end) held.

Lemma opening_no_entity held : opening held -> existsb is_entity held = false.
Proof.
  intros Ho. apply no_entity. intros t u Hin. unfold opening in Ho. rewrite Forall_forall in Ho. by specialize (Ho _ Hin).
Qed.

(** All a call to the library locks. *)
Lemma requested_keys tr rqs : Forall is_identity tr -> requested tr rqs -> exists keys, resources rqs = map Identity keys.
Proof.
  intros HF Hr. induction Hr as [|s tr rqs Hs _ _|s keys tr rqs Hs _ IH]; [by exists []|..]; apply Forall_cons in HF as [Hs' HF]; [done|].
  destruct (IH HF) as [keys' Hk]. exists (keys ++ keys'). rewrite locks_app, map_app. f_equal; [by apply locks_map_some|].
  change (Sends s :: rqs) with ([Sends s] ++ rqs). rewrite locks_app, Hk. unfold Locks.locks. simpl. by destruct s.
Qed.

Lemma keys_in_turn held keys :
  opening held \/ existsb is_entity held = true ->
  acquires Some agree held (map Identity keys) ->
  acquires Some in_turn held (map Identity keys) /\
  (opening held -> opening (held ++ map Identity keys)).
Proof.
  revert held. induction keys as [|k keys IH]; intros held Hheld; [intros _; split; [done|by rewrite app_nil_r]|].
  cbn [map acquires]. intros [Hk Ha]. unfold Locks.locks in Ha |- *. cbn [omap list_omap] in Ha |- *.
  assert (opening held -> opening (held ++ [Identity k])) as Hopen.
  { intros Ho. apply Forall_app. split; [done|]. constructor; [|done]. destruct Hk as [Hk|[Hk _]]; [|by rewrite opening_no_entity in Hk].
    unfold opening in Ho. rewrite Forall_forall in Ho. by specialize (Ho _ Hk). }
  destruct (IH (held ++ [Identity k])) as [Hin Hnew]; [|done|].
  { destruct Hheld as [Ho|He]; [left; by apply Hopen|right]. by rewrite existsb_app, He. }
  split; [split; [|done]|].
  - destruct Hk as [|[Hlate Hk]]; [by left|right]. intros r Hr _. destruct Hheld as [Ho|He].
    + rewrite (opening_no_entity _ Ho) in Hlate. unfold opening in Ho. rewrite Forall_forall in Ho. specialize (Ho r Hr).
      destruct r as [l|k']; simpl; [by right|]. rewrite Ho. right. apply Hk; [done|congruence].
    + rewrite He in Hlate. destruct r as [l|k']; simpl; [by left|]. destruct (late k') eqn:E; [|by left]. split; [done|]. apply Hk; congruence.
  - intros Ho. rewrite <- app_assoc in Hnew. simpl in Hnew. by apply Hnew, Hopen.
Qed.

(** The loader's own statements keep their order beside the identity keys. *)
Lemma own_in_turn held locked tr :
  (forall r, r ∈ locked -> match r with Row l => l ∈ held | Identity k => late k = false end) ->
  (forall l, l ∈ held -> Row l ∈ locked) ->
  (forall h, OnRange h ∈ locks lock_of tr -> OnRange h ∈ held) ->
  acquires lock_of (Locks.in_order guard (before rk)) held tr ->
  acquires resource_of in_turn locked (map Sends tr).
Proof.
  revert held locked. induction tr as [|s tr IH]; intros held locked Hlock Hheld Hrange; [done|]. cbn [map acquires resource_of].
  intros [Hs Ha]. change (s :: tr) with ([s] ++ tr) in Hrange. rewrite locks_app in Hrange.
  assert (resources [Sends s] = map Row (locks lock_of [s])) as -> by (unfold Locks.locks; simpl; by destruct (lock_of s)).
  split.
  - destruct (lock_of s) as [l|] eqn:El; [simpl|done]. rewrite (locks_one _ _ _ El) in Hrange.
    destruct (decide (l ∈ held)) as [Hin|Hnew]; [left; by apply Hheld|right]. destruct Hs as [|Hs]; [done|].
    unfold Locks.in_order in Hs |- *. simpl. destruct (guard l) as [g|] eqn:Eg; simpl; [by apply Hheld|].
    intros [l'|k] Hr Hg; specialize (Hlock _ Hr); simpl in *.
    + apply Hs; [done|]. by destruct (guard l').
    + split; [done|]. destruct l as [h| | | | | |]; simpl; try lia. exfalso. apply Hnew, Hrange. by left.
  - apply (IH (held ++ locks lock_of [s])); [| |intros h Hh; apply elem_of_app; left; apply Hrange, elem_of_app; by right|done].
    + intros r [Hr|(l & -> & Hl)%list_elem_of_fmap]%elem_of_app; [|apply elem_of_app; by right].
      specialize (Hlock r Hr). destruct r; [apply elem_of_app; by left|done].
    + intros l [Hl|Hl]%elem_of_app; apply elem_of_app; [left; by apply Hheld|right]. by apply list_elem_of_fmap_2.
Qed.

(** No range is locked once the entity's row is. *)
Lemma no_new_range held t u tr h :
  acquires lock_of (Locks.in_order guard (before rk)) held tr -> OnEntity t u ∈ held ->
  OnRange h ∈ locks lock_of tr -> OnRange h ∈ held.
Proof.
  revert held. induction tr as [|s tr IH]; intros held Ha He Hh; [by apply not_elem_of_nil in Hh|].
  cbn [acquires] in Ha. destruct Ha as [Hs Ha]. change (s :: tr) with ([s] ++ tr) in Hh. rewrite locks_app in Hh.
  assert (OnRange h ∈ locks lock_of [s] -> OnRange h ∈ held) as Hone.
  { unfold Locks.locks. simpl. destruct (lock_of s) as [l|]; simpl; [|by intros ?%not_elem_of_nil]. intros <-%list_elem_of_singleton.
    destruct Hs as [|Hs]; [done|]. exfalso. unfold Locks.in_order in Hs. simpl in Hs. specialize (Hs _ He eq_refl). simpl in Hs. lia. }
  apply elem_of_app in Hh as [Hh|Hh]; [by apply Hone|].
  apply IH in Ha; [|apply elem_of_app; by left|done]. apply elem_of_app in Ha as [|]; [done|by apply Hone].
Qed.

(** The loader's statements agree where all do. *)
Lemma agree_own held locked tr rqs :
  requested tr rqs -> (forall l, Row l ∈ locked <-> l ∈ held) ->
  acquires resource_of agree locked rqs -> acquires lock_of (agrees rk) held tr.
Proof.
  intros Hr. revert held locked.
  assert (forall held locked s tr rqs, (forall l, Row l ∈ locked <-> l ∈ held) ->
    (forall held locked, (forall l, Row l ∈ locked <-> l ∈ held) -> acquires resource_of agree locked rqs -> acquires lock_of (agrees rk) held tr) ->
    acquires resource_of agree locked (Sends s :: rqs) -> acquires lock_of (agrees rk) held (s :: tr)) as Hown.
  { clear. intros held locked s tr rqs Heq IH. cbn [acquires resource_of]. intros [Hs Ha]. split.
    - destruct (lock_of s) as [l|]; [simpl in Hs|done]. destruct Hs as [Hs|Hs]; [left; by apply Heq|right].
      destruct l; simpl in *; try done. intros k' Hk'. by apply Hs, Heq.
    - refine (IH _ _ _ Ha). intros l. rewrite !elem_of_app, Heq. unfold Locks.locks. simpl.
      destruct (lock_of s) as [l'|]; simpl; [|by rewrite !elem_of_nil]. rewrite !list_elem_of_singleton. split; intros [|]; simplify_eq; auto. }
  induction Hr as [|s tr rqs _ _ IH|s keys tr rqs _ _ IH]; intros held locked Heq; [done|by eapply Hown|].
  intros [_ Ha]%acquires_app. refine (Hown held _ _ _ _ _ IH Ha). intros l. rewrite elem_of_app, Heq.
  assert (Row l ∉ resources (map Takes keys)) as Hno; [|tauto].
  rewrite (locks_map_some resource_of Takes Identity) by done. intros (? & [=] & _)%list_elem_of_fmap.
Qed.

(** What a record's connection is asked for, from begin to commit. *)
Definition record_requests (refresh : bool) (rqs : list request) : Prop :=
  exists tr, record_transaction refresh tr /\ requested tr rqs.

Lemma parts_in_turn tr rqs :
  in_parts hashtextextended tr -> requested tr rqs -> disciplined lock_of guard (before rk) tr ->
  acquires resource_of agree [] rqs -> disciplined resource_of guarded_by earlier rqs.
Proof.
  intros (first & ids & up & mid & after & t & u & -> & Hfirst & Hids & Hafter & Hown & Hup) Hr Hd Ha.
  apply requested_app in Hr as (rf & r1 & -> & Hrf & (ri & r2 & -> & Hri & (ro & ra & -> & Hro & Hra)%requested_app)%requested_app).
  assert (rf = map Sends first) as -> by (apply requested_plain; [destruct Hfirst as [->|[key ->]]; repeat constructor; by intros ?|done]).
  apply requested_plain in Hro as ->; [|done].
  apply acquires_app in Ha as [_ (Hai & (_ & Haa)%acquires_app)%acquires_app]. apply acquires_app in Hd as [_ (_ & (Hdo & _)%acquires_app)%acquires_app].
  rewrite app_nil_l in *. destruct (requested_keys ids ri Hids Hri) as [early Hearly]. destruct (requested_keys after ra Hafter Hra) as [last Hlast].
  assert (locks lock_of ids = []) as Hnone by (eapply (acquires_none _ (fun _ _ => True) []), identity_no_lock, Hids).
  rewrite Hnone, app_nil_r in Hdo.
  assert (resources (map Sends first) = map Row (locks lock_of first)) as Hfr by (destruct Hfirst as [->|[key ->]]; done).
  assert (opening (resources (map Sends first))) as Hopen by (destruct Hfirst as [->|[key ->]]; repeat constructor).
  rewrite acquires_locks, Hearly in Hai. rewrite acquires_locks, Hlast in Haa.
  destruct (keys_in_turn _ early (or_introl Hopen) Hai) as [Hki Hko]. specialize (Hko Hopen).
  unfold disciplined. rewrite !acquires_app, !app_nil_l. split_and!.
  - destruct Hfirst as [->|[key ->]]; [done|]. split; [|done]. right. by intros r ?%not_elem_of_nil.
  - by rewrite acquires_locks, Hearly.
  - rewrite Hearly, Hfr. apply (own_in_turn (locks lock_of first)); [| | |done].
    + intros r [(l & -> & Hl)%list_elem_of_fmap|Hk]%elem_of_app; [done|]. unfold opening in Hko. rewrite Forall_forall in Hko.
      destruct r as [l|k]; [by apply list_elem_of_fmap in Hk as (? & [=] & _)|]. apply (Hko (Identity k)), elem_of_app. by right.
    + intros l Hl. apply elem_of_app. left. by apply list_elem_of_fmap_2.
    + intros h. change (up :: mid) with ([up] ++ mid) in *. apply acquires_app in Hdo as [_ Hdo]. rewrite (locks_one _ _ _ Hup) in Hdo.
      rewrite locks_app, (locks_one _ _ _ Hup). intros [[=]%list_elem_of_singleton|Hh]%elem_of_app.
      apply (no_new_range _ t u mid h Hdo) in Hh; [|apply elem_of_app; right; by left]. by apply elem_of_app in Hh as [|[=]%list_elem_of_singleton].
  - rewrite acquires_locks, Hlast. apply keys_in_turn; [|done]. right. apply (some_entity _ t u).
    rewrite !elem_of_app. right. change (up :: mid) with ([up] ++ mid). rewrite map_app, locks_app. apply elem_of_app. left.
    unfold Locks.locks. simpl. rewrite Hup. by left.
Qed.

Lemma requests_in_turn refresh rqs :
  spelled -> record_requests refresh rqs -> acquires resource_of agree [] rqs -> disciplined resource_of guarded_by earlier rqs.
Proof.
  intros Hsp (tr & Htr & Hr) Ha. eapply parts_in_turn; [by eapply transaction_parts|done| |done].
  eapply transaction_disciplined; [done|done|]. eapply agree_own; [done| |done]. intros l. by rewrite !elem_of_nil.
Qed.
End requests.

(** ** Records in flight together *)

Section together.
Context `{PyRepr} `{Postgres} `{Common}.
Context (hashtextextended : string -> Z).

Abbreviation resource_of := (resource_of hashtextextended).
Abbreviation agree_on rk ik late := (acquires resource_of (agree rk ik late) []).

(** The records lock the relationships they share in one order, and the identity
    keys in one order on each side of the entity's row. *)
Definition one_order (rqs : list (list request)) : Prop := exists rk ik late, Forall (agree_on rk ik late) rqs.

(** Records no two of which write one relationship or touch one identity key. *)
Definition shareable (r : resource) : Prop := match r with Row (OnRelationship _) | Identity _ => True | _ => False end.

Definition apart (rqs : list (list request)) : Prop :=
  forall i j a b r, rqs !! i = Some a -> rqs !! j = Some b -> shareable r ->
    r ∈ locks resource_of a -> r ∈ locks resource_of b -> i = j.

(** Where an element is first met. *)
Fixpoint position (l : list resource) (x : resource) : nat :=
  match l with [] => 0 | y :: l => if decide (x = y) then 0 else S (position l x) end.

Lemma position_in l q x : x ∈ l -> position (l ++ q) x < length l.
Proof. induction l as [|y l IH]; simpl; [by intros ?%not_elem_of_nil|]. intros [->|Hx]%elem_of_cons; case_decide; try done; try lia. specialize (IH Hx). lia. Qed.

Lemma position_at l q x : x ∉ l -> position (l ++ x :: q) x = length l.
Proof.
  induction l as [|y l IH]; simpl; intros Hx; [by rewrite decide_True|]. apply not_elem_of_cons in Hx as [Hxy Hx].
  rewrite decide_False by done. by rewrite IH.
Qed.

(** Such records are in one order: the one they are listed in. *)
Definition after_entity (rqs : list (list request)) (key : string) : bool :=
  existsb (fun rq => bool_decide (Identity key ∈ locks resource_of rq) &&
    existsb is_entity (take (position (locks resource_of rq) (Identity key)) (locks resource_of rq))) rqs.

Lemma after_entity_at rqs i p q key :
  apart rqs -> rqs !! i = Some (p ++ q) -> Identity key ∉ locks resource_of p ->
  forall l, locks resource_of q = Identity key :: l ->
  after_entity rqs key = existsb is_entity (locks resource_of p).
Proof.
  intros Hap Hi Hnew l Hl.
  assert (take (position (locks resource_of (p ++ q)) (Identity key)) (locks resource_of (p ++ q)) = locks resource_of p) as Ht.
  { rewrite locks_app, Hl, position_at by done. apply take_app_length. }
  assert (Identity key ∈ locks resource_of (p ++ q)) as Hin by (rewrite locks_app, Hl; apply elem_of_app; right; by left).
  apply eq_true_iff_eq. unfold after_entity. rewrite existsb_exists. split.
  - intros (rq & Hrq%list_elem_of_In & [Hk Hb]%andb_true_iff). apply bool_decide_eq_true in Hk. apply list_elem_of_lookup in Hrq as [j Hj].
    assert (j = i) as -> by exact (Hap _ _ _ _ (Identity key) Hj Hi I Hk Hin). rewrite Hi in Hj. injection Hj as <-. by rewrite Ht in Hb.
  - intros Hb. exists (p ++ q). split; [by eapply list_elem_of_In, list_elem_of_lookup_2|]. by rewrite bool_decide_true, Ht.
Qed.

Lemma apart_one_order rqs : apart rqs -> one_order rqs.
Proof.
  intros Hap. set (all := concat (map (locks resource_of) rqs)).
  exists (fun k => position all (Row (OnRelationship k))), (fun k => position all (Identity k)), (after_entity rqs).
  apply Forall_lookup. intros i rq Hi.
  assert (exists l q, all = l ++ locks resource_of rq ++ q /\ forall r, shareable r -> r ∈ locks resource_of rq -> r ∉ l) as (l & q & Hall & Hno).
  { exists (concat (map (locks resource_of) (take i rqs))), (concat (map (locks resource_of) (drop (S i) rqs))). split.
    - unfold all. rewrite <- (take_drop_middle rqs i rq Hi) at 1. by rewrite map_app, concat_app.
    - intros r Hr Hk Hin. apply list_elem_of_In, in_concat in Hin as (c & Hc%list_elem_of_In & Hin%list_elem_of_In).
      apply list_elem_of_fmap in Hc as (b & -> & Hb). apply list_elem_of_lookup in Hb as [j Hj]. apply lookup_take_Some in Hj as [Hj Hlt].
      specialize (Hap i j rq b r Hi Hj Hr Hk Hin). lia. }
  assert (forall p x r, rq = p ++ r -> x ∉ locks resource_of p -> shareable x -> forall l', locks resource_of r = x :: l' ->
    forall y, y ∈ locks resource_of p -> position all y < position all x) as Hpos.
  { intros p x r -> Hx Hs l' Hl' y Hy. rewrite Hall, locks_app, Hl', <- app_assoc. simpl. rewrite (app_assoc l).
    rewrite (position_at (l ++ locks resource_of p)); [apply position_in, elem_of_app; by right|].
    rewrite not_elem_of_app. split; [|done]. apply Hno; [done|]. rewrite locks_app, Hl'. apply elem_of_app. right. by left. }
  generalize dependent rq. intros rq Hi Hall Hno Hpos.
  assert (forall p r, rq = p ++ r -> acquires resource_of (agree (fun k => position all (Row (OnRelationship k)))
    (fun k => position all (Identity k)) (after_entity rqs)) (locks resource_of p) r) as Hgen; [|by apply (Hgen [])].
  intros p r. revert p. induction r as [|st r IH]; intros p Hrq; [done|]. cbn [acquires]. rewrite <- locks_app. split; [|apply IH; by rewrite <- app_assoc].
  destruct (resource_of st) as [x|] eqn:Hst; [|done]. destruct (decide (x ∈ locks resource_of p)) as [|Hnew]; [by left|right].
  assert (locks resource_of (st :: r) = x :: locks resource_of r) as Hl
    by (change (st :: r) with ([st] ++ r); by rewrite locks_app, (locks_one _ _ _ Hst)).
  destruct x as [lk|k]; [destruct lk; try done; intros k' Hk'; by eapply Hpos|]. split.
  - subst. by eapply after_entity_at.
  - intros k' Hk' _. by eapply Hpos.
Qed.

(** C8: records in flight together do not deadlock, if they take the locks the code
    leaves unordered in one order: the relationships they share, and the identity
    keys their calls to the identity library lock (each key before the entity's row
    in all of them, or after it in all of them, and in one order there), as any
    records do that share none. Take the transactions of any records, of any types,
    each record's any number of times, with whatever keys the library locks in them
    and with any of them failing at any moment. The release ranges come first, then
    the keys of [_native_id], the entity's row, the media families and media in name
    order, the relationships, the links and edges only under locks already held, and
    the keys of [_attach_identifier_aliases] last, so no state of them is a cycle of
    waits, and served in any order in which each keeps getting a turn they all end,
    each that was not made to fail having sent every statement of its record. *)
Theorem records_never_deadlock refresh rqs :
  spelled -> Forall (record_requests refresh) rqs -> one_order rqs ->
  (forall events, ~ deadlocked resource_of (execution resource_of (start rqs) events)) /\
  forall rounds,
    Forall (fun round => forall i, i < length rqs -> Go i ∈ round) rounds ->
    sum_list (map (fun rq => 1 + length rq) rqs) <= length rounds ->
    forall i rq, rqs !! i = Some rq -> exists t, execution resource_of (start rqs) (concat rounds) !! i = Some t /\
      tx_open t = false /\ (t = Txn rq [] false \/ Fail i ∈ concat rounds).
Proof.
  intros Hsp HF (rk & ik & late & Ha).
  assert (Forall (disciplined resource_of (guarded_by hashtextextended) (earlier rk ik late)) rqs) as Hd.
  { rewrite Forall_forall in HF, Ha. apply Forall_forall. intros rq Hrq. apply (requests_in_turn _ _ _ _ refresh); auto. }
  split.
  - intros events. eapply (no_deadlock resource_of (guarded_by hashtextextended) (earlier rk ik late)).
    by apply execution_sane, start_sane.
  - intros rounds. by apply (all_end resource_of (guarded_by hashtextextended) (earlier rk ik late)).
Qed.
End together.
