(* ===== verification/Isolation.v ===== *)
(** * Transactions against each other's rows

    [async with conn.transaction()] opens a transaction at PostgreSQL's default
    isolation, READ COMMITTED: a statement sees what was committed when it was
    sent, and the transaction's own writes; an upsert that reaches a row another
    transaction has written waits for that one to end and then works on the row it
    left. This file has the record transactions of [_persistence.py] and the purge's
    of [_reconciliation.py] sent statement by statement over shared tables, and the
    facts on single statements; [Serializable.v] says what such runs commit. *)

From S2P Require Import Prelude PyValue Database LinkEvents Persistence Media RecordProcessing ProcessTrace ProcessSpec Locks RecordLocks.
From stdpp Require Import base gmap strings list option.
From Stdlib Require Import ZArith Lia.

(** ** Parts of the tables

    Each statement of a record writes one part of the tables, named by the lock
    it takes. *)

(** Two databases have the same in a part. *)
Definition same_cell (l : lock) (d d' : db) : Prop :=
  match l with
  | OnRange _ => True
  | OnEntity t u => entity_rows t d !! u = entity_rows t d' !! u
  | OnFamily n => n ∈ media_family d <-> n ∈ media_family d'
  | OnMedium m => medium d !! m = medium d' !! m
  | OnEdges r s => forall m, issued_on d !! (r, m, s) = issued_on d' !! (r, m, s)
  | OnRelationship k => relationships d !! k = relationships d' !! k
  | OnLink k => external_links d !! k = external_links d' !! k
  end.

(** The same in every part: all tables but the link history and the identity
    library's ledger. *)
#[export] Instance db_equiv : Equiv db := fun d d' => forall l, same_cell l d d'.

#[export] Instance same_cell_equivalence l : Equivalence (same_cell l).
Proof.
  split; unfold Reflexive, Symmetric, Transitive; intros; destruct l; simpl in *; try done; try tauto; try congruence;
    intros m; by etrans.
Qed.

#[export] Instance db_equivalence : Equivalence (≡@{db}).
Proof.
  split.
  - intros d l. reflexivity.
  - intros d d' Hd l. symmetry. apply Hd.
  - intros d d' d'' Hd Hd' l. etrans; [apply Hd|apply Hd'].
Qed.

#[export] Instance same_cell_proper l : Proper ((≡) ==> (≡) ==> iff) (same_cell l).
Proof.
  intros d1 d2 Hd e1 e2 He. split; intros Hs.
  - rewrite <- (Hd l), Hs. apply He.
  - rewrite (Hd l), Hs. symmetry. apply He.
Qed.

(** [dst] with the part [l] of [src]. *)
Definition copy_cell (src : db) (l : lock) (dst : db) : db :=
  match l with
  | OnRange _ => dst
  | OnEntity t u => set_entity_rows t (partial_alter (fun _ => entity_rows t src !! u) u (entity_rows t dst)) dst
  | OnFamily n =>
      set_media_family (if decide (n ∈ media_family src) then {[n]} ∪ media_family dst else media_family dst ∖ {[n]}) dst
  | OnMedium m => set_medium (partial_alter (fun _ => medium src !! m) m (medium dst)) dst
  | OnEdges r s =>
      set_issued_on (filter (fun kq => kq.1.1.1 = r /\ kq.1.2 = s) (issued_on src) ∪
                     filter (fun kq => ~ (kq.1.1.1 = r /\ kq.1.2 = s)) (issued_on dst)) dst
  | OnRelationship k => set_relationships (partial_alter (fun _ => relationships src !! k) k (relationships dst)) dst
  | OnLink k => set_external_links (partial_alter (fun _ => external_links src !! k) k (external_links dst)) dst
  end.

Definition overlay (cells : list lock) (src dst : db) : db := foldr (copy_cell src) dst cells.

Lemma copy_cell_same src l dst : same_cell l (copy_cell src l dst) src.
Proof.
  destruct l; simpl; rewrite ?set_entity_rows_same, ?lookup_partial_alter_eq; try done.
  - destruct (decide (name ∈ media_family src)); set_solver.
  - intros m. rewrite lookup_union, !map_lookup_filter. simpl. destruct (issued_on src !! _) as [q|], (issued_on dst !! _) as [q'|];
      simpl; repeat case_guard; try done; exfalso; naive_solver.
Qed.

Lemma copy_cell_other src l l' dst : l <> l' -> same_cell l (copy_cell src l' dst) dst.
Proof.
  intros Hne. destruct l as [h|t u|n|m|r s|k|k], l' as [h'|t' u'|n'|m'|r' s'|k'|k']; simpl; try done;
    try (by destruct t); try (by destruct t').
  - destruct (decide (t = t')) as [->|Ht]; [|by rewrite set_entity_rows_other by done].
    rewrite set_entity_rows_same, lookup_partial_alter_ne; [done|congruence].
  - assert (n <> n') by congruence. destruct (decide (n' ∈ media_family src)); set_solver.
  - rewrite lookup_partial_alter_ne; [done|congruence].
  - intros m. rewrite lookup_union, !map_lookup_filter. simpl. destruct (issued_on src !! _) as [q|], (issued_on dst !! _) as [q'|];
      simpl; repeat case_guard; try done; exfalso; naive_solver.
  - rewrite lookup_partial_alter_ne; [done|congruence].
  - rewrite lookup_partial_alter_ne; [done|congruence].
Qed.

Lemma overlay_in cells src dst l : l ∈ cells -> same_cell l (overlay cells src dst) src.
Proof.
  induction cells as [|l' cells IH]; [by intros ?%not_elem_of_nil|]. simpl. destruct (decide (l = l')) as [->|Hne].
  - intros _. apply copy_cell_same.
  - intros [->|Hin]%elem_of_cons; [done|]. rewrite copy_cell_other by done. by apply IH.
Qed.

Lemma overlay_out cells src dst l : l ∉ cells -> same_cell l (overlay cells src dst) dst.
Proof.
  induction cells as [|l' cells IH]; [done|]. simpl. intros [Hne Hl]%not_elem_of_cons.
  rewrite copy_cell_other by done. by apply IH.
Qed.

(** ** Statements *)

Section isolation.
Context `{PyRepr} `{Postgres} `{Common}.
Context (hashtextextended : string -> Z).

Abbreviation lock_of := (lock_of hashtextextended).

(** [upsert_entity] as the server runs it: the upsert works on the row as it is
    when its turn comes, [old] reads the statement's snapshot and takes no lock. *)
Definition upsert_entity_at (snapshot : db) (s : upsert_spec) (now : Z) (params : list param) (d : db) : result exn db :=
  let n := length (up_columns s) in
  match take n params, drop n params with
  | (mbid :: _) as values, [old_mbid; Plain source_ref] =>
      let rows := entity_rows (up_table s) d in
      let upsert := upserted s now (excluded s values) (rows !! uuid_in mbid) in
      let d' := set_entity_rows (up_table s) (<[uuid_in mbid := upsert]> rows) d in
      match entity_rows (up_table s) snapshot !! uuid_in old_mbid with
      | Some old =>
          let before := link_column s old in
          let after := link_column s upsert in
          if decide (before = after) then Ok d'
          else Ok (set_link_events
                     (insert_link_event
                        (LinkEvent "musicbrainz" (up_entity_kind s) (uuid_in mbid) (link_change_of before after)
                           before after now "groovemap_load" source_ref)
                        (identity_link_events d)) d')
      | None => Ok d'
      end
  | _, _ => Raise OtherDatabaseError
  end.

(** The prune of a release's edges deletes the rows its snapshot shows. *)
Definition delete_release_media_at (snapshot : db) (release_id source : string) (d : db) : db :=
  set_issued_on (filter (fun kq => ~ (is_Some (issued_on snapshot !! kq.1) /\ kq.1.1.1 = release_id /\ kq.1.2 = source))
                   (issued_on d)) d.

(** Which child rows a prune of stale ones reaches, and which are stale. *)
Definition in_table (t : child_table) (l : lock) : Prop :=
  match t, l with Relationships, OnRelationship _ | ExternalLinks, OnLink _ => True | _, _ => False end.

Definition stale_cell (b : Z) (d : db) (l : lock) : Prop :=
  match l with
  | OnRelationship k => is_Some (stale_relationships b d !! k)
  | OnLink k => is_Some (stale_external_links b d !! k)
  | _ => False
  end.

(** [DELETE FROM t WHERE updated_at < boundary]: the rows its snapshot shows as
    stale, each looked at again when it is locked. *)
Definition delete_stale_at (snapshot : db) (t : child_table) (b : Z) (d : db) : db :=
  match t with
  | Relationships =>
      set_relationships (filter (fun kr => ~ (is_Some (stale_relationships b snapshot !! kr.1) /\ rel_updated_at kr.2 < b)%Z)
                           (relationships d)) d
  | ExternalLinks =>
      set_external_links (filter (fun kt => ~ (is_Some (stale_external_links b snapshot !! kt.1) /\ kt.2 < b)%Z)
                           (external_links d)) d
  end.

(** A statement at its turn. The ledger is the identity library's and
    is left out here. *)
Definition effect_at (snapshot : db) (now : Z) (s : statement) (d : db) : result exn db :=
  match s with
  | EntityUpsert sp ps => upsert_entity_at snapshot sp now ps d
  | DeleteReleaseMedia release_id source => Ok (delete_release_media_at snapshot release_id source d)
  | ResolveAliases _ | AttachAliases _ => Ok d
  | DeleteStale t b => Ok (delete_stale_at snapshot t b d)
  | _ => effect now s d
  end.

(** The statements a record's transaction is made of: none of the purge's, and an
    upsert looks its own row up. *)
Definition of_record (s : statement) : Prop :=
  match s with
  | CountAll _ | CountStale _ _ | DeleteStale _ _ => False
  | EntityUpsert sp ps =>
      forall mbid values old rest, take (length (up_columns sp)) ps = mbid :: values ->
        drop (length (up_columns sp)) ps = old :: rest -> uuid_in old = uuid_in mbid
  | _ => True
  end.

(** Those of a purge at the boundary [b]. *)
Definition of_purge (b : Z) (s : statement) : Prop :=
  match s with CountAll _ => True | CountStale _ b' | DeleteStale _ b' => b' = b | _ => False end.

Definition allowed (b : Z) (s : statement) : Prop := of_record s \/ of_purge b s.

(** ** What a statement reads and writes *)

Lemma set_link_events_equiv l d : set_link_events l d ≡ d.
Proof. intros c. by destruct c; simpl; rewrite ?entity_rows_set_link_events. Qed.

Lemma insert_row_other t u r d l :
  OnEntity t u <> l -> same_cell l (set_entity_rows t (<[u := r]> (entity_rows t d)) d) d.
Proof.
  intros Hne. destruct l as [|t' u'| | | | |]; simpl; try done; try (by destruct t).
  destruct (decide (t' = t)) as [->|Ht]; [|by rewrite set_entity_rows_other].
  rewrite set_entity_rows_same, lookup_insert_ne; [done|congruence].
Qed.

Lemma upsert_entity_at_self s now ps d : upsert_entity_at d s now ps d = upsert_entity s now ps d.
Proof. done. Qed.

(** An upsert writes its own row, whatever its snapshot was, and whether it is
    well formed does not depend on the rows. *)
Lemma upsert_entity_at_inv snapshot s now ps d d' :
  upsert_entity_at snapshot s now ps d = Ok d' ->
  exists u new,
    lock_of (EntityUpsert s ps) = Some (OnEntity (up_table s) u) /\
    forall snapshot2 d2, exists d2', upsert_entity_at snapshot2 s now ps d2 = Ok d2' /\
      d2' ≡ set_entity_rows (up_table s) (<[u := upserted s now new (entity_rows (up_table s) d2 !! u)]> (entity_rows (up_table s) d2)) d2.
Proof.
  unfold upsert_entity_at. set (n := length _) in *. destruct (take n ps) as [|mbid values] eqn:Ht; [done|].
  destruct (drop n ps) as [|old [|[ref|] [|]]]; try done. intros _.
  exists (uuid_in mbid), (excluded s (mbid :: values)). split.
  { destruct ps as [|p ps]; [by destruct n|]. destruct n; [done|]. by injection Ht as -> _. }
  intros sn d2. repeat case_match; eexists; (split; [done|]); try done; apply set_link_events_equiv.
Qed.

(** The parts kept in other tables. *)
Ltac elsewhere l :=
  destruct l; try done; try (by match goal with t : entity_table |- _ => destruct t end).

Lemma effect_frame now s d d' l :
  of_record s -> effect now s d = Ok d' -> lock_of s <> Some l -> same_cell l d' d.
Proof.
  intros Hr He Hl. destruct s as [sp ps|refresh ps|refresh ps|n|m f la|k|r sr|r m sr q|refs|mp|t|t b|t b]; try done.
  - simpl in He. rewrite <- upsert_entity_at_self in He. pose proof He as (u & new & Hc & Hall)%upsert_entity_at_inv.
    destruct (Hall d d) as (d2 & Hd2 & Heq). rewrite He in Hd2. injection Hd2 as ->. rewrite Heq. apply insert_row_other. congruence.
  - simpl in He, Hl. unfold upsert_relationship in He. destruct (rel_key_of_params ps) as [[k v]|]; [|done]. injection He as <-.
    elsewhere l. simpl in *. rewrite lookup_insert_ne; [done|congruence].
  - simpl in He, Hl. unfold upsert_external_link in He. destruct ps as [|p0 [|p1 [|p2 [|p3 [|]]]]]; try done. injection He as <-.
    elsewhere l. simpl in *. rewrite lookup_insert_ne; [done|congruence].
  - injection He as <-. elsewhere l. simpl in *. assert (name <> n) by congruence. set_solver.
  - injection He as <-. case_match; [done|]. elsewhere l. simpl in *. rewrite lookup_insert_ne; [done|congruence].
  - by injection He as <-.
  - injection He as <-. elsewhere l. simpl in *. intros m. rewrite map_lookup_filter. simpl.
    destruct (issued_on d !! _); simpl; [|done]. case_guard; [done|]. exfalso. intuition congruence.
  - simpl in *. case_match; [done|]. injection He as <-. elsewhere l. simpl. intros m'. rewrite lookup_insert_ne; [done|congruence].
  - simpl in He. case_match. injection He as <-. by elsewhere l.
  - simpl in He. case_match. injection He as <-. by elsewhere l.
Qed.

(** What it does there is decided by what is there. *)
Lemma effect_here now s d1 d2 e1 l :
  lock_of s = Some l -> same_cell l d1 d2 -> effect now s d1 = Ok e1 ->
  exists e2, effect now s d2 = Ok e2 /\ same_cell l e1 e2.
Proof.
  intros Hl Hs He. destruct s as [sp ps|refresh ps|refresh ps|n|m f la|k|r sr|r m sr q|refs|mp|t|t b|t b]; try done.
  - simpl in He. rewrite <- upsert_entity_at_self in He. pose proof He as (u & new & Hc & Hall)%upsert_entity_at_inv.
    destruct (Hall d1 d1) as (x & Hx & Heq1). rewrite He in Hx. injection Hx as <-.
    destruct (Hall d2 d2) as (e2 & He2 & Heq2). exists e2. split; [done|]. rewrite Heq1, Heq2.
    rewrite Hc in Hl. injection Hl as <-. simpl in *. by rewrite !set_entity_rows_same, !lookup_insert_eq, Hs.
  - simpl in *. unfold upsert_relationship in *. destruct (rel_key_of_params ps) as [[k v]|]; [|done]. injection Hl as <-. injection He as <-.
    eexists. split; [done|]. simpl in *. by rewrite !lookup_insert_eq, Hs.
  - simpl in *. unfold upsert_external_link in *. destruct ps as [|p0 [|p1 [|p2 [|p3 [|]]]]]; try done. injection Hl as <-. injection He as <-.
    eexists. split; [done|]. simpl in *. by rewrite !lookup_insert_eq, Hs.
  - injection Hl as <-. injection He as <-. eexists. split; [done|]. simpl in *. set_solver.
  - injection Hl as <-. injection He as <-. eexists. split; [done|]. simpl in *. rewrite Hs.
    destruct (medium d2 !! m) eqn:E; simpl; [congruence|]. by rewrite !lookup_insert_eq.
  - injection Hl as <-. by exists d2.
  - injection Hl as <-. injection He as <-. eexists. split; [done|]. simpl in *. intros m. by rewrite !map_lookup_filter, Hs.
  - injection Hl as <-. simpl in *. rewrite (Hs m) in He. destruct (issued_on d2 !! _); [done|]. injection He as <-.
    eexists. split; [done|]. simpl. intros m'. destruct (decide (m = m')) as [->|]; [by rewrite !lookup_insert_eq|].
    rewrite !lookup_insert_ne by congruence. apply Hs.
Qed.

(** So a record's statements act alike where the databases they meet are alike. *)
Lemma record_local now s d1 d2 e1 :
  of_record s -> (forall l, lock_of s = Some l -> same_cell l d1 d2) -> effect now s d1 = Ok e1 ->
  exists e2, effect now s d2 = Ok e2 /\ forall l, same_cell l d1 d2 -> same_cell l e1 e2.
Proof.
  intros Hr Hs He.
  assert (exists e2, effect now s d2 = Ok e2 /\ forall l, lock_of s = Some l -> same_cell l e1 e2) as (e2 & He2 & Hhere).
  { destruct (lock_of s) as [l|] eqn:Hl.
    - destruct (effect_here now s d1 d2 e1 l Hl (Hs l eq_refl) He) as (e2 & He2 & Hsame). exists e2. split; [done|]. by intros l' [= <-].
    - destruct s; try done; simpl in *.
      + unfold upsert_entity in He. destruct params; [|done]. by destruct (length _).
      + unfold upsert_relationship in He. by destruct (rel_key_of_params params) as [[]|].
      + unfold upsert_external_link in He. by destruct params as [|? [|? [|? [|? [|]]]]].
      + destruct (resolve_aliases refs (provider_aliases d2)). by eexists.
      + destruct (attach_aliases mapping (provider_aliases d2)). by eexists. }
  exists e2. split; [done|]. intros l Hl. destruct (decide (lock_of s = Some l)) as [|Hne]; [by apply Hhere|].
  rewrite (effect_frame now s d1 e1 l Hr He Hne), (effect_frame now s d2 e2 l Hr He2 Hne). done.
Qed.

(** A prune of stale rows acts on each row by itself. *)
Lemma delete_stale_spec t b d l :
  same_cell l (delete_stale t b d) d \/ in_table t l /\ stale_cell b d l.
Proof.
  destruct t, l as [| | | | |k|k]; try (left; done); try (left; by match goal with t : entity_table |- _ => destruct t end).
  - destruct (decide (is_Some (stale_relationships b d !! k))) as [|Hn]; [by right|left]. simpl.
    rewrite map_lookup_filter. destruct (relationships d !! k) as [r|] eqn:E; [|done]. simpl.
    rewrite option_guard_True; [done|]. intros Hlt. apply Hn. exists r. by apply map_lookup_filter_Some.
  - destruct (decide (is_Some (stale_external_links b d !! k))) as [|Hn]; [by right|left]. simpl.
    rewrite map_lookup_filter. destruct (external_links d !! k) as [r|] eqn:E; [|done]. simpl.
    rewrite option_guard_True; [done|]. intros Hlt. apply Hn. exists r. by apply map_lookup_filter_Some.
Qed.

Lemma stale_cell_same b d d' l : same_cell l d d' -> stale_cell b d l -> stale_cell b d' l.
Proof.
  destruct l; try done; simpl; intros Hs [x Hx]; exists x; apply map_lookup_filter_Some in Hx as [Hx Hlt];
    apply map_lookup_filter_Some; by rewrite <- Hs.
Qed.

Lemma delete_stale_local t b d1 d2 l : same_cell l d1 d2 -> same_cell l (delete_stale t b d1) (delete_stale t b d2).
Proof. intros Hs. destruct t, l; simpl in *; try done; try (by destruct t); by rewrite !map_lookup_filter, Hs. Qed.

(** Statements act alike where the databases they meet are alike. *)
Lemma effect_local b now s d1 d2 e1 :
  allowed b s -> (forall l, lock_of s = Some l -> same_cell l d1 d2) -> effect now s d1 = Ok e1 ->
  exists e2, effect now s d2 = Ok e2 /\ forall l, same_cell l d1 d2 -> same_cell l e1 e2.
Proof.
  intros [Hr|Hp] Hs He; [by apply (record_local now s d1)|].
  destruct s; try done; injection He as <-; eexists; (split; [done|]); intros l Hl; [done..|]. by apply delete_stale_local.
Qed.

(** They change the part they name, and the stale rows they prune. *)
Lemma effect_untouched b now s d d' l :
  allowed b s -> effect now s d = Ok d' -> lock_of s <> Some l ->
  (forall t b', s = DeleteStale t b' -> in_table t l -> ~ stale_cell b' d l) -> same_cell l d' d.
Proof.
  intros [Hr|Hp] He Hl Hst; [by apply (effect_frame now s)|]. destruct s; try done; injection He as <-; [done..|].
  destruct (delete_stale_spec t boundary d l) as [|[Hin Hs]]; [done|]. by destruct (Hst _ _ eq_refl Hin).
Qed.

(** It leaves none. *)
Lemma delete_stale_none t b d l : in_table t l -> ~ stale_cell b (delete_stale t b d) l.
Proof.
  destruct t, l; try done; simpl; intros _ [x Hx]; apply map_lookup_filter_Some in Hx as [Hx Hlt];
    apply map_lookup_filter_Some in Hx as [_ Hn]; by apply Hn.
Qed.

(** ** The link event of a statement *)

Definition event_at (snapshot : db) (now : Z) (s : statement) (d : db) : option link_event :=
  match s with
  | EntityUpsert sp ps =>
      let n := length (up_columns sp) in
      match take n ps, drop n ps with
      | (mbid :: _) as values, [old_mbid; Plain source_ref] =>
          old ← entity_rows (up_table sp) snapshot !! uuid_in old_mbid;
          let before := link_column sp old in
          let after := link_column sp (upserted sp now (excluded sp values) (entity_rows (up_table sp) d !! uuid_in mbid)) in
          if decide (before = after) then None
          else Some (LinkEvent "musicbrainz" (up_entity_kind sp) (uuid_in mbid) (link_change_of before after)
                       before after now "groovemap_load" source_ref)
      | _, _ => None
      end
  | _ => None
  end.

(** Events added to a history in turn. *)
Definition add_events (l history : list link_event) : list link_event :=
  foldl (fun h e => insert_link_event e h) history l.

Lemma effect_at_events snapshot now s d d' :
  effect_at snapshot now s d = Ok d' ->
  identity_link_events d' = add_events (option_list (event_at snapshot now s d)) (identity_link_events d).
Proof.
  intros He. destruct s as [sp ps|refresh ps|refresh ps|n|m f la|k|r sr|r m sr q|refs|mp|t|t b|t b]; try done; simpl in *.
  - unfold upsert_entity_at in He. destruct (take _ ps) as [|mbid values]; [done|].
    destruct (drop _ ps) as [|old [|[ref|] [|]]]; try done. simpl. destruct (entity_rows _ snapshot !! _) as [o|]; simpl.
    + case_decide; injection He as <-; simpl; by destruct (up_table sp).
    + injection He as <-. by destruct (up_table sp).
  - unfold upsert_relationship in He. destruct (rel_key_of_params ps) as [[]|]; [|done]. by injection He as <-.
  - unfold upsert_external_link in He. destruct ps as [|? [|? [|? [|? [|]]]]]; try done. by injection He as <-.
  - by injection He as <-.
  - injection He as <-. by case_match.
  - by injection He as <-.
  - by injection He as <-.
  - case_match; [done|]. by injection He as <-.
  - by injection He as <-.
  - by injection He as <-.
  - by injection He as <-.
  - by injection He as <-.
  - injection He as <-. by destruct t.
Qed.

Lemma effect_events now s d d' :
  effect now s d = Ok d' ->
  identity_link_events d' = add_events (option_list (event_at d now s d)) (identity_link_events d).
Proof.
  intros He. destruct s; try (by eapply effect_at_events).
  - by injection He as <-.
  - simpl in He. destruct (resolve_aliases _ _). by injection He as <-.
  - simpl in He. destruct (attach_aliases _ _). by injection He as <-.
  - injection He as <-. by destruct t.
Qed.

(** Whether the snapshot still shows what the statement finds. *)
Definition fresh (snapshot : db) (s : statement) (d : db) : Prop := forall l, lock_of s = Some l -> same_cell l snapshot d.

Lemma event_local b now s sn1 sn2 d1 d2 :
  allowed b s -> fresh sn1 s sn2 -> (forall l, lock_of s = Some l -> same_cell l d1 d2) ->
  event_at sn1 now s d1 = event_at sn2 now s d2.
Proof.
  intros [Hr|Hp] Hsn Hd; [|by destruct s]. destruct s as [sp ps| | | | | | | | | | | |]; try done. simpl in Hr. unfold fresh in Hsn. simpl in *.
  destruct (take _ ps) as [|mbid values] eqn:Ht; [done|]. destruct (drop _ ps) as [|old [|[ref|] [|]]] eqn:Hdrop; try done.
  rewrite (Hr _ _ _ _ eq_refl eq_refl). destruct ps as [|p ps]; [by rewrite take_nil in Ht|].
  destruct (length (up_columns sp)) as [|n]; [done|]. injection Ht as -> _.
  specialize (Hsn _ eq_refl). specialize (Hd _ eq_refl). simpl in Hsn, Hd. by rewrite Hsn, Hd.
Qed.

(** A statement answered late still does what it does, when a prune's snapshot
    shows the rows it is to delete. *)
Lemma effect_at_effect snapshot now s d d' :
  (forall r sr, s = DeleteReleaseMedia r sr -> same_cell (OnEdges r sr) snapshot d) ->
  (forall t b l, s = DeleteStale t b -> in_table t l -> stale_cell b d l -> stale_cell b snapshot l) ->
  effect_at snapshot now s d = Ok d' -> exists d2, effect now s d = Ok d2 /\ d2 ≡ d'.
Proof.
  intros Hf Hst He. destruct s; try by exists d'.
  - simpl in He. pose proof He as (u & new & _ & Hall)%upsert_entity_at_inv.
    destruct (Hall snapshot d) as (x & Hx & Heq). rewrite He in Hx. injection Hx as <-.
    destruct (Hall d d) as (d2 & Hd2 & Heq2). exists d2. split; [done|]. by rewrite Heq, Heq2.
  - injection He as <-. eexists. split; [done|]. specialize (Hf _ _ eq_refl). simpl in Hf.
    intros c. elsewhere c. simpl. intros m. rewrite !map_lookup_filter. simpl.
    destruct (issued_on d !! _) as [q|] eqn:E; simpl; [|done]. repeat case_guard; try done; exfalso; [naive_solver|].
    match goal with Hm : _ /\ _, Hn : ~ _ |- _ => destruct Hm as [-> ->]; apply Hn; split; [rewrite Hf; by eexists|done] end.
  - injection He as <-. simpl. destruct (resolve_aliases _ _). eexists. split; [done|]. intros c. by elsewhere c.
  - injection He as <-. simpl. destruct (attach_aliases _ _). eexists. split; [done|]. intros c. by elsewhere c.
  - injection He as <-. eexists. split; [done|]. assert (forall l, in_table t l -> stale_cell boundary d l -> stale_cell boundary snapshot l) as Hs by eauto. clear Hst. intros c.
    destruct t, c as [| | | | |k|k]; simpl; try done; try (by match goal with t : entity_table |- _ => destruct t end);
      rewrite !map_lookup_filter; [specialize (Hs (OnRelationship k) I)|specialize (Hs (OnLink k) I)]; simpl in Hs.
    + destruct (relationships d !! k) as [x|] eqn:E; simpl; [|done]. repeat case_guard; try done; exfalso; [tauto|].
      match goal with Hn : ~ (_ /\ _) |- _ => apply Hn; split; [|done] end. apply Hs. exists x. by apply map_lookup_filter_Some.
    + destruct (external_links d !! k) as [x|] eqn:E; simpl; [|done]. repeat case_guard; try done; exfalso; [tauto|].
      match goal with Hn : ~ (_ /\ _) |- _ => apply Hn; split; [|done] end. apply Hs. exists x. by apply map_lookup_filter_Some.
Qed.

(** ** Clients and the server *)

Inductive outcome : Type := Running | Committed | RolledBack.

(** One transaction: its start ([NOW()]), the statements answered and still to
    send, the parts it has written, the edges among them row by row, its versions
    of them, and the snapshot of the statement it waits for. *)
Record client : Type := Client {
  cl_now : Z;
  cl_done : list statement;
  cl_todo : list statement;
  cl_cells : list lock;
  cl_edges : gset (string * string * string);
  cl_db : db;
  cl_snapshot : option db;
  cl_state : outcome;
}.

(** What is committed, the transactions, and those that have committed, in that order. *)
Record server : Type := Server { sv_db : db; sv_clients : list client; sv_log : list nat }.

Definition held (c : client) : list lock := match cl_state c with Running => cl_cells c | _ => [] end.

(** The committed rows under a transaction's own versions. *)
Definition merged (committed : db) (c : client) : db :=
  set_issued_on (filter (fun kq => kq.1 ∈ cl_edges c) (issued_on (cl_db c)) ∪
                 filter (fun kq => kq.1 ∉ cl_edges c) (issued_on committed))
    (overlay (cl_cells c) (cl_db c) committed).

(** What it sees. *)
Definition view (committed : db) (c : client) : db :=
  set_link_events (identity_link_events (cl_db c)) (merged committed c).

(** The edges a statement has changed. *)
Definition changed_edges (d d' : db) : gset (string * string * string) :=
  filter (fun k => issued_on d !! k <> issued_on d' !! k) (dom (issued_on d) ∪ dom (issued_on d')).

(** A key of the shared vocabulary that is committed stays; an insert of it does
    nothing and waits for no one. *)
Definition settled (committed : db) (l : lock) : bool :=
  match l with
  | OnFamily n => bool_decide (n ∈ media_family committed)
  | OnMedium m => bool_decide (is_Some (medium committed !! m))
  | _ => false
  end.

(** The rows a statement locks; a prune of stale rows locks those its snapshot
    shows, here all at once. *)
Definition stale_cells (t : child_table) (b : Z) (d : db) : list lock :=
  match t with
  | Relationships => map (fun kr => OnRelationship kr.1) (map_to_list (stale_relationships b d))
  | ExternalLinks => map (fun kt => OnLink kt.1) (map_to_list (stale_external_links b d))
  end.

Definition taken (committed snapshot : db) (s : statement) : list lock :=
  match s with
  | DeleteStale t b => stale_cells t b snapshot
  | _ => match lock_of s with Some l => if settled committed l then [] else [l] | None => [] end
  end.

(** Rows, keys and advisory locks are waited for. The range of a release's edges
    is not: neither of two transactions sees what the other has inserted, and only
    the release's advisory lock keeps them apart. *)
Definition waited_for (l : lock) : bool := match l with OnEdges _ _ => false | _ => true end.

(** An edge waits for another transaction that is inserting the same key. *)
Definition inserting (s : statement) (c : client) : bool :=
  match s, cl_state c with
  | InsertReleaseMedia r m sr _, Running =>
      existsb (fun s' => match s' with InsertReleaseMedia r' m' sr' _ => bool_decide ((r, m, sr) = (r', m', sr')) | _ => false end)
        (cl_done c)
  | _, _ => false
  end.

Definition granted (sv : server) (i : nat) (snapshot : db) (s : statement) : bool :=
  let others := delete i (sv_clients sv) in
  forallb (fun l => negb (waited_for l) || bool_decide (Forall (fun c => l ∉ held c) others)) (taken (sv_db sv) snapshot s) &&
  forallb (fun c => negb (inserting s c)) others.

Definition set_client (i : nat) (c : client) (sv : server) : server :=
  Server (sv_db sv) (<[i := c]> (sv_clients sv)) (sv_log sv).

Definition ends (o : outcome) (c : client) : client :=
  Client (cl_now c) (cl_done c) (cl_todo c) (cl_cells c) (cl_edges c) (cl_db c) None o.

Inductive event : Type := Sends (i : nat) | Answers (i : nat) | Fails (i : nat).

(** The next statement of [i] is sent, and takes its snapshot. *)
Definition send (i : nat) (sv : server) : server :=
  match sv_clients sv !! i with
  | Some (Client now done (s :: todo) cells edges d None Running as c) =>
      set_client i (Client now done (s :: todo) cells edges d (Some (view (sv_db sv) c)) Running) sv
  | _ => sv
  end.

(** It is answered, unless it has to wait; an error rolls the transaction back.
    With no statement left, the commit is answered. *)
Definition answer (i : nat) (sv : server) : server :=
  match sv_clients sv !! i with
  | Some (Client now done (s :: todo) cells edges d (Some snapshot) Running as c) =>
      if granted sv i snapshot s then
        let seen := view (sv_db sv) c in
        match effect_at snapshot now s seen with
        | Ok d' =>
            set_client i (Client now (done ++ [s]) todo (cells ++ taken (sv_db sv) snapshot s) (edges ∪ changed_edges seen d') d' None Running) sv
        | Raise _ => set_client i (ends RolledBack c) sv
        end
      else sv
  | Some (Client now done [] cells edges d snapshot Running as c) =>
      Server (set_link_events (add_events (identity_link_events d) (identity_link_events (sv_db sv))) (merged (sv_db sv) c))
        (<[i := ends Committed c]> (sv_clients sv)) (sv_log sv ++ [i])
  | _ => sv
  end.

(** The server refuses a statement, breaks a deadlock, or loses the connection. *)
Definition fail (i : nat) (sv : server) : server :=
  match sv_clients sv !! i with
  | Some c => match cl_state c with Running => set_client i (ends RolledBack c) sv | _ => sv end
  | None => sv
  end.

Definition happens (sv : server) (e : event) : server :=
  match e with Sends i => send i sv | Answers i => answer i sv | Fails i => fail i sv end.

Definition run (sv : server) (events : list event) : server := foldl happens sv events.

(** Transactions, each with its start and its statements, about to begin. *)
Definition begin (trs : list (Z * list statement)) (d : db) : server :=
  Server d (map (fun tr => Client tr.1 [] tr.2 [] ∅ empty_db None Running) trs) [].

(** ** One after the other *)

(** Whole transactions, each on what the one before it left. *)
Fixpoint serial (trs : list (Z * list statement)) (d : db) : result exn db :=
  match trs with
  | [] => Ok d
  | (now, tr) :: trs => d1 ← replay now tr d; serial trs d1
  end.

(** The events of a transaction's statements. *)
Fixpoint recorded (now : Z) (tr : list statement) (d : db) : list link_event :=
  match tr with
  | [] => []
  | s :: tr =>
      option_list (event_at d now s d) ++
      match effect now s d with Ok d1 => recorded now tr d1 | Raise _ => [] end
  end.

Definition cells_of (tr : list statement) : list lock := locks lock_of tr.

Lemma stale_cells_spec t b d l : l ∈ stale_cells t b d <-> in_table t l /\ stale_cell b d l.
Proof.
  unfold stale_cells. destruct t; rewrite list_elem_of_fmap; (split;
    [intros ([k x] & -> & Hin%elem_of_map_to_list); simpl; split; [done|by eexists]|]);
    intros [Hin Hs]; destruct l as [| | | | |k|k]; try done; destruct Hs as [x Hx]; exists (k, x); (split; [done|]);
    by apply elem_of_map_to_list.
Qed.

(** What a run of statements leaves alone. *)
Lemma replay_untouched b now tr d d' l :
  Forall (allowed b) tr -> replay now tr d = Ok d' -> l ∉ cells_of tr ->
  (forall t b', DeleteStale t b' ∈ tr -> in_table t l -> ~ stale_cell b' d l) -> same_cell l d' d.
Proof.
  intros HF Hr. revert HF. revert tr d d' Hr. apply (replay_ind now (fun tr d d' => Forall (allowed b) tr -> l ∉ cells_of tr ->
    (forall t b', DeleteStale t b' ∈ tr -> in_table t l -> ~ stale_cell b' d l) -> same_cell l d' d)); [done|].
  intros s tr d d1 d2 He IH [Hs HF]%Forall_cons_1 Hl Hst. change (s :: tr) with ([s] ++ tr) in Hl. unfold cells_of in *.
  rewrite locks_app in Hl. apply not_elem_of_app in Hl as [Hl Hl'].
  assert (same_cell l d1 d) as H1'.
  { eapply effect_untouched; [done..| |].
    - intros Heq. apply Hl. rewrite (locks_one _ _ _ Heq). by left.
    - intros t b' ->. apply Hst. by left. }
  rewrite IH; [done..|]. intros t b' Hin Ht Hsc. apply (Hst t b'); [by right|done|]. by eapply stale_cell_same.
Qed.

(** A run of statements acts alike on databases alike where it acts. *)
Lemma replay_local b now tr d1 d2 e1 :
  Forall (allowed b) tr -> (forall l, l ∈ cells_of tr -> same_cell l d1 d2) -> replay now tr d1 = Ok e1 ->
  recorded now tr d1 = recorded now tr d2 /\
  exists e2, replay now tr d2 = Ok e2 /\ forall l, same_cell l d1 d2 -> same_cell l e1 e2.
Proof.
  revert d1 d2. induction tr as [|s tr IH]; intros d1 d2 HF Hs; simpl.
  - intros [= <-]. split; [done|]. by exists d2.
  - apply Forall_cons_1 in HF as [Hr HF]. destruct (effect now s d1) as [d1'|] eqn:He; [|done]. intros Hrep.
    assert (forall l, lock_of s = Some l -> same_cell l d1 d2) as Hhere.
    { intros l Hl. apply Hs. change (s :: tr) with ([s] ++ tr). unfold cells_of. rewrite locks_app, (locks_one _ _ _ Hl). by left. }
    destruct (effect_local b now s d1 d2 d1' Hr Hhere He) as (d2' & -> & Hsame).
    rewrite (event_local b now s d1 d2 d1 d2 Hr Hhere Hhere).
    destruct (IH d1' d2' HF) as (-> & e2 & He2 & Hsame2); [|done|].
    + intros l Hl. apply Hsame, Hs. change (s :: tr) with ([s] ++ tr). unfold cells_of. rewrite locks_app. apply elem_of_app. by right.
    + split; [done|]. exists e2. split; [done|]. intros l Hl. by apply Hsame2, Hsame.
Qed.

Lemma add_events_app l1 l2 h : add_events (l1 ++ l2) h = add_events l2 (add_events l1 h).
Proof. apply foldl_app. Qed.

Lemma replay_events now tr d d' :
  replay now tr d = Ok d' ->
  identity_link_events d' = add_events (recorded now tr d) (identity_link_events d).
Proof.
  revert d. induction tr as [|s tr IH]; intros d; simpl; [by intros [= <-]|].
  destruct (effect now s d) as [d1|] eqn:He; [|done]. intros Hr. rewrite add_events_app, <- (effect_events _ _ _ _ He). by apply IH.
Qed.
End isolation.
