(* ===== verification/Serializable.v ===== *)
(** * What concurrent record transactions commit

    [Isolation.v] runs transactions statement by statement over shared tables.
    This file shows that the record transactions of [_record_processing.py], and
    the purges of [_reconciliation.py] beside them, commit what they would one after
    the other: each row is locked by the upsert that writes it, a shared vocabulary
    row never changes once committed, a release's edges are read and rewritten
    under its advisory lock, which an earlier statement has taken, and a row a
    record refreshes is no longer one a purge deletes. *)

From S2P Require Import Prelude PyValue Database LinkEvents Persistence Media RecordProcessing ProcessTrace ProcessSpec Locks RecordLocks.
From S2P Require Import ReleaseMedia Reconciliation Isolation.
From stdpp Require Import base gmap strings list option sorting.
From Stdlib Require Import ZArith Lia.

(** ** Histories *)

Lemma insert_link_event_keys e h k :
  k ∈ map idempotence_key (insert_link_event e h) <-> k = idempotence_key e \/ k ∈ map idempotence_key h.
Proof.
  unfold insert_link_event. case_decide; [naive_solver|]. rewrite map_app, elem_of_app. simpl.
  rewrite list_elem_of_singleton. tauto.
Qed.

Lemma add_events_keep l h k : k ∈ map idempotence_key h -> k ∈ map idempotence_key (add_events l h).
Proof. revert h. induction l as [|e l IH]; intros h Hk; [done|]. apply IH, insert_link_event_keys. by right. Qed.

Lemma add_events_keys l h k : k ∈ map idempotence_key l -> k ∈ map idempotence_key (add_events l h).
Proof.
  revert h. induction l as [|e l IH]; intros h; [by intros ?%not_elem_of_nil|]. simpl.
  intros [->|Hk]%elem_of_cons; [|by apply IH]. apply add_events_keep, insert_link_event_keys. by left.
Qed.

(** Events gathered first and added later. *)
Lemma add_events_gather l own h : add_events (add_events l own) h = add_events l (add_events own h).
Proof.
  revert own. induction l as [|e l IH]; intros own; [done|]. simpl. rewrite IH. f_equal. unfold insert_link_event at 1.
  case_decide as Hk.
  - unfold insert_link_event. by rewrite decide_True by (by apply add_events_keys).
  - by rewrite add_events_app.
Qed.

(** ** The transactions of records *)

Section serializable.
Context `{PyRepr} `{Postgres} `{Common}.
Context (hashtextextended : string -> Z).

Abbreviation lock_of := (lock_of hashtextextended).
Abbreviation cells_of := (cells_of hashtextextended).

(** A release's edges are reached under its advisory lock. *)
Definition under_range (held : list lock) (l : lock) : Prop :=
  match l with OnEdges r s => OnRange (hashtextextended (media_lock_key s r)) ∈ held | _ => True end.

Lemma under_range_free held tr :
  (forall st r s, st ∈ tr -> lock_of st <> Some (OnEdges r s)) -> acquires lock_of under_range held tr.
Proof.
  revert held. induction tr as [|st tr IH]; intros held Htr; [done|]. split.
  - destruct (lock_of st) as [l|] eqn:E; [|done]. right. destruct l as [| | | |r s| |]; try done. exfalso. by eapply Htr; [left|].
  - apply IH. intros st' r s Hin. apply Htr. by right.
Qed.

Lemma media_under_range dt record held tr : media_part dt record tr -> acquires lock_of under_range held tr.
Proof.
  unfold media_part. case_decide; [|by intros ->]. intros (media & rows & _ & _ & ->).
  set (rid := py_str _). assert (media_statements rid rows = vocabulary_part rows ++ edges_part rid rows) as ->
    by (unfold media_statements, vocabulary_part, edges_part; by rewrite <- !app_assoc).
  apply acquires_app. split.
  - apply under_range_free. intros st r s. unfold vocabulary_part.
    by intros [(? & -> & _)%list_elem_of_fmap|(? & -> & _)%list_elem_of_fmap]%elem_of_app.
  - unfold edges_part. cbn [app acquires]. split; [by right|]. set (held' := _ ++ locks _ _).
    assert (OnRange (hashtextextended (media_lock_key MEDIA_SOURCE rid)) ∈ held') as Hr by (apply elem_of_app; right; by left).
    split; [by right|]. clearbody held'. generalize (locks lock_of [DeleteReleaseMedia rid MEDIA_SOURCE]). intros k.
    assert (OnRange (hashtextextended (media_lock_key MEDIA_SOURCE rid)) ∈ held' ++ k) as Hr' by (apply elem_of_app; by left).
    revert Hr'. generalize (held' ++ k). clear. induction rows as [|row rows IH]; intros held Hr; [done|]. split; [by right|].
    apply IH, elem_of_app. by left.
Qed.

Lemma upsert_of_record c record columns :
  columns.*1 = up_columns (ec_upsert c) -> (exists rest, columns.*2 = Plain (mbid_of record) :: rest) ->
  of_record (EntityUpsert (ec_upsert c) (upsert_params record columns)).
Proof.
  intros Hcol [rest Hrest] mbid values old rest'. unfold upsert_params.
  assert (length (up_columns (ec_upsert c)) = length columns.*2) as -> by (by rewrite <- Hcol, !length_fmap).
  rewrite take_app_length, drop_app_length, Hrest. by intros [= <- _] [= <- _].
Qed.

Lemma auxiliary_of_record tr : Forall (fun s => is_auxiliary s = true) tr -> Forall of_record tr.
Proof. intros HF. refine (List.Forall_impl _ _ HF). by intros []. Qed.

Lemma identity_unlocked ids st : Forall is_identity ids -> st ∈ ids -> lock_of st = None.
Proof. intros HF Hst. rewrite List.Forall_forall in HF. apply list_elem_of_In, HF in Hst. by destruct st. Qed.

Lemma processed_statements refresh dt c record w w' tr :
  contract_of dt = Some c -> processed refresh dt c record w w' -> trace_of w' = trace_of w ++ tr ->
  Forall of_record tr /\ acquires lock_of under_range [] tr.
Proof.
  intros Hc [(native & columns & rels & links & bf & media & after & Hcol & _ & _ & Hbf & Haf & Hmedia & _ & Htr & _)] Htr'.
  rewrite Htr in Htr'. apply app_inv_head in Htr' as <-.
  destruct (contract_columns dt c record native columns Hc Hcol) as (_ & Hlen & Hrest). split.
  - repeat (apply Forall_app; split).
    + by eapply auxiliary_of_record, before_part_auxiliary.
    + constructor; [by apply upsert_of_record|done].
    + by eapply auxiliary_of_record, media_part_auxiliary.
    + by apply Forall_map_all.
    + by apply Forall_map_all.
    + by apply auxiliary_of_record, identity_auxiliary.
  - rewrite app_assoc. apply acquires_app. split; [|apply acquires_app; split; [by eapply media_under_range|]].
    + apply under_range_free. intros st r s [Hst|Hst%list_elem_of_singleton]%elem_of_app.
      * destruct Hbf as (ids & Hids & ->). apply elem_of_app in Hst as [Hst|Hst].
        -- case_decide; [|by apply not_elem_of_nil in Hst]. by apply list_elem_of_singleton in Hst as ->.
        -- by rewrite (identity_unlocked _ _ Hids Hst).
      * subst. simpl. by destruct (upsert_params record columns).
    + apply under_range_free. intros st r s Hin.
      apply elem_of_app in Hin as [Hin|[Hin|Hin]%elem_of_app].
      * unfold relationship_statements in Hin. apply list_elem_of_fmap in Hin as (ps & -> & _). simpl. by case_match; [case_match|].
      * unfold link_statements in Hin. apply list_elem_of_fmap in Hin as (ps & -> & _). simpl. by repeat case_match.
      * by rewrite (identity_unlocked _ _ Haf Hin).
Qed.

Lemma transaction_statements refresh tr :
  record_transaction refresh tr -> Forall of_record tr /\ acquires lock_of under_range [] tr.
Proof.
  intros (dt & p & record & w & w' & Hp & Hrun & Htr).
  assert (exists c, contract_of dt = Some c) as [c Hc] by (unfold processor_of, contract_of in *; repeat case_decide; simplify_eq; by eexists).
  eapply processed_statements; [exact Hc|eapply processor_run; [exact Hp|exact Hc|exact Hrun]|exact Htr].
Qed.

(** A statement of a record refreshes the child row it writes, no earlier than the
    boundary. *)
Definition refreshing (boundary now : Z) (s : statement) : Prop :=
  match s with
  | RelationshipUpsert refresh _ | ExternalLinkUpsert refresh _ => refresh = true /\ (boundary <= now)%Z
  | _ => True
  end.

Lemma transaction_refreshing boundary now tr :
  record_transaction true tr -> (boundary <= now)%Z -> Forall (refreshing boundary now) tr.
Proof.
  intros (dt & p & record & w & w' & Hp & Hrun & Htr') Hle.
  assert (exists c, contract_of dt = Some c) as [c Hc] by (unfold processor_of, contract_of in *; repeat case_decide; simplify_eq; by eexists).
  destruct (processor_run true dt p c record w tt w' Hp Hc Hrun) as
    [(native & columns & rels & links & bf & media & after & _ & _ & _ & Hbf & Haf & Hmedia & _ & Htr & _)].
  rewrite Htr in Htr'. apply app_inv_head in Htr' as <-.
  assert (forall l, Forall (fun s => is_auxiliary s = true) l -> Forall (refreshing boundary now) l) as Hall
    by (intros l HF; refine (List.Forall_impl _ _ HF); by intros []).
  repeat (apply Forall_app; split).
  - by eapply Hall, before_part_auxiliary.
  - by constructor.
  - by eapply Hall, media_part_auxiliary.
  - by apply Forall_map_all.
  - by apply Forall_map_all.
  - by apply Hall, identity_auxiliary.
Qed.

(** ** The transaction of a purge *)

(** The statements of a purge's transaction, from begin to commit. *)
Definition purge_transaction (boundary : Z) (tr : list statement) : Prop :=
  exists cfg l se se', purge_tables cfg (tables cfg) boundary se = (Ok l, se') /\ s_trace se' = s_trace se ++ tr.

Lemma fetch_count_trace s answer se n se' :
  fetch_count s answer se = (Ok n, se') -> s_trace se' = s_trace se ++ [s].
Proof.
  unfold fetch_count. intros Hrun. run_inv.
  match goal with Hx : execute _ _ = (Ok ?u, _) |- _ => destruct u; apply execute_ok in Hx as (_ & _ & _ & Htr) end. by simplify_eq/=.
Qed.

Lemma purge_table_trace cfg t b se n se' :
  purge_table cfg t b se = (Ok n, se') -> exists tr, s_trace se' = s_trace se ++ tr /\ Forall (of_purge b) tr.
Proof.
  unfold purge_table. intros Hrun. apply comp_bind_ok in Hrun as (total & se1 & R1%fetch_count_trace & Hrun).
  assert (s_trace se1 = s_trace se ++ [CountAll t] /\ Forall (of_purge b) [CountAll t]) as [E1 F1] by (split; [done|by constructor]).
  destruct (total =? 0)%Z; [injection Hrun as <- <-; by eexists|].
  apply comp_bind_ok in Hrun as (stale & se2 & R2%fetch_count_trace & Hrun).
  assert (s_trace se2 = s_trace se ++ [CountAll t; CountStale t b]) as E2 by (by rewrite R2, E1, <- app_assoc).
  assert (Forall (of_purge b) [CountAll t; CountStale t b]) as F2 by (by repeat constructor).
  destruct (stale =? 0)%Z; [injection Hrun as <- <-; by eexists|].
  destruct (reaches_cap cfg _ _); [injection Hrun as <- <-; by eexists|].
  apply fetch_count_trace in Hrun. exists [CountAll t; CountStale t b; DeleteStale t b].
  rewrite Hrun, E2, <- app_assoc. split; [done|by repeat constructor].
Qed.

Lemma purge_tables_trace cfg ts b se l se' :
  purge_tables cfg ts b se = (Ok l, se') -> exists tr, s_trace se' = s_trace se ++ tr /\ Forall (of_purge b) tr.
Proof.
  revert l se se'. induction ts as [|t ts IH]; intros l se se'; simpl.
  - intros [= <- <-]. exists []. by rewrite app_nil_r.
  - intros Hrun. apply comp_bind_ok in Hrun as (n & se1 & (tr & E & F)%purge_table_trace & Hrun).
    apply comp_bind_ok in Hrun as (rest & se2 & (tr' & E' & F')%IH & [= <- <-]).
    exists (tr ++ tr'). rewrite E', E, app_assoc. split; [done|by apply Forall_app].
Qed.

Lemma purge_statements boundary tr :
  purge_transaction boundary tr -> Forall (of_purge boundary) tr /\ acquires lock_of under_range [] tr.
Proof.
  intros (cfg & l & se & se' & (tr' & E & HF)%purge_tables_trace & Htr). rewrite E in Htr. apply app_inv_head in Htr as ->.
  split; [done|]. apply under_range_free. intros st r s Hin%list_elem_of_In Hl. rewrite List.Forall_forall in HF. apply HF in Hin. by destruct st.
Qed.

(** ** Tables that agree *)

Lemma settled_same l d d' : same_cell l d d' -> settled d l = settled d' l.
Proof. destruct l; simpl; intros Hs; try done; apply bool_decide_ext; [done|by rewrite Hs]. Qed.

Lemma overlay_same l cells src d d' : same_cell l d d' -> same_cell l (overlay cells src d) (overlay cells src d').
Proof.
  intros Hs. destruct (decide (l ∈ cells)) as [Hl|Hl].
  - by rewrite (overlay_in cells src d l Hl), (overlay_in cells src d' l Hl).
  - by rewrite (overlay_out cells src d l Hl), (overlay_out cells src d' l Hl).
Qed.

(** A transaction's versions of a range are all of it, when those it has not
    changed are as committed. *)
Lemma merged_equiv committed c :
  (forall r s m, (r, m, s) ∈ cl_edges c -> OnEdges r s ∈ cl_cells c) ->
  (forall r s m, OnEdges r s ∈ cl_cells c -> (r, m, s) ∉ cl_edges c ->
     issued_on committed !! (r, m, s) = issued_on (cl_db c) !! (r, m, s)) ->
  merged committed c ≡ overlay (cl_cells c) (cl_db c) committed.
Proof.
  intros Hin Hout l. destruct l as [| | | |r s| |]; try done; try (by destruct t). intros m. simpl.
  rewrite lookup_union, !map_lookup_filter. simpl. destruct (decide ((r, m, s) ∈ cl_edges c)) as [Hk|Hk].
  - rewrite (overlay_in _ (cl_db c) committed (OnEdges r s) (Hin r s m Hk) m).
    destruct (issued_on (cl_db c) !! _), (issued_on committed !! _); simpl; repeat case_guard; try done; exfalso; naive_solver.
  - transitivity (issued_on committed !! (r, m, s)).
    + destruct (issued_on (cl_db c) !! _), (issued_on committed !! _); simpl; repeat case_guard; try done; exfalso; naive_solver.
    + destruct (decide (OnEdges r s ∈ cl_cells c)) as [Hl|Hl].
      * rewrite (overlay_in _ (cl_db c) committed (OnEdges r s) Hl m). by apply Hout.
      * by rewrite (overlay_out _ (cl_db c) committed (OnEdges r s) Hl m).
Qed.

Lemma changed_edges_spec d d' k : k ∈ changed_edges d d' <-> issued_on d !! k <> issued_on d' !! k.
Proof.
  unfold changed_edges. rewrite elem_of_filter, elem_of_union, !elem_of_dom.
  split; [by intros [Hne _]|]. intros Hne. split; [done|].
  destruct (issued_on d !! k); [by left; eexists|]. destruct (issued_on d' !! k); [by right; eexists|done].
Qed.

Lemma recorded_app now tr1 tr2 d d1 :
  replay now tr1 d = Ok d1 -> recorded now (tr1 ++ tr2) d = recorded now tr1 d ++ recorded now tr2 d1.
Proof.
  revert d. induction tr1 as [|s tr1 IH]; intros d; simpl; [by intros [= <-]|].
  destruct (effect now s d) as [d'|]; [|done]. intros Hr. by rewrite (IH d' Hr), app_assoc.
Qed.

Lemma serial_app l1 l2 d : serial (l1 ++ l2) d = (d1 ← serial l1 d; serial l2 d1).
Proof.
  revert d. induction l1 as [|[now tr] l1 IH]; intros d; [done|]. simpl. unfold mbind, result_bind in *.
  destruct (replay now tr d); [apply IH|done].
Qed.

(** ** What every state of the server keeps *)

Context (boundary : Z) (trs : list (Z * list statement)) (d0 : db).
Hypothesis trs_allowed : Forall (fun tr => Forall (allowed boundary) tr.2 /\ acquires lock_of under_range [] tr.2) trs.

(** Some transaction prunes stale rows. *)
Definition pruning : Prop := exists i tr t b, trs !! i = Some tr /\ DeleteStale t b ∈ tr.2.

Hypothesis trs_refresh : pruning -> Forall (fun tr => Forall (refreshing boundary tr.1) tr.2) trs.

(** No entity is written by two of the transactions. *)
Definition one_each : Prop := forall i j a b t u,
  trs !! i = Some a -> trs !! j = Some b -> OnEntity t u ∈ cells_of a.2 -> OnEntity t u ∈ cells_of b.2 -> i = j.

(** The parts a statement finds as its snapshot has them. *)
Definition steady (l : lock) : Prop :=
  match l with OnEdges _ _ => True | OnEntity _ _ => one_each | _ => False end.

(** A running transaction: what it has written is what its statements write, run
    on the tables as they are committed now. *)
Record open_ok (committed : db) (c : client) : Prop := OpenOk {
  oo_cells : forall l, l ∈ cl_cells c -> (l ∈ cells_of (cl_done c) \/ exists t, in_table t l) /\ settled committed l = false;
  oo_done : forall l, l ∈ cells_of (cl_done c) -> l ∈ cl_cells c \/ settled committed l = true;
  oo_replay : exists d, replay (cl_now c) (cl_done c) committed = Ok d /\ d ≡ overlay (cl_cells c) (cl_db c) committed;
  oo_edges : forall r s m, (r, m, s) ∈ cl_edges c -> OnEdges r s ∈ cl_cells c;
  oo_unchanged : forall r s m, OnEdges r s ∈ cl_cells c -> (r, m, s) ∉ cl_edges c ->
    issued_on committed !! (r, m, s) = issued_on (cl_db c) !! (r, m, s);
  oo_events : one_each -> identity_link_events (cl_db c) = add_events (recorded (cl_now c) (cl_done c) committed) [];
  oo_snapshot : forall snapshot s todo l, cl_snapshot c = Some snapshot -> cl_todo c = s :: todo ->
    lock_of s = Some l -> steady l -> same_cell l snapshot (overlay (cl_cells c) (cl_db c) committed);
  oo_pruned : forall t b l, DeleteStale t b ∈ cl_done c -> in_table t l -> l ∉ cl_cells c -> ~ stale_cell b committed l;
  oo_fresh : forall l, pruning -> l ∈ cl_cells c -> ~ stale_cell boundary (cl_db c) l;
  oo_stale : forall snapshot t b todo l, cl_snapshot c = Some snapshot -> cl_todo c = DeleteStale t b :: todo ->
    in_table t l -> stale_cell b (overlay (cl_cells c) (cl_db c) committed) l -> stale_cell b snapshot l;
}.

Lemma view_equiv committed c : open_ok committed c -> view committed c ≡ overlay (cl_cells c) (cl_db c) committed.
Proof. intros Ho. unfold view. rewrite set_link_events_equiv. apply merged_equiv; [apply (oo_edges _ _ Ho)|apply (oo_unchanged _ _ Ho)]. Qed.

Record clients_ok (cls : list client) : Prop := ClientsOk {
  cs_sends : forall i c, cls !! i = Some c -> trs !! i = Some (cl_now c, cl_done c ++ cl_todo c);
  cs_apart : forall i j c c' l, cls !! i = Some c -> cls !! j = Some c' -> l ∈ held c -> l ∈ held c' -> i = j;
}.

Record server_ok (sv : server) : Prop := ServerOk {
  so_clients : clients_ok (sv_clients sv);
  so_open : forall i c, sv_clients sv !! i = Some c -> cl_state c = Running -> open_ok (sv_db sv) c;
  so_log : NoDup (sv_log sv) /\ forall i, i ∈ sv_log sv <-> exists c, sv_clients sv !! i = Some c /\ cl_state c = Committed;
  so_serial : exists d, serial (omap (fun i => trs !! i) (sv_log sv)) d0 = Ok d /\ d ≡ sv_db sv /\
    (one_each -> identity_link_events d = identity_link_events (sv_db sv));
}.

Lemma client_statements cls i c :
  clients_ok cls -> cls !! i = Some c ->
  Forall (allowed boundary) (cl_done c ++ cl_todo c) /\ acquires lock_of under_range [] (cl_done c ++ cl_todo c).
Proof.
  intros Hok Hi. apply (cs_sends _ Hok) in Hi. rewrite List.Forall_forall in trs_allowed.
  apply list_elem_of_lookup_2, list_elem_of_In, trs_allowed in Hi. exact Hi.
Qed.

(** A transaction that prunes does so at the boundary, and the others refresh. *)
Lemma client_prunes cls i c t b :
  clients_ok cls -> cls !! i = Some c -> DeleteStale t b ∈ cl_done c ++ cl_todo c -> pruning /\ b = boundary.
Proof.
  intros Hok Hi Hin. split; [by exists i, (cl_now c, cl_done c ++ cl_todo c), t, b; split; [apply (cs_sends _ Hok)|]|].
  destruct (client_statements _ _ _ Hok Hi) as [HF _]. rewrite List.Forall_forall in HF.
  apply list_elem_of_In, HF in Hin as [[]|Hp]. exact Hp.
Qed.

Lemma client_refreshes cls i c s :
  clients_ok cls -> cls !! i = Some c -> s ∈ cl_done c ++ cl_todo c -> pruning -> refreshing boundary (cl_now c) s.
Proof.
  intros Hok Hi Hin Hp. apply (cs_sends _ Hok) in Hi. pose proof (trs_refresh Hp) as HF. rewrite List.Forall_forall in HF.
  apply list_elem_of_lookup_2, list_elem_of_In, HF in Hi. simpl in Hi. rewrite List.Forall_forall in Hi. by apply Hi, list_elem_of_In.
Qed.

(** Edges taken or about to be are under a range held. *)
Lemma range_held cls i c d r s :
  clients_ok cls -> cls !! i = Some c -> open_ok d c ->
  OnEdges r s ∈ cells_of (cl_done c) \/ (exists st todo, cl_todo c = st :: todo /\ lock_of st = Some (OnEdges r s)) ->
  OnRange (hashtextextended (media_lock_key s r)) ∈ cl_cells c.
Proof.
  intros Hok Hi Ho Hl. destruct (client_statements _ _ _ Hok Hi) as [_ Hg]. apply acquires_app in Hg as [Hdone Htodo].
  assert (forall tr held, (OnEdges r s ∈ held -> OnRange (hashtextextended (media_lock_key s r)) ∈ held) ->
    acquires lock_of under_range held tr -> OnEdges r s ∈ held ++ cells_of tr ->
    OnRange (hashtextextended (media_lock_key s r)) ∈ held ++ cells_of tr) as Hkept.
  { clear. induction tr as [|st tr IH]; intros held Hh Ha Hin.
    - change (cells_of []) with (@nil lock) in *. rewrite app_nil_r in *. by apply Hh.
    - destruct Ha as [Hst Ha]. change (st :: tr) with ([st] ++ tr) in *. unfold Isolation.cells_of in *. rewrite locks_app, app_assoc in *.
      apply IH; [|done|done]. intros [Hin'|Hin']%elem_of_app; apply elem_of_app; left; [by apply Hh|].
      unfold locks in Hin'. simpl in Hin'. destruct (lock_of st) as [l|]; simpl in Hin'; [|by apply not_elem_of_nil in Hin'].
      apply list_elem_of_singleton in Hin' as <-. destruct Hst as [Hst|Hst]; [by apply Hh|exact Hst]. }
  assert (OnRange (hashtextextended (media_lock_key s r)) ∈ cells_of (cl_done c)) as Hr.
  { specialize (Hkept (cl_done c) []). rewrite app_nil_l in Hkept.
    assert (OnEdges r s ∈ cells_of (cl_done c) -> OnRange (hashtextextended (media_lock_key s r)) ∈ cells_of (cl_done c)) as Hk
      by (apply Hkept; [by intros ?%not_elem_of_nil|done]).
    destruct Hl as [Hl|(st & todo & Ht & Hst)]; [by apply Hk|]. rewrite Ht in Htodo. destruct Htodo as [Htodo _].
    rewrite Hst in Htodo. rewrite app_nil_l in Htodo. destruct Htodo as [Hin|Hin]; [by apply Hk|exact Hin]. }
  by destruct (oo_done _ _ Ho _ Hr).
Qed.

(** No other running transaction writes what a transaction has touched, or finds
    as its snapshot has it. *)
Lemma done_apart sv i j c c' l :
  server_ok sv -> sv_clients sv !! i = Some c -> sv_clients sv !! j = Some c' ->
  cl_state c = Running -> cl_state c' = Running -> i <> j ->
  l ∈ cells_of (cl_done c) \/ l ∈ cl_cells c -> l ∉ cl_cells c'.
Proof.
  intros Hok Hi Hj Hs Hs' Hne Hl Hl'. pose proof (so_open _ Hok _ _ Hi Hs) as Ho. pose proof (so_open _ Hok _ _ Hj Hs') as Ho'.
  assert (l ∈ cl_cells c \/ settled (sv_db sv) l = true) as [Hc|Hsett] by (destruct Hl as [Hl|Hl]; [by apply (oo_done _ _ Ho)|by left]).
  - apply Hne. apply (cs_apart _ (so_clients _ Hok) i j c c' l Hi Hj); unfold held; by rewrite ?Hs, ?Hs'.
  - destruct (oo_cells _ _ Ho' l Hl') as [_ Hf]. congruence.
Qed.

Lemma next_apart sv i j c c' s todo l :
  server_ok sv -> sv_clients sv !! i = Some c -> sv_clients sv !! j = Some c' ->
  cl_state c = Running -> cl_state c' = Running -> i <> j ->
  cl_todo c = s :: todo -> lock_of s = Some l -> steady l -> l ∉ cl_cells c'.
Proof.
  intros Hok Hi Hj Hs Hs' Hne Ht Hl Hst Hl'. pose proof (so_open _ Hok _ _ Hi Hs) as Ho. pose proof (so_open _ Hok _ _ Hj Hs') as Ho'.
  pose proof (oo_cells _ _ Ho' l Hl') as [Hd' _]. destruct l as [|t u| | |r sr| |]; try done;
    (destruct Hd' as [Hd'|[t' Ht']]; [|by destruct t']).
  - apply Hne, (Hst i j _ _ t u (cs_sends _ (so_clients _ Hok) _ _ Hi) (cs_sends _ (so_clients _ Hok) _ _ Hj)); simpl.
    + rewrite Ht. unfold Isolation.cells_of. rewrite locks_app. apply elem_of_app. right. change (s :: todo) with ([s] ++ todo).
      rewrite locks_app, (locks_one _ _ _ Hl). by left.
    + unfold Isolation.cells_of in *. rewrite locks_app. apply elem_of_app. by left.
  - apply Hne, (cs_apart _ (so_clients _ Hok) i j c c' (OnRange (hashtextextended (media_lock_key sr r))) Hi Hj); unfold held; rewrite ?Hs, ?Hs'.
    + apply (range_held _ _ _ _ r sr (so_clients _ Hok) Hi Ho). right. eauto.
    + apply (range_held _ _ _ _ r sr (so_clients _ Hok) Hj Ho'). by left.
Qed.

(** One client moves, and what is committed stays. *)
Lemma set_client_ok sv i c c' :
  server_ok sv -> sv_clients sv !! i = Some c -> cl_state c = Running -> cl_state c' <> Committed ->
  (cl_now c', cl_done c' ++ cl_todo c') = (cl_now c, cl_done c ++ cl_todo c) ->
  (cl_state c' = Running -> open_ok (sv_db sv) c') ->
  (forall l, l ∈ held c' -> l ∈ held c \/ forall j v, j <> i -> sv_clients sv !! j = Some v -> l ∉ held v) ->
  server_ok (set_client i c' sv).
Proof.
  intros [[Hsend Hap] Hopen [Hnd Hlog] Hser] Hi Hrun Hnc Heq Ho Hh.
  assert (i < length (sv_clients sv)) as Hlt by (by eapply lookup_lt_Some). split; simpl.
  - split.
    + intros k v [(-> & -> & _)|[_ Hk]]%list_lookup_insert_Some; [rewrite Heq|]; by apply Hsend.
    + assert (forall k v l, k <> i -> sv_clients sv !! k = Some v -> l ∈ held c' -> l ∈ held v -> False) as Hno.
      { intros k v l Hne Hk Hl Hv. destruct (Hh l Hl) as [Hc|Hf]; [|by eapply Hf]. by apply Hne, (Hap k i v c l). }
      intros j k v w l [(-> & -> & _)|[Hj Hv]]%list_lookup_insert_Some [(-> & -> & _)|[Hk Hw]]%list_lookup_insert_Some Hlv Hlw;
        [done|exfalso; by eapply Hno..|by eapply Hap].
  - intros k v [(-> & -> & _)|[_ Hk]]%list_lookup_insert_Some; [done|by eapply Hopen].
  - split; [done|]. intros k. rewrite Hlog. split; intros (v & Hv & Hst).
    + exists v. split; [|done]. rewrite list_lookup_insert_ne; [done|]. intros ->. congruence.
    + apply list_lookup_insert_Some in Hv as [(-> & -> & _)|[_ Hk]]; [done|]. by exists v.
  - exact Hser.
Qed.

Lemma ends_ok sv i c :
  server_ok sv -> sv_clients sv !! i = Some c -> cl_state c = Running -> server_ok (set_client i (ends RolledBack c) sv).
Proof. intros Hok Hi Hs. eapply set_client_ok; [done..|]. by intros l ?%not_elem_of_nil. Qed.

Lemma send_ok sv i : server_ok sv -> server_ok (send i sv).
Proof.
  intros Hok. unfold send. destruct (sv_clients sv !! i) as [[now done [|s todo] cells edges d [sn|] []]|] eqn:Hi; try exact Hok.
  eapply set_client_ok; [done..| |by left]. intros _. pose proof (so_open _ Hok _ _ Hi eq_refl) as Ho.
  pose proof Ho as [H1' H2' H3' H4' H5' H6' _ H7' H8' _]. split; try done.
  - intros snapshot s' todo' l [= <-] _ _ _. exact (view_equiv _ _ Ho l).
  - intros snapshot t b todo' l [= <-] _ _. apply stale_cell_same. symmetry. exact (view_equiv _ _ Ho l).
Qed.

(** ** A statement is answered *)

Lemma settled_effect now s d d' l :
  lock_of s = Some l -> settled d l = true -> effect now s d = Ok d' -> same_cell l d' d.
Proof.
  intros Hl Hs He. destruct s; simpl in Hl; try done; try (repeat (case_match; try done); by simplify_eq).
  - injection Hl as <-. injection He as <-. apply bool_decide_eq_true in Hs. simpl. set_solver.
  - injection Hl as <-. apply bool_decide_eq_true in Hs as [x Hx]. simpl in He. rewrite Hx in He. by injection He as <-.
Qed.

Lemma prunes_or_not s : (exists t b, s = DeleteStale t b) \/ forall t b, s <> DeleteStale t b.
Proof. destruct s; try (right; done). left. by do 2 eexists. Qed.

Lemma taken_spec committed snapshot s l :
  l ∈ taken hashtextextended committed snapshot s ->
  (lock_of s = Some l \/ exists t b, s = DeleteStale t b /\ in_table t l) /\ settled committed l = false.
Proof.
  intros Hl. destruct (prunes_or_not s) as [(t & b & ->)|Hs].
  - apply stale_cells_spec in Hl as [Hin _]. split; [right; by exists t, b|]. by destruct t, l.
  - assert (l ∈ match lock_of s with Some l => if settled committed l then [] else [l] | None => [] end) as Hl'
      by (destruct s; try exact Hl; by destruct (Hs _ _ eq_refl)).
    destruct (lock_of s) as [l'|]; [|by apply not_elem_of_nil in Hl'].
    destruct (settled committed l') eqn:E; [by apply not_elem_of_nil in Hl'|]. apply list_elem_of_singleton in Hl' as ->. by split; [left|].
Qed.

Lemma taken_lock committed snapshot s l :
  lock_of s = Some l -> l ∈ taken hashtextextended committed snapshot s \/ settled committed l = true.
Proof.
  intros Hl. assert (taken hashtextextended committed snapshot s = if settled committed l then [] else [l]) as ->
    by (unfold taken; rewrite Hl; by destruct s). destruct (settled committed l); [by right|left]. by left.
Qed.

(** A statement's result is what its transaction's view becomes. *)
Lemma effect_view now s committed snapshot cells src v d2 :
  allowed boundary s -> v ≡ overlay cells src committed -> effect now s v = Ok d2 ->
  (forall t b l, s = DeleteStale t b -> in_table t l -> stale_cell b v l -> stale_cell b snapshot l) ->
  d2 ≡ overlay (cells ++ taken hashtextextended committed snapshot s) d2 committed.
Proof.
  intros Hr Hv He Hst l. set (k := taken _ committed snapshot s). destruct (decide (l ∈ cells ++ k)) as [Hl|Hl].
  - symmetry. by apply overlay_in.
  - rewrite (overlay_out _ _ _ _ Hl). apply not_elem_of_app in Hl as [Hc Hk].
    assert (same_cell l v committed) as Hvc by (rewrite (Hv l); by apply overlay_out). rewrite <- Hvc.
    destruct (decide (lock_of s = Some l)) as [Hs|Hs].
    + eapply settled_effect; [done| |done]. rewrite (settled_same l v committed Hvc).
      by destruct (taken_lock committed snapshot s l Hs).
    + eapply effect_untouched; [done..|]. intros t b -> Hin Hsc. apply Hk, stale_cells_spec. split; [done|]. by eapply Hst.
Qed.

(** A refreshed row is not stale. *)
Lemma refresh_fresh now s d d' l :
  effect now s d = Ok d' -> lock_of s = Some l -> refreshing boundary now s -> ~ stale_cell boundary d' l.
Proof.
  intros He Hl Hr. destruct s; simpl in Hl; try done; try (injection Hl as <-; by intros []).
  - destruct params; [done|]. injection Hl as <-. by intros [].
  - simpl in He, Hr. unfold upsert_relationship in He. destruct (rel_key_of_params params) as [[k v]|]; [|done].
    injection Hl as <-. injection He as <-. destruct Hr as [-> Hle]. intros [x Hx]. apply map_lookup_filter_Some in Hx as [Hx Hlt].
    simpl in Hx. rewrite lookup_insert_eq in Hx. injection Hx as <-. destruct (relationships d !! _); simpl in Hlt; lia.
  - simpl in He, Hr. unfold upsert_external_link in He. destruct params as [|p0 [|p1 [|p2 [|p3 [|]]]]]; try done.
    injection Hl as <-. injection He as <-. destruct Hr as [-> Hle]. intros [x Hx]. apply map_lookup_filter_Some in Hx as [Hx Hlt].
    simpl in Hx. rewrite lookup_insert_eq in Hx. injection Hx as <-. simpl in Hlt. destruct (external_links d !! _); lia.
Qed.

Lemma overlay_result cells d d' committed : d ≡ d' -> overlay cells d committed ≡ overlay cells d' committed.
Proof.
  intros Hd l. destruct (decide (l ∈ cells)) as [Hl|Hl].
  - rewrite !(overlay_in _ _ _ _ Hl). apply Hd.
  - by rewrite !(overlay_out _ _ _ _ Hl).
Qed.

Lemma event_unraced now s snapshot v d1 :
  allowed boundary s -> v ≡ d1 -> (forall t u, lock_of s = Some (OnEntity t u) -> same_cell (OnEntity t u) snapshot v) ->
  event_at snapshot now s v = event_at d1 now s d1.
Proof.
  intros Hr Hv Hsn. destruct s as [sp ps| | | | | | | | | | | |]; try done. apply (event_local hashtextextended boundary); [done| |].
  - intros l Hl. rewrite <- Hv. simpl in Hl. destruct ps as [|p ps]; [done|]. injection Hl as <-. by apply Hsn.
  - intros l _. apply Hv.
Qed.

(** The running transaction about to have [s] answered. *)
Section answered.
Context (committed : db) (now : Z) (done : list statement) (s : statement) (todo : list statement)
  (cells : list lock)
  (edges : gset (string * string * string)) (d snapshot d' : db).
Abbreviation c := (Client now done (s :: todo) cells edges d (Some snapshot) Running).
Hypothesis open : open_ok committed c.
Hypothesis statements : Forall (allowed boundary) (done ++ s :: todo).
Hypothesis refreshes : pruning -> refreshing boundary now s.
Hypothesis answers : effect_at snapshot now s (view committed c) = Ok d'.

Lemma statement_allowed : allowed boundary s.
Proof. apply Forall_app in statements as [_ HF]. by inversion HF. Qed.

Lemma answered_stale t b l : s = DeleteStale t b -> in_table t l -> stale_cell b (view committed c) l -> stale_cell b snapshot l.
Proof.
  intros Hs Hin Hst. apply (oo_stale _ _ open snapshot t b todo l); [done|by rewrite <- Hs|done|].
  by apply (stale_cell_same _ _ _ _ (view_equiv committed c open l)).
Qed.

Lemma answered_effect : exists d2, effect now s (view committed c) = Ok d2 /\ d2 ≡ d'.
Proof.
  apply (effect_at_effect hashtextextended snapshot); [|exact answered_stale|done].
  intros r sr Hs. rewrite (view_equiv committed c open (OnEdges r sr)).
  apply (oo_snapshot _ _ open snapshot s todo); [done|done|by rewrite Hs|done].
Qed.

Lemma answered_replay :
  exists d1, replay now (done ++ [s]) committed = Ok d1 /\ d1 ≡ overlay (cells ++ taken hashtextextended committed snapshot s) d' committed.
Proof.
  destruct (oo_replay _ _ open) as (d1 & Hr1 & Heq1). simpl in Hr1, Heq1.
  pose proof (view_equiv committed c open) as Hv. simpl in Hv. set (v := view _ _) in *.
  destruct answered_effect as (d2 & He2 & Heq2). fold v in He2.
  assert (v ≡ d1) as Hvd by (by rewrite Hv, Heq1).
  destruct (effect_local hashtextextended boundary now s v d1 d2 statement_allowed) as (d3 & He3 & Heq3); [by intros l _; apply Hvd|done|].
  exists d3. rewrite replay_app, Hr1. simpl. rewrite He3. split; [done|].
  rewrite <- (overlay_result _ _ _ _ Heq2), <- (effect_view _ _ _ snapshot _ _ _ _ statement_allowed Hv He2 answered_stale).
  intros l. symmetry. apply Heq3, Hvd.
Qed.

Lemma answered_events :
  one_each -> identity_link_events d' = add_events (recorded now (done ++ [s]) committed) [].
Proof.
  intros Hone. destruct (oo_replay _ _ open) as (d1 & Hr1 & Heq1). simpl in Hr1, Heq1.
  rewrite (effect_at_events _ _ _ _ _ answers). simpl.
  pose proof (oo_events _ _ open Hone) as Hown. simpl in Hown. rewrite Hown, (recorded_app _ _ _ _ _ Hr1). simpl.
  rewrite (event_unraced now s snapshot (view committed c) d1 statement_allowed).
  - destruct (effect now s d1); by rewrite add_events_app, ?app_nil_r.
  - rewrite Heq1. exact (view_equiv committed c open).
  - intros t u Hl. rewrite (view_equiv committed c open _). by apply (oo_snapshot _ _ open snapshot s todo).
Qed.

(** The edges it has changed are of its range, and the others it has as committed. *)
Lemma answered_edges r sr m :
  (r, m, sr) ∈ edges ∪ changed_edges (view committed c) d' -> OnEdges r sr ∈ cells ++ taken hashtextextended committed snapshot s.
Proof.
  intros [Hk|Hk%changed_edges_spec]%elem_of_union; apply elem_of_app; [left; by apply (oo_edges _ _ open r sr m)|right].
  destruct (decide (lock_of s = Some (OnEdges r sr))) as [Hl|Hl]; [by destruct (taken_lock committed snapshot s _ Hl)|]. exfalso. apply Hk.
  destruct answered_effect as (d2 & He2 & Heq2). symmetry. rewrite <- (Heq2 (OnEdges r sr) m).
  refine (effect_untouched hashtextextended boundary now s _ d2 (OnEdges r sr) statement_allowed He2 Hl _ m). by intros [].
Qed.

Lemma answered_unchanged r sr m :
  (r, m, sr) ∉ edges ∪ changed_edges (view committed c) d' -> issued_on committed !! (r, m, sr) = issued_on d' !! (r, m, sr).
Proof.
  rewrite not_elem_of_union, changed_edges_spec. intros [Hk Heq%dec_stable]. rewrite <- Heq. simpl.
  rewrite lookup_union, !map_lookup_filter. simpl.
  destruct (issued_on d !! _), (issued_on committed !! _); simpl; repeat case_guard; done.
Qed.

(** What it has written is not stale. *)
Lemma answered_fresh l : pruning -> l ∈ cells ++ taken hashtextextended committed snapshot s -> ~ stale_cell boundary d' l.
Proof.
  intros Hp Hl Hst. destruct answered_effect as (d2 & He2 & Heq2).
  apply (stale_cell_same _ _ _ _ (symmetry (Heq2 l))) in Hst.
  assert (l ∈ cells -> same_cell l d2 (view committed c) -> False) as Hold.
  { intros Hc Hs. apply (oo_fresh _ _ open l Hp Hc). refine (stale_cell_same _ _ _ _ _ Hst).
    rewrite Hs, (view_equiv committed c open l). by apply overlay_in. }
  destruct (decide (lock_of s = Some l)) as [Hlock|Hlock]; [by apply (refresh_fresh now s _ d2 l He2 Hlock (refreshes Hp))|].
  destruct (prunes_or_not s) as [(t & b & Hs)|Hs].
  - assert (b = boundary) as -> by (pose proof statement_allowed as Ha; rewrite Hs in Ha; by destruct Ha).
    rewrite Hs in He2. injection He2 as <-. destruct (delete_stale_spec t boundary (view committed c) l) as [Hsame|[Hin _]];
      [|by apply (delete_stale_none t boundary (view committed c) l Hin)].
    apply elem_of_app in Hl as [Hl|Hl]; [by apply Hold|]. rewrite Hs in Hl. apply stale_cells_spec in Hl as [Hin _].
    by apply (delete_stale_none t boundary (view committed c) l Hin).
  - apply elem_of_app in Hl as [Hl|Hl]; [|by apply taken_spec in Hl as [[|(t & b & Heq & _)] _]; [|by destruct (Hs t b)]].
    apply Hold; [done|]. eapply effect_untouched; [apply statement_allowed|done|done|]. intros t b Heq. by destruct (Hs t b).
Qed.

(** The rows it prunes are those it locks. *)
Lemma answered_pruned t b l :
  DeleteStale t b ∈ done ++ [s] -> in_table t l -> l ∉ cells ++ taken hashtextextended committed snapshot s -> ~ stale_cell b committed l.
Proof.
  intros [Hd|Hd%list_elem_of_singleton]%elem_of_app Hin [Hc Hk]%not_elem_of_app; [by apply (oo_pruned _ _ open t b l)|].
  intros Hst. apply Hk. rewrite <- Hd. apply stale_cells_spec. split; [done|]. apply (answered_stale t b l); [done..|].
  refine (stale_cell_same _ _ _ _ _ Hst). rewrite (view_equiv committed c open l). symmetry. by apply overlay_out.
Qed.

Lemma answered_open :
  open_ok committed (Client now (done ++ [s]) todo (cells ++ taken hashtextextended committed snapshot s)
    (edges ∪ changed_edges (view committed c) d') d' None Running).
Proof.
  assert (Isolation.cells_of hashtextextended (done ++ [s]) = cells_of done ++ cells_of [s]) as Hsplit by apply locks_app.
  split; [| |exact answered_replay|exact answered_edges|intros r sr m _; apply answered_unchanged|exact answered_events|done|
    exact answered_pruned|intros l; exact (answered_fresh l)|done]; destruct open as [Hc Hd _ _ _ _ _ _ _ _]; cbn [cl_cells cl_done] in *.
  - intros l. rewrite Hsplit, !elem_of_app. intros [Hl|Hl]; [destruct (Hc l Hl) as [Hl' ?]; tauto|].
    destruct (taken_spec _ _ _ _ Hl) as [[Hs|(t & b & _ & Hin)] Hsett]; (split; [|done]); [left; right|right; by exists t].
    unfold Isolation.cells_of. rewrite (locks_one _ _ _ Hs). by left.
  - intros l. rewrite Hsplit, !elem_of_app. intros [Hl|Hl]; [destruct (Hd l Hl); tauto|].
    unfold Isolation.cells_of, locks in Hl. simpl in Hl. destruct (lock_of s) as [l'|] eqn:Es; simpl in Hl; [|by apply not_elem_of_nil in Hl].
    apply list_elem_of_singleton in Hl as ->. destruct (taken_lock committed snapshot s l' Es); tauto.
Qed.
End answered.

Lemma granted_free sv i snapshot s l j c :
  granted hashtextextended sv i snapshot s = true -> l ∈ taken hashtextextended (sv_db sv) snapshot s -> waited_for l = true ->
  j <> i -> sv_clients sv !! j = Some c -> l ∉ held c.
Proof.
  unfold granted. intros [Hg _]%andb_prop. rewrite forallb_forall in Hg. intros Hl Hw Hne Hj. apply list_elem_of_In, Hg in Hl. rewrite Hw in Hl. simpl in Hl.
  apply bool_decide_eq_true in Hl. rewrite List.Forall_forall in Hl. apply Hl, list_elem_of_In, list_elem_of_lookup.
  destruct (decide (j < i)).
  - exists j. by rewrite list_lookup_delete_lt.
  - exists (j - 1). rewrite list_lookup_delete_ge by lia. by replace (S (j - 1)) with j by lia.
Qed.

Lemma answered_ok sv i now done s todo cells edges d snapshot d' :
  server_ok sv -> sv_clients sv !! i = Some (Client now done (s :: todo) cells edges d (Some snapshot) Running) ->
  granted hashtextextended sv i snapshot s = true ->
  effect_at snapshot now s (view (sv_db sv) (Client now done (s :: todo) cells edges d (Some snapshot) Running)) = Ok d' ->
  server_ok (set_client i (Client now (done ++ [s]) todo (cells ++ taken hashtextextended (sv_db sv) snapshot s)
    (edges ∪ changed_edges (view (sv_db sv) (Client now done (s :: todo) cells edges d (Some snapshot) Running)) d') d' None Running) sv).
Proof.
  intros Hok Hi Hg He. pose proof (so_open _ Hok _ _ Hi eq_refl) as Ho.
  destruct (client_statements _ _ _ (so_clients _ Hok) Hi) as [Hrec _]. simpl in Hrec.
  eapply set_client_ok; [done..| | |].
  - simpl. by rewrite <- app_assoc.
  - intros _. eapply answered_open; [done..| |done]. intros Hp.
    refine (client_refreshes _ _ _ s (so_clients _ Hok) Hi _ Hp). apply elem_of_app. right. by left.
  - intros l. unfold held at 1. cbn [cl_state cl_cells]. intros [Hl|Hl]%elem_of_app; [by left|right]. intros j v Hne Hj.
    destruct (waited_for l) eqn:Hw; [by eapply granted_free|]. destruct l as [| | | |r sr| |]; try done.
    destruct (taken_spec _ _ _ _ Hl) as [[Hs|(t & b & _ & Hin)] _]; [|by destruct t].
    unfold held. destruct (cl_state v) eqn:Hv; try by apply not_elem_of_nil.
    eapply (next_apart sv i j); [done..| |done|exact Hs|done]. done.
Qed.

(** ** A transaction commits *)

Section committed.
Context (sv : server) (i : nat) (now : Z) (done : list statement) (cells : list lock)
  (edges : gset (string * string * string)) (d : db) (snapshot : option db).
Abbreviation c := (Client now done [] cells edges d snapshot Running).
Hypothesis ok : server_ok sv.
Hypothesis mine : sv_clients sv !! i = Some c.

Let after : db := set_link_events (add_events (identity_link_events d) (identity_link_events (sv_db sv))) (merged (sv_db sv) c).

Lemma after_equiv : after ≡ overlay cells d (sv_db sv).
Proof. unfold after. rewrite set_link_events_equiv, <- (set_link_events_equiv (identity_link_events d)). exact (view_equiv _ _ (so_open _ ok _ _ mine eq_refl)). Qed.

Lemma after_same l : l ∉ cells -> same_cell l (sv_db sv) after.
Proof. intros Hl. rewrite (after_equiv l). symmetry. by apply overlay_out. Qed.

(** Nothing it leaves is stale. *)
Lemma after_fresh l : pruning -> l ∈ cells -> ~ stale_cell boundary after l.
Proof.
  intros Hp Hl Hst. apply (oo_fresh _ _ (so_open _ ok _ _ mine eq_refl) l Hp Hl). refine (stale_cell_same _ _ _ _ _ Hst).
  rewrite (after_equiv l). by apply overlay_in.
Qed.

(** Another transaction, still running. *)
Section other.
Context (j : nat) (v : client).
Hypothesis other : j <> i.
Hypothesis theirs : sv_clients sv !! j = Some v.
Hypothesis runs : cl_state v = Running.

Lemma other_cells l : l ∈ cells_of (cl_done v) \/ l ∈ cl_cells v -> l ∉ cells.
Proof. by apply (done_apart sv j i v c l). Qed.

Lemma other_fresh t b l : DeleteStale t b ∈ cl_done v ++ cl_todo v -> l ∈ cells -> ~ stale_cell b after l.
Proof. intros Hin Hl. destruct (client_prunes _ _ _ _ _ (so_clients _ ok) theirs Hin) as [Hp ->]. by apply after_fresh. Qed.

Lemma other_replay :
  recorded (cl_now v) (cl_done v) after = recorded (cl_now v) (cl_done v) (sv_db sv) /\
  exists e, replay (cl_now v) (cl_done v) after = Ok e /\ e ≡ overlay (cl_cells v) (cl_db v) after.
Proof.
  pose proof (so_open _ ok _ _ theirs runs) as Ho. destruct (oo_replay _ _ Ho) as (e & Hr & Heq).
  destruct (client_statements _ _ _ (so_clients _ ok) theirs) as [[Hrec _]%Forall_app _].
  destruct (replay_local hashtextextended boundary (cl_now v) (cl_done v) (sv_db sv) after e Hrec) as (Hrecd & e2 & Hr2 & Hsame); [|done|].
  { intros l Hl. apply after_same, other_cells. by left. }
  split; [done|]. exists e2. split; [done|]. intros l. destruct (decide (l ∈ cells)) as [Hl|Hl].
  - rewrite overlay_out by (intros Hv; by apply (other_cells l); [right|]).
    eapply replay_untouched; [done..| |].
    + intros Hv. by apply (other_cells l); [left|].
    + intros t b Hin _. apply (other_fresh t b); [|done]. apply elem_of_app. by left.
  - rewrite <- (Hsame l (after_same l Hl)), (Heq l). by apply overlay_same, after_same.
Qed.

Lemma others_open : open_ok after v.
Proof.
  pose proof (so_open _ ok _ _ theirs runs) as [Hc Hd _ Hed Hun Hev Hsn Hpr Hfr Hst].
  split; [| |exact (proj2 other_replay)|exact Hed| | | | |exact Hfr|].
  - intros l Hl. destruct (Hc l Hl) as [Hin Hs]. split; [done|].
    by rewrite <- (settled_same l (sv_db sv) after) by (apply after_same, other_cells; by right).
  - intros l Hl. destruct (Hd l Hl) as [|Hs]; [by left|right].
    by rewrite <- (settled_same l (sv_db sv) after) by (apply after_same, other_cells; by left).
  - intros r s m Hl Hk. rewrite <- (Hun r s m Hl Hk). symmetry.
    assert (OnEdges r s ∉ cells) as Hs by (apply other_cells; by right). exact (after_same _ Hs m).
  - intros Hone. by rewrite (proj1 other_replay), Hev.
  - intros sn s todo l Hsnap Ht Hl Hs. rewrite (Hsn sn s todo l Hsnap Ht Hl Hs). apply overlay_same, after_same.
    by apply (next_apart sv j i v c s todo l).
  - intros t b l Hin Ht Hl Hs. destruct (decide (l ∈ cells)) as [Hk|Hk].
    + apply (other_fresh t b l); [apply elem_of_app; by left|done..].
    + apply (Hpr t b l Hin Ht Hl). refine (stale_cell_same _ _ _ _ _ Hs). symmetry. by apply after_same.
  - intros sn t b todo l Hsnap Ht Hin Hs. destruct (decide (l ∈ cells)) as [Hk|Hk].
    + exfalso. apply (other_fresh t b l); [rewrite Ht; apply elem_of_app; right; by left|done|].
      refine (stale_cell_same _ _ _ _ _ Hs). apply overlay_out. intros Hv. by apply (other_cells l); [right|].
    + apply (Hst sn t b todo l Hsnap Ht Hin). refine (stale_cell_same _ _ _ _ _ Hs). symmetry. by apply overlay_same, after_same.
Qed.
End other.

Lemma committed_serial :
  exists e, serial (omap (fun j => trs !! j) (sv_log sv ++ [i])) d0 = Ok e /\ e ≡ after /\
    (one_each -> identity_link_events e = identity_link_events after).
Proof.
  destruct (so_serial _ ok) as (e & He & Heq & Hev). pose proof (so_open _ ok _ _ mine eq_refl) as [_ _ (e1 & Hr1 & Heq1) _ _ Hown _ _ _ _].
  destruct (client_statements _ _ _ (so_clients _ ok) mine) as [Hrec _]. simpl in *. rewrite app_nil_r in Hrec.
  destruct (replay_local hashtextextended boundary now done (sv_db sv) e e1 Hrec) as (Hrecd & e2 & Hr2 & Hsame); [intros l _; symmetry; apply Heq|done|].
  pose proof (cs_sends _ (so_clients _ ok) _ _ mine) as Htr. simpl in Htr. rewrite app_nil_r in Htr.
  exists e2. rewrite omap_app, serial_app, He. simpl. rewrite Htr. simpl. rewrite Hr2. simpl. split_and!; [done| |].
  - rewrite after_equiv. intros l. rewrite <- (Hsame l) by (symmetry; apply Heq). apply Heq1.
  - intros Hone. rewrite (replay_events _ _ _ _ Hr2), <- Hrecd, (Hev Hone). simpl. rewrite (Hown Hone). by rewrite add_events_gather.
Qed.

Lemma committed_ok : server_ok (Server after (<[i := ends Committed c]> (sv_clients sv)) (sv_log sv ++ [i])).
Proof.
  destruct (so_log _ ok) as [Hnd Hlog]. split; simpl.
  - split.
    + intros j v [(<- & <- & _)|[_ Hj]]%list_lookup_insert_Some; [exact (cs_sends _ (so_clients _ ok) _ _ mine)|by apply (cs_sends _ (so_clients _ ok))].
    + intros j k v w l [(<- & <- & _)|[Hj Hv]]%list_lookup_insert_Some [(<- & <- & _)|[Hk Hw]]%list_lookup_insert_Some Hlv Hlw; try done.
      * by apply not_elem_of_nil in Hlv.
      * by apply not_elem_of_nil in Hlw.
      * by eapply (cs_apart _ (so_clients _ ok)).
  - intros j v [(<- & <- & _)|[Hne Hj]]%list_lookup_insert_Some Hv; [done|]. by apply (others_open j).
  - assert (i ∉ sv_log sv) as Hi by (rewrite Hlog; intros (v & Hv & Hs); rewrite mine in Hv; by simplify_eq). split.
    + apply NoDup_app. split_and!; [done| |apply NoDup_singleton]. intros j Hj ->%list_elem_of_singleton. done.
    + intros j. rewrite elem_of_app, list_elem_of_singleton, Hlog. split.
      * intros [(v & Hv & Hs)| ->].
        -- exists v. split; [|done]. rewrite list_lookup_insert_ne; [done|]. intros <-. rewrite mine in Hv. by simplify_eq.
        -- eexists. split; [apply list_lookup_insert_eq; by eapply lookup_lt_Some|done].
      * intros (v & [(<- & <- & _)|[_ Hj]]%list_lookup_insert_Some & Hs); [by right|left; eauto].
  - exact committed_serial.
Qed.
End committed.

Lemma answer_ok sv i : server_ok sv -> server_ok (answer hashtextextended i sv).
Proof.
  intros Hok. unfold answer. destruct (sv_clients sv !! i) as [[now done [|s todo] cells edges d [sn|] []]|] eqn:Hi; try exact Hok;
    try (by eapply committed_ok).
  cbv zeta. destruct (granted _ sv i sn s) eqn:Hg; [|exact Hok]. destruct (effect_at sn now s _) as [d'|] eqn:He; [by eapply answered_ok|].
  by apply ends_ok.
Qed.

Lemma fail_ok sv i : server_ok sv -> server_ok (fail i sv).
Proof.
  intros Hok. unfold fail. destruct (sv_clients sv !! i) as [c|] eqn:Hi; [|exact Hok].
  destruct (cl_state c) eqn:Hs; [by apply ends_ok|exact Hok..].
Qed.

Lemma run_ok sv events : server_ok sv -> server_ok (run hashtextextended sv events).
Proof.
  revert sv. induction events as [|e events IH]; intros sv Hok; [done|]. apply IH.
  destruct e; [by apply send_ok|by apply answer_ok|by apply fail_ok].
Qed.

Lemma begin_ok : server_ok (begin trs d0).
Proof.
  assert (forall i c, sv_clients (begin trs d0) !! i = Some c ->
    exists tr, trs !! i = Some tr /\ c = Client tr.1 [] tr.2 [] ∅ empty_db None Running) as Hb.
  { intros i c Hc. simpl in Hc. rewrite list_lookup_fmap in Hc. apply fmap_Some in Hc as (tr & Htr & ->). eauto. }
  split.
  - split.
    + intros i c (tr & Htr & ->)%Hb. rewrite Htr. by destruct tr.
    + intros i j c c' l (tr & _ & ->)%Hb _ Hl _. by apply not_elem_of_nil in Hl.
  - intros i c (tr & _ & ->)%Hb _. split; simpl.
    + by intros l ?%not_elem_of_nil.
    + by intros l ?%not_elem_of_nil.
    + by exists d0.
    + by intros r s m ?%not_elem_of_empty.
    + by intros r s m ?%not_elem_of_nil.
    + done.
    + done.
    + by intros t b l ?%not_elem_of_nil.
    + by intros l _ ?%not_elem_of_nil.
    + done.
  - split; [constructor|]. intros i. split; [by intros ?%not_elem_of_nil|]. by intros (c & (tr & _ & ->)%Hb & Hs).
  - by exists d0.
Qed.
End serializable.

Section records.
Context `{PyRepr} `{Postgres} `{Common}.
Context (hashtextextended : string -> Z) (refresh : bool) (boundary : Z) (trs : list (Z * list statement)) (d0 : db).
Hypothesis transactions : Forall (fun tr => record_transaction refresh tr.2 \/ purge_transaction boundary tr.2) trs.

(** Beside a purge the child rows are refreshed, in the run the purge is of. *)
Hypothesis purged_run : Exists (fun tr => purge_transaction boundary tr.2) trs -> refresh = true /\ Forall (fun tr => boundary <= tr.1)%Z trs.

Abbreviation cells_of := (cells_of hashtextextended).

Lemma transactions_allowed :
  Forall (fun tr => Forall (allowed boundary) tr.2 /\ acquires (lock_of hashtextextended) (under_range hashtextextended) [] tr.2) trs.
Proof.
  refine (List.Forall_impl _ _ transactions). intros tr [Htr|Htr].
  - destruct (transaction_statements hashtextextended _ _ Htr) as [HF Ha]. split; [|done]. refine (List.Forall_impl _ _ HF). by left.
  - destruct (purge_statements hashtextextended _ _ Htr) as [HF Ha]. split; [|done]. refine (List.Forall_impl _ _ HF). by right.
Qed.

Lemma transactions_refresh : pruning trs -> Forall (fun tr => Forall (refreshing boundary tr.1) tr.2) trs.
Proof.
  intros (i & tr & t & b & Hi & Hin). pose proof transactions as HT. rewrite List.Forall_forall in HT.
  apply list_elem_of_In in Hin. destruct purged_run as [Hre Hle].
  { apply Exists_exists. exists tr. apply list_elem_of_lookup_2 in Hi. split; [done|]. apply list_elem_of_In, HT in Hi as [Hrec|]; [|done].
    apply (transaction_statements hashtextextended) in Hrec as [HF _]. rewrite List.Forall_forall in HF. by apply HF in Hin. }
  rewrite List.Forall_forall in Hle. apply List.Forall_forall. intros a Ha. destruct (HT a Ha) as [Hrec|Hp].
  - rewrite Hre in Hrec. by apply transaction_refreshing, Hle.
  - apply (purge_statements hashtextextended) in Hp as [HF _]. refine (List.Forall_impl _ _ HF). by intros [].
Qed.

Lemma records_ok events : server_ok hashtextextended boundary trs d0 (run hashtextextended (begin trs d0) events).
Proof. apply (run_ok hashtextextended boundary); [exact transactions_allowed|exact transactions_refresh|]. by apply (begin_ok hashtextextended boundary). Qed.

(** C7: transactions of records and purges in flight together commit what they
    would one after the other. Take the transactions of any records, each any number
    of times, and of purges of a run whose records refresh their child rows, their
    statements sent and answered in any interleaving under READ COMMITTED, with any
    of them failing at any moment. The tables then hold what
    the committed transactions leave when run whole, one after the other, in the
    order of their commits; and when no two of them write one entity, the link
    history is that of the same run. *)
Theorem serializable events :
  let sv := run hashtextextended (begin trs d0) events in
  NoDup (sv_log sv) /\
  (forall i, i ∈ sv_log sv <-> exists c, sv_clients sv !! i = Some c /\ cl_state c = Committed) /\
  exists d, serial (omap (fun i => trs !! i) (sv_log sv)) d0 = Ok d /\ d ≡ sv_db sv /\
    (one_each hashtextextended trs -> identity_link_events d = identity_link_events (sv_db sv)).
Proof. intros sv. by destruct (records_ok events) as [_ _ [Hnd Hlog] Hser]. Qed.

(** ** The last release to commit *)

Lemma serial_frame l d d' c :
  Forall (fun tr => Forall (allowed boundary) tr.2 /\ c ∉ cells_of tr.2) l -> (forall t, ~ in_table t c) -> serial l d = Ok d' -> same_cell c d' d.
Proof.
  revert d. induction l as [|[now tr] l IH]; intros d; simpl; [by intros _ _ [= <-]|]. intros HF Ht. inversion_clear HF as [|? ? [Hrec Hc] HF'].
  destruct (replay now tr d) as [d1|] eqn:Hr; [|done]. simpl. intros Hs. rewrite (IH d1 HF' Ht Hs).
  eapply replay_untouched; [done..|]. intros t b _ Hin. by destruct (Ht t).
Qed.

(** What a release's transaction leaves of its edges. *)
Lemma release_transaction_edges record media rows w w' tr now d d' m :
  is_none (get record "discogs_release_id") = false ->
  release_media_block record = Ok media -> media_edge_rows vocabulary media = Ok rows ->
  process_release refresh record w = (Ok tt, w') -> trace_of w' = trace_of w ++ tr ->
  replay now tr d = Ok d' ->
  issued_on d' !! (py_str (get record "discogs_release_id"), m, MEDIA_SOURCE) = qty_of rows m.
Proof.
  intros Hn Hblock Hrows Hrun Htr Hrep.
  destruct (process_release_run refresh record w tt w' Hrun _ eq_refl) as
    [(native & columns & rels & links & bf & ms & after & _ & _ & _ & _ & Haf & Hmedia & _ & Htr' & _)].
  rewrite Htr in Htr'. apply app_inv_head in Htr' as ->.
  unfold media_part in Hmedia. rewrite decide_True in Hmedia by done. destruct Hmedia as (media' & rows' & Hb' & Hr' & ->).
  rewrite Hblock in Hb'. injection Hb' as <-. rewrite Hrows in Hr'. injection Hr' as <-.
  apply replay_split in Hrep as (d1 & _ & Hrep). apply replay_split in Hrep as (d2 & _ & Hrep). apply replay_split in Hrep as (d3 & Hms & Hrep).
  destruct (media_statements_run now (py_str (get record "discogs_release_id")) rows d2) as (d3' & Hms' & Hi & _);
    [by eapply media_edge_rows_NoDup|].
  rewrite Hms in Hms'. injection Hms' as <-. set (rid := py_str _) in *.
  assert (issued_on d' = issued_on d3) as ->; [|rewrite (Hi (rid, m, MEDIA_SOURCE)); unfold replaced_edges; by rewrite decide_True].
  apply replay_split in Hrep as (d4 & Hrel & Hrep). apply replay_split in Hrep as (d5 & Hlinks & Hids).
  transitivity (issued_on d5); [|transitivity (issued_on d4)].
  - eapply replay_keeps; [|exact Hids]. refine (List.Forall_impl _ _ Haf). intros st Hst now' e e' He.
    destruct st; try done; simpl in He; case_match; by injection He as <-.
  - by eapply replay_keeps; [apply link_statements_keep|exact Hlinks].
  - by eapply replay_keeps; [apply relationship_statements_keep|exact Hrel].
Qed.

(** C15: of the releases that name one Discogs release, the last to commit wins.
    Whatever records run together and however, once a release's transaction has
    committed and none after it has written the same range, the committed edges of
    that Discogs release are the rows derived from that release's media, and no
    other from this source. *)
Theorem last_committer_wins events record media rows w w' now tr i earlier later :
  let sv := run hashtextextended (begin trs d0) events in
  let rid := py_str (get record "discogs_release_id") in
  sv_log sv = earlier ++ i :: later -> trs !! i = Some (now, tr) ->
  process_release refresh record w = (Ok tt, w') -> trace_of w' = trace_of w ++ tr ->
  is_none (get record "discogs_release_id") = false ->
  release_media_block record = Ok media -> media_edge_rows vocabulary media = Ok rows ->
  (forall j a, j ∈ later -> trs !! j = Some a -> OnEdges rid MEDIA_SOURCE ∉ cells_of a.2) ->
  forall m, issued_on (sv_db sv) !! (rid, m, MEDIA_SOURCE) = qty_of rows m.
Proof.
  intros sv rid Hlog Hi Hrun Htr Hn Hblock Hrows Hlater m.
  destruct (so_serial _ _ _ _ _ (records_ok events)) as (d & Hser & Heq & _). fold sv in Hser, Heq. rewrite Hlog in Hser.
  rewrite omap_app, serial_app in Hser. destruct (serial _ d0) as [d1|] eqn:Hd1; [|done]. simpl in Hser. rewrite Hi in Hser. simpl in Hser.
  destruct (replay now tr d1) as [d2|] eqn:Hd2; [|done]. simpl in Hser.
  rewrite <- (Heq (OnEdges rid MEDIA_SOURCE) m). etrans; [|by eapply release_transaction_edges].
  refine (serial_frame _ d2 d (OnEdges rid MEDIA_SOURCE) _ _ Hser m); [|by intros [] []]. apply List.Forall_forall.
  intros a (j & Hj & Ha)%list_elem_of_In%list_elem_of_omap. split; [|exact (Hlater j a Hj Ha)].
  pose proof transactions_allowed as HT. rewrite List.Forall_forall in HT. apply HT, list_elem_of_In. exact (list_elem_of_lookup_2 _ _ _ Ha).
Qed.
End records.
