(* ===== verification/FloatCap.v ===== *)
(** * The delete-fraction cap is exact

    [purge] compares the double [stale / total] with the double nearest to 0.9.
    For every count below 2^50 that comparison agrees with the integers': the
    cap is reached exactly when at least nine tenths of the rows are stale. *)

From S2P Require Import Prelude PyValue Database Reconciliation.
From stdpp Require Import base tactics.
From Stdlib Require Import ZArith Lia Floats.SpecFloat Bool.
Local Open Scope Z_scope.

(** The mantissa of the double nearest to 0.9; its exponent is -53. *)
Definition cap_mantissa : Z := 8106479329266893.

(** ** Digits *)

Lemma digits2_pos_bounds p : 2 ^ (Z.pos (digits2_pos p) - 1) <= Z.pos p < 2 ^ Z.pos (digits2_pos p).
Proof.
  induction p as [p IH|p IH|]; simpl digits2_pos; [| |simpl; lia];
    rewrite Pos2Z.inj_succ; unfold Z.succ; rewrite Z.add_simpl_r;
    rewrite Z.pow_add_r by lia; change (2 ^ 1) with 2;
    assert (2 ^ Z.pos (digits2_pos p) = 2 * 2 ^ (Z.pos (digits2_pos p) - 1)) as Hd
      by (rewrite <- Z.pow_succ_r by lia; f_equal; lia); lia.
Qed.

Lemma Zdigits2_bounds m : 0 < m -> 0 < Zdigits2 m /\ 2 ^ (Zdigits2 m - 1) <= m < 2 ^ Zdigits2 m.
Proof. destruct m as [|p|p]; try lia. intros _. split; [reflexivity|]. apply digits2_pos_bounds. Qed.

Lemma Zdigits2_unique m n : 0 < n -> 2 ^ (n - 1) <= m < 2 ^ n -> Zdigits2 m = n.
Proof.
  intros Hn Hm. assert (0 < 2 ^ (n - 1)) by (apply Z.pow_pos_nonneg; lia).
  destruct (Zdigits2_bounds m) as (Hd & Hlo & Hhi); [lia|].
  destruct (Z.lt_trichotomy (Zdigits2 m) n) as [Hlt|[|Hgt]]; [|done|].
  - assert (2 ^ Zdigits2 m <= 2 ^ (n - 1)) by (apply Z.pow_le_mono_r; lia). lia.
  - assert (2 ^ n <= 2 ^ (Zdigits2 m - 1)) by (apply Z.pow_le_mono_r; lia). lia.
Qed.

(** ** Rounding *)

Lemma loc_of_shr_record_of_loc m l : loc_of_shr_record (shr_record_of_loc m l) = l.
Proof. by destruct l as [|[]]. Qed.

Lemma shr_record_of_loc_m m l : shr_m (shr_record_of_loc m l) = m.
Proof. by destruct l as [|[]]. Qed.

(** The comparison with the cap of a mantissa of 53 digits, or the next power. *)
Definition caps (m e : Z) : bool := (-53 <? e) || ((e =? -53) && (cap_mantissa <=? m)).

Lemma shr_fexp_53 m e l :
  2 ^ 52 <= m < 2 ^ 53 -> -200 <= e -> shr_fexp 53 1024 m e l = (shr_record_of_loc m l, e).
Proof.
  intros Hm He. unfold shr_fexp, fexp, emin. rewrite (Zdigits2_unique m 53) by lia.
  replace (Z.max (53 + e - 53) (3 - 1024 - 53) - e) with 0 by lia. done.
Qed.

Lemma shr_fexp_54 m e l :
  2 ^ 53 <= m < 2 ^ 54 -> -200 <= e -> shr_fexp 53 1024 m e l = (shr_1 (shr_record_of_loc m l), e + 1).
Proof.
  intros Hm He. unfold shr_fexp, fexp, emin. rewrite (Zdigits2_unique m 54) by lia.
  replace (Z.max (54 + e - 53) (3 - 1024 - 53) - e) with 1 by lia. done.
Qed.

Lemma SFleb_caps m e :
  0 < m -> SFleb DEFAULT_MAX_DELETE_FRACTION (S754_finite false (Z.to_pos m) e) = caps m e.
Proof.
  intros Hm. unfold DEFAULT_MAX_DELETE_FRACTION, SFleb, SFcompare, caps, cap_mantissa.
  destruct (Z.compare_spec (-53) e) as [<-|Hlt|Hgt].
  - change (Pos.compare_cont Eq 8106479329266893 (Z.to_pos m)) with (Pos.compare 8106479329266893 (Z.to_pos m)).
    rewrite (Pos2Z.inj_compare 8106479329266893 (Z.to_pos m)), Z2Pos.id by done.
    unfold Z.leb. destruct (8106479329266893 ?= m); reflexivity.
  - by rewrite (proj2 (Z.ltb_lt _ _) Hlt).
  - rewrite (proj2 (Z.ltb_ge _ _)), (proj2 (Z.eqb_neq _ _)) by lia. done.
Qed.

(** After the mantissa is rounded: the final normalisation and the comparison. *)
Lemma finish_caps m e :
  2 ^ 52 <= m <= 2 ^ 53 -> -200 <= e <= 0 ->
  SFleb DEFAULT_MAX_DELETE_FRACTION
    (let '(mrs, e') := shr_fexp 53 1024 m e loc_Exact in
     match shr_m mrs with
     | Z0 => S754_zero false
     | Zpos p => if e' <=? 1024 - 53 then S754_finite false p e' else S754_infinity false
     | _ => S754_nan
     end) = caps m e.
Proof.
  intros Hm He. destruct (Z.eq_dec m (2 ^ 53)) as [->|Hne].
  - rewrite shr_fexp_54 by lia. change (shr_m (shr_1 (shr_record_of_loc (2 ^ 53) loc_Exact))) with (2 ^ 52).
    change (2 ^ 52) with (Z.pos 4503599627370496). cbv beta iota. rewrite (proj2 (Z.leb_le (e + 1) (1024 - 53))) by lia.
    etransitivity; [apply (SFleb_caps 4503599627370496 (e + 1)); lia|].
    unfold caps, cap_mantissa. change (8106479329266893 <=? 2 ^ 53) with true.
    change (8106479329266893 <=? 4503599627370496) with false.
    destruct (Z.ltb_spec (-53) e), (Z.ltb_spec (-53) (e + 1)), (Z.eqb_spec e (-53)), (Z.eqb_spec (e + 1) (-53)); simpl; lia || done.
  - rewrite shr_fexp_53 by lia. rewrite shr_record_of_loc_m. destruct m as [|p|p]; try lia.
    rewrite (proj2 (Z.leb_le e (1024 - 53))) by lia. apply (SFleb_caps (Z.pos p)). lia.
Qed.

Lemma round_nearest_even_range m l : m <= round_nearest_even m l <= m + 1.
Proof. destruct l as [|[]]; simpl; try destruct (Z.even m); lia. Qed.

Lemma round_53 q e l :
  2 ^ 52 <= q < 2 ^ 53 -> -200 <= e <= 0 ->
  SFleb DEFAULT_MAX_DELETE_FRACTION (binary_round_aux 53 1024 false q e l) = caps (round_nearest_even q l) e.
Proof.
  intros Hq He. unfold binary_round_aux. rewrite shr_fexp_53 by lia.
  rewrite shr_record_of_loc_m, loc_of_shr_record_of_loc. pose proof (round_nearest_even_range q l).
  rewrite <- finish_caps by lia. done.
Qed.

Lemma round_54 q e l :
  2 ^ 53 <= q < 2 ^ 54 -> -200 <= e <= -1 ->
  SFleb DEFAULT_MAX_DELETE_FRACTION (binary_round_aux 53 1024 false q e l) =
    caps (round_nearest_even (q / 2) (loc_of_shr_record (shr_1 (shr_record_of_loc q l)))) (e + 1).
Proof.
  intros Hq He. unfold binary_round_aux. rewrite shr_fexp_54 by lia.
  assert (shr_m (shr_1 (shr_record_of_loc q l)) = q / 2) as ->.
  { destruct q as [|p|p]; try lia. rewrite <- Z.div2_div.
    destruct l as [|[]], p as [p|p|]; simpl; try done; lia. }
  match goal with |- context [round_nearest_even ?h ?l'] => pose proof (round_nearest_even_range h l') end.
  assert (2 ^ 52 <= q / 2 < 2 ^ 53).
  { split; [apply Z.div_le_lower_bound|apply Z.div_lt_upper_bound]; lia. }
  rewrite <- finish_caps by lia. done.
Qed.

(** ** The remainder decides the rounding *)

(** The location a non-zero remainder gives, by comparing it with half a step. *)
Lemma new_location_nonzero r t :
  r <> 0 -> new_location t r = loc_Inexact (if Z.even t then 2 * r ?= t else match 2 * r + 1 ?= t with Gt => Gt | _ => Lt end).
Proof.
  intros Hne. unfold new_location, new_location_even, new_location_odd.
  assert (forall A (x y : A), (if r =? 0 then x else y) = y) as Hif by (intros; by rewrite (proj2 (Z.eqb_neq r 0) Hne)).
  transitivity (if Z.even t then (if r =? 0 then loc_Exact else loc_Inexact (2 * r ?= t))
    else (if r =? 0 then loc_Exact else loc_Inexact match 2 * r + 1 ?= t with Gt => Gt | _ => Lt end)).
  - destruct (Z.even t); [done|]. by destruct (2 * r + 1 ?= t).
  - rewrite !Hif. by destruct (Z.even t).
Qed.

(** [m] is a rounding of [h + R / T] to nearest. *)
Definition rounds (h R T m : Z) : Prop :=
  h <= m <= h + 1 /\ (2 * R < T -> m = h) /\ (T < 2 * R -> m = h + 1).

Lemma rounds_new_location q r t :
  0 <= r < t -> rounds q r t (round_nearest_even q (new_location t r)).
Proof.
  intros Hr. split; [apply round_nearest_even_range|].
  destruct (Z.eq_dec r 0) as [->|Hne].
  { assert (new_location t 0 = loc_Exact) as -> by (unfold new_location; by destruct (Z.even t)). simpl. lia. }
  rewrite new_location_nonzero by done. destruct (Z.even t) eqn:Ev.
  - destruct (Z.compare_spec (2 * r) t); cbn [round_nearest_even]; try destruct (Z.even q); lia.
  - assert (2 * r <> t) by (intros <-; rewrite Z.even_mul in Ev; done).
    destruct (Z.compare_spec (2 * r + 1) t); cbn [round_nearest_even]; lia.
Qed.

Lemma rounds_shifted q r t :
  2 <= q -> 0 <= r < t ->
  rounds (q / 2) (q mod 2 * t + r) (2 * t)
    (round_nearest_even (q / 2) (loc_of_shr_record (shr_1 (shr_record_of_loc q (new_location t r))))).
Proof.
  intros Hq Hr. split; [apply round_nearest_even_range|].
  assert (new_location t r = loc_Exact /\ r = 0 \/ (exists c, new_location t r = loc_Inexact c) /\ 0 < r) as Hl.
  { destruct (Z.eq_dec r 0) as [->|Hne].
    - left. split; [|done]. unfold new_location. by destruct (Z.even t).
    - right. split; [rewrite new_location_nonzero by done; eauto|lia]. }
  destruct q as [|[p|p|]|]; try lia.
  - assert (Z.pos p~1 mod 2 = 1) as -> by (rewrite Pos2Z.inj_xI; rewrite Z.mul_comm, Z.add_comm, Z.mod_add by lia; done).
    destruct Hl as [[-> ->]|[[c ->] Hpos]]; [|destruct c]; cbn [shr_record_of_loc shr_1 loc_of_shr_record orb round_nearest_even];
      try destruct (Z.even _); lia.
  - assert (Z.pos p~0 mod 2 = 0) as -> by (rewrite Pos2Z.inj_xO; rewrite Z.mul_comm, Z.mod_mul by lia; done).
    destruct Hl as [[-> ->]|[[c ->] Hpos]]; [|destruct c]; cbn [shr_record_of_loc shr_1 loc_of_shr_record orb round_nearest_even];
      try destruct (Z.even _); lia.
Qed.

(** Nine tenths round to the cap; less, on counts below 2^50, rounds below it. *)
Lemma rounds_cap h R T m :
  0 <= R < T -> rounds h R T m ->
  ((10 * cap_mantissa - 2) * T <= 10 * (h * T + R) -> cap_mantissa <= m) /\
  (10 * (h * T + R) <= (10 * cap_mantissa - 10) * T -> m <= cap_mantissa - 1).
Proof.
  unfold cap_mantissa. intros HR (Hm & Hlo & Hhi). split; intros Hc.
  - destruct (Z.le_gt_cases 8106479329266893 h); [lia|].
    assert (h = 8106479329266892) by nia. subst h. lia.
  - assert (h <= 8106479329266892) by nia.
    destruct (Z.eq_dec h 8106479329266892) as [->|]; [|lia]. lia.
Qed.

(** ** The quotient *)

Lemma SFdiv_core_run s t :
  0 < s <= t -> t < 2 ^ 50 ->
  let k := Zdigits2 t - Zdigits2 s in
  let N := s * 2 ^ (53 + k) in
  0 <= k <= 50 /\
  SFdiv_core_binary 53 1024 s 0 t 0 = (N / t, -53 - k, new_location t (N mod t)).
Proof.
  intros Hs Ht k N. destruct (Zdigits2_bounds s) as (Hs0 & Hs1 & Hs2); [lia|].
  destruct (Zdigits2_bounds t) as (Ht0 & Ht1 & Ht2); [lia|].
  assert (0 <= k <= 50) as Hk.
  { unfold k. split.
    - destruct (Z.le_gt_cases (Zdigits2 s) (Zdigits2 t)); [lia|].
      assert (2 ^ Zdigits2 t <= 2 ^ (Zdigits2 s - 1)) by (apply Z.pow_le_mono_r; lia). lia.
    - destruct (Z.le_gt_cases (Zdigits2 t) 50); [lia|].
      assert (2 ^ 50 <= 2 ^ (Zdigits2 t - 1)) by (apply Z.pow_le_mono_r; lia). lia. }
  split; [done|]. unfold SFdiv_core_binary, fexp, emin.
  replace (Z.min (Z.max (Zdigits2 s + 0 - (Zdigits2 t + 0) - 53) (3 - 1024 - 53)) (0 - 0)) with (-53 - k) by (unfold k; lia).
  replace (0 - 0 - (-53 - k)) with (53 + k) by lia. unfold N.
  rewrite <- Z.shiftl_mul_pow2 by lia. set (n := Z.shiftl s (53 + k)).
  destruct (53 + k) eqn:E; try lia. fold n. unfold Z.div, Z.modulo. by destruct (Z.div_eucl n t).
Qed.

Lemma quotient_bounds s t :
  0 < s <= t -> t < 2 ^ 50 ->
  let N := s * 2 ^ (53 + (Zdigits2 t - Zdigits2 s)) in
  2 ^ 52 <= N / t < 2 ^ 54.
Proof.
  intros Hs Ht N. destruct (SFdiv_core_run s t Hs Ht) as [Hk _].
  destruct (Zdigits2_bounds s) as (Hs0 & Hs1 & Hs2); [lia|]. destruct (Zdigits2_bounds t) as (Ht0 & Ht1 & Ht2); [lia|].
  unfold N. set (k := Zdigits2 t - Zdigits2 s) in *.
  assert (0 < 2 ^ (53 + k)) by (apply Z.pow_pos_nonneg; lia).
  split.
  - apply Z.div_le_lower_bound; [lia|]. transitivity (2 ^ 52 * 2 ^ Zdigits2 t); [nia|].
    transitivity (2 ^ (Zdigits2 s - 1) * 2 ^ (53 + k)); [|nia].
    rewrite <- !Z.pow_add_r by lia. apply Z.eq_le_incl. f_equal. unfold k. lia.
  - apply Z.div_lt_upper_bound; [lia|].
    apply Z.lt_le_trans with (2 ^ Zdigits2 s * 2 ^ (53 + k)); [nia|].
    transitivity (2 ^ (Zdigits2 t - 1) * 2 ^ 54); [|nia].
    rewrite <- !Z.pow_add_r by lia. apply Z.eq_le_incl. f_equal. unfold k. lia.
Qed.

Lemma caps_low m e : e < -53 -> caps m e = false.
Proof. intros He. unfold caps. rewrite (proj2 (Z.ltb_ge _ _)), (proj2 (Z.eqb_neq _ _)) by lia. done. Qed.

Lemma caps_high m e : -53 < e -> caps m e = true.
Proof. intros He. unfold caps. by rewrite (proj2 (Z.ltb_lt _ _)) by lia. Qed.

(** The rounded quotient, compared with the cap, at the exponent of one half. *)
Lemma caps_at_half h R T m s t c :
  0 < c -> 0 < t < 2 ^ 50 -> T = c * t -> h * T + R = c * (s * 2 ^ 53) -> 0 <= R < T -> rounds h R T m ->
  caps m (-53) = (9 * t <=? 10 * s).
Proof.
  intros Hc Ht -> HN HR Hm. destruct (rounds_cap _ _ _ _ HR Hm) as [Hhi Hlo]. rewrite HN in Hhi, Hlo.
  unfold caps. change (-53 <? -53) with false. change (-53 =? -53) with true. simpl.
  unfold cap_mantissa in *. destruct (Z.leb_spec (9 * t) (10 * s)).
  - apply Z.leb_le, Hhi. change (2 ^ 53) with 9007199254740992 in *. nia.
  - apply Z.leb_gt. assert (m <= 8106479329266893 - 1); [|lia]. apply Hlo.
    change (2 ^ 53) with 9007199254740992 in *. change (2 ^ 50) with 1125899906842624 in *. nia.
Qed.

Lemma reaches_cap_eq s t :
  0 < s <= t -> t < 2 ^ 50 -> reaches_cap default_config s t = (9 * t <=? 10 * s).
Proof.
  intros Hs Ht. destruct (SFdiv_core_run s t Hs Ht) as [Hk Hcore]. pose proof (quotient_bounds s t Hs Ht) as Hq.
  cbv zeta in *. set (k := Zdigits2 t - Zdigits2 s) in *. set (N := s * 2 ^ (53 + k)) in *.
  pose proof (Z.div_mod N t ltac:(lia)) as Hdm. pose proof (Z.mod_pos_bound N t ltac:(lia)) as Hr.
  assert (reaches_cap default_config s t =
    SFleb DEFAULT_MAX_DELETE_FRACTION (binary_round_aux 53 1024 false (N / t) (-53 - k) (new_location t (N mod t)))) as ->.
  { unfold reaches_cap, true_div. destruct s as [|s|s], t as [|t|t]; try lia. unfold SFdiv. rewrite Hcore. done. }
  set (q := N / t) in *. set (r := N mod t) in *.
  assert (N = s * 2 ^ 53 * 2 ^ k) as HN by (unfold N; rewrite Z.pow_add_r by lia; lia).
  assert (forall n, 0 <= n <= k -> exists j, 1 <= j /\ 2 ^ k = 2 ^ n * j) as Hpow.
  { intros n Hn. exists (2 ^ (k - n)). split; [assert (0 < 2 ^ (k - n)) by (apply Z.pow_pos_nonneg; lia); lia|].
    rewrite <- Z.pow_add_r by lia. f_equal. lia. }
  change (2 ^ 50) with 1125899906842624 in Ht. change (2 ^ 52) with 4503599627370496 in Hq. change (2 ^ 54) with 18014398509481984 in Hq.
  destruct (Z.lt_ge_cases q 9007199254740992) as [Hlt|Hge].
  - rewrite round_53 by lia. destruct (Z.eq_dec k 0) as [Hk0|Hk0].
    + rewrite Hk0 in *. change (-53 - 0) with (-53).
      apply (caps_at_half q r t _ s t 1); [lia|lia|lia|lia|lia|by apply rounds_new_location].
    + rewrite caps_low by lia. symmetry. apply Z.leb_gt.
      destruct (Hpow 1) as (j & Hj & Hp); [lia|]. change (2 ^ 53) with 9007199254740992 in HN. change (2 ^ 1) with 2 in Hp.
      assert (N < 9007199254740992 * t) by nia. rewrite HN, Hp in *. nia.
  - rewrite round_54 by lia. destruct (Z.eq_dec k 0) as [Hk0|Hk0]; [|destruct (Z.eq_dec k 1) as [Hk1|Hk1]].
    + rewrite caps_high by lia. symmetry. apply Z.leb_le. rewrite Hk0 in HN. change (2 ^ 53) with 9007199254740992 in HN.
      change (2 ^ 0) with 1 in HN. nia.
    + rewrite Hk1 in *. change (-53 - 1 + 1) with (-53). change (2 ^ 1) with 2 in HN.
      pose proof (Z.div_mod q 2 ltac:(lia)) as Hq2. pose proof (Z.mod_pos_bound q 2 ltac:(lia)) as Hb.
      apply (caps_at_half (q / 2) (q mod 2 * t + r) (2 * t) _ s t 2); [lia|lia|lia|nia|nia|apply rounds_shifted; lia].
    + rewrite caps_low by lia. symmetry. apply Z.leb_gt.
      destruct (Hpow 2) as (j & Hj & Hp); [lia|]. change (2 ^ 53) with 9007199254740992 in HN. change (2 ^ 2) with 4 in Hp.
      assert (N < 18014398509481984 * t) by nia. rewrite HN, Hp in *. nia.
Qed.

(** C29: the delete-fraction cap is exact. For tables of fewer than 2^50 rows,
    the loader's comparison of the double [stale / total] with the double 0.9
    is the comparison of [stale] with nine tenths of [total] on the integers:
    rounding neither lets a purge of nine tenths through nor vetoes a smaller
    one. *)
Theorem cap_exact stale total :
  0 < stale <= total -> total < 2 ^ 50 ->
  reaches_cap default_config stale total = (9 * total <=? 10 * stale).
Proof. apply reaches_cap_eq. Qed.
