(* ===== verification/Latch.v ===== *)
(** * The four-signal latch over a run

    [StaleChildRowPurge] as a state machine: the signals, dead letters, resets and
    decisions of a run as a sequence of events, and what the order of events
    cannot change. *)

From S2P Require Import Prelude PyValue PyDatetime QueueNames Reconciliation.
From stdpp Require Import base gmap strings list option sorting.
From Stdlib Require Import ZArith Lia.

Inductive latch_event : Type :=
| Signal (data_type : string) (message : dict)
| DeadLetter (data_type : string)
| Reset
| Decide.

(** What a decision came to: the boundary it settled, and the veto if any. *)
Record decision : Type := Decision_ {
  decided_boundary : Z;
  decided_veto : option veto;
}.

Section run.
Context (cfg : purge_config).

(** [Decide] is a [purge] that returns; it decides a latched boundary that is not
    settled yet. *)
Definition decide_latch (st : purge_state) : purge_state * option decision :=
  if is_latched cfg st then
    (settle (boundary st) st,
     match boundary st, veto_reason cfg st with
     | _, Some AlreadySettled | None, _ => None
     | Some b, v => Some (Decision_ b v)
     end)
  else (st, None).

Definition latch_step (st : purge_state) (e : latch_event) : purge_state * option decision :=
  match e with
  | Signal dt m => (record_completion dt m st, None)
  | DeadLetter dt => (record_dead_letter dt st, None)
  | Reset => (reset st, None)
  | Decide => decide_latch st
  end.

Fixpoint latch_run (st : purge_state) (l : list latch_event) : purge_state * list decision :=
  match l with
  | [] => (st, [])
  | e :: l' =>
      let '(st1, d) := latch_step st e in
      let '(st2, ds) := latch_run st1 l' in
      (st2, from_option (fun d => [d]) [] d ++ ds)
  end.

(** ** Signals *)

Lemma record_completion_usable dt m st b :
  parse_started_at (get m "started_at") = Some b ->
  record_completion dt m st =
    match boundary st with
    | Some b0 =>
        if (b <? b0)%Z then st
        else PurgeState (Some b) (<[dt := signal_count dt m]> (if (b0 <? b)%Z then ∅ else signals st))
               (dead_lettered st) (settled_boundary st)
    | None => PurgeState (Some b) {[dt := signal_count dt m]} (dead_lettered st) (settled_boundary st)
    end.
Proof.
  intros Hp. unfold record_completion. rewrite Hp. destruct (boundary st) as [b0|]; [|done].
  destruct (b <? b0)%Z; [done|]. by destruct (b0 <? b)%Z.
Qed.

(** The signals of one extraction: each names the boundary [b]. *)
Definition of_extraction (b : Z) (l : list (string * dict)) : Prop :=
  Forall (fun s => parse_started_at (get s.2 "started_at") = Some b) l.

Definition collect (l : list (string * dict)) (st : purge_state) : purge_state :=
  foldl (fun st s => record_completion s.1 s.2 st) st l.

(** What an extraction's signals leave once its boundary is the one collected. *)
Lemma collect_same b l st :
  of_extraction b l -> boundary st = Some b ->
  collect l st =
    PurgeState (Some b) (foldl (fun m s => <[s.1 := signal_count s.1 s.2]> m) (signals st) l)
      (dead_lettered st) (settled_boundary st).
Proof.
  intros Hl. revert st. induction Hl as [|[dt m] l Hm Hl IH]; intros st Hb; simpl.
  { destruct st; simpl in *. by subst. }
  rewrite (record_completion_usable _ _ _ _ Hm), Hb, Z.ltb_irrefl. by rewrite IH.
Qed.

Lemma collect_inserts l (m : gmap string (option Z)) k :
  NoDup l.*1 ->
  foldl (fun m s => <[s.1 := signal_count s.1 s.2]> m) m l !! k =
    match (list_to_map ((fun s => (s.1, signal_count s.1 s.2)) <$> l) : gmap string (option Z)) !! k with
    | Some c => Some c
    | None => m !! k
    end.
Proof.
  revert m. induction l as [|[dt s] l IH]; intros m; csimpl; [done|].
  rewrite NoDup_cons. intros [Hnot Hnd]. rewrite IH by done. destruct (decide (k = dt)) as [->|Hne].
  - rewrite !lookup_insert_eq, not_elem_of_list_to_map_1; [done|].
    rewrite <- list_fmap_compose. exact Hnot.
  - by rewrite !lookup_insert_ne.
Qed.

Lemma collect_inserts_perm l1 l2 (m : gmap string (option Z)) :
  NoDup l1.*1 -> l1 ≡ₚ l2 ->
  foldl (fun m s => <[s.1 := signal_count s.1 s.2]> m) m l1 =
  foldl (fun m s => <[s.1 := signal_count s.1 s.2]> m) m l2.
Proof.
  intros Hnd Hp. apply map_eq. intros k. rewrite !collect_inserts by (by rewrite <- ?Hp).
  rewrite (list_to_map_proper ((fun s => (s.1, signal_count s.1 s.2)) <$> l1)
             ((fun s => (s.1, signal_count s.1 s.2)) <$> l2)); [done| |by rewrite Hp].
  by rewrite <- list_fmap_compose.
Qed.

(** Every order of an extraction's signals first moves the latch to the
    extraction, then inserts the counts. *)
Lemma collect_extraction b l st :
  of_extraction b l -> l <> [] ->
  collect l st =
    let inserts := foldl (fun (m : gmap string (option Z)) s => <[s.1 := signal_count s.1 s.2]> m) in
    match boundary st with
    | Some b0 =>
        if (b <? b0)%Z then st
        else PurgeState (Some b) (inserts (if (b0 <? b)%Z then ∅ else signals st) l) (dead_lettered st) (settled_boundary st)
    | None => PurgeState (Some b) (inserts ∅ l) (dead_lettered st) (settled_boundary st)
    end.
Proof.
  intros Hl Hne. destruct Hl as [|[dt m] l Hm Hl]; [done|]. simpl.
  rewrite (record_completion_usable _ _ _ _ Hm). destruct (boundary st) as [b0|] eqn:Eb.
  - destruct (b <? b0)%Z eqn:Elt; [|by rewrite (collect_same b)].
    clear Hm Hne. induction Hl as [|[dt' m'] l Hm Hl IH]; [done|]. simpl.
    by rewrite (record_completion_usable _ _ _ _ Hm), Eb, Elt.
  - by rewrite (collect_same b).
Qed.

(** The signals of an extraction may arrive in any order. For signals one
    per type, all naming the same start, every order of arrival leaves the same
    latch from every state: the same boundary, the same counts, the same marks. *)
Theorem signals_commute b l1 l2 st :
  of_extraction b l1 -> NoDup l1.*1 -> l1 ≡ₚ l2 -> collect l1 st = collect l2 st.
Proof.
  intros H1 Hnd Hp. destruct (decide (l1 = [])) as [->|Hne]; [apply Permutation_nil_l in Hp; by subst|].
  assert (of_extraction b l2) as H2 by (unfold of_extraction; by rewrite <- Hp).
  rewrite (collect_extraction b l1), (collect_extraction b l2); [|done|by intros ->; apply Hne, Permutation_nil_r|done|done].
  cbv zeta. destruct (boundary st) as [b0|]; [destruct (b <? b0)%Z; [done|]|]; by rewrite (collect_inserts_perm l1 l2).
Qed.

(** The latch waits for every type. After one extraction's signals have
    arrived on a fresh latch, it is latched exactly when they cover the expected
    types, [pending_data_types] lists exactly the ones missing, and the purge is
    vetoed for every type whose count was zero, missing or not an integer. *)
Theorem latched_iff_covered b l :
  of_extraction b l -> NoDup l.*1 -> l <> [] ->
  let st := collect l initial_purge in
  boundary st = Some b /\
  (is_latched cfg st = true <-> expected_data_types cfg ⊆ list_to_set l.*1) /\
  (forall t, t ∈ pending_data_types cfg st <-> t ∈ expected_data_types cfg /\ t ∉ l.*1) /\
  (forall t, t ∈ empty_types st <->
     exists m, (t, m) ∈ l /\ (signal_count t m = None \/ signal_count t m = Some 0%Z)).
Proof.
  intros Hl Hnd Hne st.
  assert (boundary st = Some b /\ forall k, signals st !! k =
    (list_to_map ((fun s => (s.1, signal_count s.1 s.2)) <$> l) : gmap string (option Z)) !! k) as [Hb Hs].
  { unfold st. rewrite (collect_extraction b) by done. simpl. split; [done|]. intros k. rewrite collect_inserts by done.
    rewrite lookup_empty. by case_match. }
  assert (((fun s : string * dict => (s.1, signal_count s.1 s.2)) <$> l).*1 = l.*1) as Hkeys by (by rewrite <- list_fmap_compose).
  assert (forall t, t ∈ signalled st <-> t ∈ l.*1) as Hsig.
  { intros t. unfold signalled. rewrite elem_of_dom, Hs, <- elem_of_dom, dom_list_to_map_L, Hkeys. apply elem_of_list_to_set. }
  split_and!; [done| | |].
  - unfold is_latched. rewrite andb_true_iff, !bool_decide_eq_true, Hb. split.
    + intros [_ Hsub] t Ht. rewrite elem_of_list_to_set. by apply Hsig, Hsub.
    + intros Hsub. split; [done|]. intros t Ht. by apply Hsig, (elem_of_list_to_set (C := gset string)), Hsub.
  - intros t. unfold pending_data_types. by rewrite elem_of_sorted, elem_of_elements, elem_of_difference, Hsig.
  - intros t. unfold empty_types. rewrite elem_of_sorted, elem_of_elements, elem_of_dom. split.
    + intros [c Hc]. apply map_lookup_filter_Some in Hc as [Hc Hz]. rewrite Hs in Hc.
      apply elem_of_list_to_map_2, list_elem_of_fmap in Hc as ([t' m] & [= -> ->] & Hin). by exists m.
    + intros (m & Hin & Hz). exists (signal_count t m). apply map_lookup_filter_Some. split; [|done].
      rewrite Hs. apply elem_of_list_to_map_1; [by rewrite Hkeys|].
      apply list_elem_of_fmap. by exists (t, m).
Qed.

(** ** Decisions *)

(** Every signal names a usable start, and nothing resets the latch. *)
Definition usable (e : latch_event) : Prop :=
  match e with
  | Signal _ m => is_Some (parse_started_at (get m "started_at"))
  | Reset => False
  | DeadLetter _ | Decide => True
  end.

(** What is settled is not ahead of what is collected. *)
Definition latch_ordered (st : purge_state) : Prop :=
  forall s, settled_boundary st = Some s -> exists b, boundary st = Some b /\ (s <= b)%Z.

Lemma latch_step_ordered st e st' d :
  usable e -> latch_ordered st -> latch_step st e = (st', d) ->
  latch_ordered st' /\
  match d with
  | Some d => settled_boundary st' = Some (decided_boundary d) /\
      forall s, settled_boundary st = Some s -> (s < decided_boundary d)%Z
  | None => settled_boundary st' = settled_boundary st
  end.
Proof.
  intros Hu Ho. unfold latch_ordered in *. destruct e as [dt m|dt| |]; simpl in *.
  - intros [= <- <-]. destruct Hu as [b Hb]. rewrite (record_completion_usable _ _ _ _ Hb).
    destruct (boundary st) as [b0|] eqn:Eb; [destruct (b <? b0)%Z eqn:Elt|]; simpl; (split; [|done]); intros s Hs;
      destruct (Ho s Hs) as (b1 & Hb1 & Hle); rewrite ?Eb in *; simplify_eq; eexists; (split; [done|]);
      rewrite ?Z.ltb_ge in *; lia.
  - intros [= <- <-]. done.
  - done.
  - unfold decide_latch. destruct (is_latched cfg st) eqn:El; [|intros [= <- <-]; done].
    assert (is_Some (boundary st)) as [b Hb].
    { unfold is_latched in El. rewrite andb_true_iff, bool_decide_eq_true in El. destruct El. by destruct (boundary st). }
    rewrite Hb. intros [= <- <-]. simpl. split.
    { intros s [= <-]. exists b. rewrite Hb. split; [done|lia]. }
    assert (settled_boundary st = Some b -> veto_reason cfg st = Some AlreadySettled) as Hset.
    { intros Hs. unfold veto_reason. rewrite El, Hs, Hb. by rewrite !bool_decide_eq_true_2. }
    assert (veto_reason cfg st = Some AlreadySettled -> settled_boundary st = Some b) as Hset'.
    { unfold veto_reason. rewrite El, Hb. intros Hv. repeat case_match; try done.
      rewrite andb_true_iff, !bool_decide_eq_true in *. tauto. }
    destruct (decide (settled_boundary st = Some b)) as [Hs|Hs].
    + rewrite Hset by done. by rewrite Hs.
    + assert (forall s, settled_boundary st = Some s -> (s < b)%Z) as Hlt.
      { intros s Hs'. destruct (Ho s Hs') as (b' & Hb' & Hle). rewrite Hb in Hb'. simplify_eq.
        destruct (decide (s = b')); [congruence|lia]. }
      destruct (veto_reason cfg st) as [[| | |]|] eqn:Ev; try done. tauto.
Qed.

Lemma latch_run_ordered st l st' ds :
  Forall usable l -> latch_ordered st -> latch_run st l = (st', ds) ->
  StronglySorted Z.lt (from_option (fun s => [s]) [] (settled_boundary st) ++ map decided_boundary ds).
Proof.
  intros Hl. revert st st' ds. induction Hl as [|e l Hu Hl IH]; intros st st' ds Ho; simpl.
  { intros [= <- <-]. rewrite app_nil_r. destruct (settled_boundary st); simpl; repeat constructor. }
  destruct (latch_step st e) as [st1 d] eqn:Es. destruct (latch_run st1 l) as [st2 ds'] eqn:Er. intros [= <- <-].
  destruct (latch_step_ordered _ _ _ _ Hu Ho Es) as [Ho1 Hd]. specialize (IH _ _ _ Ho1 Er).
  destruct d as [d|]; simpl; [|by rewrite <- Hd].
  destruct Hd as [Hs1 Hlt]. rewrite Hs1 in IH. simpl in IH.
  destruct (settled_boundary st) as [s|] eqn:Es0; simpl; [|done].
  constructor; [done|]. specialize (Hlt s eq_refl). constructor; [done|].
  inversion_clear IH as [|? ? _ HF]. eapply Forall_impl; [exact HF|]. simpl. intros. lia.
Qed.

(** Every boundary is decided at most once, in order. Over any sequence of
    signals, dead letters and purge attempts from a fresh latch, in which every
    signal names a usable start, the boundaries the latch decides strictly
    increase: a redelivered or late signal cannot have a boundary decided again
    after it, or a newer one, was purged or vetoed. *)
Theorem decisions_increase l :
  Forall usable l -> StronglySorted Z.lt (map decided_boundary (latch_run initial_purge l).2).
Proof.
  intros Hl. destruct (latch_run initial_purge l) as [st ds] eqn:E.
  by apply (latch_run_ordered initial_purge l st ds Hl).
Qed.
End run.

(** Only the last settled boundary is refused. The premise of
    [decisions_increase] is needed: with two boundaries and one signal without a
    usable start between them, a boundary that was decided under a dead-letter
    veto is decided again later, without it, by its own redelivered signals. *)
Theorem forgotten_settlement :
  let complete (at_ : string) dt := Signal dt [("started_at", VStr at_); ("record_counts", VDict [(dt, VInt 5)])] in
  let all at_ := map (complete at_) MUSICBRAINZ_DATA_TYPES in
  (latch_run default_config initial_purge
    ([DeadLetter "labels"] ++ all "2026-01-01T00:00:00Z" ++ [Decide] ++
     all "2026-02-01T00:00:00Z" ++ [Decide] ++
     [Signal "artists" [("started_at", VNull)]] ++
     all "2026-01-01T00:00:00Z" ++ [Decide])).2 =
  [Decision_ 63902908800000000 (Some (DeadLettered ["labels"]));
   Decision_ 63905587200000000 None;
   Decision_ 63902908800000000 None].
Proof. vm_compute. reflexivity. Qed.
