(* ===== verification/PurgeSafety.v ===== *)
(** * What the purge deletes

    [StaleChildRowPurge.purge] against a pure reference, and the safety of what
    it deletes: only stale child rows, only when every guard allows it, and never
    a row the run refreshed. *)

From S2P Require Import Prelude PyValue PyDatetime QueueNames Database Persistence ChildRows Media.
From S2P Require Import RecordProcessing ProcessTrace ProcessSpec Reconciliation.
From stdpp Require Import base gmap strings list option sorting.
From Stdlib Require Import ZArith Lia.

(** ** The reference *)

Section reference.
Context (cfg : purge_config).

(** Whether a table's stale rows may be deleted. *)
Definition purgeable (t : child_table) (b : Z) (d : db) : bool :=
  negb (count_all t d =? 0)%Z && negb (count_stale t b d =? 0)%Z && negb (reaches_cap cfg (count_stale t b d) (count_all t d)).

Definition purged_table (t : child_table) (b : Z) (d : db) : db :=
  if purgeable t b d then delete_stale t b d else d.

Definition purged_count (t : child_table) (b : Z) (d : db) : Z :=
  if purgeable t b d then count_stale t b d else 0.

Definition purged (b : Z) (d : db) : db := foldl (fun d t => purged_table t b d) d (tables cfg).

Fixpoint purged_counts (ts : list child_table) (b : Z) (d : db) : list (string * Z) :=
  match ts with
  | [] => []
  | t :: ts' => (qualified t, purged_count t b d) :: purged_counts ts' b (purged_table t b d)
  end.
End reference.

(** The databases agree outside the two child tables. *)
Definition same_but_children (d d' : db) : Prop :=
  (forall t, entity_rows t d' = entity_rows t d) /\ identity_link_events d' = identity_link_events d /\
  provider_aliases d' = provider_aliases d /\ media_family d' = media_family d /\ medium d' = medium d /\
  issued_on d' = issued_on d.

Section purge_facts.
Context `{Postgres} (cfg : purge_config).

Lemma fetch_count_run s answer se n se' :
  fetch_count s answer se = (Ok n, se') ->
  n = answer (s_db se) /\ s_now se' = s_now se /\ effect (s_now se) s (s_db se) = Ok (s_db se').
Proof.
  unfold fetch_count. intros Hrun. run_inv.
  match goal with Hx : execute _ _ = (Ok ?u, _) |- _ => destruct u; apply execute_ok in Hx as (_ & He & Hn & _) end. done.
Qed.

Lemma purge_table_run t b se n se' :
  purge_table cfg t b se = (Ok n, se') ->
  n = purged_count cfg t b (s_db se) /\ s_db se' = purged_table cfg t b (s_db se).
Proof.
  unfold purge_table. intros Hrun. apply comp_bind_ok in Hrun as (total & se1 & R1 & Hrun).
  apply fetch_count_run in R1 as (-> & _ & [= E1]).
  unfold purged_count, purged_table, purgeable.
  destruct (count_all t (s_db se) =? 0)%Z; [by injection Hrun as <- <-|].
  apply comp_bind_ok in Hrun as (stale & se2 & R2 & Hrun).
  apply fetch_count_run in R2 as (-> & _ & [= E2]). rewrite <- E1 in *.
  destruct (count_stale t b (s_db se) =? 0)%Z; [by injection Hrun as <- <-|].
  destruct (reaches_cap cfg _ _); [by injection Hrun as <- <-|].
  apply fetch_count_run in Hrun as (-> & _ & [= E3]). by rewrite <- E3, <- E2.
Qed.

Lemma purge_tables_run ts b se l se' :
  purge_tables cfg ts b se = (Ok l, se') ->
  l = purged_counts cfg ts b (s_db se) /\ s_db se' = foldl (fun d t => purged_table cfg t b d) (s_db se) ts.
Proof.
  revert se l. induction ts as [|t ts IH]; intros se l; simpl; [by intros [= <- <-]|].
  intros Hrun. apply comp_bind_ok in Hrun as (n & se1 & R1 & Hrun).
  apply comp_bind_ok in Hrun as (rest & se2 & R2 & [= <- <-]).
  apply purge_table_run in R1 as [-> E1]. apply IH in R2 as [-> E2]. by rewrite E2, E1.
Qed.

(** A purge that returns either did nothing, or ran unvetoed on a boundary. *)
Lemma purge_ok connected st se l st' se' :
  purge cfg connected (st, se) = (Ok l, (st', se')) ->
  match veto_reason cfg st, boundary st with
  | None, Some b =>
      has_admission cfg = true /\ connected = None /\ l = purged_counts cfg (tables cfg) b (s_db se) /\
      s_db se' = purged cfg b (s_db se) /\ st' = settle (Some b) st
  | _, _ => l = [] /\ se' = se /\ st' = if is_latched cfg st then settle (boundary st) st else st
  end.
Proof.
  unfold purge. destruct (veto_reason cfg st) as [v|] eqn:Ev; [by intros [= <- <- <-]|].
  destruct (boundary st) as [b|] eqn:Eb.
  - destruct (has_admission cfg); [|done]. destruct connected; [done|].
    destruct (transaction _ se) as [[l1|e] se1] eqn:Et; [|done]. intros [= <- <- <-].
    apply transaction_ok, purge_tables_run in Et as [-> Hd]. done.
  - intros [= <- <- <-]. unfold is_latched. by rewrite Eb.
Qed.

Lemma unvetoed_latched st : veto_reason cfg st = None -> is_latched cfg st = true.
Proof. unfold veto_reason. by destruct (is_latched cfg st). Qed.

Lemma latched_boundary st : is_latched cfg st = true -> is_Some (boundary st).
Proof. unfold is_latched. rewrite andb_true_iff, !bool_decide_eq_true. intros [? _]. by destruct (boundary st). Qed.

(** What an unvetoed state has collected. *)
Lemma unvetoed st :
  veto_reason cfg st = None ->
  exists b, boundary st = Some b /\ expected_data_types cfg ⊆ signalled st /\
    settled_boundary st <> Some b /\ dead_lettered st = ∅ /\
    forall dt c, signals st !! dt = Some c -> exists n, c = Some n /\ n <> 0%Z.
Proof.
  intros Hv. pose proof (unvetoed_latched _ Hv) as Hl. destruct (latched_boundary _ Hl) as [b Hb].
  exists b. unfold veto_reason in Hv. rewrite Hl in Hv.
  unfold is_latched in Hl. rewrite andb_true_iff, !bool_decide_eq_true in Hl.
  destruct (bool_decide (settled_boundary st <> None) && _) eqn:Es; [done|].
  case_decide as Hdl; [|done]. destruct (empty_types st) eqn:Ee; [|done].
  split_and!; [done|tauto| |done|].
  - intros Hs. rewrite andb_false_iff, !bool_decide_eq_false in Es. rewrite Hs, Hb in Es. destruct Es; [|done]. naive_solver.
  - intros dt c Hc. destruct (decide (c = None \/ c = Some 0%Z)) as [Hz|Hz]; [|destruct c as [n|]; naive_solver].
    exfalso. assert (dt ∈ empty_types st) as Hin; [|rewrite Ee in Hin; by apply not_elem_of_nil in Hin].
    unfold empty_types. rewrite elem_of_sorted, elem_of_elements, elem_of_dom. exists c.
    by apply map_lookup_filter_Some.
Qed.

Lemma delete_stale_same t b d : same_but_children d (delete_stale t b d).
Proof. destruct t; repeat split; by intros []. Qed.

Lemma purged_table_same t b d : same_but_children d (purged_table cfg t b d).
Proof. unfold purged_table. destruct (purgeable cfg t b d); [apply delete_stale_same|by repeat split]. Qed.

Lemma same_but_children_trans d1 d2 d3 :
  same_but_children d1 d2 -> same_but_children d2 d3 -> same_but_children d1 d3.
Proof.
  intros (E1 & E2 & E3 & E4 & E5 & E6) (F1 & F2 & F3 & F4 & F5 & F6).
  split_and!; [intros t; by rewrite F1|congruence..].
Qed.

(** One table's purge keeps every fresh row, and what it keeps is unchanged. *)
Lemma purged_table_rows t b d :
  relationships (purged_table cfg t b d) ⊆ relationships d /\ external_links (purged_table cfg t b d) ⊆ external_links d /\
  (forall k r, relationships d !! k = Some r -> (b <= rel_updated_at r)%Z -> relationships (purged_table cfg t b d) !! k = Some r) /\
  (forall k u, external_links d !! k = Some u -> (b <= u)%Z -> external_links (purged_table cfg t b d) !! k = Some u).
Proof.
  unfold purged_table. destruct (purgeable cfg t b d); [|done].
  destruct t; simpl; split_and!; try done; try apply map_filter_subseteq;
    intros k r Hr Hb; apply map_lookup_filter_Some; split; [done|simpl; lia|done|simpl; lia].
Qed.

Lemma purged_rows b d :
  same_but_children d (purged cfg b d) /\
  relationships (purged cfg b d) ⊆ relationships d /\ external_links (purged cfg b d) ⊆ external_links d /\
  (forall k r, relationships d !! k = Some r -> (b <= rel_updated_at r)%Z -> relationships (purged cfg b d) !! k = Some r) /\
  (forall k u, external_links d !! k = Some u -> (b <= u)%Z -> external_links (purged cfg b d) !! k = Some u).
Proof.
  unfold purged. revert d. induction (tables cfg) as [|t ts IH]; intros d; simpl; [by repeat split|].
  destruct (IH (purged_table cfg t b d)) as (S2 & R2 & L2 & K2 & M2).
  destruct (purged_table_rows t b d) as (R1 & L1 & K1 & M1).
  split_and!; [eapply same_but_children_trans; [apply purged_table_same|done]|by etrans|by etrans|auto|auto].
Qed.

(** A raise leaves the database and the latch as they were. *)
Lemma purge_raise connected st se e st' se' :
  purge cfg connected (st, se) = (Raise e, (st', se')) -> st' = st /\ s_db se' = s_db se.
Proof.
  unfold purge. repeat (case_match; simplify_eq; try done); intros [= <- <- <-]; split; try done.
  by eapply transaction_raise.
Qed.

(** Every outcome of a purge keeps the rows at or after its boundary. *)
Lemma purge_keeps_fresh connected st se r st' se' b :
  purge cfg connected (st, se) = (r, (st', se')) -> boundary st = Some b ->
  (forall k r, relationships (s_db se) !! k = Some r -> (b <= rel_updated_at r)%Z ->
     relationships (s_db se') !! k = Some r) /\
  (forall k u, external_links (s_db se) !! k = Some u -> (b <= u)%Z -> external_links (s_db se') !! k = Some u).
Proof.
  intros Hrun Hb. destruct r as [l|e]; [|by apply purge_raise in Hrun as [_ ->]].
  apply purge_ok in Hrun. rewrite Hb in Hrun. destruct (veto_reason cfg st).
  - by destruct Hrun as (_ & -> & _).
  - destruct Hrun as (_ & _ & _ & -> & _). by apply purged_rows.
Qed.

(** C2: the purge is safe. Whatever its outcome, it never touches a table but
    the two child tables, only removes rows from those, and keeps unchanged
    every row updated at or after the boundary. And when it removes anything at
    all, it returned, every expected type had signalled for the boundary with a
    positive or negative but never zero or missing count, no record was
    dead-lettered, the boundary was not yet settled, and it is settled now. A
    purge that raises leaves the latch too as it was, to be tried again. *)
Theorem purge_safe connected st se r st' se' :
  purge cfg connected (st, se) = (r, (st', se')) ->
  same_but_children (s_db se) (s_db se') /\
  relationships (s_db se') ⊆ relationships (s_db se) /\ external_links (s_db se') ⊆ external_links (s_db se) /\
  (forall b, boundary st = Some b ->
    (forall k r, relationships (s_db se) !! k = Some r -> (b <= rel_updated_at r)%Z ->
       relationships (s_db se') !! k = Some r) /\
    (forall k u, external_links (s_db se) !! k = Some u -> (b <= u)%Z -> external_links (s_db se') !! k = Some u)) /\
  (is_ok r = false -> st' = st) /\
  (s_db se' <> s_db se ->
    is_ok r = true /\ has_admission cfg = true /\ connected = None /\
    exists b, boundary st = Some b /\ expected_data_types cfg ⊆ signalled st /\ settled_boundary st <> Some b /\
      dead_lettered st = ∅ /\ (forall dt c, signals st !! dt = Some c -> exists n, c = Some n /\ n <> 0%Z) /\
      settled_boundary st' = Some b).
Proof.
  assert (forall d, same_but_children d d) as Hsame by done.
  intros Hrun. destruct r as [l|e].
  - apply purge_ok in Hrun. destruct (veto_reason cfg st) as [v|] eqn:Ev.
    { destruct Hrun as (-> & -> & ->). done. }
    destruct (unvetoed _ Ev) as (b & Hb & Hu). rewrite Hb in Hrun |- *.
    destruct Hrun as (Ha & -> & -> & -> & ->). destruct (purged_rows b (s_db se)) as (S & R & L & K & M).
    split_and!; [done|done|done|by intros ? [= <-]|done|]. intros _. split_and!; [done|done|done|].
    exists b. destruct Hu as (? & ? & ? & ?). done.
  - by apply purge_raise in Hrun as [-> ->].
Qed.

(** On a server that answers, the statements of a purge run to the end. *)
Definition answers : Prop := forall s d, pg_error s d = None.

Lemma fetch_count_total s answer se :
  answers -> (forall d, exists d', effect (s_now se) s d = Ok d') ->
  exists se', fetch_count s answer se = (Ok (answer (s_db se)), se').
Proof.
  intros Hpg He. unfold fetch_count, mbind, comp_bind, reads, execute. rewrite Hpg.
  destruct (He (s_db se)) as [d' ->]. simpl. by eexists.
Qed.

Lemma purge_table_total t b se : answers -> exists n se', purge_table cfg t b se = (Ok n, se').
Proof.
  intros Hpg. unfold purge_table.
  destruct (fetch_count_total (CountAll t) (count_all t) se Hpg) as [se1 R1]; [by eauto|].
  rewrite (comp_bind_run _ _ _ _ _ R1). destruct (count_all t (s_db se) =? 0)%Z; [by do 2 eexists|].
  destruct (fetch_count_total (CountStale t b) (count_stale t b) se1 Hpg) as [se2 R2]; [by eauto|].
  rewrite (comp_bind_run _ _ _ _ _ R2). destruct (count_stale t b (s_db se1) =? 0)%Z; [by do 2 eexists|].
  destruct (reaches_cap _ _ _); [by do 2 eexists|].
  destruct (fetch_count_total (DeleteStale t b) (count_stale t b) se2 Hpg) as [se3 R3]; [by eauto|].
  eauto.
Qed.

Lemma purge_tables_total ts b se : answers -> exists l se', purge_tables cfg ts b se = (Ok l, se').
Proof.
  intros Hpg. revert se. induction ts as [|t ts IH]; intros se; simpl; [by do 2 eexists|].
  destruct (purge_table_total t b se Hpg) as (n & se1 & R1). rewrite (comp_bind_run _ _ _ _ _ R1).
  destruct (IH se1) as (l & se2 & R2). rewrite (comp_bind_run _ _ _ _ _ R2). by do 2 eexists.
Qed.

(** C11: the purge refines its reference. Given a write slot, a connection and a
    server that answers, [purge] always returns. A vetoed one returns no counts
    and leaves the database alone; an unvetoed one returns, table by table, the
    count the reference deletes, and leaves the reference's database: both
    tables are judged and purged in order, each against its own counts. Either
    way a latched boundary is settled and its dead letters are forgotten. *)
Theorem purge_refines st se :
  answers -> has_admission cfg = true ->
  exists l se', purge cfg None (st, se) = (Ok l, (if is_latched cfg st then settle (boundary st) st else st, se')) /\
    match veto_reason cfg st, boundary st with
    | None, Some b => l = purged_counts cfg (tables cfg) b (s_db se) /\ s_db se' = purged cfg b (s_db se)
    | _, _ => l = [] /\ se' = se
    end.
Proof.
  intros Hpg Ha. unfold purge. destruct (veto_reason cfg st) as [v|] eqn:Ev; [by exists [], se|].
  rewrite (unvetoed_latched _ Ev). destruct (unvetoed _ Ev) as (b & Hb & _). rewrite Hb, Ha.
  destruct (purge_tables_total (tables cfg) b se Hpg) as (l & se' & Hrun).
  assert (transaction (purge_tables cfg (tables cfg) b) se = (Ok l, se')) as -> by (by apply transaction_ok).
  exists l, se'. split; [done|]. by apply purge_tables_run.
Qed.

Lemma settled_veto st b :
  is_latched cfg st = true -> boundary st = Some b -> settled_boundary st = Some b ->
  veto_reason cfg st = Some AlreadySettled.
Proof.
  intros Hl Hb Hs. unfold veto_reason. rewrite Hl, Hs, Hb. by rewrite !bool_decide_eq_true_2.
Qed.

(** One boundary is decided once. After a purge returned on a latched
    boundary, whether it deleted or was vetoed, the same boundary is settled:
    every later purge of it, at any state of the tables, deletes nothing. *)
Theorem purge_once connected st se l st' se' :
  is_latched cfg st = true ->
  purge cfg connected (st, se) = (Ok l, (st', se')) ->
  is_settled st' = true /\ forall connected' se2, purge cfg connected' (st', se2) = (Ok [], (st', se2)).
Proof.
  intros Hl Hrun. apply purge_ok in Hrun. destruct (latched_boundary _ Hl) as [b Hb].
  assert (st' = settle (Some b) st) as ->.
  { rewrite Hl, Hb in Hrun. destruct (veto_reason cfg st); tauto. }
  split; [unfold is_settled, settle; simpl; by rewrite Hb, !bool_decide_eq_true_2|].
  intros connected' se2. unfold purge.
  assert (is_latched cfg (settle (Some b) st) = true) as Hl' by exact Hl.
  rewrite (settled_veto (settle (Some b) st) b Hl' Hb eq_refl), Hl'. unfold settle. simpl. by rewrite Hb.
Qed.
End purge_facts.

(** ** The loader's own rows survive *)

Section survival.
Context `{PyRepr} `{Postgres} `{Common} (cfg : purge_config).

(** C30: the rows of a processed record survive the purge. A record processed
    with the refreshing statements, in a transaction that began at or after the
    boundary, keeps every relationship and every external link it names through
    any later purge of that boundary, whatever the purge's outcome. *)
Theorem processed_rows_survive dt p c record w w' rels links connected st se r st' se' b :
  processor_of true dt = Some p -> contract_of dt = Some c ->
  p record w = (Ok tt, w') ->
  relationship_rows (mbid_of record) (ec_child_type c) (get_default record "relations" (VList [])) = Ok rels ->
  external_link_rows (mbid_of record) (ec_child_type c) (get_default record "external_links" (VList [])) = Ok links ->
  s_db se = db_of w' -> boundary st = Some b -> (b <= now_of w)%Z ->
  purge cfg connected (st, se) = (r, (st', se')) ->
  (forall k, entries_for k (map relationship_params rels) <> [] -> is_Some (relationships (s_db se') !! k)) /\
  (forall k, k ∈ omap link_key_of (map (fun row => Plain <$> row) links) -> is_Some (external_links (s_db se') !! k)).
Proof.
  intros Hp Hc Hrun Hr Hl Hse Hb Hbn Hpurge. pose proof (processed_children_eq _ _ _ _ _ _ _ Hp Hc Hrun) as
    (rels' & links' & Hr' & Hl' & Hrel & Hlink).
  rewrite Hr in Hr'. rewrite Hl in Hl'. injection Hr' as <-. injection Hl' as <-.
  destruct (purge_keeps_fresh _ _ _ _ _ _ _ _ Hpurge Hb) as [Kr Kl]. split; intros k Hk.
  - specialize (Hrel k). rewrite <- Hse in Hrel. unfold batch_row in Hrel.
    destruct (entries_for k _) as [|e es]; [done|]. simpl head in Hrel.
    destruct (last (e :: es)) as [f|] eqn:Ef; [|by apply last_None in Ef].
    eexists. eapply Kr; [exact Hrel|]. simpl. destruct (relationships (db_of w) !! k); exact Hbn.
  - specialize (Hlink k). rewrite <- Hse in Hlink. rewrite (bool_decide_eq_true_2 _ Hk) in Hlink. simpl in Hlink.
    eexists. eapply Kl; [exact Hlink|]. destruct (external_links (db_of w) !! k); exact Hbn.
Qed.
End survival.
