(* ===== verification/Interleaving.v ===== *)
(** * The purge under the event loop

    [StaleChildRowPurge.purge] awaits between its veto check and its settlement,
    and other deliveries run meanwhile. Here a purge is two steps, the check that
    begins it and the transaction and settlement that end it, and a run of the
    event loop interleaves them with signals, dead-letter marks and the writes of
    other deliveries. *)

From S2P Require Import Prelude PyValue PyDatetime QueueNames Database Persistence Reconciliation Latch PurgeSafety.
From stdpp Require Import base gmap strings list option sorting.
From Stdlib Require Import ZArith Lia.

(** The purge object, the database, and the [purge] calls past their veto check,
    each with the boundary it captured. *)
Record loop : Type := Loop {
  l_purge : purge_state;
  l_db : db;
  l_running : gmap nat Z;
}.

Inductive loop_event : Type :=
| Signalled (data_type : string) (message : dict)
| Marked (data_type : string)
| Wrote (now : Z) (s : statement)     (** another delivery's statement takes effect *)
| Begins (id : nat)                   (** [purge] up to its first await *)
| Commits (id : nat) (now : Z)        (** its transaction, and what follows *)
| Fails (id : nat).                   (** it raised: taking a slot, or in the transaction *)

Section loop.
Context `{Postgres} (cfg : purge_config).

(** [purge] from its call to its first await. *)
Definition purge_begins (id : nat) (l : loop) : loop * option decision :=
  match l_running l !! id, veto_reason cfg (l_purge l), boundary (l_purge l) with
  | Some _, _, _ => (l, None)
  | None, Some _, _ =>
      let '(st, d) := decide_latch cfg (l_purge l) in (Loop st (l_db l) (l_running l), d)
  | None, None, Some b =>
      if has_admission cfg then (Loop (l_purge l) (l_db l) (<[id := b]> (l_running l)), None) else (l, None)
  | None, None, None => (l, None)
  end.

(** [purge] from its transaction to its return. *)
Definition purge_commits (id : nat) (now : Z) (l : loop) : loop * option decision :=
  match l_running l !! id with
  | Some b =>
      match transaction (purge_tables cfg (tables cfg) b) (Session (l_db l) now []) with
      | (Ok _, se) => (Loop (settle (Some b) (l_purge l)) (s_db se) (delete id (l_running l)), Some (Decision_ b None))
      | (Raise _, _) => (Loop (l_purge l) (l_db l) (delete id (l_running l)), None)
      end
  | None => (l, None)
  end.

Definition loop_step (l : loop) (e : loop_event) : loop * option decision :=
  match e with
  | Signalled dt m => (Loop (record_completion dt m (l_purge l)) (l_db l) (l_running l), None)
  | Marked dt => (Loop (record_dead_letter dt (l_purge l)) (l_db l) (l_running l), None)
  | Wrote now s =>
      (match effect now s (l_db l) with Ok d => Loop (l_purge l) d (l_running l) | Raise _ => l end, None)
  | Begins id => purge_begins id l
  | Commits id now => purge_commits id now l
  | Fails id => (Loop (l_purge l) (l_db l) (delete id (l_running l)), None)
  end.

Fixpoint loop_run (l : loop) (es : list loop_event) : loop * list decision :=
  match es with
  | [] => (l, [])
  | e :: es' =>
      let '(l1, d) := loop_step l e in
      let '(l2, ds) := loop_run l1 es' in
      (l2, from_option (fun d => [d]) [] d ++ ds)
  end.

(** ** A purge nothing interrupts is the purge *)

(** The two steps refine the one. A purge whose transaction follows its veto
    check with nothing between leaves the latch and the database that [purge]
    leaves, whether it is vetoed, deletes, or is refused by the server. *)
Theorem uninterrupted_purge id now l :
  l_running l !! id = None -> has_admission cfg = true ->
  let l' := (loop_run l [Begins id; Commits id now]).1 in
  let '(_, (st, se)) := purge cfg None (l_purge l, Session (l_db l) now []) in
  l_purge l' = st /\ l_db l' = s_db se /\ l_running l' = l_running l.
Proof.
  intros Hr Ha. simpl. unfold purge_begins, purge. rewrite Hr.
  destruct (veto_reason cfg (l_purge l)) as [v|] eqn:Ev.
  - destruct (decide_latch cfg (l_purge l)) as [st d] eqn:Ed. unfold purge_commits. simpl. rewrite Hr. simpl.
    unfold decide_latch in Ed. destruct (is_latched cfg (l_purge l)); by injection Ed as <- _.
  - destruct (unvetoed cfg _ Ev) as (b & Hb & _). rewrite Hb, Ha. unfold purge_commits. simpl. rewrite lookup_insert_eq.
    destruct (transaction _ _) as [[del|e] se] eqn:Et; simpl; rewrite delete_insert_id by done; [done|].
    by rewrite (transaction_raise _ _ _ _ Et).
Qed.

(** ** Marks made in flight *)

Lemma loop_run_app l es1 es2 :
  loop_run l (es1 ++ es2) =
    let '(l1, ds1) := loop_run l es1 in let '(l2, ds2) := loop_run l1 es2 in (l2, ds1 ++ ds2).
Proof.
  revert l. induction es1 as [|e es1 IH]; intros l; simpl; [by destruct (loop_run l es2)|].
  destruct (loop_step l e) as [l1 d]. rewrite IH. destruct (loop_run l1 es1) as [l2 ds1], (loop_run l2 es2).
  by rewrite app_assoc.
Qed.

(** Marks change nothing but the set of marks. *)
Lemma marks_run dts l :
  loop_run l (map Marked dts) =
    (Loop (PurgeState (boundary (l_purge l)) (signals (l_purge l)) (list_to_set (reverse dts) ∪ dead_lettered (l_purge l))
             (settled_boundary (l_purge l))) (l_db l) (l_running l), []).
Proof.
  revert l. induction dts as [|t dts IH]; intros [st d run]; simpl.
  { rewrite union_empty_l_L. by destruct st. }
  rewrite IH. simpl. rewrite reverse_cons, list_to_set_app_L. simpl. do 3 f_equal. clear. set_solver.
Qed.

Lemma commit_settles id now l b :
  answers -> l_running l !! id = Some b ->
  exists d, purge_commits id now l = (Loop (settle (Some b) (l_purge l)) d (delete id (l_running l)), Some (Decision_ b None)) /\
    d = purged cfg b (l_db l).
Proof.
  intros Hpg Hr. unfold purge_commits. rewrite Hr.
  destruct (purge_tables_total cfg (tables cfg) b (Session (l_db l) now []) Hpg) as (n & se & Hrun).
  rewrite (proj2 (transaction_ok _ _ _ _) Hrun). exists (s_db se). split; [done|].
  by apply purge_tables_run in Hrun as [_ ->].
Qed.

(** C25: a rejection during a purge vetoes nothing. Marks made after the veto
    check of a running purge change neither what it deletes nor the latch it
    leaves, where they are gone: the run ends exactly as if no record had been
    rejected. Made before the check, the same marks keep every row. *)
Theorem inflight_mark_ignored id now l dts :
  answers -> has_admission cfg = true -> l_running l !! id = None -> veto_reason cfg (l_purge l) = None ->
  loop_run l (Begins id :: map Marked dts ++ [Commits id now]) = loop_run l [Begins id; Commits id now] /\
  dead_lettered (l_purge (loop_run l [Begins id; Commits id now]).1) = ∅ /\
  (dts <> [] -> l_db (loop_run l (map Marked dts ++ [Begins id; Commits id now])).1 = l_db l).
Proof.
  intros Hpg Ha Hr Hv. destruct (unvetoed cfg _ Hv) as (b & Hb & _).
  assert (purge_begins id l = (Loop (l_purge l) (l_db l) (<[id := b]> (l_running l)), None)) as Hbegin.
  { unfold purge_begins. by rewrite Hr, Hv, Hb, Ha. }
  split_and!.
  - change (Begins id :: map Marked dts ++ [Commits id now]) with ([Begins id] ++ (map Marked dts ++ [Commits id now])).
    change [Begins id; Commits id now] with ([Begins id] ++ [Commits id now]).
    rewrite !loop_run_app. simpl (loop_run l [Begins id]). rewrite Hbegin. simpl. rewrite loop_run_app, marks_run. simpl.
    do 2 (edestruct commit_settles as (? & -> & ->); [done|apply lookup_insert_eq|]). done.
  - simpl. rewrite Hbegin. simpl. edestruct commit_settles as (? & -> & ->); [done|apply lookup_insert_eq|]. done.
  - intros Hne. rewrite loop_run_app, marks_run. simpl. unfold purge_begins. simpl. rewrite Hr.
    match goal with |- context [veto_reason cfg ?st] => destruct (veto_reason cfg st) eqn:Ev end.
    + destruct (decide_latch _ _) as [st d]. simpl. unfold purge_commits. simpl. by rewrite Hr.
    + apply unvetoed in Ev as (_ & _ & _ & _ & Hdl & _). simpl in Hdl. destruct dts as [|t dts]; [done|].
      rewrite reverse_cons, list_to_set_app_L in Hdl. simpl in Hdl. exfalso. set_solver.
Qed.

(** ** Decisions *)

(** Every signal names a usable start, and a purge begins only when none runs. *)
Fixpoint orderly (l : loop) (es : list loop_event) : Prop :=
  match es with
  | [] => True
  | e :: es' =>
      match e with
      | Signalled _ m => is_Some (parse_started_at (get m "started_at"))
      | Begins _ => l_running l = ∅
      | _ => True
      end /\ orderly (loop_step l e).1 es'
  end.

(** What is settled is behind what runs, and what runs is not ahead of what is
    collected. *)
Record loop_ordered (l : loop) : Prop := {
  lo_latch : latch_ordered (l_purge l);
  lo_single : forall i j b c, l_running l !! i = Some b -> l_running l !! j = Some c -> i = j;
  lo_running : forall i b, l_running l !! i = Some b ->
    (exists c, boundary (l_purge l) = Some c /\ (b <= c)%Z) /\
    forall s, settled_boundary (l_purge l) = Some s -> (s < b)%Z;
}.

Lemma completion_forward dt m st :
  is_Some (parse_started_at (get m "started_at")) ->
  settled_boundary (record_completion dt m st) = settled_boundary st /\
  forall c, boundary st = Some c -> exists c', boundary (record_completion dt m st) = Some c' /\ (c <= c')%Z.
Proof.
  intros [b Hb]. rewrite (record_completion_usable _ _ _ _ Hb).
  destruct (boundary st) as [b0|] eqn:E; [destruct (b <? b0)%Z eqn:Elt|]; simpl; (split; [done|]); intros c Hc;
    simplify_eq; eexists; (split; [done|]); rewrite ?Z.ltb_ge in *; lia.
Qed.

(** What a decision advances: it is after everything settled before it. *)
Definition advances (d : option decision) (l l' : loop) : Prop :=
  match d with
  | Some d => settled_boundary (l_purge l') = Some (decided_boundary d) /\
      forall s, settled_boundary (l_purge l) = Some s -> (s < decided_boundary d)%Z
  | None => settled_boundary (l_purge l') = settled_boundary (l_purge l)
  end.

Lemma begins_ordered id l l' d :
  l_running l = ∅ -> loop_ordered l -> purge_begins id l = (l', d) -> loop_ordered l' /\ advances d l l'.
Proof.
  intros Hr [Hl Hs Hrun]. unfold purge_begins. rewrite Hr, lookup_empty.
  destruct (veto_reason cfg (l_purge l)) as [v|] eqn:Ev.
  - destruct (decide_latch cfg (l_purge l)) as [st d0] eqn:Ed. intros [= <- <-].
    destruct (latch_step_ordered cfg (l_purge l) Decide st d0 I Hl Ed) as [Hl' Hd]. split; [|exact Hd].
    split; simpl; [done|..]; intros *; by rewrite lookup_empty.
  - destruct (unvetoed cfg _ Ev) as (b & Hb & _ & Hns & _). rewrite Hb.
    destruct (has_admission cfg); intros [= <- <-]; [|done]. split; [|done]. split; simpl; [done| |].
    + intros i j c c'. rewrite !lookup_insert_Some, !lookup_empty. naive_solver.
    + intros i c. rewrite lookup_insert_Some, lookup_empty. intros [[<- <-]|[_ ?]]; [|done].
      split; [exists b; split; [done|lia]|]. intros s Hset. destruct (Hl s Hset) as (b' & Hb' & Hle).
      rewrite Hb in Hb'. simplify_eq. destruct (decide (s = b')); [congruence|lia].
Qed.

Lemma commits_ordered id now l l' d :
  loop_ordered l -> purge_commits id now l = (l', d) -> loop_ordered l' /\ advances d l l'.
Proof.
  intros [Hl Hs Hrun]. unfold purge_commits. destruct (l_running l !! id) as [b|] eqn:Er; [|by intros [= <- <-]].
  assert (forall i c, delete id (l_running l) !! i = Some c -> False) as Hnone.
  { intros i c. rewrite lookup_delete_Some. intros [Hne Hc]. apply Hne. by eapply Hs. }
  destruct (Hrun _ _ Er) as [(c & Hc & Hle) Hlt].
  destruct (transaction _ _) as [[n|e] se]; intros [= <- <-]; (split; [|done]); split; simpl; try done;
    try (intros; exfalso; eauto; fail).
  intros s [= <-]. by exists c.
Qed.

Lemma loop_step_ordered l e l' d es :
  orderly l (e :: es) -> loop_ordered l -> loop_step l e = (l', d) -> loop_ordered l' /\ advances d l l'.
Proof.
  intros [Hu _] Ho. destruct e as [dt m|dt|now s|id|id now|id]; simpl in *.
  - intros [= <- <-]. destruct (completion_forward dt m (l_purge l) Hu) as [Hset Hfwd]. split; [|done].
    destruct Ho as [Hl Hs Hrun]. split; simpl; [|done|].
    + apply (latch_step_ordered cfg (l_purge l) (Signal dt m) _ None Hu Hl). done.
    + intros i b Hi. destruct (Hrun _ _ Hi) as [(c & Hc & Hle) Hlt]. rewrite Hset. split; [|done].
      destruct (Hfwd _ Hc) as (c' & Hc' & Hle'). exists c'. split; [done|lia].
  - intros [= <- <-]. split; [|done]. by destruct Ho.
  - intros [= <- <-]. destruct (effect now s (l_db l)); [|done]. split; [|done]. by destruct Ho.
  - by apply begins_ordered.
  - by apply commits_ordered.
  - intros [= <- <-]. split; [|done]. destruct Ho as [Hl Hs Hrun]. split; simpl; [done| |].
    + intros i j b c. rewrite !lookup_delete_Some. intros [_ Hi] [_ Hj]. by eapply Hs.
    + intros i b. rewrite lookup_delete_Some. intros [_ Hi]. eauto.
Qed.

Lemma loop_run_ordered es l l' ds :
  orderly l es -> loop_ordered l -> loop_run l es = (l', ds) ->
  StronglySorted Z.lt (from_option (fun s => [s]) [] (settled_boundary (l_purge l)) ++ map decided_boundary ds).
Proof.
  revert l l' ds. induction es as [|e es IH]; intros l l' ds Hes Ho; simpl.
  { intros [= <- <-]. rewrite app_nil_r. destruct (settled_boundary (l_purge l)); simpl; repeat constructor. }
  destruct (loop_step l e) as [l1 d] eqn:Es. destruct (loop_run l1 es) as [l2 ds'] eqn:Er. intros [= <- <-].
  destruct (loop_step_ordered _ _ _ _ _ Hes Ho Es) as [Ho1 Hd].
  destruct Hes as [_ Hes]. rewrite Es in Hes. specialize (IH _ _ _ Hes Ho1 Er).
  destruct d as [d|]; simpl in *; [|by rewrite <- Hd].
  destruct Hd as [Hs1 Hlt]. rewrite Hs1 in IH. simpl in IH.
  destruct (settled_boundary (l_purge l)) as [s|] eqn:Es0; simpl; [|done].
  constructor; [done|]. specialize (Hlt s eq_refl). constructor; [done|].
  inversion_clear IH as [|? ? _ HF]. eapply Forall_impl; [exact HF|]. simpl. intros. lia.
Qed.

(** C12: every boundary is decided at most once, in order, under the event loop.
    Over any interleaving of signals with usable starts, rejections, writes of
    other deliveries, purges that begin, commit and fail, in which one purge runs
    at a time, the boundaries the latch decides strictly increase, although a
    newer extraction may be collected while an older one's purge is in flight. *)
Theorem interleaved_decisions_increase d es :
  orderly (Loop initial_purge d ∅) es ->
  StronglySorted Z.lt (map decided_boundary (loop_run (Loop initial_purge d ∅) es).2).
Proof.
  intros Hes. destruct (loop_run _ es) as [l ds] eqn:E.
  apply (loop_run_ordered es _ l ds Hes); [|done]. split; simpl; [by intros ?|..]; intros *; by rewrite lookup_empty.
Qed.
End loop.
