(* ===== verification/Delivery.v ===== *)
(** * Deliveries

    [brainztableinator/brainztableinator.py] from a broker delivery to its
    settlement: the handout count, the failure classifier, the handler of one
    message with its transaction, the reconciliation it triggers, and what
    [on_data_message] does with the result. A settlement may itself fail: then
    [on_data_message] raises, and nothing after the runner runs. [common]'s [run_delivery] and
    [is_permanent_operational_error] are the class [Shared]; what the broker, the
    pool and the database answer to one delivery is the record [answers_]. *)

From S2P Require Import Prelude PyValue QueueNames PurgeVeto Consumers Database Persistence Media.
From S2P Require Import RecordProcessing Reconciliation.
From stdpp Require Import base gmap strings list option sorting.
From Stdlib Require Import ZArith Lia.

(** ** Results *)

Inductive settlement : Type := ACK | REJECT | REQUEUE | DEFER.

#[export] Instance settlement_eq_dec : EqDecision settlement.
Proof. solve_decision. Defined.

Record delivery_result : Type := DeliveryResult {
  dr_settlement : settlement;
  dr_outcome : string;
  dr_error_type : option string;
}.

#[export] Instance delivery_result_eq_dec : EqDecision delivery_result.
Proof. solve_decision. Defined.

Inductive failure_kind : Type := TRANSIENT | DETERMINISTIC.

#[export] Instance failure_kind_eq_dec : EqDecision failure_kind.
Proof. solve_decision. Defined.

(** ** The process *)

Inductive backoff_event : Type := BackoffWait | BackoffReset.

Record process : Type := Process {
  p_db : db;
  p_latch : latch_table;
  p_trace : list statement;
  p_observed : list observation;
  p_summary : summary;
  p_consumers : consumers;
  stale_row_purge : option purge_state;
  connection_pool : bool;
  write_admission : bool;
  shutdown_requested : bool;
  p_backoff : list backoff_event;
  p_alerts : list Z;               (** the consecutive-veto gauge's readings *)
}.

Definition set_p_db d p := Process d (p_latch p) (p_trace p) (p_observed p) (p_summary p) (p_consumers p)
  (stale_row_purge p) (connection_pool p) (write_admission p) (shutdown_requested p) (p_backoff p) (p_alerts p).
Definition set_p_latch l p := Process (p_db p) l (p_trace p) (p_observed p) (p_summary p) (p_consumers p)
  (stale_row_purge p) (connection_pool p) (write_admission p) (shutdown_requested p) (p_backoff p) (p_alerts p).
Definition set_p_consumers c p := Process (p_db p) (p_latch p) (p_trace p) (p_observed p) (p_summary p) c
  (stale_row_purge p) (connection_pool p) (write_admission p) (shutdown_requested p) (p_backoff p) (p_alerts p).
Definition set_purge s p := Process (p_db p) (p_latch p) (p_trace p) (p_observed p) (p_summary p) (p_consumers p)
  s (connection_pool p) (write_admission p) (shutdown_requested p) (p_backoff p) (p_alerts p).
Definition set_run d tr obs sm p := Process d (p_latch p) tr obs sm (p_consumers p)
  (stale_row_purge p) (connection_pool p) (write_admission p) (shutdown_requested p) (p_backoff p) (p_alerts p).
Definition add_backoff e p := Process (p_db p) (p_latch p) (p_trace p) (p_observed p) (p_summary p) (p_consumers p)
  (stale_row_purge p) (connection_pool p) (write_admission p) (shutdown_requested p) (p_backoff p ++ [e]) (p_alerts p).
Definition add_alert n p := Process (p_db p) (p_latch p) (p_trace p) (p_observed p) (p_summary p) (p_consumers p)
  (stale_row_purge p) (connection_pool p) (write_admission p) (shutdown_requested p) (p_backoff p) (p_alerts p ++ [n]).

Abbreviation run A := (comp process exn A).

(** What the outside answers while one delivery is handled. [None] is success. *)
Record answers_ : Type := Answers {
  an_now : Z;                              (** [NOW()] of the transaction *)
  an_time : Z;                             (** [time.time()] *)
  an_monotonic : Z;
  an_connects : option exn;                (** the write slot and the pooled connection *)
  an_commits : option exn;
  an_dead_letters : string -> option Z;    (** the passive declare of a dead-letter queue *)
  an_latch_reads : option exn;
  an_latch_writes : option exn;
  an_purge_connects : option exn;
  an_history : option exn;
  an_settles : settlement -> option exn;   (** the message's own [ack] or [nack] *)
}.

(** ** The handout count *)

(** [_broker_handouts]; [None] for headers that are not a mapping. *)
Definition broker_handouts (headers : option dict) : Z :=
  match headers with
  | None => 0
  | Some h =>
      let counts := omap as_int [get h "x-acquired-count"; get h "x-delivery-count"] in
      match counts with [] => 0 | c :: cs => foldl Z.max c cs end
  end.

Definition MAX_REQUEUES : Z := 500.
Definition PURGE_VETO_ALERT_RUNS : Z := 2.

(** ** The classifier *)

Class Shared : Type := {
  (** [common.is_permanent_operational_error] *)
  is_permanent_operational_error : exn -> bool;
  (** [common.run_delivery]: the handler, the classifier, the wait, and what the
      message answers to its settlement. *)
  run_delivery : run delivery_result -> (exn -> failure_kind) -> run unit -> (settlement -> option exn) ->
                 run delivery_result;
}.

(** The settlement of a result: the result, or what the message's [ack] or
    [nack] raised. *)
Definition settling (settles : settlement -> option exn) (r : delivery_result) : result exn delivery_result :=
  match settles (dr_settlement r) with None => Ok r | Some e => Raise e end.

Section delivery.
Context `{PyRepr} `{Postgres} `{Common} `{Collation} `{Shared}.
(** The purge's construction, the writer's refresh and [CONSUMER_CANCEL_DELAY]. *)
Context (cfg : purge_config) (refresh_updated_at : bool) (CONSUMER_CANCEL_DELAY : Z).

(** [_MusicBrainzFailureClassifier._classify] *)
Definition classify (error : exn) : failure_kind :=
  if is_permanent_operational_error error then DETERMINISTIC
  else match error with
       | InterfaceError | OperationalError _ | DatabaseUnavailableError => TRANSIENT
       | DataError | IntegrityError => DETERMINISTIC
       | _ => TRANSIENT
       end.

(** [_MusicBrainzFailureClassifier.__call__] *)
Definition classifier (handouts : Z) (error : exn) : failure_kind :=
  match classify error with
  | TRANSIENT => if (MAX_REQUEUES <=? handouts)%Z then DETERMINISTIC else TRANSIENT
  | DETERMINISTIC => DETERMINISTIC
  end.

Definition wait_before_requeue : run unit := modifies (add_backoff BackoffWait).

(** ** Vetoes *)

Definition mark_dead_letter (data_type : string) : run unit :=
  modifies (fun p => set_purge (record_dead_letter data_type <$> stale_row_purge p) p).

(** [dead_letters_waiting] *)
Definition dead_letters_waiting (an : answers_) (p : process) (data_type : string) : option Z :=
  if active_connection (p_consumers p) then an_dead_letters an data_type else None.

Definition raises (e : option exn) : run unit :=
  match e with Some e => raise e | None => mret tt end.

(** [_settle_purge_veto], for the purge state [st] the process holds. *)
Definition settle_purge_veto (an : answers_) (data : dict) : run unit := fun p =>
  match stale_row_purge p with
  | None => (Ok tt, p)
  | Some st =>
      if is_settled st then (Ok tt, p)
      else
        (for_each (sorted (elements (expected_data_types cfg))) (fun t =>
           reads (fun p => dead_letters_waiting an p t) ≫= fun waiting =>
           match waiting with
           | Some 0%Z => mret tt
           | Some n => if (0 <? n)%Z then mark_dead_letter t else mret tt
           | None => mark_dead_letter t
           end) ≫= fun _ =>
         match connection_pool p, extraction_key data with
         | true, Some version =>
             if write_admission p then
               raises (an_latch_reads an) ≫= fun _ =>
               reads (fun p => recorded_vetoes (p_latch p) version) ≫= fun recorded =>
               for_each recorded mark_dead_letter ≫= fun _ =>
               raises (an_latch_writes an) ≫= fun _ =>
               modifies (fun p =>
                 let vetoed := sorted (elements (default ∅ (dead_lettered <$> stale_row_purge p))) in
                 set_p_latch (record_extraction (p_latch p) version vetoed) p)
             else raise DatabaseUnavailableError
         | _, _ => mret tt
         end) p
  end.

(** [_report_purge_vetoes] *)
Definition report_purge_vetoes (an : answers_) : run unit := fun p =>
  if connection_pool p && write_admission p then
    match an_history an with
    | Some _ => (Ok tt, p)
    | None => (Ok tt, add_alert (consecutive_vetoes (p_latch p)) p)
    end
  else (Ok tt, p).

(** [purge.purge()] on the process's database. *)
Definition run_purge (an : answers_) : run unit := fun p =>
  match stale_row_purge p with
  | None => (Ok tt, p)
  | Some st =>
      match purge cfg (an_purge_connects an) (st, Session (p_db p) (an_now an) (p_trace p)) with
      | (r, (st', se)) =>
          (match r with Ok _ => Ok tt | Raise e => Raise e end,
           set_run (s_db se) (s_trace se) (p_observed p) (p_summary p) (set_purge (Some st') p))
      end
  end.

(** [_reconcile_deleted_child_rows] *)
Definition reconcile_deleted_child_rows (an : answers_) (data_type : string) (data : dict) : run bool := fun p =>
  match stale_row_purge p with
  | None => (Ok true, p)
  | Some st =>
      let st := record_completion data_type data st in
      let p := set_purge (Some st) p in
      if is_latched cfg st then
        match (settle_purge_veto an data ≫= fun _ => run_purge an) p with
        | (Raise _, p) => (Ok false, p)
        | (Ok _, p) =>
            (modifies (add_backoff BackoffReset) ≫= fun _ => report_purge_vetoes an ≫= fun _ => mret true) p
        end
      else (Ok true, p)
  end.

(** ** One message *)

(** [_reject] *)
Definition reject (data_type error_type : string) : run delivery_result :=
  mark_dead_letter data_type ≫= fun _ => mret (DeliveryResult REJECT "failed" (Some error_type)).

Definition on_consumers (f : consumers -> consumers) : run unit :=
  modifies (fun p => set_p_consumers (f (p_consumers p)) p).

(** [if CONSUMER_CANCEL_DELAY > 0 and data_type in queues: await schedule_...] *)
Definition arm_timer (data_type : string) (c : consumers) : consumers :=
  if (0 <? CONSUMER_CANCEL_DELAY)%Z && bool_decide (data_type ∈ queues c)
  then schedule_consumer_cancellation data_type c else c.

(** The write slot, the connection and the transaction around a processor. *)
Definition process_in_transaction (an : answers_) (processor : dict -> proc unit) (data : dict) : run unit := fun p =>
  match an_connects an with
  | Some e => (Raise e, p)
  | None =>
      let '(r, w) := processor data (World (Session (p_db p) (an_now an) (p_trace p)) (p_observed p) (p_summary p) (an_monotonic an)) in
      let finish d := set_run d (s_trace (w_session w)) (w_observed w) (w_summary w) p in
      match r, an_commits an with
      | Ok _, None => (Ok tt, finish (s_db (w_session w)))
      | Ok _, Some e => (Raise e, finish (p_db p))
      | Raise e, _ => (Raise e, finish (p_db p))
      end
  end.

(** The record path of [_handle_data_message], from the [id] on. *)
Definition handle_record (an : answers_) (data_type : string) (data : dict) : run delivery_result :=
  match lookup_key data "id" with
  | None => reject data_type "ValidationError"
  | Some data_id =>
      if negb (truthy data_id) then reject data_type "ValidationError"
      else if negb (uuid_parses data_id) then reject data_type "ValidationError"
      else
        match processor_of refresh_updated_at data_type with
        | None => reject data_type "UnknownEntity"
        | Some processor =>
            reads connection_pool ≫= fun pool : bool =>
            if negb pool then raise RuntimeError
            else
              reads write_admission ≫= fun admission : bool =>
              if negb admission then raise RuntimeError
              else process_in_transaction an processor data ≫= fun _ =>
                   mret (DeliveryResult ACK "processed" None)
        end
  end.

(** [_handle_data_message]; [body] is what [orjson.loads] makes of the body. *)
Definition handle_data_message (an : answers_) (body : result exn value) (data_type : string) : run delivery_result :=
  match body with
  | Raise e => reject data_type (exn_name e)
  | Ok v =>
      lift (dict_of v) ≫= fun data =>
      let type := get data "type" in
      if decide (type = VStr "file_complete") then
        on_consumers (fun c => complete data_type (arm_timer data_type c)) ≫= fun _ =>
        mret (DeliveryResult ACK "skipped" None)
      else if decide (type = VStr "extraction_complete") then
        on_consumers (fun c => complete data_type (pop_cancel data_type c)) ≫= fun _ =>
        reconcile_deleted_child_rows an data_type data ≫= fun reconciled : bool =>
        if reconciled then
          on_consumers (arm_timer data_type) ≫= fun _ =>
          mret (DeliveryResult ACK "skipped" None)
        else
          on_consumers (uncomplete data_type) ≫= fun _ => raise ReconciliationFailed
      else
        on_consumers (fun c => pop_cancel data_type (uncomplete data_type c)) ≫= fun _ =>
        handle_record an data_type data
  end.

(** [message_counts[data_type] += 1] and the time of the last message, for a
    type the dict holds. *)
Definition count_message (data_type : string) (now : Z) (c : consumers) : consumers :=
  let t := c_traffic c in
  match message_counts t !! data_type with
  | Some n =>
      set_traffic (Traffic (<[data_type := (n + 1)%Z]> (message_counts t)) (<[data_type := now]> (last_message_time t))
                           (completed_files t)) c
  | None => c
  end.

(** What [on_data_message] does with the runner's result: the mark of a rejection,
    the count of a processed record. *)
Definition after_runner (an : answers_) (data_type : string) (result : delivery_result) : run delivery_result :=
  (if decide (dr_settlement result = REJECT /\ dr_error_type result <> Some (exn_name ReconciliationFailed))
   then mark_dead_letter data_type else mret tt) ≫= fun _ =>
  (if decide (dr_settlement result = ACK /\ dr_outcome result = "processed")
   then modifies (add_backoff BackoffReset) ≫= fun _ => on_consumers (count_message data_type (an_time an))
   else mret tt) ≫= fun _ =>
  mret result.

(** [on_data_message] *)
Definition on_data_message (an : answers_) (headers : option dict) (body : result exn value) (data_type : string) :
    run delivery_result :=
  reads shutdown_requested ≫= fun stopping : bool =>
  if stopping then mret (DeliveryResult DEFER "deferred" None)
  else
    run_delivery (handle_data_message an body data_type) (classifier (broker_handouts headers)) wait_before_requeue
      (an_settles an) ≫= after_runner an data_type.

(** The handler [make_data_handler] returns. *)
Definition data_handler (an : answers_) (headers : option dict) (body : result exn value) (data_type : string) :
    run delivery_result :=
  reads write_admission ≫= fun admission : bool =>
  if negb admission then raise RuntimeError else on_data_message an headers body data_type.
End delivery.
