(* ===== verification/Telemetry.v ===== *)
(** * Telemetry

    The metrics and spans of [brainztableinator/brainztableinator.py]: the cached
    instruments, the [_record_*] functions, the span helpers, the observation of
    one delivery and the two observers. OpenTelemetry and [common]'s tracing
    helpers are the class [OpenTelemetry]: each of their calls may raise. Times
    are clock ticks. The context variables are those of the running task. *)

From S2P Require Import Prelude PyValue QueueNames Delivery RecordProcessing.
From stdpp Require Import base gmap strings list option.
From Stdlib Require Import ZArith Lia.

(** ** Names *)

Definition METRICS_SCOPE : string := "groovemap.brainztableinator".
Definition PIPELINE_MESSAGES : string := "groovemap.pipeline.messages".
Definition PIPELINE_MESSAGE_DURATION : string := "groovemap.pipeline.message.duration".
Definition PIPELINE_BATCH_SIZE : string := "groovemap.pipeline.batch.size".
Definition PIPELINE_BATCH_FLUSH_DURATION : string := "groovemap.pipeline.batch.flush.duration".
Definition PIPELINE_CONSUMERS_ACTIVE : string := "groovemap.pipeline.consumers.active".
Definition PIPELINE_PURGE_CONSECUTIVE_VETOES : string := "groovemap.pipeline.purge.consecutive_vetoes".
Definition PIPELINE_ALIAS_CONFLICTS : string := "groovemap.pipeline.alias.conflicts".
Definition MESSAGING_CONSUMED_MESSAGES : string := "messaging.client.consumed.messages".
Definition MESSAGING_OPERATION_DURATION : string := "messaging.client.operation.duration".
Definition MESSAGING_SYSTEM : string := "rabbitmq".
Definition STORE : string := "postgresql".

(** [_ENTITY_LABELS] *)
Definition ENTITY_LABELS : list (string * string) :=
  [("artists", "artist"); ("labels", "label"); ("release-groups", "release-group"); ("releases", "release")].

Definition assoc (k : string) (l : list (string * string)) : option string :=
  snd <$> List.find (fun kv => bool_decide (kv.1 = k)) l.

(** [_ENTITY_LABELS.get(data_type, data_type)] *)
Definition entity_label (data_type : string) : string := default data_type (assoc data_type ENTITY_LABELS).

(** The destination [on_data_message] observes a delivery under. *)
Definition observed_destination (prefix data_type : string) : string :=
  match queue_name prefix "brainztableinator" data_type with Ok q => q | Raise _ => "unknown" end.

(** ** Instruments *)

Inductive instrument_kind : Type := Counter | Histogram | UpDownCounter | Gauge.

#[export] Instance instrument_kind_eq_dec : EqDecision instrument_kind.
Proof. solve_decision. Defined.

(** An instrument, created from a meter provider. *)
Record instrument : Type := Instrument {
  in_provider : nat;
  in_name : string;
  in_kind : instrument_kind;
  in_unit : option string;
}.

#[export] Instance instrument_eq_dec : EqDecision instrument.
Proof. solve_decision. Defined.

(** What [_build_instruments] creates, in order. *)
Definition instrument_catalogue : list (string * instrument_kind * option string) :=
  [(PIPELINE_MESSAGES, Counter, None);
   (PIPELINE_MESSAGE_DURATION, Histogram, Some "s");
   (PIPELINE_BATCH_SIZE, Histogram, Some "{items}");
   (PIPELINE_BATCH_FLUSH_DURATION, Histogram, Some "s");
   (PIPELINE_CONSUMERS_ACTIVE, UpDownCounter, None);
   (PIPELINE_ALIAS_CONFLICTS, Counter, None);
   (PIPELINE_PURGE_CONSECUTIVE_VETOES, Gauge, None);
   (MESSAGING_CONSUMED_MESSAGES, Counter, None);
   (MESSAGING_OPERATION_DURATION, Histogram, Some "s")].

(** [.add], [.record] and [.set] *)
Inductive measure_op : Type := MeasureAdd | MeasureRecord | MeasureSet.

Abbreviation attributes := (list (string * string)).

Record point : Type := Point {
  pt_instrument : instrument;
  pt_op : measure_op;
  pt_value : Z;
  pt_attributes : attributes;
}.

(** ** What OpenTelemetry and [common.tracing] bring *)

Class OpenTelemetry : Type := {
  (** A span's context, and the remote parent read from a message's headers. *)
  span_ctx : Type;
  remote_ctx : Type;
  ctx_is_valid : span_ctx -> bool;
  (** [meter.create_*] for a provider and a name; an instrument's measurement. *)
  create_error : nat -> string -> option exn;
  measure_error : point -> option exn;
  (** [common.extract_context] *)
  extract_context : dict -> result exn remote_ctx;
  (** [get_tracer(...).start_as_current_span(...)], and the manager's two ends. *)
  manager_error : string -> option exn;
  enter_error : string -> option exn;
  exit_error : nat -> option exn;
  (** [span.get_span_context()], [span.set_attribute], [span.set_status]. *)
  get_span_context : nat -> result exn (option span_ctx);
  set_attribute_error : nat -> string -> string -> option exn;
  set_status_error : nat -> option exn;
}.

Section telemetry.
Context `{OpenTelemetry}.

Inductive span_event : Type :=
| SpanStarted (span : nat) (name : string) (parent : option remote_ctx) (attrs : attributes)
| SpanAttribute (span : nat) (key value : string)
| SpanError (span : nat)
| SpanEnded (span : nat)
| FlushSpan (store entity : string) (links : list span_ctx).

(** The module's globals, the two context variables, and what was exported. *)
Record telemetry : Type := Telemetry {
  t_provider : nat;
  t_instruments : option (gmap string instrument);
  t_points : list point;
  t_spans : list span_event;
  t_next_span : nat;
  message_span_context : option span_ctx;
  delivery_destination : string;
}.

Definition set_instruments i t := Telemetry (t_provider t) i (t_points t) (t_spans t) (t_next_span t)
  (message_span_context t) (delivery_destination t).
Definition set_points ps t := Telemetry (t_provider t) (t_instruments t) ps (t_spans t) (t_next_span t)
  (message_span_context t) (delivery_destination t).
Definition log_span e t := Telemetry (t_provider t) (t_instruments t) (t_points t) (t_spans t ++ [e]) (t_next_span t)
  (message_span_context t) (delivery_destination t).
Definition set_message_span_context c t := Telemetry (t_provider t) (t_instruments t) (t_points t) (t_spans t)
  (t_next_span t) c (delivery_destination t).
Definition set_delivery_destination d t := Telemetry (t_provider t) (t_instruments t) (t_points t) (t_spans t)
  (t_next_span t) (message_span_context t) d.

Abbreviation tel A := (comp telemetry exn A).

Definition raising (e : option exn) : tel unit :=
  match e with Some e => raise e | None => mret tt end.

(** [except Exception: logger.debug(...)] *)
Definition guarded (m : tel unit) : tel unit := catch m (fun _ => mret tt).

(** [_build_instruments]: the dict of every instrument, or the first error. *)
Definition build_instruments (provider : nat) : result exn (gmap string instrument) :=
  l ← traverse (fun '(name, kind, unit) =>
        match create_error provider name with
        | Some e => Raise e
        | None => Ok (name, Instrument provider name kind unit)
        end) instrument_catalogue;
  Ok (list_to_map l).

(** [_instrument] *)
Definition instrument_ (name : string) : tel instrument :=
  reads t_instruments ≫= fun cached =>
  match cached with
  | Some m => mret m
  | None =>
      reads t_provider ≫= fun p => lift (build_instruments p) ≫= fun m =>
      modifies (set_instruments (Some m)) ≫= fun _ => mret m
  end ≫= fun m =>
  match m !! name with Some i => mret i | None => raise KeyError end.

Definition reset_metric_instruments : tel unit := modifies (set_instruments None).

(** [instrument.add(...)] and its like: a point, unless the SDK raises. *)
Definition measure (i : instrument) (op : measure_op) (v : Z) (attrs : attributes) : tel unit :=
  let p := Point i op v attrs in
  match measure_error p with
  | Some e => raise e
  | None => modifies (fun t => set_points (t_points t ++ [p]) t)
  end.

Definition measures (name : string) (op : measure_op) (v : Z) (attrs : attributes) : tel unit :=
  instrument_ name ≫= fun i => measure i op v attrs.

(** ** Recording *)

Definition record_pipeline_message (entity outcome : string) (duration : Z) : tel unit :=
  guarded
    (measures PIPELINE_MESSAGES MeasureAdd 1 [("source", PIPELINE_SOURCE); ("entity", entity); ("outcome", outcome)] ≫= fun _ =>
     measures PIPELINE_MESSAGE_DURATION MeasureRecord duration [("source", PIPELINE_SOURCE); ("entity", entity)]).

Definition record_consumed_message (destination : string) (duration : Z) (error_type : option string) : tel unit :=
  let attrs :=
    [("messaging.system", MESSAGING_SYSTEM); ("messaging.destination.name", destination);
     ("messaging.operation.name", "process")] ++ from_option (fun e => [("error.type", e)]) [] error_type in
  guarded
    (measures MESSAGING_CONSUMED_MESSAGES MeasureAdd 1 attrs ≫= fun _ =>
     measures MESSAGING_OPERATION_DURATION MeasureRecord duration attrs).

Definition record_batch_flush (entity : string) (size duration : Z) (outcome : string) : tel unit :=
  let attrs := [("store", STORE); ("entity", entity); ("outcome", outcome)] in
  guarded
    (measures PIPELINE_BATCH_SIZE MeasureRecord size attrs ≫= fun _ =>
     measures PIPELINE_BATCH_FLUSH_DURATION MeasureRecord duration attrs).

Definition record_purge_consecutive_vetoes (count : Z) : tel unit :=
  guarded (measures PIPELINE_PURGE_CONSECUTIVE_VETOES MeasureSet count [("source", PIPELINE_SOURCE)]).

Definition record_alias_conflict (entity identifier : string) : tel unit :=
  guarded (measures PIPELINE_ALIAS_CONFLICTS MeasureAdd 1
             [("source", PIPELINE_SOURCE); ("entity", entity); ("identifier", identifier)]).

Definition record_consumer_delta (delta : Z) : tel unit :=
  guarded (measures PIPELINE_CONSUMERS_ACTIVE MeasureAdd delta [("source", PIPELINE_SOURCE)]).

(** ** Spans *)

Definition set_attribute (span : nat) (key value : string) : tel unit :=
  raising (set_attribute_error span key value) ≫= fun _ => modifies (log_span (SpanAttribute span key value)).

(** [_mark_span_failed] *)
Definition mark_span_failed (span : option nat) (error_type : string) : tel unit :=
  match span with
  | None => mret tt
  | Some s =>
      guarded (set_attribute s "error.type" error_type ≫= fun _ =>
               raising (set_status_error s) ≫= fun _ => modifies (log_span (SpanError s)))
  end.

(** [_set_span_outcome] *)
Definition set_span_outcome (span : option nat) (outcome : string) : tel unit :=
  match span with
  | None => mret tt
  | Some s => guarded (set_attribute s "outcome" outcome)
  end.

(** [_span_context_of] *)
Definition span_context_of (span : option nat) : option span_ctx :=
  match span with
  | None => None
  | Some s =>
      match get_span_context s with
      | Raise _ => None
      | Ok c => c ← c; if ctx_is_valid c then Some c else None
      end
  end.

(** [_flush_links] *)
Definition flush_links (t : telemetry) : list span_ctx :=
  match message_span_context t with None => [] | Some c => [c] end.

(** ** The observation of one delivery

    A context manager is the function of its body: the world of the body holds
    the telemetry as the part [tel_of]. *)

Section observation.
Context {W : Type} (tel_of : W -> telemetry) (set_tel : telemetry -> W -> W).

Abbreviation body A := (comp W exn A).

Definition on_tel {A} (m : tel A) : body A := zoom tel_of set_tel m.

(** The first half of [_consume_span]'s [try]: the manager and its context. *)
Definition consumer_manager (destination : string) (headers : option dict) : result exn (option remote_ctx) :=
  parent ← (match headers with
            | None | Some [] => Ok None
            | Some h => c ← extract_context h; Ok (Some c)
            end);
  match manager_error ("process " +:+ destination) with Some e => Raise e | None => Ok parent end.

(** [manager.__enter__] and [__exit__] *)
Definition enter_span (destination : string) (parent : option remote_ctx) : tel nat :=
  raising (enter_error ("process " +:+ destination)) ≫= fun _ =>
  reads t_next_span ≫= fun s =>
  modifies (fun t => log_span (SpanStarted s ("process " +:+ destination) parent
    [("messaging.system", MESSAGING_SYSTEM); ("messaging.destination.name", destination);
     ("messaging.operation.name", "process")])
    (Telemetry (t_provider t) (t_instruments t) (t_points t) (t_spans t) (S s) (message_span_context t)
       (delivery_destination t))) ≫= fun _ => mret s.

Definition exit_span (span : nat) : tel unit :=
  modifies (log_span (SpanEnded span)) ≫= fun _ => raising (exit_error span).

(** [try: m finally: f], where [f] may replace the outcome by its own error. *)
Definition finally {A} (m : body A) (f : body unit) : body A := fun w =>
  let '(r, w1) := m w in
  match f w1 with
  | (Ok _, w2) => (r, w2)
  | (Raise e, w2) => (Raise e, w2)
  end.

(** [with _consume_span(destination, headers) as span: m span] *)
Definition consume_span {A} (destination : string) (headers : option dict) (m : option nat -> body A) : body A :=
  match consumer_manager destination headers with
  | Raise _ => m None
  | Ok parent =>
      on_tel (enter_span destination parent) ≫= fun s => finally (m (Some s)) (on_tel (exit_span s))
  end.

(** What [_delivery_observation] does inside the span: the two context variables
    set before the code [m], and reset in its [finally]. *)
Definition with_context {A} (destination : string) (m : option nat -> body A) (span : option nat) : body A :=
  reads (fun w => message_span_context (tel_of w)) ≫= fun span_token =>
  on_tel (modifies (set_message_span_context (span_context_of span))) ≫= fun _ =>
  reads (fun w => delivery_destination (tel_of w)) ≫= fun destination_token =>
  on_tel (modifies (set_delivery_destination destination)) ≫= fun _ =>
  finally (m span)
    (on_tel (modifies (set_delivery_destination destination_token)) ≫= fun _ =>
     on_tel (modifies (set_message_span_context span_token))).

(** [with _delivery_observation(destination, headers) as span: m span];
    [None] for headers that are not a mapping. *)
Definition delivery_observation {A} (destination : string) (headers : option dict) (m : option nat -> body A) : body A :=
  consume_span destination headers (with_context destination m).
End observation.

(** ** The observers *)

(** [_DeliveryObserver.settled] *)
Definition local_outcome (result : delivery_result) : string :=
  if decide (dr_settlement result = ACK) then dr_outcome result else "failed".

Definition settled (entity : string) (result : delivery_result) (duration : Z) (span : option nat) : tel unit :=
  record_pipeline_message entity (local_outcome result) duration ≫= fun _ =>
  reads delivery_destination ≫= fun destination =>
  record_consumed_message destination duration (dr_error_type result) ≫= fun _ =>
  set_span_outcome span (local_outcome result) ≫= fun _ =>
  match dr_error_type result with Some e => mark_span_failed span e | None => mret tt end.

(** [_RuntimeBatchObserver]: what each event of a record's processing becomes,
    under the span its flush opened and the time [perf_counter] measured. The
    spans of a flush are [common]'s; its links are this service's. *)
Definition batch_observer (flush_span : option nat) (elapsed : Z) (o : observation) : tel unit :=
  match o with
  | FlushOpened entity => fun t => modifies (log_span (FlushSpan STORE entity (flush_links t))) t
  | BatchRecorded entity size timed outcome => record_batch_flush entity size (if timed then elapsed else 0%Z) outcome
  | OutcomeSet outcome => set_span_outcome flush_span outcome
  | AliasConflict entity identifier => record_alias_conflict entity identifier
  | ConflictSummary _ _ => mret tt
  end.
End telemetry.
