(* ===== verification/TelemetryFacts.v ===== *)
(** * Telemetry: theorems

    Telemetry does not interfere with the loader, and what it exports is well
    formed: the recording functions of [brainztableinator/brainztableinator.py]
    never raise, every measurement fits its instrument, and the observation of a
    delivery is transparent to the code it wraps. *)

From S2P Require Import Prelude PyValue QueueNames Delivery RecordProcessing Telemetry.
From stdpp Require Import base gmap strings list option.
From Stdlib Require Import ZArith Lia.

(** ** The catalogue of measurements *)

Definition op_fits (k : instrument_kind) (op : measure_op) : bool :=
  match k, op with
  | Counter, MeasureAdd | UpDownCounter, MeasureAdd | Histogram, MeasureRecord | Gauge, MeasureSet => true
  | _, _ => false
  end.

Definition consumed_keys : list string :=
  ["messaging.system"; "messaging.destination.name"; "messaging.operation.name"].

(** The attribute keys each instrument is measured under. *)
Definition attribute_schema : list (string * list (list string)) :=
  [(PIPELINE_MESSAGES, [["source"; "entity"; "outcome"]]);
   (PIPELINE_MESSAGE_DURATION, [["source"; "entity"]]);
   (PIPELINE_BATCH_SIZE, [["store"; "entity"; "outcome"]]);
   (PIPELINE_BATCH_FLUSH_DURATION, [["store"; "entity"; "outcome"]]);
   (PIPELINE_CONSUMERS_ACTIVE, [["source"]]);
   (PIPELINE_ALIAS_CONFLICTS, [["source"; "entity"; "identifier"]]);
   (PIPELINE_PURGE_CONSECUTIVE_VETOES, [["source"]]);
   (MESSAGING_CONSUMED_MESSAGES, [consumed_keys; consumed_keys ++ ["error.type"]]);
   (MESSAGING_OPERATION_DURATION, [consumed_keys; consumed_keys ++ ["error.type"]])].

(** A measurement the catalogue allows: the operation is one its kind of
    instrument has, a counter only rises, and the attribute keys are the
    instrument's. *)
Definition measured_ok (name : string) (op : measure_op) (v : Z) (attrs : attributes) : bool :=
  match List.find (fun c => bool_decide (c.1.1 = name)) instrument_catalogue,
        List.find (fun c => bool_decide (c.1 = name)) attribute_schema with
  | Some (_, kind, _), Some (_, keys) =>
      op_fits kind op && (if decide (kind = Counter) then 0 <? v else true)%Z && bool_decide (attrs.*1 ∈ keys)
  | _, _ => false
  end.

Definition point_ok (p : point) : Prop :=
  measured_ok (in_name (pt_instrument p)) (pt_op p) (pt_value p) (pt_attributes p) = true /\
  (in_name (pt_instrument p), in_kind (pt_instrument p), in_unit (pt_instrument p)) ∈ instrument_catalogue.

Section telemetry_facts.
Context `{OpenTelemetry}.

(** ** The instrument cache *)

Lemma build_lookup p m name i :
  build_instruments p = Ok m -> m !! name = Some i ->
  in_provider i = p /\ in_name i = name /\ (in_name i, in_kind i, in_unit i) ∈ instrument_catalogue.
Proof.
  unfold build_instruments, mbind, result_bind.
  destruct (traverse _ _) as [l|] eqn:Et; [|done]. intros [= <-] Hi%elem_of_list_to_map_2.
  destruct (traverse_elem _ _ _ _ Et Hi) as ([[n k] u] & Hin & Hf).
  destruct (create_error p n); [done|]. injection Hf as -> <-. done.
Qed.

Definition cache_ok (t : telemetry) : Prop :=
  match t_instruments t with None => True | Some m => exists p, build_instruments p = Ok m end.

(** The parts no recording touches. *)
Definition outer (t : telemetry) := (t_provider t, t_next_span t, message_span_context t, delivery_destination t).

(** The cache is filled at most once, from the provider installed then. *)
Definition cache_step (t t' : telemetry) : Prop :=
  match t_instruments t with
  | Some m => t_instruments t' = Some m
  | None => forall m, t_instruments t' = Some m -> build_instruments (t_provider t) = Ok m
  end.

Definition on_cache (t : telemetry) (p : point) : Prop :=
  exists m, t_instruments t = Some m /\ m !! in_name (pt_instrument p) = Some (pt_instrument p).

(** [m] only measures, only what the catalogue allows, and only on the cached
    instruments, whether it returns or raises. *)
Definition records {A} (m : comp telemetry exn A) : Prop := forall t r t',
  cache_ok t -> m t = (r, t') ->
  outer t' = outer t /\ cache_step t t' /\ cache_ok t' /\
  exists new, t_points t' = t_points t ++ new /\ Forall (fun p => point_ok p /\ on_cache t' p) new.

Lemma cache_step_refl t : cache_step t t.
Proof. unfold cache_step. by destruct (t_instruments t). Qed.

Lemma cache_step_ok t t' : cache_ok t -> cache_step t t' -> cache_ok t'.
Proof.
  unfold cache_ok, cache_step. destruct (t_instruments t); [by intros ? ->|].
  intros _ Hs. destruct (t_instruments t'); [eauto|done].
Qed.

Lemma records_same {A} (m : comp telemetry exn A) :
  (forall t, let t' := (m t).2 in outer t' = outer t /\ t_instruments t' = t_instruments t /\ t_points t' = t_points t) ->
  records m.
Proof.
  intros Hm t r t' Hc Hr. specialize (Hm t). rewrite Hr in Hm. simpl in Hm. destruct Hm as (Ho & Hi & Hp).
  assert (cache_step t t') as Hs by (unfold cache_step; rewrite Hi; destruct (t_instruments t); done).
  split_and!; [done|done|by eapply cache_step_ok|]. exists []. by rewrite app_nil_r.
Qed.

Lemma records_ret {A} (a : A) : records (mret a).
Proof. by apply records_same. Qed.

Lemma records_reads {A} (f : telemetry -> A) : records (reads f).
Proof. by apply records_same. Qed.

Lemma records_raising e : records (raising e).
Proof. by destruct e; apply records_same. Qed.

Lemma records_log e : records (modifies (log_span e)).
Proof. by apply records_same. Qed.

Lemma cache_step_trans t t1 t2 : outer t1 = outer t -> cache_step t t1 -> cache_step t1 t2 -> cache_step t t2.
Proof.
  unfold cache_step. intros [= Hp _ _ _]. destruct (t_instruments t) as [m|]; [by intros ->|].
  intros Hs1. destruct (t_instruments t1) as [m1|]; [intros ->; naive_solver|by rewrite Hp].
Qed.

Lemma on_cache_step t t' p : cache_step t t' -> on_cache t p -> on_cache t' p.
Proof. intros Hs (m & Hm & Hl). exists m. split; [|done]. unfold cache_step in Hs. by rewrite Hm in Hs. Qed.

Lemma records_bind {A B} (m : comp telemetry exn A) (f : A -> comp telemetry exn B) :
  records m -> (forall a, records (f a)) -> records (m ≫= f).
Proof.
  intros Hm Hf t r t' Hc. unfold mbind, comp_bind. destruct (m t) as [[a|e] t1] eqn:E.
  - destruct (Hm t (Ok a) t1 Hc E) as (Ho1 & Hs1 & Hc1 & new1 & Hp1 & HF1). intros Hr.
    destruct (Hf a t1 r t' Hc1 Hr) as (Ho2 & Hs2 & Hc2 & new2 & Hp2 & HF2).
    split_and!; [congruence|by eapply cache_step_trans|done|]. exists (new1 ++ new2).
    rewrite Hp2, Hp1, app_assoc. split; [done|]. apply Forall_app. split; [|done].
    refine (List.Forall_impl _ _ HF1). intros p [Hok Hon]. split; [done|]. by eapply on_cache_step.
  - intros [= <- <-]. exact (Hm t (Raise e) t1 Hc E).
Qed.

Lemma records_guarded m : records m -> records (guarded m).
Proof.
  intros Hm t r t' Hc. unfold guarded, catch. destruct (m t) as [[a|e] t1] eqn:E; intros [= <- <-]; eauto.
Qed.

Lemma guarded_returns m t : exists t', guarded m t = (Ok tt, t').
Proof. unfold guarded, catch. destruct (m t) as [[[]|e] t1]; simpl; eauto. Qed.

(** Either an error, with the cache as it was, or the cached instrument. *)
Lemma instrument_run name t :
  cache_ok t ->
  (exists e t', instrument_ name t = (Raise e, t') /\ t_points t' = t_points t /\ outer t' = outer t /\ cache_step t t') \/
  (exists m i t', instrument_ name t = (Ok i, t') /\ t_points t' = t_points t /\ outer t' = outer t /\ cache_step t t' /\
     t_instruments t' = Some m /\ m !! name = Some i /\ exists p, build_instruments p = Ok m).
Proof.
  unfold instrument_, cache_ok, cache_step. rewrite (comp_bind_run _ _ t (t_instruments t) t) by done.
  destruct (t_instruments t) as [m|] eqn:Ei; intros Hc.
  - rewrite (comp_bind_run _ _ t m t) by done.
    destruct (m !! name) as [i|] eqn:El; [right|left; by eexists _, t].
    by exists m, i, t.
  - destruct (build_instruments (t_provider t)) as [m|e] eqn:Eb.
    + rewrite (comp_bind_run _ _ t m (set_instruments (Some m) t))
        by (unfold mbind, comp_bind, reads, lift; by rewrite Eb).
      destruct (m !! name) as [i|] eqn:El; [right|left].
      * exists m, i, (set_instruments (Some m) t). split_and!; try done; [by intros ? [= <-]|eauto].
      * eexists _, (set_instruments (Some m) t). split_and!; try done. by intros ? [= <-].
    + rewrite (comp_bind_raise _ _ t e t) by (unfold mbind, comp_bind, reads, lift; by rewrite Eb).
      left. exists e, t. rewrite Ei. by split_and!.
Qed.

Lemma records_measures name op v attrs : measured_ok name op v attrs = true -> records (measures name op v attrs).
Proof.
  intros Hok t r t' Hc. unfold measures, mbind, comp_bind.
  destruct (instrument_run name t Hc) as [(e & t1 & -> & Hp & Ho & Hs)|(m & i & t1 & -> & Hp & Ho & Hs & Hi & Hl & p & Hb)].
  - intros [= <- <-]. split_and!; [done|done|by eapply cache_step_ok|]. exists []. by rewrite Hp, app_nil_r.
  - destruct (build_lookup _ _ _ _ Hb Hl) as (_ & Hn & Hcat). unfold measure.
    destruct (measure_error _).
    + intros [= <- <-]. split_and!; [done|done|by eapply cache_step_ok|]. exists []. by rewrite Hp, app_nil_r.
    + intros [= <- <-].
      assert (cache_step t (set_points (t_points t1 ++ [Point i op v attrs]) t1)) as Hs'.
      { unfold cache_step in *. by destruct (t_instruments t). }
      split_and!; [done|done|by eapply cache_step_ok|]. eexists. simpl. rewrite Hp. split; [done|].
      apply Forall_singleton. unfold point_ok, on_cache. simpl. rewrite Hn in *. eauto.
Qed.

(** ** Every telemetry call *)

Inductive tel_call : Type :=
| PipelineMessage (entity outcome : string) (duration : Z)
| ConsumedMessage (destination : string) (duration : Z) (error_type : option string)
| BatchFlush (entity : string) (size duration : Z) (outcome : string)
| ConsecutiveVetoes (count : Z)
| AliasConflictMet (entity identifier : string)
| ConsumerDelta (delta : Z)
| SpanFailed (span : option nat) (error_type : string)
| SpanOutcome (span : option nat) (outcome : string)
| Settled (entity : string) (result : delivery_result) (duration : Z) (span : option nat)
| BatchEvent (flush_span : option nat) (duration : Z) (o : observation).

Definition call (c : tel_call) : comp telemetry exn unit :=
  match c with
  | PipelineMessage e o d => record_pipeline_message e o d
  | ConsumedMessage q d e => record_consumed_message q d e
  | BatchFlush e s d o => record_batch_flush e s d o
  | ConsecutiveVetoes n => record_purge_consecutive_vetoes n
  | AliasConflictMet e i => record_alias_conflict e i
  | ConsumerDelta n => record_consumer_delta n
  | SpanFailed s e => mark_span_failed s e
  | SpanOutcome s o => set_span_outcome s o
  | Settled e r d s => settled e r d s
  | BatchEvent s d o => batch_observer s d o
  end.

#[local] Hint Resolve records_ret records_reads records_raising records_log records_bind records_guarded
  records_measures : loader.

Lemma records_pipeline_message e o d : records (record_pipeline_message e o d).
Proof. apply records_guarded, records_bind; [|intros _]; by apply records_measures. Qed.

Lemma records_consumed_message q d e : records (record_consumed_message q d e).
Proof. apply records_guarded, records_bind; [|intros _]; apply records_measures; by destruct e. Qed.

Lemma records_set_span_outcome s o : records (set_span_outcome s o).
Proof. destruct s; unfold set_span_outcome, set_attribute; auto 6 with loader. Qed.

Lemma records_mark_span_failed s e : records (mark_span_failed s e).
Proof. destruct s; unfold mark_span_failed, set_attribute; auto 10 with loader. Qed.

Lemma records_batch_flush e s d o : records (record_batch_flush e s d o).
Proof. apply records_guarded, records_bind; [|intros _]; by apply records_measures. Qed.

Lemma records_alias_conflict e i : records (record_alias_conflict e i).
Proof. by apply records_guarded, records_measures. Qed.

#[local] Hint Resolve records_pipeline_message records_consumed_message records_set_span_outcome
  records_mark_span_failed records_batch_flush records_alias_conflict : loader.

Lemma call_records c : records (call c).
Proof.
  destruct c; simpl; auto with loader.
  - by apply records_guarded, records_measures.
  - by apply records_guarded, records_measures.
  - unfold settled. apply records_bind; [auto with loader|intros _]. apply records_bind; [auto with loader|intros q].
    apply records_bind; [auto with loader|intros _]. apply records_bind; [auto with loader|intros _].
    destruct (dr_error_type result); auto with loader.
  - destruct o; simpl; auto with loader. by apply records_same.
Qed.

Lemma call_returns c t : exists t', call c t = (Ok tt, t').
Proof.
  assert (forall s e t, exists t', mark_span_failed s e t = (Ok tt, t')) as Hf
    by (intros [s|] e t0; [apply guarded_returns|by exists t0]).
  assert (forall s o t, exists t', set_span_outcome s o t = (Ok tt, t')) as Hs
    by (intros [s|] o t0; [apply guarded_returns|by exists t0]).
  destruct c as [| | | | | | | |e r d s|s d []]; simpl; try apply guarded_returns; auto; try by eexists.
  unfold settled. destruct (guarded_returns _ t : exists t1, record_pipeline_message e (local_outcome r) d t = (Ok tt, t1)) as [t1 H1].
  rewrite (comp_bind_run _ _ _ _ _ H1). rewrite (comp_bind_run _ _ t1 (delivery_destination t1) t1) by done.
  destruct (guarded_returns _ t1 : exists t2, record_consumed_message (delivery_destination t1) d (dr_error_type r) t1 = (Ok tt, t2)) as [t2 H2].
  rewrite (comp_bind_run _ _ _ _ _ H2). destruct (Hs s (local_outcome r) t2) as [t3 H3].
  rewrite (comp_bind_run _ _ _ _ _ H3). destruct (dr_error_type r); [apply Hf|by exists t3].
Qed.

Definition calls (cs : list tel_call) : comp telemetry exn unit := for_each cs call.

Lemma calls_records cs : records (calls cs).
Proof. unfold calls. induction cs; simpl; [apply records_ret|]. apply records_bind; [apply call_records|done]. Qed.

Lemma calls_return cs t : exists t', calls cs t = (Ok tt, t').
Proof.
  unfold calls. revert t. induction cs as [|c cs IH]; intros t; simpl; [by exists t|].
  destruct (call_returns c t) as [t1 H1]. rewrite (comp_bind_run _ _ _ _ _ H1). apply IH.
Qed.

(** The provider the instruments in force come from. *)
Definition bound_provider (t : telemetry) (p : nat) : Prop :=
  match t_instruments t with None => p = t_provider t | Some m => build_instruments p = Ok m end.

(** C35: what telemetry exports is well typed, and it never interferes. Any run
    of recordings, settlements, span marks and batch events returns, whatever
    OpenTelemetry raises in it, and leaves the provider and the delivery's
    context variables as they were. Every measurement it exported is one the
    catalogue allows (an operation its kind of instrument has, a counter only
    rising, exactly the instrument's attribute keys), and all of them are on the
    instruments of one provider: the one the cache was filled from. *)
Theorem measurements_well_typed cs t p :
  bound_provider t p ->
  exists t', calls cs t = (Ok tt, t') /\ outer t' = outer t /\
    exists new, t_points t' = t_points t ++ new /\
      Forall (fun q => point_ok q /\ in_provider (pt_instrument q) = p) new.
Proof.
  intros Hb. destruct (calls_return cs t) as [t' Hr]. exists t'. split; [done|].
  assert (cache_ok t) as Hc.
  { unfold bound_provider, cache_ok in *. destruct (t_instruments t); eauto. }
  destruct (calls_records cs t _ _ Hc Hr) as (Ho & Hs & _ & new & Hp & HF). split; [done|].
  exists new. split; [done|]. refine (List.Forall_impl _ _ HF). intros q [Hok (m & Hm & Hl)]. split; [done|].
  unfold bound_provider, cache_step in *. destruct (t_instruments t) as [m'|].
  - rewrite Hs in Hm. injection Hm as <-. by apply (build_lookup _ _ _ _ Hb Hl).
  - subst p. apply Hs in Hm. by apply (build_lookup _ _ _ _ Hm Hl).
Qed.

(** ** A settlement's telemetry *)

(** No call of OpenTelemetry raises. *)
Class Healthy : Prop := {
  creates p n : create_error p n = None;
  measures_fine q : measure_error q = None;
  sets_attributes s k v : set_attribute_error s k v = None;
  sets_status s : set_status_error s = None;
}.

Definition entry_of (p : nat) (c : string * instrument_kind * option string) : string * instrument :=
  (c.1.1, Instrument p c.1.1 c.1.2 c.2).

(** The dict [_build_instruments] returns when nothing raises. *)
Definition instrument_dict (p : nat) : gmap string instrument := list_to_map (map (entry_of p) instrument_catalogue).

Lemma build_healthy `{Healthy} p :
  build_instruments p = Ok (instrument_dict p).
Proof.
  unfold build_instruments, instrument_dict.
  assert (traverse (fun '(name, kind, unit) =>
     match create_error p name with
     | Some e => Raise e
     | None => Ok (name, Instrument p name kind unit)
     end) instrument_catalogue = Ok (map (entry_of p) instrument_catalogue)) as ->; [|done].
  generalize instrument_catalogue. induction l as [|[[n k] u] l IH]; [done|].
  simpl. rewrite creates. unfold mbind, result_bind in *. by rewrite IH.
Qed.

(** The instrument a name denotes. *)
Definition instrument_of (p : nat) (name : string) : instrument :=
  match List.find (fun c => bool_decide (c.1.1 = name)) instrument_catalogue with
  | Some (n, k, u) => Instrument p n k u
  | None => Instrument p name Counter None
  end.

Lemma instrument_catalogue_lookup p name :
  name ∈ instrument_catalogue.*1.*1 ->
  instrument_dict p !! name = Some (instrument_of p name).
Proof.
  intros Hin. assert (Forall (fun n => forall p,
    instrument_dict p !! n = Some (instrument_of p n))
    instrument_catalogue.*1.*1) as HF.
  { repeat constructor; intros; reflexivity. }
  rewrite Forall_forall in HF. apply HF. by apply list_elem_of_In.
Qed.

(** The world after the points [ps] and the span events [es], the cache bound. *)
Definition exported (p : nat) (ps : list point) (es : list span_event) (t : telemetry) : telemetry :=
  Telemetry (t_provider t) (Some (instrument_dict p)) (t_points t ++ ps)
    (t_spans t ++ es) (t_next_span t) (message_span_context t) (delivery_destination t).

Lemma exported_exported p ps es ps' es' t :
  exported p ps' es' (exported p ps es t) = exported p (ps ++ ps') (es ++ es') t.
Proof. unfold exported. simpl. by rewrite <- !app_assoc. Qed.

Lemma measures_healthy `{Healthy} p name op v attrs t :
  bound_provider t p -> name ∈ instrument_catalogue.*1.*1 ->
  measures name op v attrs t = (Ok tt, exported p [Point (instrument_of p name) op v attrs] [] t).
Proof.
  intros Hb Hin. unfold measures.
  assert (instrument_ name t = (Ok (instrument_of p name), exported p [] [] t)) as Hi.
  { unfold instrument_. rewrite (comp_bind_run _ _ t (t_instruments t) t) by done. unfold bound_provider in Hb.
    pose proof (instrument_catalogue_lookup p name Hin) as Hl. pose proof (build_healthy p) as Hbuild.
    destruct t as [pr [m|] pts sps n c d]; simpl in *.
    - assert (m = instrument_dict p) as -> by (rewrite Hbuild in Hb; by injection Hb).
      unfold mbind, comp_bind, mret, comp_ret. rewrite Hl. unfold exported. simpl. by rewrite !app_nil_r.
    - subst pr. rewrite (comp_bind_run _ _ _ (instrument_dict p)
        (exported p [] [] (Telemetry p None pts sps n c d))); [by rewrite Hl|].
      unfold mbind, comp_bind, reads, lift. simpl. rewrite Hbuild. unfold exported. simpl. by rewrite !app_nil_r. }
  rewrite (comp_bind_run _ _ _ _ _ Hi). unfold measure. rewrite measures_fine. unfold exported, modifies. simpl.
  by rewrite !app_nil_r.
Qed.

Lemma exported_bound `{Healthy} p ps es t : bound_provider (exported p ps es t) p.
Proof. apply build_healthy. Qed.

Lemma measures2_healthy `{Healthy} p n1 o1 v1 a1 n2 o2 v2 a2 t :
  bound_provider t p -> n1 ∈ instrument_catalogue.*1.*1 -> n2 ∈ instrument_catalogue.*1.*1 ->
  guarded (measures n1 o1 v1 a1 ≫= fun _ => measures n2 o2 v2 a2) t =
    (Ok tt, exported p [Point (instrument_of p n1) o1 v1 a1; Point (instrument_of p n2) o2 v2 a2] [] t).
Proof.
  intros Hb H1 H2. unfold guarded, catch. rewrite (comp_bind_run _ _ _ _ _ (measures_healthy p n1 o1 v1 a1 t Hb H1)).
  rewrite (measures_healthy p n2 o2 v2 a2 _ (exported_bound _ _ _ _) H2). by rewrite exported_exported.
Qed.

(** One settlement, one set of signals. With OpenTelemetry answering,
    [settled] exports exactly four measurements, in order: the pipeline message
    with its entity and outcome, its duration, and the consumed message and its
    duration under the destination of the delivery's context variable, both with
    [error.type] exactly when the result carries one. The outcome is the result's
    own for an ACK and "failed" otherwise; the span gets that outcome, and is
    failed with the same error type exactly when there is one. *)
Theorem settled_exports `{Healthy} entity result duration span t p :
  bound_provider t p ->
  let outcome := if decide (dr_settlement result = ACK) then dr_outcome result else "failed" in
  let error := from_option (fun e => [("error.type", e)]) [] (dr_error_type result) in
  let consumed := [("messaging.system", "rabbitmq"); ("messaging.destination.name", delivery_destination t);
                   ("messaging.operation.name", "process")] ++ error in
  settled entity result duration span t =
    (Ok tt, exported p
      [Point (instrument_of p PIPELINE_MESSAGES) MeasureAdd 1
         [("source", "musicbrainz"); ("entity", entity); ("outcome", outcome)];
       Point (instrument_of p PIPELINE_MESSAGE_DURATION) MeasureRecord duration
         [("source", "musicbrainz"); ("entity", entity)];
       Point (instrument_of p MESSAGING_CONSUMED_MESSAGES) MeasureAdd 1 consumed;
       Point (instrument_of p MESSAGING_OPERATION_DURATION) MeasureRecord duration consumed]
      (match span with
       | None => []
       | Some s => SpanAttribute s "outcome" outcome ::
           match dr_error_type result with Some e => [SpanAttribute s "error.type" e; SpanError s] | None => [] end
       end) t).
Proof.
  intros Hb outcome error consumed. unfold settled. fold (local_outcome result) in outcome. subst outcome.
  assert (forall n, bool_decide (n ∈ instrument_catalogue.*1.*1) = true -> n ∈ instrument_catalogue.*1.*1) as Hin
    by (intros n Hn; by apply bool_decide_eq_true in Hn).
  unfold record_pipeline_message. erewrite comp_bind_run by (apply measures2_healthy; [exact Hb|by apply Hin..]).
  erewrite comp_bind_run by done.
  unfold record_consumed_message. erewrite comp_bind_run by (apply measures2_healthy; [apply exported_bound|by apply Hin..]).
  rewrite exported_exported. change (delivery_destination (exported _ _ _ t)) with (delivery_destination t).
  fold error consumed. unfold set_span_outcome, mark_span_failed, set_attribute, guarded, catch, exported, mbind, comp_bind,
    raising, modifies, log_span.
  destruct span as [s|], (dr_error_type result); rewrite ?sets_attributes; simpl;
    rewrite ?sets_attributes, ?sets_status; simpl; rewrite <- ?app_assoc, ?app_nil_r; done.
Qed.
End telemetry_facts.
