(* ===== verification/DeliveryTelemetry.v ===== *)
(** * The telemetry of one delivery

    [_delivery_observation] of [brainztableinator/brainztableinator.py] around any
    code, and the batch events of [_record_processing.py] inside it: the context
    variables are scoped to the delivery, the wrapped code is not interfered
    with, and every flush span a record opens is closed by one measurement and
    one outcome, linked to its own delivery. *)

From S2P Require Import Prelude PyValue QueueNames Database Persistence Media RecordProcessing Delivery.
From S2P Require Import Telemetry TelemetryFacts.
From stdpp Require Import base gmap strings list option.
From Stdlib Require Import ZArith Lia.

(** ** The observation of a delivery *)

Section observation.
Context `{OpenTelemetry}.
Context {W : Type} (tel_of : W -> telemetry) (set_tel : telemetry -> W -> W).
Hypothesis tel_of_set : forall t w, tel_of (set_tel t w) = t.
Hypothesis set_tel_of : forall w, set_tel (tel_of w) w = w.
Hypothesis set_tel_set : forall t t' w, set_tel t' (set_tel t w) = set_tel t' w.

Abbreviation observed := (delivery_observation tel_of set_tel).

Lemma on_tel_modifies f w : on_tel tel_of set_tel (modifies f) w = (Ok tt, set_tel (f (tel_of w)) w).
Proof. done. Qed.

Lemma exit_span_run s w :
  on_tel tel_of set_tel (exit_span s) w =
    (match exit_error s with Some e => Raise e | None => Ok tt end, set_tel (log_span (SpanEnded s) (tel_of w)) w).
Proof. unfold on_tel, zoom, exit_span, raising, mbind, comp_bind, modifies. by destruct (exit_error s). Qed.

(** The code inside the span: the context variables set, and reset after it. *)
Lemma inner_run {A} destination (m : option nat -> comp W exn A) span w r w1 :
  let t := tel_of w in
  let w0 := set_tel (set_delivery_destination destination (set_message_span_context (span_context_of span) t)) w in
  m span w0 = (r, w1) ->
  with_context tel_of set_tel destination m span w =
  (r, set_tel (set_message_span_context (message_span_context t)
        (set_delivery_destination (delivery_destination t) (tel_of w1))) w1).
Proof.
  intros t w0 Hm. unfold with_context.
  rewrite (comp_bind_run _ _ w (message_span_context t) w) by done.
  erewrite comp_bind_run by apply on_tel_modifies. erewrite comp_bind_run by done.
  erewrite comp_bind_run by apply on_tel_modifies. rewrite !tel_of_set, set_tel_set. fold t w0.
  unfold finally. rewrite Hm. erewrite comp_bind_run by apply on_tel_modifies.
  rewrite on_tel_modifies, tel_of_set, set_tel_set. done.
Qed.

(** A delivery whose span starts. *)
Lemma observed_started {A} destination headers (m : option nat -> comp W exn A) parent w r0 w1 :
  consumer_manager destination headers = Ok parent -> enter_error ("process " +:+ destination) = None ->
  let t := tel_of w in let s := t_next_span t in
  let t0 := Telemetry (t_provider t) (t_instruments t) (t_points t)
      (t_spans t ++ [SpanStarted s ("process " +:+ destination) parent
         [("messaging.system", MESSAGING_SYSTEM); ("messaging.destination.name", destination);
          ("messaging.operation.name", "process")]]) (S s) (span_context_of (Some s)) destination in
  m (Some s) (set_tel t0 w) = (r0, w1) ->
  observed destination headers m w =
    (match exit_error s with Some e => Raise e | None => r0 end,
     set_tel (log_span (SpanEnded s) (set_message_span_context (message_span_context t)
        (set_delivery_destination (delivery_destination t) (tel_of w1)))) w1).
Proof.
  intros Hman Hent t s t0 Hm. unfold delivery_observation, consume_span. rewrite Hman.
  set (t1 := Telemetry (t_provider t) (t_instruments t) (t_points t) (t_spans t0) (S s) (message_span_context t)
    (delivery_destination t)).
  rewrite (comp_bind_run _ _ w s (set_tel t1 w)) by (unfold on_tel, zoom, enter_span; rewrite Hent; done).
  cbv beta. unfold finally at 1. pose proof (inner_run destination m (Some s) (set_tel t1 w) r0 w1) as Hi. cbv zeta in Hi.
  rewrite tel_of_set, set_tel_set in Hi. rewrite (Hi Hm), exit_span_run, tel_of_set, set_tel_set. by destruct (exit_error s).
Qed.

(** C36: the observation of a delivery is scoped and transparent. Around any
    code: either the span's start raised, and nothing ran and nothing changed;
    or the code ran once, in a world that differs from the caller's in the
    telemetry only, with the context variables naming its own span's valid
    context and its own destination. What it returned or raised is the result,
    unless the span's end itself raised. The two context variables are afterwards
    what they were before, on every path out, no measurement is added, and the
    span that was started is ended. *)
Theorem observation_scoped {A} destination headers (m : option nat -> comp W exn A) w r w' :
  observed destination headers m w = (r, w') ->
  (exists e, enter_error ("process " +:+ destination) = Some e /\ r = Raise e /\ w' = w) \/
  exists span t0 r0 w1 t',
    m span (set_tel t0 w) = (r0, w1) /\ w' = set_tel t' w1 /\
    message_span_context t0 = span_context_of span /\ delivery_destination t0 = destination /\
    t_points t0 = t_points (tel_of w) /\ t_points t' = t_points (tel_of w1) /\
    message_span_context t' = message_span_context (tel_of w) /\
    delivery_destination t' = delivery_destination (tel_of w) /\
    match span with
    | None => r = r0 /\ t_spans t0 = t_spans (tel_of w) /\ t_spans t' = t_spans (tel_of w1)
    | Some s =>
        r = match exit_error s with Some e => Raise e | None => r0 end /\
        (exists parent attrs, t_spans t0 = t_spans (tel_of w) ++ [SpanStarted s ("process " +:+ destination) parent attrs]) /\
        t_spans t' = t_spans (tel_of w1) ++ [SpanEnded s]
    end.
Proof.
  unfold delivery_observation, consume_span.
  destruct (consumer_manager destination headers) as [parent|e] eqn:Eman.
  - destruct (enter_error ("process " +:+ destination)) as [e|] eqn:Ee.
    + rewrite (comp_bind_raise _ _ w e w).
      { intros [= <- <-]. left. eauto. }
      unfold on_tel, zoom, enter_span. rewrite Ee. simpl. by rewrite set_tel_of.
    + set (s := t_next_span (tel_of w)). intros Hrun.
      destruct (m (Some s) (set_tel (Telemetry (t_provider (tel_of w)) (t_instruments (tel_of w)) (t_points (tel_of w))
        (t_spans (tel_of w) ++ [SpanStarted s ("process " +:+ destination) parent
           [("messaging.system", MESSAGING_SYSTEM); ("messaging.destination.name", destination);
            ("messaging.operation.name", "process")]]) (S s) (span_context_of (Some s)) destination) w)) as [r0 w1] eqn:Em.
      pose proof (observed_started destination headers m parent w r0 w1 Eman Ee Em) as Ho.
      unfold delivery_observation, consume_span in Ho. rewrite Eman in Ho. rewrite Ho in Hrun. injection Hrun as <- <-.
      right. do 5 eexists. split_and!; [exact Em|done..|]. split_and!; [done|by do 2 eexists|done].
  - destruct (m None (set_tel (set_delivery_destination destination
      (set_message_span_context (span_context_of None) (tel_of w))) w)) as [r0 w1] eqn:Em.
    rewrite (inner_run destination m None w r0 w1 Em). intros [= <- <-]. right. do 5 eexists.
    split_and!; [exact Em|done..].
Qed.
End observation.

(** ** The batch events of a record *)

(** Only a skipped batch is not timed. *)
Definition is_timed (outcome : string) : bool := negb (bool_decide (outcome = "skipped")).

Definition batch_events (entity : string) (n : Z) (outcome : string) : list observation :=
  [FlushOpened entity; BatchRecorded entity n (is_timed outcome) outcome; OutcomeSet outcome].

(** The outcome of a batch the database took. *)
Definition batch_done (rows : list (list value)) : Z * string :=
  (Z.of_nat (length rows), match rows with [] => "skipped" | _ => "processed" end).

Definition batch_failed (rows : list (list value)) : Z * string := (Z.of_nat (length rows), "failed").

Definition is_alias_event (o : observation) : Prop :=
  match o with AliasConflict _ _ | ConflictSummary _ _ => True | _ => False end.

(** The events of the batches a processor got to, one triple each, when it ended
    with [r] and derived the rows [rels] and [links]: two batches when it
    returned; when it raised, none, one or two, only the last of which failed. A
    flush span that does not open ([unopened]) leaves its batch unreported. *)
Inductive batches_of (unopened : Prop) (rels links : result exn (list (list value))) : bool -> list (Z * string) -> Prop :=
| BatchesNone : batches_of unopened rels links false []
| BatchesRelFailed rows : rels = Ok rows -> rows <> [] -> batches_of unopened rels links false [batch_failed rows]
| BatchesRelOnly rows : rels = Ok rows -> is_ok links = false \/ unopened ->
    batches_of unopened rels links false [batch_done rows]
| BatchesLinkFailed rows rows' : rels = Ok rows -> links = Ok rows' -> rows' <> [] ->
    batches_of unopened rels links false [batch_done rows; batch_failed rows']
| BatchesDone rows rows' ok : rels = Ok rows -> links = Ok rows' ->
    batches_of unopened rels links ok [batch_done rows; batch_done rows'].

(** The flush span of an entity may not open. *)
Definition flush_raises `{Common} (entity : string) : Prop := exists n e, flush_span_error n entity = Some e.

Section processing.
Context `{PyRepr} `{Postgres} `{Common}.
Context (refresh_updated_at : bool).

(** A part of a processor the observer does not see. *)
Abbreviation quiet := (keeps w_observed).

Lemma quiet_on_session {A} (m : sql A) : quiet (on_session m).
Proof. intros w. unfold on_session, zoom. by destruct (m (w_session w)). Qed.

Lemma quiet_hash_ref r : quiet (hash_ref r).
Proof. intros w. unfold hash_ref. by destruct (hashable _). Qed.

#[local] Hint Resolve @quiet_on_session quiet_hash_ref : loader.

Lemma quiet_native_id kind mbid discogs : quiet (native_id kind mbid discogs).
Proof.
  unfold native_id. destruct (truthy mbid); [|apply keeps_ret]. destruct (truthy discogs); [|auto 10 with loader].
  apply keeps_bind; [auto with loader|]. intros l. destruct (lookup_ref l _); auto 10 with loader.
Qed.

Lemma quiet_write_release_media record media : quiet (write_release_media record media).
Proof. unfold write_release_media. destruct (is_none _); auto 10 with loader. Qed.

(** A quiet step either ends the computation or leaves the observer as it was. *)
Lemma quiet_step {A B} (m : proc A) (f : A -> proc B) w r w' :
  quiet m -> (m ≫= f) w = (r, w') ->
  (is_ok r = false /\ w_observed w' = w_observed w) \/
  exists a w1, w_observed w1 = w_observed w /\ f a w1 = (r, w').
Proof.
  intros Hm. specialize (Hm w). unfold mbind, comp_bind. destruct (m w) as [[a|e] w1].
  - intros Hr. right. by exists a, w1.
  - intros [= <- <-]. by left.
Qed.

Lemma write_batch_observed entity rows write w r w' :
  write_batch entity rows write w = (r, w') ->
  (is_ok r = false /\ flush_raises entity /\ w_observed w' = w_observed w) \/
  (is_ok r = false -> rows <> []) /\
  w_observed w' = w_observed w ++
    (let b := if is_ok r then batch_done rows else batch_failed rows in batch_events entity b.1 b.2).
Proof.
  unfold write_batch, observes. destruct (flush_span_error (length (w_observed w)) entity) as [e|] eqn:Ee.
  { rewrite (comp_bind_raise (open_flush entity) _ w e w) by (unfold open_flush, mbind, comp_bind, reads; by rewrite Ee).
    intros [= <- <-]. left. split_and!; [done|by do 2 eexists|done]. }
  rewrite (comp_bind_run (open_flush entity) _ w tt (observe (FlushOpened entity) w))
    by (unfold open_flush, mbind, comp_bind, reads; by rewrite Ee).
  intros Hr. right. revert Hr. destruct rows as [|row rows].
  - intros [= <- <-]. simpl. by rewrite <- !app_assoc.
  - set (w0 := observe _ w). pose proof (quiet_on_session write w0) as Hq. unfold mbind, comp_bind, catch.
    destruct (on_session write w0) as [[a|e] w1]; simpl in Hq; intros [= <- <-]; simpl; rewrite Hq;
      unfold w0; simpl; by rewrite <- !app_assoc.
Qed.

(** The two batches of a record, then code that only meets alias conflicts. *)
Lemma batches_observed {A} label mbid ty rels links (rest : proc A) w r w' :
  canonical_label ty = label ->
  (forall w r w', rest w = (r, w') -> exists new, w_observed w' = w_observed w ++ new /\ Forall is_alias_event new) ->
  (process_relationships refresh_updated_at mbid ty rels ≫= fun _ =>
   process_external_links refresh_updated_at mbid ty links ≫= fun _ => rest) w = (r, w') ->
  exists batches new, w_observed w' = w_observed w ++ concat (map (fun b => batch_events label b.1 b.2) batches) ++ new /\
    Forall is_alias_event new /\
    batches_of (flush_raises label) (relationship_rows mbid ty rels) (external_link_rows mbid ty links) (is_ok r) batches.
Proof.
  intros Hl Hrest. unfold process_relationships, process_external_links. rewrite Hl. unfold mbind at 1, comp_bind at 1, lift.
  destruct (relationship_rows mbid ty rels) as [rows|e] eqn:Er; cbn.
  2: { intros [= <- <-]. exists [], []. rewrite !app_nil_r. split_and!; constructor. }
  unfold mbind at 1, comp_bind at 1.
  destruct (write_batch label rows _ w) as [[[]|e] w1] eqn:E1; apply write_batch_observed in E1 as [(Hk & Hu & Ho1)|[Hf1 Ho1]]; try done.
  2: { intros [= <- <-]. exists [], []. rewrite Ho1, !app_nil_r. split_and!; constructor. }
  2: { intros [= <- <-]. exists [batch_failed rows], []. simpl in *. rewrite Ho1. split_and!; [done|constructor|].
       constructor; auto. }
  unfold mbind at 1, comp_bind at 1, lift.
  destruct (external_link_rows mbid ty links) as [rows'|e] eqn:El; cbn.
  2: { intros [= <- <-]. exists [batch_done rows], []. simpl in *. rewrite Ho1. split_and!; [done|constructor|].
       apply BatchesRelOnly; [done|by left]. }
  unfold mbind at 1, comp_bind at 1.
  destruct (write_batch label rows' _ w1) as [[[]|e] w2] eqn:E2; apply write_batch_observed in E2 as [(Hk & Hu & Ho2)|[Hf2 Ho2]]; try done.
  - intros Hr. destruct (Hrest _ _ _ Hr) as (new & Ho & HF). exists [batch_done rows; batch_done rows'], new.
    rewrite Ho, Ho2, Ho1. simpl. rewrite <- !app_assoc. split_and!; [done|done|by eapply BatchesDone].
  - intros [= <- <-]. exists [batch_done rows], []. rewrite Ho2, Ho1. simpl. split_and!; [done|constructor|].
    apply BatchesRelOnly; [done|by right].
  - intros [= <- <-]. exists [batch_done rows; batch_failed rows'], []. rewrite Ho2, Ho1. simpl. rewrite <- !app_assoc.
    split_and!; [done|constructor|eapply BatchesLinkFailed; auto].
Qed.

Lemma ends_with_ret (m1 : proc unit) (m2 : proc unit) w :
  (m1 ≫= fun _ => m2) w = (m1 ≫= fun _ => m2 ≫= fun _ => mret tt) w.
Proof. unfold mbind, comp_bind. destruct (m1 w) as [[a|e] w1]; [|done]. by destruct (m2 w1) as [[[]|e] w2]. Qed.

Lemma timed_events_alias l w r w' :
  for_each l (fun ru : alias_ref * uuid =>
    observes (AliasConflict (ref_entity_kind ru.1) (ref_provider ru.1)) ≫= fun _ =>
    summary_add (ref_entity_kind ru.1) (ref_provider ru.1)) w = (r, w') ->
  exists new, w_observed w' = w_observed w ++ new /\ Forall is_alias_event new.
Proof.
  revert w. induction l as [|x l IH]; intros w; simpl.
  { intros [= _ <-]. exists []. by rewrite app_nil_r. }
  set (o := AliasConflict (ref_entity_kind x.1) (ref_provider x.1)).
  assert (exists w1 new, (observes o ≫= fun _ => summary_add (ref_entity_kind x.1) (ref_provider x.1)) w = (Ok tt, w1) /\
     w_observed w1 = w_observed w ++ new /\ Forall is_alias_event new) as (w1 & new & Hw1 & Ho & HF).
  { unfold observes. erewrite comp_bind_run by done. unfold summary_add. case_match; do 2 eexists.
    - split_and!; [done|done|by repeat constructor].
    - split_and!; [done|simpl; by rewrite <- app_assoc|by repeat constructor]. }
  rewrite (comp_bind_run _ _ _ _ _ Hw1). intros Hr. destruct (IH _ Hr) as (new' & Ho' & HF').
  exists (new ++ new'). rewrite Ho', Ho, app_assoc. split; [done|]. by apply Forall_app.
Qed.

Lemma attach_observed record native w r w' :
  attach_identifier_aliases record native w = (r, w') ->
  exists new, w_observed w' = w_observed w ++ new /\ Forall is_alias_event new.
Proof.
  assert (forall w, exists new, w_observed w = w_observed w ++ new /\ Forall is_alias_event new) as Hnone
    by (intros w0; exists []; by rewrite app_nil_r).
  unfold attach_identifier_aliases. destruct native as [u|]; [|intros [= _ <-]; done].
  set (attach := fun refs : list alias_ref => _ : proc unit).
  assert (forall refs w r w', attach refs w = (r, w') ->
    exists new, w_observed w' = w_observed w ++ new /\ Forall is_alias_event new) as Ha.
  { unfold attach. intros [|r0 refs] w1 r1 w1'; [intros [= _ <-]; done|]. intros Hr.
    apply quiet_step in Hr as [[_ ->]|(a & w2 & <- & Hr)]; [done| |by apply quiet_on_session]. by eapply timed_events_alias. }
  repeat case_match; try (intros Hr; apply quiet_step in Hr as [[_ ->]|(a & w2 & <- & Hr)]; [done|by eapply Ha|done]).
  intros [= _ <-]. done.
Qed.

(** The label a data type's flushes carry. *)
Definition flush_label (data_type : string) : string :=
  if decide (data_type = "artists") then "artist" else if decide (data_type = "labels") then "label"
  else if decide (data_type = "release-groups") then "release-group" else "release".

Ltac quiet_part :=
  match goal with
  | Hr : (_ ≫= _) _ = (_, _) |- _ =>
      apply quiet_step in Hr as [[-> ->]|(? & ? & <- & Hr)];
        [exists [], []; rewrite app_nil_r; by split_and!; [|constructor|constructor]|
        |solve [auto using quiet_native_id, @quiet_on_session, @keeps_lift, quiet_write_release_media]]
  end.

Lemma processor_batches data_type processor record w r w' :
  processor_of refresh_updated_at data_type = Some processor -> processor record w = (r, w') ->
  exists batches new,
    w_observed w' = w_observed w ++ concat (map (fun b => batch_events (flush_label data_type) b.1 b.2) batches) ++ new /\
    Forall is_alias_event new /\
    batches_of (flush_raises (flush_label data_type))
      (relationship_rows (mbid_of record) (flush_label data_type) (get_default record "relations" (VList [])))
      (external_link_rows (mbid_of record) (flush_label data_type) (get_default record "external_links" (VList [])))
      (is_ok r) batches.
Proof.
  assert (forall (w : world) (r : result exn unit) w', (mret tt : proc unit) w = (r, w') ->
    exists new, w_observed w' = w_observed w ++ new /\ Forall is_alias_event new) as Hret
    by (intros w0 r0 w0' [= _ <-]; exists []; by rewrite app_nil_r).
  unfold processor_of, flush_label. intros Hp Hr. repeat case_decide; simplify_eq.
  - unfold process_artist in Hr. do 2 quiet_part. rewrite ends_with_ret in Hr. by eapply batches_observed.
  - unfold process_label in Hr. do 2 quiet_part. rewrite ends_with_ret in Hr. by eapply batches_observed.
  - unfold process_release_group in Hr. do 2 quiet_part. rewrite ends_with_ret in Hr. by eapply batches_observed.
  - unfold process_release in Hr. destruct (is_none _).
    + apply quiet_step in Hr as [[-> ->]|(? & ? & <- & Hr)];
        [exists [], []; rewrite app_nil_r; by split_and!; [|constructor|constructor]| |done].
      do 4 quiet_part. eapply batches_observed; [done| |exact Hr]. intros. by eapply attach_observed.
    + do 5 quiet_part. eapply batches_observed; [done| |exact Hr]. intros. by eapply attach_observed.
Qed.
End processing.

(** ** What the batch observer exports *)

Section exports.
Context `{PyRepr} `{Postgres} `{Common} `{OpenTelemetry} `{!Healthy}.
Context (refresh_updated_at : bool).

(** What the observer's calls are: the events in order, those of the [n]-th flush
    under the span it opened and the time it took. *)
Fixpoint observer_calls (spans : nat -> option nat) (elapsed : nat -> Z) (flush : nat) (events : list observation) :
    list tel_call :=
  match events with
  | [] => []
  | o :: events =>
      let flush := match o with FlushOpened _ => S flush | _ => flush end in
      BatchEvent (spans flush) (elapsed flush) o :: observer_calls spans elapsed flush events
  end.

(** The measurements and span events of one batch, under the links [links]. *)
Definition flush_points (p : nat) (label : string) (elapsed : Z) (b : Z * string) : list point :=
  let attrs := [("store", "postgresql"); ("entity", label); ("outcome", b.2)] in
  [Point (instrument_of p PIPELINE_BATCH_SIZE) MeasureRecord b.1 attrs;
   Point (instrument_of p PIPELINE_BATCH_FLUSH_DURATION) MeasureRecord (if is_timed b.2 then elapsed else 0%Z) attrs].

Definition flush_events (links : list span_ctx) (span : option nat) (label : string) (b : Z * string) : list span_event :=
  FlushSpan "postgresql" label links :: from_option (fun s => [SpanAttribute s "outcome" b.2]) [] span.

(** [t'] follows [t] by these measurements and span events. *)
Definition tel_extends (p : nat) (t : telemetry) (ps : list point) (es : list span_event) (t' : telemetry) : Prop :=
  bound_provider t' p /\ flush_links t' = flush_links t /\
  t_points t' = t_points t ++ ps /\ t_spans t' = t_spans t ++ es.

Lemma tel_extends_app p t ps es t1 ps' es' t2 :
  tel_extends p t ps es t1 -> tel_extends p t1 ps' es' t2 -> tel_extends p t (ps ++ ps') (es ++ es') t2.
Proof.
  intros (_ & Hl & Hp & He) (Hb & Hl' & Hp' & He'). unfold tel_extends.
  rewrite Hl', Hl, Hp', Hp, He', He, !app_assoc. done.
Qed.

Lemma calls_app l k t t1 t2 :
  calls l t = (Ok tt, t1) -> calls k t1 = (Ok tt, t2) -> calls (l ++ k) t = (Ok tt, t2).
Proof.
  unfold calls. revert t. induction l as [|c l IH]; intros t; simpl; [by intros [= ->]|].
  destruct (call_returns c t) as [t' Hc]. rewrite !(comp_bind_run _ _ _ _ _ Hc). apply IH.
Qed.

Lemma exported_extends p ps es t : flush_links (exported p ps es t) = flush_links t -> tel_extends p t ps es (exported p ps es t).
Proof. intros Hl. split_and!; [apply exported_bound|done..]. Qed.

Lemma batch_exports p label elapsed span b t :
  bound_provider t p ->
  exists t', calls (map (BatchEvent span elapsed) (batch_events label b.1 b.2)) t = (Ok tt, t') /\
    tel_extends p t (flush_points p label elapsed b) (flush_events (flush_links t) span label b) t'.
Proof.
  intros Hb. set (t1 := log_span (FlushSpan STORE label (flush_links t)) t).
  assert (bound_provider t1 p) as Hb1 by done.
  assert (forall n, bool_decide (n ∈ instrument_catalogue.*1.*1) = true -> n ∈ instrument_catalogue.*1.*1) as Hin
    by (intros n Hn; by apply bool_decide_eq_true in Hn).
  unfold calls, batch_events. simpl map. simpl for_each.
  rewrite (comp_bind_run _ _ t tt t1) by done.
  erewrite comp_bind_run by (apply measures2_healthy; [exact Hb1|by apply Hin..]).
  destruct span as [s|].
  - erewrite comp_bind_run.
    2: { unfold set_span_outcome, guarded, catch, set_attribute, raising, mbind, comp_bind. simpl.
         rewrite sets_attributes. done. }
    eexists. split; [done|]. split_and!; [apply build_healthy|done|done|].
    simpl. by rewrite app_nil_r, <- app_assoc.
  - erewrite comp_bind_run by done. eexists. split; [done|].
    split_and!; [apply build_healthy|done|done|]. simpl. by rewrite app_nil_r.
Qed.

Lemma alias_exports p elapsed span l t :
  bound_provider t p -> Forall is_alias_event l ->
  exists t' ps, calls (map (BatchEvent span elapsed) l) t = (Ok tt, t') /\ tel_extends p t ps [] t' /\
    Forall (fun q => in_name (pt_instrument q) = PIPELINE_ALIAS_CONFLICTS) ps.
Proof.
  intros Hb HF. revert t Hb. induction HF as [|o l Ho HF IH]; intros t Hb.
  { exists t, []. unfold tel_extends. by rewrite !app_nil_r. }
  assert (exists t1 ps, call (BatchEvent span elapsed o) t = (Ok tt, t1) /\ tel_extends p t ps [] t1 /\
     Forall (fun q => in_name (pt_instrument q) = PIPELINE_ALIAS_CONFLICTS) ps) as (t1 & ps & Hc & He & Hps).
  { destruct o; try done; simpl.
    - do 2 eexists. split_and!.
      + unfold record_alias_conflict, guarded, catch. erewrite measures_healthy; [done|exact Hb|].
        by apply (bool_decide_unpack _).
      + by apply exported_extends.
      + by repeat constructor.
    - exists t, []. unfold tel_extends. by rewrite !app_nil_r. }
  destruct (IH t1) as (t2 & ps' & Hc' & He' & Hps'); [apply He|].
  exists t2, (ps ++ ps'). split_and!; [|by apply (tel_extends_app p t ps [] t1)|by apply Forall_app].
  unfold calls in *. simpl. by rewrite (comp_bind_run _ _ _ _ _ Hc).
Qed.

Lemma alias_calls spans elapsed flush new :
  Forall is_alias_event new ->
  observer_calls spans elapsed flush new = map (BatchEvent (spans flush) (elapsed flush)) new.
Proof. induction 1 as [|o new Ho _ IH]; [done|]. destruct o; try done; simpl; by rewrite IH. Qed.

(** The events of a run of batches, then alias conflicts. *)
Lemma batches_export p label spans elapsed batches new flush t :
  bound_provider t p -> Forall is_alias_event new ->
  exists t' conflicts,
    calls (observer_calls spans elapsed flush (concat (map (fun b => batch_events label b.1 b.2) batches) ++ new)) t = (Ok tt, t') /\
    tel_extends p t (concat (imap (fun i => flush_points p label (elapsed (S (flush + i)))) batches) ++ conflicts)
      (concat (imap (fun i => flush_events (flush_links t) (spans (S (flush + i))) label) batches)) t' /\
    Forall (fun q => in_name (pt_instrument q) = PIPELINE_ALIAS_CONFLICTS) conflicts.
Proof.
  intros Hb HF. revert flush t Hb. induction batches as [|b batches IH]; intros flush t Hb.
  { simpl. rewrite (alias_calls _ _ _ _ HF). destruct (alias_exports p (elapsed flush) (spans flush) new t Hb HF)
      as (t' & ps & Hc & He & Hps). by exists t', ps. }
  destruct (batch_exports p label (elapsed (S flush)) (spans (S flush)) b t Hb) as (t1 & Hc1 & He1).
  destruct (IH (S flush) t1) as (t2 & ps & Hc2 & He2 & Hps); [apply He1|]. exists t2, ps. split_and!; [|..|done].
  - rewrite map_cons, concat_cons, <- app_assoc.
    change (observer_calls spans elapsed flush (batch_events label b.1 b.2 ++ ?l)) with
      (map (BatchEvent (spans (S flush)) (elapsed (S flush))) (batch_events label b.1 b.2) ++ observer_calls spans elapsed (S flush) l).
    by eapply calls_app.
  - rewrite (proj1 (proj2 He1)) in He2. rewrite !imap_cons, !concat_cons, Nat.add_0_r, <- app_assoc.
    pose proof (tel_extends_app _ _ _ _ _ _ _ _ He1 He2) as He.
    rewrite (imap_ext _ (fun i => flush_points p label (elapsed (S (S flush + i)))) batches) by (intros; simpl; by rewrite Nat.add_succ_r).
    rewrite (imap_ext _ (fun i => flush_events (flush_links t) (spans (S (S flush + i))) label) batches)
      by (intros; simpl; by rewrite Nat.add_succ_r).
    exact He.
Qed.

(** C37: a record's flushes, seen by an operator. Take a delivery whose consumer
    span starts, on an OpenTelemetry whose other calls answer, and any record,
    data type and answer of the outside: the batch events its processor raises,
    observed inside that delivery, are exported between the span's start and its
    end as a sequence of batches and then alias conflicts. Each batch is one
    flush span linked to the context of the delivery's own span, when that is
    readable and valid, and to nothing otherwise; one size; one duration, the time
    that flush took or zero when it was skipped; and one outcome, which also marks
    the flush's span. When the record was processed there are exactly two batches,
    of the sizes of the rows derived, skipped when empty; when the processor
    raised, only its last batch is failed, and a batch whose span it never opened
    is not reported. The processor's own result is the delivery's, unless the end
    of its span raises. *)
Theorem record_flushes_linked data_type processor record w r w' p spans elapsed destination headers parent t :
  processor_of refresh_updated_at data_type = Some processor -> processor record w = (r, w') ->
  bound_provider t p ->
  consumer_manager destination headers = Ok parent -> enter_error ("process " +:+ destination) = None ->
  let label := flush_label data_type in let own := t_next_span t in
  let links := match get_span_context own with Ok (Some c) => if ctx_is_valid c then [c] else [] | _ => [] end in
  exists events batches conflicts t',
    w_observed w' = w_observed w ++ events /\
    batches_of (flush_raises label)
      (relationship_rows (mbid_of record) label (get_default record "relations" (VList [])))
      (external_link_rows (mbid_of record) label (get_default record "external_links" (VList [])))
      (is_ok r) batches /\
    delivery_observation (fun t => t) (fun t _ => t) destination headers
      (fun _ => calls (observer_calls spans elapsed 0 events) ≫= fun _ => lift r) t =
      (match exit_error own with Some e => Raise e | None => r end, t') /\
    t_points t' = t_points t ++ concat (imap (fun i => flush_points p label (elapsed (S i))) batches) ++ conflicts /\
    t_spans t' = t_spans t ++
      [SpanStarted own ("process " +:+ destination) parent
         [("messaging.system", "rabbitmq"); ("messaging.destination.name", destination); ("messaging.operation.name", "process")]] ++
      concat (imap (fun i => flush_events links (spans (S i)) label) batches) ++ [SpanEnded own] /\
    Forall (fun q => in_name (pt_instrument q) = PIPELINE_ALIAS_CONFLICTS) conflicts.
Proof.
  intros Hp Hr Hb Hman Hent label own links.
  destruct (processor_batches refresh_updated_at _ _ _ _ _ _ Hp Hr) as (batches & new & Ho & HF & Hbatches).
  fold label in Ho, Hbatches.
  set (events := concat (map (fun b => batch_events label b.1 b.2) batches) ++ new) in *.
  set (started := SpanStarted own ("process " +:+ destination) parent
    [("messaging.system", MESSAGING_SYSTEM); ("messaging.destination.name", destination); ("messaging.operation.name", "process")]).
  set (t0 := Telemetry (t_provider t) (t_instruments t) (t_points t) (t_spans t ++ [started]) (S own)
    (span_context_of (Some own)) destination).
  assert (flush_links t0 = links) as Hlinks.
  { unfold flush_links, t0, span_context_of, links. simpl. destruct (get_span_context own) as [[c|]|]; try done.
    unfold mbind, option_bind. by destruct (ctx_is_valid c). }
  destruct (batches_export p label spans elapsed batches new 0 t0) as (t1 & conflicts & Hc & (_ & _ & Hpts & Hsp) & Hcf); [exact Hb|done|].
  pose proof (observed_started (W:=telemetry) (fun t => t) (fun t _ => t) (fun _ _ => eq_refl) (fun _ _ _ => eq_refl) destination headers
    (fun _ => calls (observer_calls spans elapsed 0 events) ≫= fun _ => lift r) parent t r t1 Hman Hent) as Hobs.
  cbv zeta in Hobs. exists events, batches, conflicts. eexists. split_and!; [exact Ho|exact Hbatches| | | |exact Hcf].
  - apply Hobs. rewrite (comp_bind_run _ _ _ _ _ Hc). by destruct r.
  - exact Hpts.
  - simpl. rewrite Hlinks in Hsp. rewrite Hsp. simpl. by rewrite <- !app_assoc.
Qed.
End exports.
