(* ===== verification/DeliverySafety.v ===== *)
(** * Deliveries: theorems

    What a delivery may change, when it is requeued, and what keeps the purge
    from running on top of a dead letter. *)

From S2P Require Import Prelude PyValue QueueNames PurgeVeto Consumers Database Persistence ChildRows Media.
From S2P Require Import RecordProcessing ProcessTrace ProcessSpec Reconciliation Latch PurgeSafety Delivery.
From stdpp Require Import base gmap strings list option sorting.
From Stdlib Require Import ZArith Lia.

(** A result that settles its message for good. *)
Definition final (r : delivery_result) : Prop := dr_settlement r = ACK \/ dr_settlement r = REJECT.

(** What [run_delivery] promises: an acknowledgement or a rejection is settled
    as it is; an error is rejected or, after the wait, requeued, as the
    classifier says; and where the message's own settlement raises, so does
    [run_delivery], without another attempt. *)
Class SharedLaws `{Shared} : Prop := {
  run_delivery_returns h c w s p r p' :
    h p = (Ok r, p') -> final r -> run_delivery h c w s p = (settling s r, p');
  run_delivery_rejects h c w s p e p' :
    h p = (Raise e, p') -> c e = DETERMINISTIC ->
    exists outcome, run_delivery h c w s p = (settling s (DeliveryResult REJECT outcome (Some (exn_name e))), p');
  run_delivery_requeues h c w s p e p' :
    h p = (Raise e, p') -> c e = TRANSIENT ->
    exists outcome, run_delivery h c w s p = (settling s (DeliveryResult REQUEUE outcome (Some (exn_name e))), (w p').2);
}.

Section safety.
Context `{PyRepr} `{Postgres} `{Common} `{Collation} `{Shared}.
Context (cfg : purge_config) (refresh_updated_at : bool) (CONSUMER_CANCEL_DELAY : Z).

Abbreviation handle := (handle_data_message cfg refresh_updated_at CONSUMER_CANCEL_DELAY).
Abbreviation deliver := (on_data_message cfg refresh_updated_at CONSUMER_CANCEL_DELAY).

(** The dead letters the purge knows of. *)
Definition marks (p : process) : gset string := default ∅ (dead_lettered <$> stale_row_purge p).

Definition is_control (v : value) : bool :=
  bool_decide (v = VStr "file_complete" \/ v = VStr "extraction_complete").

(** ** The transaction of a record *)

Lemma process_in_transaction_db an processor data p r p' :
  process_in_transaction an processor data p = (r, p') ->
  match r with
  | Ok _ => exists w, processor data (World (Session (p_db p) (an_now an) (p_trace p)) (p_observed p) (p_summary p) (an_monotonic an)) = (Ok tt, w) /\
              p_db p' = db_of w
  | Raise _ => p_db p' = p_db p
  end /\ p_latch p' = p_latch p /\ stale_row_purge p' = stale_row_purge p /\ p_consumers p' = p_consumers p.
Proof.
  unfold process_in_transaction. destruct (an_connects an); [by intros [= <- <-]|].
  destruct (processor data _) as [[[]|e] w] eqn:E; [destruct (an_commits an)|]; intros [= <- <-]; simpl;
    split_and!; eauto.
Qed.

Lemma reject_run t e p : reject t e p = (Ok (DeliveryResult REJECT "failed" (Some e)), (mark_dead_letter t p).2).
Proof. done. Qed.

Lemma mark_dead_letter_spec t p :
  marks (mark_dead_letter t p).2 = (if stale_row_purge p is Some _ then {[t]} ∪ marks p else ∅) /\
  p_db (mark_dead_letter t p).2 = p_db p /\ p_latch (mark_dead_letter t p).2 = p_latch p /\
  p_consumers (mark_dead_letter t p).2 = p_consumers p /\
  stale_row_purge (mark_dead_letter t p).2 = record_dead_letter t <$> stale_row_purge p.
Proof. unfold marks. simpl. by destruct (stale_row_purge p). Qed.

Lemma handle_record_run an t data p r p' :
  handle_record refresh_updated_at an t data p = (r, p') ->
  (exists processor w, processor_of refresh_updated_at t = Some processor /\
     (exists id, lookup_key data "id" = Some id /\ uuid_parses id = true) /\
     r = Ok (DeliveryResult ACK "processed" None) /\
     processor data (World (Session (p_db p) (an_now an) (p_trace p)) (p_observed p) (p_summary p) (an_monotonic an)) = (Ok tt, w) /\
     p_db p' = db_of w /\ marks p' = marks p) \/
  (p_db p' = p_db p /\ (exists e, r = Ok (DeliveryResult REJECT "failed" (Some e))) /\ p' = (mark_dead_letter t p).2) \/
  (p_db p' = p_db p /\ (exists e, r = Raise e) /\ marks p' = marks p).
Proof.
  unfold handle_record. destruct (lookup_key data "id") as [id|].
  2: { rewrite reject_run. intros [= <- <-]. right. left. split_and!; [apply mark_dead_letter_spec|eauto|done]. }
  destruct (negb (truthy id)).
  { rewrite reject_run. intros [= <- <-]. right. left. split_and!; [apply mark_dead_letter_spec|eauto|done]. }
  destruct (uuid_parses id) eqn:Eid; simpl.
  2: { rewrite reject_run. intros [= <- <-]. right. left. split_and!; [apply mark_dead_letter_spec|eauto|done]. }
  destruct (processor_of refresh_updated_at t) as [processor|].
  2: { rewrite reject_run. intros [= <- <-]. right. left. split_and!; [apply mark_dead_letter_spec|eauto|done]. }
  unfold mbind, comp_bind, reads. simpl.
  destruct (connection_pool p); simpl; [|intros [= <- <-]; right; right; eauto].
  destruct (write_admission p); simpl; [|intros [= <- <-]; right; right; eauto].
  destruct (process_in_transaction an processor data p) as [[[]|e] p1] eqn:Et.
  - apply process_in_transaction_db in Et as ((w & Hw & Hdb) & _ & Hp & _). intros [= <- <-].
    left. exists processor, w. split_and!; try done; [eauto|]. unfold marks. by rewrite Hp.
  - apply process_in_transaction_db in Et as (Hdb & _ & Hp & _). intros [= <- <-].
    right. right. split_and!; [done|eauto|]. unfold marks. by rewrite Hp.
Qed.

(** A message that is neither control signal takes the record path. *)
Lemma handle_record_path an v data t p :
  dict_of v = Ok data -> is_control (get data "type") = false ->
  handle an (Ok v) t p =
    handle_record refresh_updated_at an t data (set_p_consumers (pop_cancel t (uncomplete t (p_consumers p))) p).
Proof.
  intros Hv Hc. unfold handle_data_message, lift, mbind, comp_bind. rewrite Hv.
  unfold is_control in Hc. apply bool_decide_eq_false_1 in Hc.
  rewrite decide_False, decide_False by tauto. done.
Qed.

(** C6: a record is committed whole, exactly when it is acknowledged as
    processed. For every record message and every answer of the outside: either
    the result is ACK "processed", the [id] is a UUID, and the database is what
    the processor's whole run left; or the result is a rejection or an error,
    and the database is as it was. *)
Theorem record_all_or_nothing an v data t p r p' :
  dict_of v = Ok data -> is_control (get data "type") = false ->
  handle an (Ok v) t p = (r, p') ->
  (r = Ok (DeliveryResult ACK "processed" None) /\
     exists processor w, processor_of refresh_updated_at t = Some processor /\
       (exists id, lookup_key data "id" = Some id /\ uuid_parses id = true) /\
       processor data (World (Session (p_db p) (an_now an) (p_trace p)) (p_observed p) (p_summary p) (an_monotonic an)) = (Ok tt, w) /\
       p_db p' = db_of w) \/
  (p_db p' = p_db p /\
     ((exists e, r = Ok (DeliveryResult REJECT "failed" (Some e))) \/ exists e, r = Raise e)).
Proof.
  intros Hv Hc. rewrite (handle_record_path an v data t p Hv Hc). intros Hrun.
  apply handle_record_run in Hrun as [(processor & w & Hp & Hid & -> & Hw & Hdb & _)|[(Hdb & He & _)|(Hdb & He & _)]].
  - left. split; [done|]. exists processor, w. done.
  - right. split; [done|by left].
  - right. split; [done|by right].
Qed.

(** ** After the runner *)

(** The process after [on_data_message] has returned [r], from the one its
    handler left: the mark of a rejection, the count of a processed record. *)
Definition after_settlement (an : answers_) (t : string) (r : delivery_result) (p : process) : process :=
  let p := if decide (dr_settlement r = REJECT /\ dr_error_type r <> Some (exn_name ReconciliationFailed))
           then (mark_dead_letter t p).2 else p in
  if decide (dr_settlement r = ACK /\ dr_outcome r = "processed")
  then set_p_consumers (count_message t (an_time an) (p_consumers p)) (add_backoff BackoffReset p) else p.

Lemma after_runner_run an t r p : after_runner an t r p = (Ok r, after_settlement an t r p).
Proof.
  unfold after_runner, after_settlement. destruct (decide (dr_settlement r = REJECT /\ _)); (erewrite comp_bind_run by done);
    by destruct (decide (dr_settlement r = ACK /\ _)).
Qed.

Lemma deliver_ran an headers body t p :
  shutdown_requested p = false ->
  deliver an headers body t p =
    match run_delivery (handle an body t) (classifier (broker_handouts headers)) wait_before_requeue (an_settles an) p with
    | (Ok r, p1) => (Ok r, after_settlement an t r p1)
    | (Raise e, p1) => (Raise e, p1)
    end.
Proof.
  intros Hstop. unfold on_data_message, mbind, comp_bind, reads. rewrite Hstop.
  destruct (run_delivery _ _ _ _ p) as [[r|e] p1]; [apply after_runner_run|done].
Qed.

(** ** Rejections veto *)

(** C19: a rejection always vetoes the purge. Whatever the shared delivery code
    does, when [on_data_message] returns a rejection (other than that of a
    failed reconciliation) while a purge exists, the type is marked, and from
    there a purge deletes nothing, whatever has been signalled: the rejected
    record's rows, which this run never refreshed, are safe. *)
Theorem rejection_vetoes an headers body t p r p' :
  deliver an headers body t p = (Ok r, p') ->
  shutdown_requested p = false ->
  dr_settlement r = REJECT -> dr_error_type r <> Some "ReconciliationFailed" ->
  forall st, stale_row_purge p' = Some st ->
  t ∈ dead_lettered st /\
  forall connected se res st' se', purge cfg connected (st, se) = (res, (st', se')) -> s_db se' = s_db se.
Proof.
  intros Hrun Hstop Hrej Herr st Hst. rewrite (deliver_ran _ _ _ _ _ Hstop) in Hrun.
  destruct (run_delivery _ _ _ _ p) as [[res|e] p1] eqn:Ed; [|done]. injection Hrun as -> <-.
  unfold after_settlement in Hst. rewrite (decide_False (P := dr_settlement r = ACK /\ _)) in Hst by (intros [? _]; congruence).
  rewrite decide_True in Hst by (split; [exact Hrej|exact Herr]).
  destruct (mark_dead_letter_spec t p1) as (_ & _ & _ & _ & Hp). rewrite Hp in Hst.
  destruct (stale_row_purge p1) as [st1|]; [|done]. injection Hst as <-.
  assert (t ∈ dead_lettered (record_dead_letter t st1)) as Hin by (simpl; set_solver).
  split; [done|]. intros connected se r0 st' se' Hpurge.
  destruct r0 as [l|e]; [|by apply purge_raise in Hpurge as [_ ->]].
  apply purge_ok in Hpurge. destruct (veto_reason cfg (record_dead_letter t st1)) eqn:Ev.
  + by destruct Hpurge as (_ & -> & _).
  + apply unvetoed in Ev as (b & _ & _ & _ & Hempty & _). rewrite Hempty in Hin. set_solver.
Qed.

(** ** Gathering the vetoes *)

Definition with_marks (ts : list string) (st : purge_state) : purge_state :=
  PurgeState (boundary st) (signals st) (list_to_set ts ∪ dead_lettered st) (settled_boundary st).

Lemma with_marks_app ts ts' st : with_marks ts' (with_marks ts st) = with_marks (ts ++ ts') st.
Proof. unfold with_marks. simpl. f_equal. apply set_eq. set_solver. Qed.

Lemma with_marks_one t st : with_marks [t] st = record_dead_letter t st.
Proof. unfold with_marks, record_dead_letter. simpl. by rewrite union_empty_r_L. Qed.

Lemma mark_dead_letter_with t st p :
  mark_dead_letter t (set_purge (Some st) p) = (Ok tt, set_purge (Some (with_marks [t] st)) p).
Proof. by rewrite with_marks_one. Qed.

Lemma for_each_marks (test : string -> bool) (body : string -> run unit) ts p st :
  stale_row_purge p = Some st ->
  (forall t st', body t (set_purge (Some st') p) = (Ok tt, set_purge (Some (if test t then with_marks [t] st' else st')) p)) ->
  for_each ts body p = (Ok tt, set_purge (Some (with_marks (filter (fun t => test t = true) ts) st)) p).
Proof.
  intros Hp Hbody. assert (p = set_purge (Some st) p) as Hself by (destruct p; simpl in *; by subst).
  rewrite Hself at 1. clear Hp Hself. revert st. induction ts as [|t ts IH]; intros st; simpl.
  - unfold with_marks. simpl. rewrite union_empty_l_L. by destruct st.
  - rewrite (comp_bind_run _ _ _ _ _ (Hbody t st)), IH, filter_cons. destruct (test t); simpl.
    + do 3 f_equal. unfold with_marks. simpl. f_equal. apply set_eq. set_solver.
    + done.
Qed.

(** Whether the broker's dead letters of a type veto: it holds some, or cannot say. *)
Definition broker_vetoes (an : answers_) (p : process) (t : string) : bool :=
  match dead_letters_waiting an p t with None => true | Some n => (0 <? n)%Z end.

(** The loop over the broker's dead-letter queues. *)
Lemma broker_marks_run an p st :
  stale_row_purge p = Some st ->
  for_each (sorted (elements (expected_data_types cfg))) (fun t =>
    reads (fun p => dead_letters_waiting an p t) ≫= fun waiting =>
    match waiting with
    | Some 0%Z => mret tt
    | Some n => if (0 <? n)%Z then mark_dead_letter t else mret tt
    | None => mark_dead_letter t
    end) p =
  (Ok tt, set_purge (Some (with_marks (filter (fun t => broker_vetoes an p t = true)
                             (sorted (elements (expected_data_types cfg)))) st)) p).
Proof.
  intros Hp. apply for_each_marks; [done|]. intros t st'.
  unfold mbind, comp_bind, reads, broker_vetoes, mark_dead_letter, modifies. pose proof (fun st' => with_marks_one t st') as Hw.
  change (dead_letters_waiting an (set_purge (Some st') p) t) with (dead_letters_waiting an p t).
  destruct (dead_letters_waiting an p t) as [[|n|n]|]; simpl; rewrite ?Hw; done.
Qed.

(** The loop over the types an earlier delivery recorded. *)
Lemma recorded_marks_run recorded st p :
  for_each recorded mark_dead_letter (set_purge (Some st) p) = (Ok tt, set_purge (Some (with_marks recorded st)) p).
Proof.
  rewrite (for_each_marks (fun _ => true) mark_dead_letter recorded (set_purge (Some st) p) st);
    [|done|intros; apply mark_dead_letter_with].
  assert (filter (fun _ => true = true) recorded = recorded) as ->; [|done].
  induction recorded as [|x l IH]; [done|]. by rewrite filter_cons, decide_True, IH.
Qed.

(** What gathering the vetoes leaves: more marks, and nothing else but the
    durable record. *)
Lemma settle_purge_veto_run an data p st r p' :
  stale_row_purge p = Some st -> is_settled st = false ->
  settle_purge_veto cfg an data p = (r, p') ->
  exists ts latch, p' = set_p_latch latch (set_purge (Some (with_marks ts st)) p) /\
    (forall t, t ∈ expected_data_types cfg -> broker_vetoes an p t = true -> t ∈ ts) /\
    (r = Ok tt -> connection_pool p = true -> forall version, extraction_key data = Some version ->
       (forall t, t ∈ recorded_vetoes (p_latch p) version -> t ∈ ts) /\
       (forall t, t ∈ recorded_vetoes latch version <->
          t ∈ recorded_vetoes (p_latch p) version \/ t ∈ dead_lettered (with_marks ts st))).
Proof.
  intros Hp Hs. unfold settle_purge_veto. rewrite Hp, Hs, (comp_bind_run _ _ _ _ _ (broker_marks_run an p st Hp)).
  set (ts := filter _ _). assert (forall t, t ∈ expected_data_types cfg -> broker_vetoes an p t = true -> t ∈ ts) as Hts.
  { intros t Ht Hb. apply list_elem_of_filter. split; [done|]. by rewrite elem_of_sorted, elem_of_elements. }
  simpl connection_pool. destruct (connection_pool p) eqn:Epool; [|by intros [= <- <-]; exists ts, (p_latch p)].
  destruct (extraction_key data) as [version|]; [|by intros [= <- <-]; exists ts, (p_latch p); split_and!].
  simpl write_admission. destruct (write_admission p); [|by intros [= <- <-]; exists ts, (p_latch p)].
  destruct (an_latch_reads an) as [e|]; simpl; [by intros [= <- <-]; exists ts, (p_latch p)|].
  do 2 (unfold mbind at 1, comp_bind at 1; simpl). set (recorded := recorded_vetoes (p_latch p) version).
  rewrite (comp_bind_run _ _ _ _ _ (recorded_marks_run recorded (with_marks ts st) p)), with_marks_app.
  assert (forall t, t ∈ expected_data_types cfg -> broker_vetoes an p t = true -> t ∈ ts ++ recorded) as Hts'.
  { intros. apply elem_of_app. eauto. }
  destruct (an_latch_writes an) as [e|]; simpl; [by intros [= <- <-]; exists (ts ++ recorded), (p_latch p)|].
  intros [= <- <-]. exists (ts ++ recorded). eexists. split_and!; [done|done|].
  intros _ _ version' [= <-]. split; [intros t Ht; apply elem_of_app; by right|].
  intros t. simpl. destruct (record_extraction_lookup (p_latch p) version
    (sorted (elements (list_to_set (ts ++ recorded) ∪ dead_lettered st))) version) as [_ (l & Hlk & Hel)].
  unfold recorded_vetoes at 1. rewrite Hlk. simpl. rewrite Hel, elem_of_sorted, elem_of_elements. done.
Qed.

(** ** The completion signal *)

Lemma run_purge_run an p st r p' :
  stale_row_purge p = Some st -> run_purge cfg an p = (r, p') ->
  exists res st' se', purge cfg (an_purge_connects an) (st, Session (p_db p) (an_now an) (p_trace p)) = (res, (st', se')) /\
    is_ok r = is_ok res /\ p_db p' = s_db se' /\ stale_row_purge p' = Some st' /\ p_latch p' = p_latch p /\
    p_consumers p' = p_consumers p.
Proof.
  intros Hp. unfold run_purge. rewrite Hp. destruct (purge _ _ _) as [res [st' se']].
  intros [= <- <-]. exists res, st', se'. split_and!; try done. by destruct res.
Qed.

(** A purge on a settled boundary or on top of a mark deletes nothing. *)
Lemma marked_purge_keeps connected st se res st' se' :
  dead_lettered st <> ∅ \/ is_settled st = true ->
  purge cfg connected (st, se) = (res, (st', se')) -> s_db se' = s_db se.
Proof.
  intros Hm Hpurge. destruct res as [l|e]; [|by apply purge_raise in Hpurge as [_ ->]].
  apply purge_ok in Hpurge. destruct (veto_reason cfg st) eqn:Ev; [by destruct Hpurge as (_ & -> & _)|].
  apply unvetoed in Ev as (b & Hb & _ & Hs & Hempty & _). exfalso. destruct Hm as [Hm|Hm]; [done|].
  unfold is_settled in Hm. rewrite andb_true_iff, !bool_decide_eq_true in Hm. destruct Hm as [_ Hm]. congruence.
Qed.

Lemma record_completion_marks t m st :
  dead_lettered (record_completion t m st) = dead_lettered st /\
  settled_boundary (record_completion t m st) = settled_boundary st.
Proof. unfold record_completion. repeat case_match; done. Qed.

(** What a veto known to the broker, the process or the database is. *)
Definition veto_known (an : answers_) (data : dict) (p : process) : Prop :=
  marks p <> ∅ \/
  (exists t, t ∈ expected_data_types cfg /\ broker_vetoes an p t = true) \/
  (connection_pool p = true /\
   exists version, extraction_key data = Some version /\ recorded_vetoes (p_latch p) version <> []).

(** A known veto is among the marks once the vetoes are gathered. *)
Lemma veto_known_marked an data p st ts :
  marks p = dead_lettered st -> veto_known an data p ->
  (forall t, t ∈ expected_data_types cfg -> broker_vetoes an p t = true -> t ∈ ts) ->
  (connection_pool p = true -> forall version, extraction_key data = Some version ->
     forall t, t ∈ recorded_vetoes (p_latch p) version -> t ∈ ts) ->
  dead_lettered (with_marks ts st) <> ∅.
Proof.
  intros Hm Hv Hts Hrec. simpl. destruct Hv as [Hv|[(t & Ht & Hb)|(Hpool & version & Hkey & Hne)]].
  - rewrite Hm in Hv. set_solver.
  - assert (t ∈ ts) by auto. set_solver.
  - destruct (recorded_vetoes (p_latch p) version) as [|x l] eqn:El; [done|].
    assert (x ∈ ts) by (apply (Hrec Hpool version Hkey); rewrite El; left). set_solver.
Qed.

(** [_settle_purge_veto] and then [purge]: a failure keeps the tables and the
    settlement, a known veto keeps the tables. *)
Definition kept (an : answers_) (data : dict) (st : purge_state) (p : process) (r : result exn unit) (p' : process) : Prop :=
  (is_ok r = false -> p_db p' = p_db p /\ (settled_boundary <$> stale_row_purge p') = Some (settled_boundary st)) /\
  (veto_known an data p -> p_db p' = p_db p) /\ p_consumers p' = p_consumers p.

Lemma settled_purge_kept an data p st r p' :
  stale_row_purge p = Some st -> is_settled st = true ->
  (settle_purge_veto cfg an data ≫= fun _ => run_purge cfg an) p = (r, p') -> kept an data st p r p'.
Proof.
  intros Hp Hset Hrun.
  assert (settle_purge_veto cfg an data p = (Ok tt, p)) as Hsv by (unfold settle_purge_veto; by rewrite Hp, Hset).
  rewrite (comp_bind_run _ _ _ _ _ Hsv) in Hrun.
  destruct (run_purge_run an p st r p' Hp Hrun) as (res & st' & se' & Hpurge & Hok & Hdb & Hst' & _ & Hcon).
  assert (p_db p' = p_db p) as Heq.
  { rewrite Hdb. by rewrite (marked_purge_keeps _ _ _ _ _ _ (or_intror Hset) Hpurge). }
  split_and!; [|done|done]. intros Hno. split; [done|]. rewrite Hok in Hno. destruct res as [|e]; [done|].
  apply purge_raise in Hpurge as [-> _]. by rewrite Hst'.
Qed.

Lemma unsettled_purge_kept an data p st r p' :
  stale_row_purge p = Some st -> is_settled st = false ->
  (settle_purge_veto cfg an data ≫= fun _ => run_purge cfg an) p = (r, p') -> kept an data st p r p'.
Proof.
  intros Hp Hset Hrun. unfold mbind, comp_bind in Hrun. destruct (settle_purge_veto cfg an data p) as [r1 p1] eqn:Esv.
  destruct (settle_purge_veto_run an data p st _ p1 Hp Hset Esv) as (ts & latch & Hp1 & Hts & Hrec).
  assert (stale_row_purge p1 = Some (with_marks ts st)) as Hst1 by (by rewrite Hp1).
  assert (p_db p1 = p_db p) as Hdb1 by (by rewrite Hp1).
  destruct r1 as [[]|e]; [|injection Hrun as <- <-; split_and!; rewrite Hp1; done].
  destruct (run_purge_run an p1 _ r p' Hst1 Hrun) as (res & st' & se' & Hpurge & Hok & Hdb & Hst' & _ & Hcon).
  split_and!; [| |by rewrite Hcon, Hp1].
  - intros Hno. rewrite Hok in Hno. destruct res as [|e]; [done|].
    apply purge_raise in Hpurge as [-> Hse]. rewrite Hdb, Hse, Hst'. simpl. by rewrite Hdb1.
  - intros Hv. rewrite Hdb, <- Hdb1. apply (marked_purge_keeps _ _ _ _ _ _ (or_introl
      (veto_known_marked an data p st ts ltac:(unfold marks; by rewrite Hp) Hv Hts
         (fun Hpool version Hkey => proj1 (Hrec eq_refl Hpool version Hkey)))) Hpurge).
Qed.

Lemma report_purge_vetoes_run an p :
  (report_purge_vetoes an p).1 = Ok tt /\ p_db (report_purge_vetoes an p).2 = p_db p /\
  p_consumers (report_purge_vetoes an p).2 = p_consumers p.
Proof. unfold report_purge_vetoes. repeat case_match; done. Qed.

Lemma reconcile_run an t data p st r p' :
  stale_row_purge p = Some st ->
  reconcile_deleted_child_rows cfg an t data p = (r, p') ->
  (exists b, r = Ok b /\ (b = false -> p_db p' = p_db p /\
      (settled_boundary <$> stale_row_purge p') = Some (settled_boundary st))) /\
  (veto_known an data p -> p_db p' = p_db p) /\ p_consumers p' = p_consumers p.
Proof.
  intros Hp. unfold reconcile_deleted_child_rows. rewrite Hp.
  set (st1 := record_completion t data st). set (p1 := set_purge (Some st1) p).
  destruct (record_completion_marks t data st) as [Hm1 Hs1]. fold st1 in Hm1, Hs1.
  destruct (is_latched cfg st1) eqn:El; [|intros [= <- <-]; split_and!; [by exists true|done|done]].
  destruct ((settle_purge_veto cfg an data ≫= fun _ => run_purge cfg an) p1) as [r2 p2] eqn:E.
  assert (kept an data st1 p1 r2 p2) as (Hf & Hv & Hc).
  { destruct (is_settled st1) eqn:Eset; [by apply settled_purge_kept|by apply unsettled_purge_kept]. }
  assert (veto_known an data p -> veto_known an data p1) as Hknown.
  { intros [Hk|Hk]; [left|by right]. unfold marks in *. rewrite Hp in Hk. simpl in *. by rewrite Hm1. }
  destruct r2 as [u|e].
  - unfold mbind, comp_bind, modifies. simpl. destruct (report_purge_vetoes_run an (add_backoff BackoffReset p2)) as (R1 & R2 & R3).
    destruct (report_purge_vetoes an (add_backoff BackoffReset p2)) as [r3 p3]. simpl in *. subst r3.
    intros [= <- <-]. split_and!; [by exists true| |by rewrite R3]. intros Hvk. rewrite R2. by apply Hv, Hknown.
  - intros [= <- <-]. rewrite Hs1 in Hf. split_and!; [exists false; split; [done|]; intros _; by apply Hf|by intros ?%Hknown%Hv|done].
Qed.

Lemma pop_cancel_handles t c : active_connection (pop_cancel t c) = active_connection c.
Proof. unfold pop_cancel, cancel_task_, end_task. repeat case_match; done. Qed.

Lemma arm_timer_traffic t c : c_traffic (arm_timer CONSUMER_CANCEL_DELAY t c) = c_traffic c.
Proof.
  unfold arm_timer. case_match; [|done]. unfold schedule_consumer_cancellation. simpl. case_match; [|done].
  unfold cancel_task_, end_task. repeat case_match; done.
Qed.

Lemma handle_extraction_path an data t p :
  get data "type" = VStr "extraction_complete" ->
  handle an (Ok (VDict data)) t p =
    (on_consumers (fun c => complete t (pop_cancel t c)) ≫= fun _ =>
     reconcile_deleted_child_rows cfg an t data ≫= fun reconciled : bool =>
     if reconciled then
       on_consumers (arm_timer CONSUMER_CANCEL_DELAY t) ≫= fun _ => mret (DeliveryResult ACK "skipped" None)
     else on_consumers (uncomplete t) ≫= fun _ => raise ReconciliationFailed) p.
Proof.
  intros Ht. unfold handle_data_message, lift, mbind, comp_bind. simpl. rewrite Ht. done.
Qed.

(** C9: a known dead letter stops the deletion. However many signals have
    arrived, an [extraction_complete] deletes nothing while this process marked
    a rejection, while the broker holds a dead letter of any expected type or
    cannot say, or while an earlier delivery of the same extraction recorded a
    veto: a veto survives restarts and redeliveries. *)
Theorem known_veto_deletes_nothing an data t p r p' :
  get data "type" = VStr "extraction_complete" -> veto_known an data p ->
  handle an (Ok (VDict data)) t p = (r, p') -> p_db p' = p_db p.
Proof.
  intros Ht Hv. rewrite (handle_extraction_path _ _ _ _ Ht). unfold mbind, comp_bind, on_consumers, modifies.
  set (p1 := set_p_consumers _ p).
  assert (veto_known an data p1) as Hv1.
  { unfold veto_known, broker_vetoes, dead_letters_waiting in *. unfold p1. simpl. rewrite pop_cancel_handles. exact Hv. }
  destruct (reconcile_deleted_child_rows cfg an t data p1) as [rr p2] eqn:Er.
  destruct (stale_row_purge p1) as [st|] eqn:Est.
  - destruct (reconcile_run _ _ _ _ _ _ _ Est Er) as ((b & -> & _) & Hdb & _). specialize (Hdb Hv1).
    destruct b; intros [= <- <-]; exact Hdb.
  - unfold reconcile_deleted_child_rows in Er. rewrite Est in Er. injection Er as <- <-. by intros [= <- <-].
Qed.

(** C22: a failed reconciliation leaves its chance. When the signal's handler
    fails because the reconciliation did, nothing was deleted, the boundary is
    not settled by it, and the stream is not complete any more: the redelivered
    signal attempts the same purge, and idle detection waits for it. No other
    stream's completion changes. *)
Theorem failed_reconciliation_keeps an data t p st e p' :
  get data "type" = VStr "extraction_complete" -> stale_row_purge p = Some st ->
  handle an (Ok (VDict data)) t p = (Raise e, p') ->
  e = ReconciliationFailed /\ p_db p' = p_db p /\
  (settled_boundary <$> stale_row_purge p') = Some (settled_boundary st) /\
  completed_files (c_traffic (p_consumers p')) = completed_files (c_traffic (p_consumers p)) ∖ {[t]}.
Proof.
  intros Ht Hp. rewrite (handle_extraction_path _ _ _ _ Ht). unfold mbind, comp_bind, on_consumers, modifies.
  set (p1 := set_p_consumers _ p).
  destruct (reconcile_deleted_child_rows cfg an t data p1) as [rr p2] eqn:Er.
  destruct (reconcile_run _ _ _ _ _ _ _ (Hp : stale_row_purge p1 = Some st) Er) as ((b & -> & Hf) & _ & Hc).
  destruct b; [done|]. intros [= <- <-]. destruct (Hf eq_refl) as [Hdb Hs]. split_and!; [done|done|done|].
  simpl. rewrite Hc. simpl. unfold pop_cancel, cancel_task_, end_task. apply set_eq. intros x.
  repeat case_match; simpl; set_solver.
Qed.

(** ** Retries *)

(** Whether an error is retried by a delivery handed out so often before. *)
Definition retried (headers : option dict) (e : exn) : bool :=
  bool_decide (classify e = TRANSIENT) && (broker_handouts headers <? MAX_REQUEUES)%Z.

Lemma classifier_retried headers e :
  classifier (broker_handouts headers) e = if retried headers e then TRANSIENT else DETERMINISTIC.
Proof.
  unfold classifier, retried. destruct (classify e); simpl; [|done].
  rewrite Z.ltb_antisym. by destruct (MAX_REQUEUES <=? broker_handouts headers)%Z.
Qed.

(** C20: retries are paced and bounded. When the handler of a delivery fails, the
    delivery is requeued exactly when the error is transient and the broker has
    handed the message out fewer than 500 times before; it is then requeued
    after exactly one wait and with nothing else changed. Otherwise it is
    rejected under the error's name, at once, and the purge is vetoed unless the
    failure was the reconciliation's own. When the [nack] itself raises, that is
    what the delivery raises, with the wait of a requeue done and no veto of a
    rejection marked. *)
Theorem retry_policy `{!SharedLaws} an headers body t p e p1 :
  shutdown_requested p = false ->
  handle an body t p = (Raise e, p1) ->
  exists r p2 p', dr_error_type r = Some (exn_name e) /\
    deliver an headers body t p =
      match an_settles an (dr_settlement r) with None => (Ok r, p') | Some e' => (Raise e', p2) end /\
    if retried headers e then dr_settlement r = REQUEUE /\ p2 = add_backoff BackoffWait p1 /\ p' = p2
    else dr_settlement r = REJECT /\ p2 = p1 /\
      p' = if decide (exn_name e = "ReconciliationFailed") then p1 else (mark_dead_letter t p1).2.
Proof.
  intros Hstop Hh. rewrite (deliver_ran _ _ _ _ _ Hstop).
  pose proof (classifier_retried headers e) as Hc. destruct (retried headers e).
  - destruct (run_delivery_requeues _ (classifier (broker_handouts headers)) wait_before_requeue (an_settles an) _ _ _ Hh Hc) as [o ->].
    exists (DeliveryResult REQUEUE o (Some (exn_name e))), (add_backoff BackoffWait p1), (add_backoff BackoffWait p1).
    split; [done|]. split; [|done]. unfold settling.
    destruct (an_settles an _); [done|]. f_equal.
  - destruct (run_delivery_rejects _ (classifier (broker_handouts headers)) wait_before_requeue (an_settles an) _ _ _ Hh Hc) as [o ->].
    eexists (DeliveryResult REJECT o (Some (exn_name e))), p1, _.
    split; [done|]. split; [|done]. unfold settling.
    destruct (an_settles an _); [done|]. f_equal. unfold after_settlement. simpl.
    rewrite ?(decide_False (P := REJECT = ACK /\ _)) by (by intros [? _]).
    destruct (decide (exn_name e = "ReconciliationFailed")) as [He|He].
    + by rewrite decide_False by (rewrite He; naive_solver).
    + by rewrite decide_True by (split; [done|congruence]).
Qed.

(** A body that is valid JSON but not an object is retried, where an
    unparsable one is rejected. The first access to it raises outside the parse
    guard, so it is classified as transient and requeued until its budget of
    500 handouts is spent. *)
Theorem non_object_body_retried `{!SharedLaws} an headers v t p :
  shutdown_requested p = false -> (forall d, v <> VDict d) ->
  is_permanent_operational_error AttributeError = false -> (broker_handouts headers < 500)%Z ->
  (forall s, an_settles an s = None) ->
  (exists r p', deliver an headers (Ok v) t p = (Ok r, p') /\ dr_settlement r = REQUEUE) /\
  (forall e, exists r p', deliver an headers (Raise e) t p = (Ok r, p') /\ dr_settlement r = REJECT).
Proof.
  intros Hstop Hv Hperm Hb Hset. split.
  - assert (handle an (Ok v) t p = (Raise AttributeError, p)) as Hh.
    { unfold handle_data_message, lift, mbind, comp_bind. destruct v; try done. by destruct (Hv d). }
    rewrite (deliver_ran _ _ _ _ _ Hstop).
    assert (classifier (broker_handouts headers) AttributeError = TRANSIENT) as Hc.
    { rewrite classifier_retried. unfold retried, classify. rewrite Hperm.
      simpl. unfold MAX_REQUEUES. by rewrite (proj2 (Z.ltb_lt _ _) Hb). }
    destruct (run_delivery_requeues _ (classifier (broker_handouts headers)) wait_before_requeue (an_settles an) _ _ _ Hh Hc) as [o ->].
    unfold settling. rewrite Hset. by do 2 eexists.
  - intros e. rewrite (deliver_ran _ _ _ _ _ Hstop).
    assert (handle an (Raise e) t p = (Ok (DeliveryResult REJECT "failed" (Some (exn_name e))), (mark_dead_letter t p).2)) as Hh by done.
    pose proof (run_delivery_returns _ (classifier (broker_handouts headers)) wait_before_requeue (an_settles an) _ _ _ Hh
      (or_intror eq_refl)) as ->.
    unfold settling. rewrite Hset. by do 2 eexists.
Qed.

(** An explicit null for the child rows is never processed. A record whose
    [relations] or [external_links] key is present and null makes every
    processor raise, although a missing key is read as no rows and null is
    defaulted in the other fields: the record cannot be stored. *)
Theorem null_child_rows_never_processed b dt processor record w w' :
  processor_of b dt = Some processor ->
  lookup_key record "relations" = Some VNull \/ lookup_key record "external_links" = Some VNull ->
  processor record w <> (Ok tt, w').
Proof.
  intros Hp Hnull Hrun. destruct (contract_of dt) as [c|] eqn:Hc.
  - destruct (processed_children_eq b dt processor c record w w' Hp Hc Hrun) as (rels & links & Hr & Hl & _).
    destruct Hnull as [Hn|Hn]; unfold get_default in Hr, Hl; rewrite Hn in *.
    + unfold relationship_rows in Hr. simpl in Hr. repeat case_match; discriminate.
    + done.
  - unfold contract_of, processor_of in *. repeat case_decide; done.
Qed.

(** A [file_complete] alone completes a stream. It is acknowledged, the
    stream counts as complete from there on, and when consumers are cancelled
    after a delay its grace timer is armed under the stream's current tag: no
    [extraction_complete] is needed. *)
Theorem file_complete_completes an data t p :
  get data "type" = VStr "file_complete" ->
  exists p', handle an (Ok (VDict data)) t p = (Ok (DeliveryResult ACK "skipped" None), p') /\
    completed_files (c_traffic (p_consumers p')) = {[t]} ∪ completed_files (c_traffic (p_consumers p)) /\
    p_db p' = p_db p /\
    ((0 < CONSUMER_CANCEL_DELAY)%Z -> t ∈ queues (p_consumers p) ->
       exists id, consumer_cancel_tasks (c_timers (p_consumers p')) !! t = Some id /\
         live_tasks (c_timers (p_consumers p')) !! id = Some (CancelTask t (tag (p_consumers p) t) Sleeping)).
Proof.
  intros Ht. eexists. split; [|split_and!].
  - unfold handle_data_message, lift, mbind, comp_bind. simpl. rewrite Ht. reflexivity.
  - simpl. by rewrite arm_timer_traffic.
  - done.
  - intros Hd Hq. simpl. unfold arm_timer. rewrite (proj2 (Z.ltb_lt _ _) Hd), bool_decide_eq_true_2 by done. simpl.
    unfold schedule_consumer_cancellation. simpl. eexists. split; apply lookup_insert_eq.
Qed.
End safety.
