(* ===== verification/Loadability.v ===== *)
(** * Which records load

    The outcome of every record delivery when the infrastructure answers: decided
    by the record alone, by a test that reads it the way the four processors of
    [brainztableinator/_record_processing.py] do. *)

From S2P Require Import Prelude PyValue QueueNames PurgeVeto Consumers Database Persistence Media RecordProcessing.
From S2P Require Import Typing ProcessTrace ReleaseMedia NativeIdentity Reconciliation PurgeSafety Delivery DeliverySafety.
From stdpp Require Import base gmap strings list option sorting.
From Stdlib Require Import ZArith Lia.

(** ** The test *)

(** A relationship the processors can read: an object whose target type, when the
    relationship is complete, can be looked up. *)
Definition relation_readable (v : value) : bool :=
  match v with
  | VDict r => negb (truthy (get r "target_mbid") && truthy (get r "target_type") && truthy (get r "type"))
               || hashable (get r "target_type")
  | _ => false
  end.

Definition link_readable (v : value) : bool := match v with VDict _ => true | _ => false end.

(** A field that iterates, over elements of one kind. *)
Definition list_readable (element : value -> bool) (v : value) : bool :=
  match py_iter v with Ok l => forallb element l | Raise _ => false end.

Definition children_readable (record : dict) : bool :=
  list_readable relation_readable (get_default record "relations" (VList []))
  && list_readable link_readable (get_default record "external_links" (VList [])).

Definition media_readable `{Common} (record : dict) : bool :=
  match release_media_block record with
  | Ok media => is_none (get record "discogs_release_id") || is_ok (py_iter (or_else (get media "items") (VList [])))
  | Raise _ => false
  end.

(** An mbid that names a native id can be a key. *)
Definition identity_readable (record : dict) : bool := negb (truthy (mbid_of record)) || hashable (mbid_of record).

(** The identifiers block of a release, the producer's own or the compatibility
    one, which is read when the release has a native id. *)
Definition block_readable `{Common} (record : dict) : bool :=
  match lookup_key record "identifiers" with
  | Some block => is_ok (alias_refs_for_release block)
  | None =>
      match legacy_identifiers_block record with
      | Some block => is_ok (alias_refs_for_release block)
      | None => true
      end
  end.

Definition identifiers_readable `{Common} (record : dict) : bool :=
  negb (truthy (mbid_of record)) || block_readable record.

Definition readable `{Common} (data_type : string) (record : dict) : bool :=
  identity_readable record && children_readable record &&
  (if decide (data_type = "releases") then media_readable record && identifiers_readable record else true).

(** An [id] the handler accepts. *)
Definition valid_id (record : dict) : bool :=
  match lookup_key record "id" with Some id => truthy id && uuid_parses id | None => false end.

(** ** Computations whose outcome is decided *)

(** Whether [m] returns does not depend on the world: it is [b]. *)
Definition decided {W A} (m : comp W exn A) (b : bool) : Prop := forall w, is_ok (m w).1 = b.

Section decided.
Context {W : Type}.

Lemma decided_ret {A} (a : A) : decided (mret a : comp W exn A) true.
Proof. done. Qed.

Lemma decided_total_bind {A B} (m : comp W exn A) (f : A -> comp W exn B) b :
  decided m true -> (forall a, decided (f a) b) -> decided (m ≫= f) b.
Proof.
  intros Hm Hf w. specialize (Hm w). unfold mbind, comp_bind. destruct (m w) as [[a|e] w1]; [apply Hf|done].
Qed.

Lemma decided_bind {A B} (m : comp W exn A) (f : A -> comp W exn B) b c :
  decided m b -> (forall a, decided (f a) c) -> decided (m ≫= f) (b && c).
Proof.
  intros Hm Hf w. specialize (Hm w). unfold mbind, comp_bind. destruct (m w) as [[a|e] w1]; simpl in Hm; subst b; [apply Hf|done].
Qed.

(** The second part may rely on what the first one returns. *)
Lemma decided_bind_post {A B} (m : comp W exn A) (f : A -> comp W exn B) b c (P : A -> Prop) :
  decided m b -> (forall w a w', m w = (Ok a, w') -> P a) -> (forall a, P a -> decided (f a) c) -> decided (m ≫= f) (b && c).
Proof.
  intros Hm HP Hf w. specialize (Hm w). unfold mbind, comp_bind. destruct (m w) as [[a|e] w1] eqn:E; simpl in Hm; subst b; [|done].
  apply Hf. by eapply HP.
Qed.

Lemma decided_lift_bind {A B} (r : result exn A) (f : A -> comp W exn B) b :
  (forall a, decided (f a) (b a)) -> decided (lift r ≫= f) (match r with Ok a => b a | Raise _ => false end).
Proof. intros Hf w. unfold mbind, comp_bind, lift. destruct r; [apply Hf|done]. Qed.

Lemma decided_catch {A} (m : comp W exn A) h : decided m true -> decided (catch m h) true.
Proof. intros Hm w. specialize (Hm w). unfold catch. by destruct (m w) as [[a|e] w1]. Qed.

Lemma decided_for_each {A} (l : list A) (body : A -> comp W exn unit) :
  (forall a, decided (body a) true) -> decided (for_each l body) true.
Proof. intros Hb. induction l as [|a l IH]; simpl; [apply decided_ret|]. by apply decided_total_bind. Qed.
End decided.

#[export] Hint Resolve decided_ret decided_total_bind decided_catch decided_for_each : loader.

(** ** Reading the children *)

Lemma relationship_rows_ok mbid ty v : is_ok (relationship_rows mbid ty v) = list_readable relation_readable v.
Proof.
  unfold relationship_rows, list_readable, mbind, result_bind. simpl. destruct (py_iter v) as [l|]; [|done].
  rewrite <- (traverse_ok (relationship_row mbid (if decide (VStr ty = VStr "release_group") then VStr "release-group" else VStr ty))
                relation_readable).
  - by destruct (traverse _ l).
  - intros [| | | | | |r]; try done. unfold relationship_row, relation_readable, mbind, result_bind, canonical_entity_type. simpl.
    destruct (_ && _ && _); [|done]. by destruct (hashable _).
Qed.

Lemma external_link_rows_ok mbid ty v : is_ok (external_link_rows mbid ty v) = list_readable link_readable v.
Proof.
  unfold external_link_rows, list_readable, mbind, result_bind. destruct (py_iter v) as [l|]; [|done].
  rewrite <- (traverse_ok (external_link_row mbid ty) link_readable).
  - by destruct (traverse _ l).
  - intros [| | | | | |r]; try done.
Qed.

(** ** On an infrastructure that answers *)

(** The identity library's two calls succeed when their statements do, and a
    MusicBrainz alias resolves, by a mint when it is new. *)
Class IdentityAnswers `{Postgres} : Prop := {
  resolves refs l : is_ok (resolve_aliases refs l).1 = true;
  attaches m l : is_ok (attach_aliases m l).1 = true;
  mints refs l m l' r :
    resolve_aliases refs l = (Ok m, l') -> r ∈ refs -> ref_provider r = "musicbrainz" -> is_Some (lookup_ref m r);
}.

(** Every flush span opens. *)
Class FlushesOpen `{Common} : Prop := {
  opens n entity : flush_span_error n entity = None;
}.

Section answering.
Context `{PyRepr} `{Postgres} `{Common} `{!IdentityAnswers} `{!FlushesOpen}.
Context (refresh_updated_at : bool).
Hypothesis answering : answers.

Lemma decided_session {A} (m : sql A) b : decided m b -> decided (on_session m) b.
Proof. intros Hm w. specialize (Hm (w_session w)). unfold on_session, zoom. by destruct (m (w_session w)). Qed.

Lemma decided_execute s : (forall now d, is_ok (effect now s d) = true) -> decided (execute s) true.
Proof.
  intros He se. unfold execute. rewrite answering. specialize (He (s_now se) (s_db se)). by destruct (effect _ _ _).
Qed.

Lemma decided_executemany {A} (f : A -> statement) l :
  (forall a, a ∈ l -> decided (execute (f a)) true) -> decided (executemany f l) true.
Proof.
  unfold executemany. induction l as [|a l IH]; intros Hl; simpl; [apply decided_ret|].
  apply decided_total_bind; [apply Hl, elem_of_cons; by left|]. intros _. apply IH. intros a' Ha'. apply Hl, elem_of_cons. by right.
Qed.

Lemma decided_resolve refs : decided (on_session (identity_resolve refs)) true.
Proof.
  apply decided_session. intros se. unfold identity_resolve. pose proof (resolves refs (provider_aliases (s_db se))) as Hr.
  destruct (resolve_aliases refs _) as [r l] eqn:E. simpl in Hr. unfold execute. rewrite answering. simpl. by rewrite E.
Qed.

Lemma decided_attach m : decided (on_session (identity_attach m)) true.
Proof.
  apply decided_session. intros se. unfold identity_attach. pose proof (attaches m (provider_aliases (s_db se))) as Hr.
  destruct (attach_aliases m _) as [r l] eqn:E. simpl in Hr. unfold execute. rewrite answering. simpl. by rewrite E.
Qed.

Lemma decided_observes o : decided (observes o) true.
Proof. done. Qed.

#[local] Hint Resolve decided_resolve decided_attach decided_observes decided_session : loader.

Lemma decided_hash_ref r : decided (hash_ref r) (hashable (ref_external_id r)).
Proof. intros w. unfold hash_ref. by destruct (hashable _). Qed.

Lemma decided_open_flush entity : decided (open_flush entity) true.
Proof. intros w. unfold open_flush, mbind, comp_bind, reads. by rewrite opens. Qed.

#[local] Hint Resolve decided_open_flush : loader.

Lemma decided_native_id kind mbid discogs : decided (native_id kind mbid discogs) (negb (truthy mbid) || hashable mbid).
Proof.
  unfold native_id. destruct (truthy mbid); [|apply decided_ret]. simpl orb. set (ref := AliasRef "musicbrainz" kind mbid).
  assert (forall A (m : proc A), decided m true -> decided (hash_ref ref ≫= fun _ => m) (hashable mbid)) as Hh.
  { intros A m Hm. rewrite <- (andb_true_r (hashable mbid)). apply decided_bind; [apply decided_hash_ref|done]. }
  assert (decided (on_session (identity_resolve [ref]) ≫= fun m => hash_ref ref ≫= fun _ => mret (lookup_ref m ref))
    (hashable mbid)) as Hmint by (apply decided_total_bind; [auto with loader|intros m; apply Hh, decided_ret]).
  destruct (truthy discogs); [|exact Hmint]. apply decided_total_bind; [auto with loader|]. intros m.
  destruct (lookup_ref m _); [|exact Hmint]. apply Hh. auto with loader.
Qed.

(** A record has a native id exactly when it has an mbid. *)
Lemma native_id_some kind mbid discogs w u w' :
  native_id kind mbid discogs w = (Ok u, w') -> if truthy mbid then is_Some u else u = None.
Proof.
  unfold native_id. destruct (truthy mbid); [|by intros [= <- _]]. set (ref := AliasRef "musicbrainz" kind mbid).
  assert (forall w u w', (on_session (identity_resolve [ref]) ≫= fun m => hash_ref ref ≫= fun _ => mret (lookup_ref m ref)) w =
    (Ok u, w') -> is_Some u) as Hmint.
  { intros w0 u0 w1 Hrun. run_inv. match goal with Hr : on_session _ _ = _ |- _ => apply resolve_run in Hr end.
    eapply mints; [done|by left|done]. }
  destruct (truthy discogs); [|apply Hmint]. intros Hrun. apply comp_bind_ok in Hrun as (m & w1 & _ & Hrun).
  destruct (lookup_ref m _); [|by eapply Hmint]. run_inv. by eexists.
Qed.

Lemma decided_write_batch entity rows write : decided write true -> decided (write_batch entity rows write) true.
Proof.
  intros Hw. unfold write_batch. apply decided_total_bind; [auto with loader|intros _].
  destruct rows; auto 10 with loader.
Qed.

Lemma decided_relationships mbid ty v :
  decided (process_relationships refresh_updated_at mbid ty v) (list_readable relation_readable v).
Proof.
  intros w. rewrite <- (relationship_rows_ok mbid ty v). unfold process_relationships, mbind at 1, comp_bind at 1, lift.
  destruct (relationship_rows mbid ty v) as [rows|e] eqn:Er; [|done]. apply decided_write_batch.
  apply decided_executemany. intros row Hrow. apply decided_execute. intros now d. simpl.
  assert (length row = 9) as Hlen.
  { unfold relationship_rows, mbind, result_bind in Er. destruct (canonical_entity_type _); [|done].
    destruct (py_iter v); [|done]. destruct (traverse _ _) as [os|] eqn:Et; [|done]. injection Er as <-.
    destruct (traverse_rows _ _ _ _ Et Hrow) as [x Hx]. by eapply relationship_row_length. }
  do 10 (destruct row as [|? row]; try done).
Qed.

Lemma decided_external_links mbid ty v :
  decided (process_external_links refresh_updated_at mbid ty v) (list_readable link_readable v).
Proof.
  intros w. rewrite <- (external_link_rows_ok mbid ty v). unfold process_external_links, mbind at 1, comp_bind at 1, lift.
  destruct (external_link_rows mbid ty v) as [rows|e] eqn:Er; [|done]. apply decided_write_batch.
  apply decided_executemany. intros row Hrow. apply decided_execute. intros now d.
  unfold external_link_rows, mbind, result_bind in Er.
  destruct (py_iter v); [|done]. destruct (traverse _ _) as [os|] eqn:Et; [|done]. injection Er as <-.
  destruct (traverse_rows _ _ _ _ Et Hrow) as [x Hx]. unfold external_link_row, mbind, result_bind in Hx.
  destruct (dict_of x); [|done]. by destruct (_ && _); simplify_eq.
Qed.

Lemma decided_upsert (m : sql unit) sp ps :
  issues m [EntityUpsert sp ps] -> (forall now d, is_ok (upsert_entity sp now ps d) = true) -> decided m true.
Proof.
  intros Hm He se. rewrite Hm. unfold executes. simpl. apply decided_total_bind; [by apply decided_execute|].
  intros _. apply decided_ret.
Qed.

(** The four upserts bind the parameters their statements want. *)
Ltac upsert_decided :=
  apply decided_session; eapply decided_upsert; [apply execute_issues|];
  intros; unfold upsert_entity; simpl; repeat case_match; try done; by case_decide.

Lemma decided_upsert_artist a0 a b c d e f g h i j k l m n o q src :
  decided (on_session (upsert_artist [a0; a; b; c; d; e; f; g; h; i; j; k; l; m; n; o; q] src)) true.
Proof. upsert_decided. Qed.

Lemma decided_upsert_label a0 a b c d e f g h i j k src :
  decided (on_session (upsert_label [a0; a; b; c; d; e; f; g; h; i; j; k] src)) true.
Proof. upsert_decided. Qed.

Lemma decided_upsert_release a0 a b c d e f g h src :
  decided (on_session (upsert_release [a0; a; b; c; d; e; f; g; h] src)) true.
Proof. upsert_decided. Qed.

Lemma decided_upsert_release_group a0 a b c d e f g h src :
  decided (on_session (upsert_release_group [a0; a; b; c; d; e; f; g; h] src)) true.
Proof. upsert_decided. Qed.

(** Statements the server answers, whose effects replay, run to the end. *)
Lemma decided_issues (m : sql unit) tr :
  issues m tr -> (forall now d, is_ok (replay now tr d) = true) -> decided m true.
Proof.
  intros Hm Hr se. rewrite Hm. specialize (Hr (s_now se) (s_db se)).
  destruct (replay (s_now se) tr (s_db se)) as [d|] eqn:E; [|done].
  by rewrite (executes_ok tr se d) by (intros; apply answering || exact E).
Qed.

Lemma decided_issues_each (m : sql unit) tr :
  issues m tr -> (forall s now d, s ∈ tr -> is_ok (effect now s d) = true) -> decided m true.
Proof.
  intros Hm He. apply (decided_issues _ _ Hm). clear m Hm. intros now. induction tr as [|s tr IH]; intros d; [done|].
  simpl. specialize (He s now d ltac:(apply elem_of_cons; by left)) as Hs. destruct (effect now s d); [|done].
  apply IH. intros. apply He, elem_of_cons. by right.
Qed.

Lemma decided_replace_edges rid rows :
  NoDup (map edge_medium rows) ->
  decided (replace_release_media_edges rid MEDIA_SOURCE
    (map (fun r => (rid, edge_medium r, MEDIA_SOURCE, edge_qty r)) rows)) true.
Proof.
  intros Hnd. eapply decided_issues; [apply replace_release_media_edges_issues|]. intros now d. simpl. rewrite map_map.
  match goal with |- is_ok (replay _ _ ?d0) = _ => destruct (insert_edges_run now rid rows d0 Hnd) as (d' & Hr & _) end.
  - intros m _. apply map_lookup_filter_None. right. intros q _. simpl. tauto.
  - by rewrite Hr.
Qed.

Lemma decided_media record media :
  decided (write_release_media record media)
    (is_none (get record "discogs_release_id") || is_ok (py_iter (or_else (get media "items") (VList [])))).
Proof.
  unfold write_release_media. destruct (is_none _); [apply decided_ret|]. intros w.
  unfold mbind at 1, comp_bind at 1, lift. destruct (media_edge_rows vocabulary media) as [rows|e] eqn:Er.
  2: { rewrite media_edge_rows_eq in Er. by destruct (py_iter _). }
  pose proof (media_edge_rows_NoDup _ _ _ Er) as Hnd. rewrite media_edge_rows_eq in Er.
  destruct (py_iter _) as [items|]; [|done]. simpl orb. revert w.
  apply decided_total_bind; [|intros _; apply decided_total_bind; [|intros _; apply decided_total_bind; [|auto with loader]]].
  - eapply decided_session, decided_issues_each; [apply upsert_media_families_issues|].
    intros s now d (x & -> & _)%list_elem_of_fmap. done.
  - eapply decided_session, decided_issues_each; [apply upsert_media_issues|].
    intros s now d ([[x y] z] & -> & _)%list_elem_of_fmap. simpl. done.
  - by apply decided_session, decided_replace_edges.
Qed.

Lemma decided_summary_add e i : decided (summary_add e i) true.
Proof. intros w. unfold summary_add. by case_match. Qed.

Lemma decided_aliases record native :
  decided (attach_identifier_aliases record native) (match native with Some _ => block_readable record | None => true end).
Proof.
  unfold attach_identifier_aliases. destruct native as [u|]; [|apply decided_ret].
  set (attach := fun refs : list alias_ref => _ : proc unit).
  assert (forall refs, decided (attach refs) true) as Ha.
  { unfold attach. intros [|r refs]; [apply decided_ret|]. apply decided_total_bind; [apply decided_attach|]. intros m.
    apply decided_for_each. intros x. apply decided_total_bind; [done|intros _]. apply decided_summary_add. }
  assert (forall block, decided (lift (alias_refs_for_release block) ≫= attach) (is_ok (alias_refs_for_release block))) as Hb.
  { intros block w. unfold mbind, comp_bind, lift. destruct (alias_refs_for_release block); [apply Ha|done]. }
  unfold block_readable. repeat case_match; auto with loader.
Qed.

#[local] Hint Resolve decided_native_id decided_relationships decided_external_links decided_upsert_artist
  decided_upsert_label decided_upsert_release decided_upsert_release_group decided_media decided_aliases
  decided_bind : loader.

(** The child rows, and then what follows them. *)
Lemma decided_children mbid label record (rest : proc unit) b :
  decided rest b ->
  decided (process_relationships refresh_updated_at mbid label (get_default record "relations" (VList [])) ≫= fun _ =>
    process_external_links refresh_updated_at mbid label (get_default record "external_links" (VList [])) ≫= fun _ => rest)
    (children_readable record && b).
Proof.
  intros Hr. unfold children_readable. rewrite <- andb_assoc. apply decided_bind; [auto with loader|intros _].
  apply decided_bind; auto with loader.
Qed.

Lemma decided_children_only mbid label record :
  decided (process_relationships refresh_updated_at mbid label (get_default record "relations" (VList [])) ≫= fun _ =>
    process_external_links refresh_updated_at mbid label (get_default record "external_links" (VList [])))
    (children_readable record).
Proof. unfold children_readable. apply decided_bind; auto with loader. Qed.

Ltac children_decided :=
  rewrite andb_true_r; apply decided_bind; [apply decided_native_id|intros ?];
  apply decided_total_bind; [auto with loader|intros _; apply decided_children_only].

(** A release: the aliases are attached to the native id it has. *)
Lemma decided_release record :
  decided (process_release refresh_updated_at record)
    (identity_readable record && children_readable record && (media_readable record && identifiers_readable record)).
Proof.
  unfold process_release. apply decided_total_bind.
  { destruct (is_none _); [apply decided_ret|]. apply decided_session. unfold lock_release_media. by apply decided_execute. }
  intros _. rewrite <- andb_assoc. eapply decided_bind_post; [apply decided_native_id|apply native_id_some|]. intros u Hu.
  assert ((match u with Some _ => block_readable record | None => true end) = identifiers_readable record) as Hb.
  { unfold identifiers_readable. destruct (truthy (mbid_of record)); [by destruct Hu as [? ->]|by rewrite Hu]. }
  assert (forall r : result exn dict, children_readable record && ((match r with Ok media => is_none (get record "discogs_release_id")
      || is_ok (py_iter (or_else (get media "items") (VList []))) | Raise _ => false end) && identifiers_readable record) =
    match r with Ok media => (is_none (get record "discogs_release_id")
      || is_ok (py_iter (or_else (get media "items") (VList [])))) && (children_readable record && identifiers_readable record)
    | Raise _ => false end) as Hsplit by (intros []; rewrite ?andb_false_r; [by rewrite !andb_assoc, (andb_comm (children_readable record))|done]).
  unfold media_readable. rewrite Hsplit. apply decided_lift_bind. intros media. apply decided_total_bind; [auto with loader|]. intros _.
  apply decided_bind; [auto with loader|]. intros _. apply decided_children. rewrite <- Hb. auto with loader.
Qed.

(** A processor returns exactly on the records that are readable for its type. *)
Lemma processor_decided data_type processor record :
  processor_of refresh_updated_at data_type = Some processor -> decided (processor record) (readable data_type record).
Proof.
  unfold processor_of, readable. intros Hp.
  destruct (decide (data_type = "artists")) as [->|]; [injection Hp as <-; simpl; unfold process_artist; children_decided|].
  destruct (decide (data_type = "labels")) as [->|]; [injection Hp as <-; simpl; unfold process_label; children_decided|].
  destruct (decide (data_type = "release-groups")) as [->|];
    [injection Hp as <-; simpl; unfold process_release_group; children_decided|].
  destruct (decide (data_type = "releases")) as [->|]; [|done]. injection Hp as <-. apply decided_release.
Qed.
End answering.

(** ** The outcome of a record's delivery *)

Section outcome.
Context `{PyRepr} `{Postgres} `{Common} `{Collation} `{Shared} `{!IdentityAnswers} `{!FlushesOpen}.
Context (cfg : purge_config) (refresh_updated_at : bool) (CONSUMER_CANCEL_DELAY : Z).

Lemma valid_id_spec data :
  valid_id data = true -> exists id, lookup_key data "id" = Some id /\ truthy id = true /\ uuid_parses id = true.
Proof. unfold valid_id. destruct (lookup_key data "id") as [id|]; [|done]. intros [? ?]%andb_true_iff. eauto. Qed.

Lemma invalid_id_rejected an t data p :
  valid_id data = false ->
  handle_record refresh_updated_at an t data p =
    (Ok (DeliveryResult REJECT "failed" (Some "ValidationError")), (mark_dead_letter t p).2).
Proof.
  unfold valid_id, handle_record. destruct (lookup_key data "id") as [id|]; [|intros _; apply reject_run].
  destruct (truthy id); [|intros _; apply reject_run]. simpl. intros ->. apply reject_run.
Qed.

(** C3: which records load. On a service whose database, pool, identity library,
    write slot and flush spans answer, the outcome of every record delivery is
    decided by the record alone. Without a valid id it is rejected as invalid, of an unknown type
    as unknown, and either way the type is marked; a record readable for its type
    is acknowledged as processed, with the database the processor leaves; and any
    other record raises and changes nothing: a list field that does not iterate, a
    child that is not an object, a target type or an mbid that can not be looked
    up, a media block the mapper or the grouping can not read, or, in a release
    with an mbid, an identifiers block that fails [common]'s validation. *)
Theorem record_outcome an data t p :
  answers -> an_connects an = None -> an_commits an = None ->
  connection_pool p = true -> write_admission p = true -> is_control (get data "type") = false ->
  let '(r, p') := handle_data_message cfg refresh_updated_at CONSUMER_CANCEL_DELAY an (Ok (VDict data)) t p in
  if valid_id data then
    match processor_of refresh_updated_at t with
    | Some processor =>
        if readable t data then
          r = Ok (DeliveryResult ACK "processed" None) /\
          p_db p' = db_of (processor data (World (Session (p_db p) (an_now an) (p_trace p)) (p_observed p) (p_summary p)
                                             (an_monotonic an))).2
        else (exists e, r = Raise e) /\ p_db p' = p_db p
    | None => r = Ok (DeliveryResult REJECT "failed" (Some "UnknownEntity")) /\ p_db p' = p_db p
    end
  else r = Ok (DeliveryResult REJECT "failed" (Some "ValidationError")) /\ p_db p' = p_db p.
Proof.
  intros Hpg Hcon Hcom Hpool Hadm Hc.
  rewrite (handle_record_path cfg refresh_updated_at CONSUMER_CANCEL_DELAY an (VDict data) data t p eq_refl Hc).
  set (p1 := set_p_consumers _ p). destruct (valid_id data) eqn:Eid.
  2: { rewrite (invalid_id_rejected _ _ _ _ Eid). done. }
  destruct (valid_id_spec _ Eid) as (id & Hl & Ht & Hu).
  destruct (processor_of refresh_updated_at t) as [processor|] eqn:Ep.
  2: { unfold handle_record. rewrite Hl, Ht, Hu. simpl. by rewrite Ep. }
  assert (handle_record refresh_updated_at an t data p1 =
    (process_in_transaction an processor data ≫= fun _ => mret (DeliveryResult ACK "processed" None)) p1) as ->.
  { unfold handle_record. rewrite Hl, Ht, Hu. simpl. rewrite Ep. unfold mbind at 1, comp_bind at 1, reads. simpl. rewrite Hpool.
    simpl. unfold mbind at 1, comp_bind at 1. simpl. by rewrite Hadm. }
  unfold mbind, comp_bind, process_in_transaction. rewrite Hcon, Hcom.
  change (p_db p1) with (p_db p). change (p_trace p1) with (p_trace p). change (p_observed p1) with (p_observed p).
  change (p_summary p1) with (p_summary p). set (w := World _ _ _ _).
  pose proof (processor_decided refresh_updated_at Hpg t processor data Ep w) as Hd. rewrite <- Hd.
  destruct (processor data w) as [[[]|e] w']; simpl; [done|]. split; [by exists e|done].
Qed.
End outcome.
