(* ===== verification/Benchmark.v ===== *)
(** * The write-path benchmark

    [scripts/bench-write.py]: the synthetic records it generates, the guard that
    keeps it off a real database, and its run over one connection. Python's
    generator is the class [Random], its draws in order. Its concurrent run, its
    latency proxy and its reports are not modelled. *)

From S2P Require Import Prelude PyValue Database Persistence Media RecordProcessing PurgeSafety Loadability.
From stdpp Require Import base gmap strings list option pretty.
From Stdlib Require Import ZArith Lia Floats.SpecFloat.

(** ** Constants *)

(** [(relations, links)] per record. *)
Definition SHAPE (kind : string) : option (nat * nat) :=
  if decide (kind = "releases") then Some (12, 3)
  else if decide (kind = "artists") then Some (25, 6)
  else if decide (kind = "release_groups") then Some (3, 2)
  else if decide (kind = "labels") then Some (5, 3)
  else None.

(** The ceilings are the doubles nearest to 0.60, 0.85, 0.95 and 1.0. *)
Definition MIX : list (string * spec_float) :=
  [("releases", S754_finite false 5404319552844595 (-53)); ("artists", S754_finite false 7656119366529843 (-53));
   ("release_groups", S754_finite false 8556839292003942 (-53)); ("labels", S754_finite false 4503599627370496 (-52))].

Definition HALF : spec_float := S754_finite false 4503599627370496 (-53).

(** ** The generator *)

Class Random : Type := {
  rng : Type;
  seeded : Z -> rng;                            (** [random.Random(seed)] *)
  random : rng -> spec_float * rng;             (** [rng.random()] *)
  getrandbits : Z -> rng -> Z * rng;
  choice_index : nat -> rng -> nat * rng;             (** the index [rng.choice] takes of [n] *)
  randrange : Z -> Z -> rng -> Z * rng;
}.

(** What the documentation of [random] promises. *)
Class RandomLaws `{Random} : Prop := {
  random_below_one g : SFltb (random g).1 (S754_finite false 4503599627370496 (-52)) = true;
  choice_index_in n g : 0 < n -> (choice_index n g).1 < n;
}.

(** ** [str(uuid.UUID(int=bits, version=4))] *)

Definition HEX : list string :=
  ["0"; "1"; "2"; "3"; "4"; "5"; "6"; "7"; "8"; "9"; "a"; "b"; "c"; "d"; "e"; "f"].

Definition hex_digit (n : Z) : string := default "0" (HEX !! Z.to_nat (Z.land n 15)).

(** The 32 digits, the most significant first. *)
Definition hex_digits (n : Z) : list string :=
  map (fun i => hex_digit (Z.shiftr n (4 * Z.of_nat i))) (reverse (seq 0 32)).

(** The variant and the version, set in the integer. *)
Definition version4 (n : Z) : Z :=
  let n := Z.lor (Z.land n (Z.lnot (Z.shiftl 0xc000 48))) (Z.shiftl 0x8000 48) in
  Z.lor (Z.land n (Z.lnot (Z.shiftl 0xf000 64))) (Z.shiftl 4 76).

Definition dashed (l : list string) : list string :=
  take 8 l ++ "-" :: take 4 (drop 8 l) ++ "-" :: take 4 (drop 12 l) ++ "-" :: take 4 (drop 16 l) ++ "-" :: drop 20 l.

Definition uuid_text (bits : Z) : string := PyValue.join (dashed (hex_digits (version4 bits))).

(** ** The records *)

Section records.
Context `{Random} `{Common}.

Abbreviation gen A := (comp rng exn A).

Definition draws {A} (f : rng -> A * rng) : gen A := fun g => let '(a, g') := f g in (Ok a, g').

Definition new_uuid : gen string := draws (getrandbits 128) ≫= fun bits => mret (uuid_text bits).

Definition choice (l : list string) : gen string :=
  draws (choice_index (length l)) ≫= fun i =>
  match l !! i with Some x => mret x | None => raise (OtherException "IndexError") end.

(** [next(name for name, ceiling in MIX if draw < ceiling)] *)
Definition kind_of (draw : spec_float) : result exn string :=
  match List.find (fun nc => SFltb draw nc.2) MIX with
  | Some nc => Ok nc.1
  | None => Raise (OtherException "StopIteration")
  end.

Definition new_relation : gen value :=
  new_uuid ≫= fun target =>
  choice ["artist"; "release"; "label"; "recording"] ≫= fun target_type =>
  choice ["member of band"; "producer"; "remixer"; "vocal"] ≫= fun type =>
  choice ["forward"; "backward"] ≫= fun direction =>
  mret (VDict [("target_mbid", VStr target); ("target_type", VStr target_type); ("type", VStr type);
               ("direction", VStr direction); ("attributes", VList []); ("begin_date", VNull); ("end_date", VNull);
               ("ended", VBool false)]).

Definition new_link : gen value :=
  new_uuid ≫= fun id =>
  choice ["wikidata"; "bandcamp"; "discogs"; "youtube"] ≫= fun service =>
  mret (VDict [("url", VStr ("https://example.org/" +:+ id)); ("service", VStr service)]).

(** [[m for _ in range(n)]] *)
Fixpoint times {A} (n : nat) (m : gen A) : gen (list A) :=
  match n with
  | O => mret []
  | S n => m ≫= fun x => times n m ≫= fun l => mret (x :: l)
  end.

(** [a if rng.random() < 0.5 else b] *)
Definition coin {A} (a b : gen A) : gen A := draws random ≫= fun r => if SFltb r HALF then a else b.

(** The keys a record of each kind has beyond the common ones. *)
Definition release_keys (i : nat) : gen dict :=
  coin (draws (randrange (10 ^ 12) (10 ^ 13)) ≫= fun n => mret (VStr (pretty n))) (mret VNull) ≫= fun barcode =>
  coin (draws (randrange 0 (10 ^ 6)) ≫= fun n =>
          mret (VList [VDict [("catalog_number", VStr ("CAT-" +:+ pretty n))]])) (mret (VList [])) ≫= fun numbers =>
  lift (media_mapper [("media", VList [VDict [("format", VStr "CD"); ("disc-count", VInt 1)]]);
                      ("status", VStr "Official")]) ≫= fun media =>
  mret ([("barcode", barcode); ("catalog_numbers", numbers); ("status", VStr "Official")] ++
        (if (i mod 3 =? 0)%nat then [("discogs_release_id", VStr (pretty (1000000 + Z.of_nat i)%Z))] else []) ++
        [("media", VDict media)]).

Definition more_keys (kind : string) (i : nat) : gen dict :=
  if decide (kind = "releases") then release_keys i
  else if decide (kind = "artists" /\ i mod 4 = 0) then mret [("discogs_artist_id", VInt (2000000 + Z.of_nat i))]
  else mret [].

Definition make_record (i : nat) : gen (string * dict) :=
  draws random ≫= fun draw =>
  lift (kind_of draw) ≫= fun kind =>
  match SHAPE kind with
  | None => raise KeyError
  | Some (relations, links) =>
      new_uuid ≫= fun mbid =>
      times relations new_relation ≫= fun rels =>
      times links new_link ≫= fun urls =>
      more_keys kind i ≫= fun more =>
      mret (kind, [("id", VStr mbid); ("mbid", VStr mbid); ("name", VStr (kind +:+ " " +:+ pretty (N.of_nat i)));
                   ("dump_version", VStr "bench"); ("relations", VList rels); ("external_links", VList urls)] ++ more)
  end.

Fixpoint make_from (n i : nat) : gen (list (string * dict)) :=
  match n with
  | O => mret []
  | S n => make_record i ≫= fun r => make_from n (S i) ≫= fun l => mret (r :: l)
  end.

Definition make_records (count : nat) (seed : Z) : result exn (list (string * dict)) :=
  (make_from count 0 (seeded seed)).1.
End records.

(** ** The run *)

Section bench_run.
Context `{PyRepr} `{Postgres} `{Common}.

(** [handlers], of a writer that does not refresh. *)
Definition handlers (kind : string) : option (dict -> proc unit) :=
  if decide (kind = "releases") then Some (process_release false)
  else if decide (kind = "artists") then Some (process_artist false)
  else if decide (kind = "release_groups") then Some (process_release_group false)
  else if decide (kind = "labels") then Some (process_label false)
  else None.

(** One record in a transaction, rolled back when its handler raises. *)
Definition write_record (kr : string * dict) : proc unit :=
  match handlers kr.1 with
  | Some handler => fun w =>
      match handler kr.2 w with
      | (Ok u, w') => (Ok u, w')
      | (Raise e, w') => (Raise e, set_session (set_s_db (s_db (w_session w)) (w_session w')) w')
      end
  | None => raise KeyError
  end.

(** [run_records] with one worker, which takes the queue in order. *)
Definition run_worker (records : list (string * dict)) : proc unit := for_each records write_record.
End bench_run.

Definition bench_tables : list string :=
  ["artists"; "labels"; "releases"; "release_groups"; "relationships"; "external_links"].

(** [count( * )] of each of [bench_tables]. *)
Definition table_counts (d : db) : list nat :=
  [size (artists d); size (labels d); size (releases d); size (release_groups d); size (relationships d); size (external_links d)].

(** Why [prepare] refuses, if it does. *)
Inductive refusal : Type :=
| NotLoopback (host : option string)
| SchemaFailed (failures : Z)
| AlreadyHolds (table : string) (rows : nat).

Definition prepare (host : option string) (failures : Z) (d : db) : option refusal :=
  if negb (bool_decide (host ∈ [Some "127.0.0.1"; Some "localhost"; Some "::1"])) then Some (NotLoopback host)
  else if negb (failures =? 0)%Z then Some (SchemaFailed failures)
  else match List.find (fun tn => negb (tn.2 =? 0)%nat) (zip bench_tables (table_counts d)) with
       | Some (t, n) => Some (AlreadyHolds t n)
       | None => None
       end.

(** ** Facts: the uuid text *)

Lemma hex_digit_in n : hex_digit n ∈ HEX.
Proof.
  unfold hex_digit. assert (is_Some (HEX !! Z.to_nat (Z.land n 15))) as [x Hx].
  { apply lookup_lt_is_Some. simpl. change 15%Z with (Z.ones 4). rewrite Z.land_ones by lia.
    pose proof (Z.mod_pos_bound n (2 ^ 4) eq_refl). lia. }
  rewrite Hx. simpl. by eapply list_elem_of_lookup_2.
Qed.

(** A property of each character of a uuid's text, by cases. *)
Lemma uuid_chars (P : string -> Prop) : P "-" -> Forall P HEX -> forall ch, ch ∈ "-" :: HEX -> P ch.
Proof. intros Hd HF ch [->|Hch]%elem_of_cons; [done|]. rewrite Forall_forall in HF. auto. Qed.

Lemma dashed_chars n : Forall (fun ch => ch ∈ "-" :: HEX) (dashed (hex_digits n)).
Proof.
  assert (Forall (fun ch => ch ∈ "-" :: HEX) (hex_digits n)) as HF.
  { apply Forall_forall. intros ch (i & -> & _)%list_elem_of_fmap. apply elem_of_cons. right. apply hex_digit_in. }
  assert ("-" ∈ "-" :: HEX) as Hd by (apply elem_of_cons; by left).
  unfold dashed. repeat (rewrite Forall_app || rewrite Forall_cons). split_and!; auto using Forall_take, Forall_drop.
Qed.

Lemma chars_single l : Forall (fun ch => ch ∈ "-" :: HEX) l -> chars (PyValue.join l) = l.
Proof.
  induction 1 as [|ch l Hch Hl IH]; [done|].
  assert (exists c, ch = String c "" /\ is_continuation c = false) as (c & -> & _).
  { revert ch Hch. apply uuid_chars; [eauto|repeat constructor; eauto]. }
  change (PyValue.join (String c "" :: l)) with (String c (PyValue.join l)). simpl chars. rewrite IH.
  destruct l as [|ch' l]; [done|]. apply Forall_cons in Hl as [Hch' _].
  assert (exists c', ch' = String c' "" /\ is_continuation c' = false) as (c' & -> & Hc').
  { revert ch' IH Hch'. clear. intros ch' _. revert ch'. apply uuid_chars; [eauto|repeat constructor; eauto]. }
  by rewrite Hc'.
Qed.

Lemma remove_none u p l :
  Forall (fun ch => exists x, ch = String x "" /\ x <> u) l -> remove_all (String u p) 0 (PyValue.join l) = PyValue.join l.
Proof.
  induction 1 as [|ch l (x & -> & Hx) _ IH]; [done|].
  change (PyValue.join (String x "" :: l)) with (String x (PyValue.join l)). cbn [remove_all String.prefix].
  destruct (Ascii.ascii_dec u x) as [<-|]; [done|]. by rewrite IH.
Qed.

Lemma drop_while_none {A} (p : A -> bool) l : Forall (fun x => p x = false) l -> drop_while p l = l.
Proof. intros [|x l' Hx _]; simpl; [done|]. by rewrite Hx. Qed.

Lemma trim_none {A} (p : A -> bool) l : Forall (fun x => p x = false) l -> trim p l = l.
Proof.
  intros HF. unfold trim. rewrite (drop_while_none p l HF), drop_while_none by (by apply Forall_reverse).
  apply reverse_involutive.
Qed.

Lemma filter_dashed l : Forall (fun ch => ch ∈ HEX) l -> length l = 32 -> filter (fun ch => ch <> "-") (dashed l) = l.
Proof.
  intros HF Hlen. unfold dashed.
  assert (forall k, Forall (fun ch => ch ∈ HEX) k -> filter (fun ch => ch <> "-") k = k) as Hk.
  { induction 1 as [|ch k Hch _ IH]; [done|]. rewrite filter_cons, IH. rewrite decide_True; [done|].
    intros ->. assert ("-" ∉ HEX) as Hn by (apply (bool_decide_unpack _); vm_compute; exact I). done. }
  repeat (rewrite filter_app || rewrite filter_cons || rewrite decide_False by (intros Hn; by apply Hn)).
  rewrite !Hk by auto using Forall_take, Forall_drop.
  do 33 (destruct l as [|? l]; [done|]). done.
Qed.

(** A property of every digit. *)
Lemma hex_all (P : string -> bool) : forallb P HEX = true -> forall ch, ch ∈ HEX -> P ch = true.
Proof. intros HP ch Hch. rewrite forallb_forall in HP. by apply HP, list_elem_of_In. Qed.

Lemma hex_none (k : list string) :
  forallb (fun ch => negb (bool_decide (ch ∈ k))) HEX = true -> forall ch, ch ∈ HEX -> bool_decide (ch ∈ k) = false.
Proof. intros Hk ch Hch. apply negb_true_iff. exact (hex_all _ Hk ch Hch). Qed.

Lemma after_digits_all l : Forall (fun ch => ch ∈ HEX) l -> after_digits false l = Some [].
Proof.
  induction 1 as [|ch l Hch _ IH]; [done|]. simpl. by rewrite (hex_all is_hex_digit) by done.
Qed.

Lemma int16_digits l : Forall (fun ch => ch ∈ HEX) l -> l <> [] -> int16_parses l = true.
Proof.
  intros HF Hne. unfold int16_parses. rewrite drop_while_none.
  2: { refine (List.Forall_impl _ _ HF). intros ch Hch. apply negb_true_iff.
       by apply (hex_all (fun ch => negb (is_int_space ch))). }
  pose proof (after_digits_all l HF) as Hd. destruct l as [|ch l]; [done|]. apply Forall_cons in HF as [Hch HF].
  rewrite (hex_none ["+"; "-"] eq_refl ch Hch).
  match goal with |- match ?e with _ => _ end = true => assert (e = ch :: l) as -> end.
  { destruct l as [|x l]; [by repeat case_match|]. apply Forall_cons in HF as [Hx _].
    rewrite (hex_none ["x"; "X"] eq_refl x Hx). by repeat case_match. }
  by rewrite Hd, (hex_all is_hex_digit) by done.
Qed.

Lemma new_uuid_parses bits : uuid_parses (VStr (uuid_text bits)) = true.
Proof.
  unfold uuid_parses, uuid_text. set (n := version4 bits). pose proof (dashed_chars n) as HF.
  assert (forall P : string -> Prop, P "-" -> Forall P HEX -> Forall P (dashed (hex_digits n))) as Hall.
  { intros P Hd HP. refine (List.Forall_impl _ _ HF). by apply uuid_chars. }
  change "urn:" with (String (Ascii.ascii_of_N 117) "rn:"). change "uuid:" with (String (Ascii.ascii_of_N 117) "uid:").
  rewrite !remove_none by (apply Hall; [by eexists|repeat constructor; by eexists]).
  rewrite (chars_single _ HF), trim_none by (apply Hall; [done|by repeat constructor]).
  assert (Forall (fun ch => ch ∈ HEX) (hex_digits n)) as HX.
  { apply Forall_forall. intros ch (i & -> & _)%list_elem_of_fmap. apply hex_digit_in. }
  assert (length (hex_digits n) = 32) as Hlen by (unfold hex_digits; by rewrite length_map, length_reverse, length_seq).
  rewrite (filter_dashed _ HX Hlen), Hlen. simpl andb.
  apply int16_digits; [done|]. intros Hn. by rewrite Hn in Hlen.
Qed.

(** ** Facts: the generator *)

Section facts.
Context `{PyRepr} `{Postgres} `{Random} `{!RandomLaws} `{Common}.

Abbreviation gen A := (comp rng exn A).

(** Whatever is drawn, [m] returns a value of [P]. *)
Definition yields {A} (m : gen A) (P : A -> Prop) : Prop := forall g, exists a g', m g = (Ok a, g') /\ P a.

Lemma yields_ret {A} (a : A) (P : A -> Prop) : P a -> yields (mret a) P.
Proof. intros Ha g. by exists a, g. Qed.

Lemma yields_bind {A B} (m : gen A) (f : A -> gen B) P Q :
  yields m P -> (forall a, P a -> yields (f a) Q) -> yields (m ≫= f) Q.
Proof.
  intros Hm Hf g. destruct (Hm g) as (a & g1 & Ha & HP). destruct (Hf a HP g1) as (b & g2 & Hb & HQ).
  exists b, g2. by rewrite (comp_bind_run _ _ _ _ _ Ha).
Qed.

Lemma yields_draws {A} (f : rng -> A * rng) (P : A -> Prop) : (forall g, P (f g).1) -> yields (draws f) P.
Proof. intros Hf g. specialize (Hf g). unfold draws. destruct (f g) as [a g']. by exists a, g'. Qed.

Lemma yields_choice l : l <> [] -> yields (choice l) (fun x => x ∈ l).
Proof.
  intros Hl. unfold choice. apply (yields_bind _ _ (fun i => i < length l)).
  - apply yields_draws. intros g. apply choice_index_in. destruct l; [done|simpl; lia].
  - intros i Hi. destruct (lookup_lt_is_Some_2 _ _ Hi) as [x Hx]. rewrite Hx. apply yields_ret. by eapply list_elem_of_lookup_2.
Qed.

Lemma yields_uuid : yields new_uuid (fun s => uuid_parses (VStr s) = true).
Proof.
  unfold new_uuid. apply (yields_bind _ _ (fun _ => True)); [by apply yields_draws|].
  intros bits _. apply yields_ret, new_uuid_parses.
Qed.

Lemma yields_times {A} (m : gen A) P n : yields m P -> yields (times n m) (fun l => length l = n /\ Forall P l).
Proof.
  intros Hm. induction n as [|n IH]; simpl; [by apply yields_ret|].
  eapply yields_bind; [exact Hm|]. intros x Hx. eapply yields_bind; [exact IH|]. intros l [Hl HF].
  apply yields_ret. split; [simpl; by f_equal|by constructor].
Qed.

Lemma yields_coin {A} (m1 m2 : gen A) P : yields m1 P -> yields m2 P -> yields (coin m1 m2) P.
Proof.
  intros Hm1 Hm2. unfold coin. apply (yields_bind _ _ (fun _ => True)); [by apply yields_draws|].
  intros r _. by case_match.
Qed.

Lemma yields_mono {A} (m : gen A) (P Q : A -> Prop) : (forall a, P a -> Q a) -> yields m P -> yields m Q.
Proof. intros HPQ Hm g. destruct (Hm g) as (a & g' & ? & ?). exists a, g'. auto. Qed.

(** A child both readable and complete: it becomes a row. *)
Definition full_relation (v : value) : Prop :=
  relation_readable v = true /\ exists r, v = VDict r /\
    truthy (get r "target_mbid") && truthy (get r "target_type") && truthy (get r "type") = true.
Definition full_link (v : value) : Prop :=
  exists d, v = VDict d /\ truthy (get d "url") && truthy (get d "service") = true.

Lemma uuid_truthy s : uuid_parses (VStr s) = true -> truthy (VStr s) = true.
Proof. destruct s; [by vm_compute|done]. Qed.

Lemma choice_truthy k s : s ∈ k -> forallb (fun s => truthy (VStr s)) k = true -> truthy (VStr s) = true.
Proof. intros Hs Hk. rewrite forallb_forall in Hk. by apply Hk, list_elem_of_In. Qed.

Lemma yields_relation : yields new_relation full_relation.
Proof.
  unfold new_relation. eapply yields_bind; [apply yields_uuid|]. intros t Ht%uuid_truthy.
  eapply yields_bind; [by apply yields_choice|]. intros ty Hty. eapply yields_bind; [by apply yields_choice|]. intros k Hk.
  eapply yields_bind; [by apply yields_choice|]. intros dir _. apply yields_ret.
  apply choice_truthy in Hty, Hk; [|done..]. split.
  - change (negb (truthy (VStr t) && truthy (VStr ty) && truthy (VStr k)) || true = true). by rewrite orb_true_r.
  - eexists. split; [done|]. change (truthy (VStr t) && truthy (VStr ty) && truthy (VStr k) = true). by rewrite Ht, Hty, Hk.
Qed.

Lemma yields_link : yields new_link full_link.
Proof.
  unfold new_link. eapply yields_bind; [apply yields_uuid|]. intros id _.
  eapply yields_bind; [by apply yields_choice|]. intros s Hs. apply yields_ret. apply choice_truthy in Hs; [|done].
  eexists. split; [done|]. change (truthy (VStr ("https://example.org/" +:+ id)) && truthy (VStr s) = true). by rewrite Hs.
Qed.

Lemma full_relation_row m c v : full_relation v -> exists row, relationship_row m c v = Ok (Some row).
Proof.
  intros (Hr & r & -> & Hf). unfold relationship_row, relation_readable, mbind, result_bind, canonical_entity_type in *.
  cbn [dict_of]. rewrite Hf in *. cbn in Hr. rewrite Hr. by eexists.
Qed.

Lemma full_link_row m t v : full_link v -> exists row, external_link_row m t v = Ok (Some row).
Proof.
  intros (d & -> & Hf). unfold external_link_row, mbind, result_bind. cbn [dict_of]. rewrite Hf. by eexists.
Qed.

Lemma relation_rows m t l :
  Forall full_relation l -> exists rows, relationship_rows m t (VList l) = Ok rows /\ length rows = length l.
Proof.
  intros HF. unfold relationship_rows, mbind, result_bind. simpl. set (c := if decide _ then _ else _).
  destruct (traverse_full (relationship_row m c) l) as (os & -> & Hl); [|by exists (somes os)].
  refine (List.Forall_impl _ _ HF). apply full_relation_row.
Qed.

Lemma link_rows m t l :
  Forall full_link l -> exists rows, external_link_rows m t (VList l) = Ok rows /\ length rows = length l.
Proof.
  intros HF. unfold external_link_rows, mbind, result_bind. simpl.
  destruct (traverse_full (external_link_row m t) l) as (os & -> & Hl); [|by exists (somes os)].
  refine (List.Forall_impl _ _ HF). apply full_link_row.
Qed.

(** The data type whose processor handles a kind. *)
Definition data_type_of (kind : string) : string := if decide (kind = "release_groups") then "release-groups" else kind.

(** What the mapper makes of the benchmark's one medium. *)
Context (bench_media : dict).
Hypothesis bench_mapped :
  media_mapper [("media", VList [VDict [("format", VStr "CD"); ("disc-count", VInt 1)]]); ("status", VStr "Official")] = Ok bench_media.
Hypothesis bench_items : is_ok (py_iter (or_else (get bench_media "items") (VList []))) = true.
(** [common] reads the compatibility block this loader makes. *)
Hypothesis legacy_read : forall record block,
  legacy_identifiers_block record = Some block -> is_ok (alias_refs_for_release block) = true.

(** A record of the audit's shape that the service would load. *)
Definition shaped (kr : string * dict) : Prop :=
  exists relations links, SHAPE kr.1 = Some (relations, links) /\
    valid_id kr.2 = true /\ readable (data_type_of kr.1) kr.2 = true /\
    (forall t, exists rows, relationship_rows (mbid_of kr.2) t (get_default kr.2 "relations" (VList [])) = Ok rows /\ length rows = relations) /\
    (forall t, exists rows, external_link_rows (mbid_of kr.2) t (get_default kr.2 "external_links" (VList [])) = Ok rows /\ length rows = links).

Lemma yields_more kind i :
  yields (more_keys kind i) (fun more =>
    kind = "releases" -> get more "media" = VDict bench_media /\ lookup_key more "identifiers" = None).
Proof.
  unfold more_keys. case_decide as Hk.
  - unfold release_keys. eapply (yields_bind _ _ (fun _ => True)).
    { apply yields_coin; [|by apply yields_ret]. eapply (yields_bind _ _ (fun _ => True)); [by apply yields_draws|].
      intros; by apply yields_ret. }
    intros barcode _. eapply (yields_bind _ _ (fun _ => True)).
    { apply yields_coin; [|by apply yields_ret]. eapply (yields_bind _ _ (fun _ => True)); [by apply yields_draws|].
      intros; by apply yields_ret. }
    intros numbers _. rewrite bench_mapped. eapply (yields_bind _ _ (fun media => media = bench_media)); [intros g; by exists bench_media, g|].
    intros media ->. apply yields_ret. intros _. by destruct (_ =? _)%nat.
  - case_decide; by apply yields_ret.
Qed.

Lemma yields_kind : yields (draws random ≫= fun draw => lift (kind_of draw)) (fun kind => is_Some (SHAPE kind)).
Proof.
  apply (yields_bind _ _ (fun r => SFltb r (S754_finite false 4503599627370496 (-52)) = true)).
  - apply yields_draws. intros g. apply random_below_one.
  - intros r Hr g. unfold kind_of, MIX. cbn [List.find snd]. rewrite Hr.
    clear Hr. repeat match goal with |- context [SFltb r ?c] => destruct (SFltb r c) end; (eexists _, g; split; [reflexivity|]); by eexists.
Qed.

Lemma yields_record i : yields (make_record i) shaped.
Proof.
  intros g. unfold make_record. destruct (yields_kind g) as (kind & g1 & Hg & [[nr nl] Hs]).
  assert (forall f : string -> gen (string * dict), (draws random ≫= fun draw => lift (kind_of draw) ≫= f) g = f kind g1) as ->.
  { intros f. unfold mbind, comp_bind in *. destruct (draws random g) as [[x|e] g0]; [|done]. by destruct (lift (kind_of x) g0) as [[]]; simplify_eq. }
  rewrite Hs. clear Hg g. revert g1. change (yields (new_uuid ≫= fun mbid => times nr new_relation ≫= fun rels =>
    times nl new_link ≫= fun urls => more_keys kind i ≫= fun more =>
      mret (kind, [("id", VStr mbid); ("mbid", VStr mbid); ("name", VStr (kind +:+ " " +:+ pretty (N.of_nat i)));
                   ("dump_version", VStr "bench"); ("relations", VList rels); ("external_links", VList urls)] ++ more)) shaped).
  eapply yields_bind; [apply yields_uuid|]. intros mbid Hm. eapply yields_bind; [apply yields_times, yields_relation|]. intros rels [Hlr HFr].
  eapply yields_bind; [apply yields_times, yields_link|]. intros urls [Hlu HFu]. eapply yields_bind; [apply yields_more|]. intros more Hmore.
  apply yields_ret. exists nr, nl. split; [done|]. pose proof (uuid_truthy _ Hm) as Ht.
  set (record := _ ++ more). split_and!.
  - change (truthy (VStr mbid) && uuid_parses (VStr mbid) = true). by rewrite Ht, Hm.
  - assert (children_readable record = true) as Hc.
    { unfold children_readable. change (get_default record "relations" (VList [])) with (VList rels).
      change (get_default record "external_links" (VList [])) with (VList urls). unfold list_readable. simpl.
      apply andb_true_iff. rewrite !forallb_forall. split; intros v Hv%list_elem_of_In.
      - rewrite Forall_forall in HFr. by apply HFr.
      - rewrite Forall_forall in HFu. by destruct (HFu v Hv) as (d & -> & _). }
    change (readable (data_type_of kind) record = true). unfold readable, identity_readable. change (mbid_of record) with (VStr mbid).
    rewrite Hc. simpl hashable. rewrite orb_true_r. simpl andb. case_decide as Hk; [|done].
    assert (kind = "releases") as -> by (unfold data_type_of in Hk; by case_decide). destruct (Hmore eq_refl) as [Hmedia Hid].
    apply andb_true_iff. split.
    + unfold media_readable, release_media_block. change (get record "media") with (get more "media").
      rewrite Hmedia, bench_items. by rewrite orb_true_r.
    + unfold identifiers_readable, block_readable. change (lookup_key record "identifiers") with (lookup_key more "identifiers").
      rewrite Hid. destruct (legacy_identifiers_block record) eqn:El; [rewrite (legacy_read _ _ El)|]; apply orb_true_r.
  - intros t. change (get_default record "relations" (VList [])) with (VList rels). rewrite <- Hlr. by apply relation_rows.
  - intros t. change (get_default record "external_links" (VList [])) with (VList urls). rewrite <- Hlu. by apply link_rows.
Qed.

Lemma yields_records n i : yields (make_from n i) (fun l => length l = n /\ Forall shaped l).
Proof.
  revert i. induction n as [|n IH]; intros i; simpl; [by apply yields_ret|].
  eapply yields_bind; [apply yields_record|]. intros r Hr. eapply yields_bind; [apply IH|]. intros l [Hl HF].
  apply yields_ret. split; [simpl; by f_equal|by constructor].
Qed.

Lemma handlers_processor kind : is_Some (SHAPE kind) -> handlers kind = processor_of false (data_type_of kind) /\ is_Some (handlers kind).
Proof.
  unfold SHAPE, handlers, data_type_of, processor_of. intros Hk.
  destruct (decide (kind = "releases")) as [->|]; [by split|]. destruct (decide (kind = "artists")) as [->|]; [by split|].
  destruct (decide (kind = "release_groups")) as [->|]; [by split|]. destruct (decide (kind = "labels")) as [->|]; [by split|].
  by destruct Hk.
Qed.

Lemma write_record_ok `{!IdentityAnswers} `{!FlushesOpen} kr w :
  answers -> shaped kr -> exists w', write_record kr w = (Ok tt, w').
Proof.
  intros Hpg. destruct kr as [kind record]. intros (nr & nl & Hs & _ & Hread & _). unfold write_record. simpl in *.
  destruct (handlers_processor kind) as [Hh [handler Hsome]]; [by rewrite Hs|]. rewrite Hsome in Hh |- *.
  pose proof (processor_decided false Hpg (data_type_of kind) handler record (eq_sym Hh) w) as Hw.
  rewrite Hread in Hw. destruct (handler record w) as [[[]|] w']; [by exists w'|done].
Qed.

(** The benchmark measures what the service would load. Whatever the seed,
    [make_records] returns as many records as asked, with no draw it can not map
    to a kind; each has a valid id and is readable for its data type, and the
    loader derives from it exactly the number of relationship and link rows the
    audit's shape names. On a database that answers, the run over them completes:
    no generated record fails and cuts a measurement short. *)
Theorem bench_records_load `{!IdentityAnswers} `{!FlushesOpen} count seed :
  exists records, make_records count seed = Ok records /\ length records = count /\ Forall shaped records /\
    (answers -> forall w, exists w', run_worker records w = (Ok tt, w')).
Proof.
  destruct (yields_records count 0 (seeded seed)) as (records & g & Hr & Hl & HF).
  exists records. unfold make_records. rewrite Hr. split_and!; [done|done|done|]. intros Hpg.
  clear Hr Hl. unfold run_worker. induction HF as [|kr l Hs _ IH]; intros w; [by exists w|].
  destruct (write_record_ok kr w Hpg Hs) as [w1 Hw1]. simpl. rewrite (comp_bind_run _ _ _ _ _ Hw1). apply IH.
Qed.
End facts.

(** The guard lets exactly an empty database on loopback through. *)
Lemma prepare_admits host failures d :
  prepare host failures d = None <->
  host ∈ [Some "127.0.0.1"; Some "localhost"; Some "::1"] /\ failures = 0%Z /\
  artists d = ∅ /\ labels d = ∅ /\ releases d = ∅ /\ release_groups d = ∅ /\ relationships d = ∅ /\ external_links d = ∅.
Proof.
  unfold prepare, bench_tables, table_counts. rewrite <- !map_size_empty_iff.
  destruct (bool_decide_reflect (host ∈ [Some "127.0.0.1"; Some "localhost"; Some "::1"])) as [Hh|Hh]; simpl; [|naive_solver].
  destruct (Z.eqb_spec failures 0); simpl; [|naive_solver].
  repeat match goal with |- context [(?n =? 0)%nat] => destruct (Nat.eqb_spec n 0); simpl end; naive_solver.
Qed.
