(* ===== verification/Broker.v ===== *)
(** * A queue's messages

    What RabbitMQ keeps with a message of a queue that
    [brainztableinator/brainztableinator.py] declares: how often it was handed out
    and how often it came back unsettled, which the headers tell
    [_broker_handouts] and the queue's [x-delivery-limit] bounds. What a delivery
    leaves alone in the process, what the runner makes of a handler's answer, and
    the hand-outs a message may still take. [Prefetch.v] runs the deliveries. *)

From S2P Require Import Prelude PyValue QueueNames PurgeVeto Consumers Database Persistence Media.
From S2P Require Import RecordProcessing ProcessTrace Reconciliation Delivery DeliverySafety.
From stdpp Require Import base gmap strings list option sorting.
From Stdlib Require Import ZArith Lia.

(** ** Messages *)

Record message : Type := Message {
  m_type : string;                 (** the queue's data type *)
  m_body : result exn value;       (** what [orjson.loads] makes of the body *)
  m_headers : dict;                (** its other headers *)
  m_handouts : Z;                  (** how often it was handed out before *)
  m_returns : Z;                   (** how often it came back without a settlement *)
}.

(** RabbitMQ's headers on a message it handed out before. *)
Definition headers_of (m : message) : dict :=
  ("x-acquired-count", VInt (m_handouts m)) :: ("x-delivery-count", VInt (m_returns m)) :: m_headers m.

(** A requeue costs a hand-out, and a return without a settlement a delivery too. *)
Definition handed_back (m : message) : message :=
  Message (m_type m) (m_body m) (m_headers m) (m_handouts m + 1) (m_returns m).
Definition returned (m : message) : message :=
  Message (m_type m) (m_body m) (m_headers m) (m_handouts m + 1) (m_returns m + 1).

(** The queues' [x-delivery-limit]. *)
Definition DELIVERY_LIMIT : Z := 20.

(** The broker dead-letters a message whose returns pass the limit. *)
Definition past_limit (m : message) : bool := (DELIVERY_LIMIT <? m_returns m)%Z.

(** The message itself, however often it was handed out. *)
Definition identity (m : message) : string * result exn value * dict := (m_type m, m_body m, m_headers m).

Section broker.
Context `{PyRepr} `{Postgres} `{Common} `{Collation} `{Shared} `{!SharedLaws}.
Context (cfg : purge_config) (refresh_updated_at : bool) (CONSUMER_CANCEL_DELAY : Z).

(** ** What a delivery leaves alone *)

Definition counts_of (p : process) : gmap string Z := message_counts (c_traffic (p_consumers p)).

Definition fixed (p : process) := (shutdown_requested p, connection_pool p, write_admission p, counts_of p).

Lemma keeps_mark_dead_letter t : keeps fixed (mark_dead_letter t).
Proof. by apply keeps_modifies. Qed.

Lemma keeps_on_consumers g :
  (forall c, message_counts (c_traffic (g c)) = message_counts (c_traffic c)) -> keeps fixed (on_consumers g).
Proof. intros Hg. apply keeps_modifies. intros p. unfold fixed, counts_of. simpl. by rewrite Hg. Qed.

Lemma keeps_raises e : keeps fixed (raises e).
Proof. by destruct e. Qed.

#[local] Hint Resolve keeps_mark_dead_letter keeps_on_consumers keeps_raises : loader.

Lemma pop_cancel_counts t c : message_counts (c_traffic (pop_cancel t c)) = message_counts (c_traffic c).
Proof. unfold pop_cancel, cancel_task_, end_task. repeat case_match; done. Qed.

(** The record path changes the database and the marks only. *)
Section record_path.
Context {P : Type} (f : process -> P).
Hypothesis f_mark : forall t p, f (mark_dead_letter t p).2 = f p.
Hypothesis f_run : forall d tr obs sm p, f (set_run d tr obs sm p) = f p.

Lemma keeps_process_in_transaction an processor data : keeps f (process_in_transaction an processor data).
Proof.
  intros p. unfold process_in_transaction. destruct (an_connects an); [done|].
  destruct (processor data _) as [[[]|e] w]; [destruct (an_commits an)|]; apply f_run.
Qed.

Lemma keeps_reject t e : keeps f (reject t e).
Proof. unfold reject. apply keeps_bind; [|auto with loader]. intros p. apply f_mark. Qed.

Lemma keeps_handle_record an t data : keeps f (handle_record refresh_updated_at an t data).
Proof.
  pose proof (keeps_reject t) as Hrej. unfold handle_record. destruct (lookup_key data "id"); [|auto].
  destruct (negb (truthy _)); [auto|]. destruct (negb (uuid_parses _)); [auto|].
  destruct (processor_of _ t); [|auto]. apply keeps_bind; [auto with loader|]. intros [|]; simpl; [|auto with loader].
  apply keeps_bind; [auto with loader|]. intros [|]; simpl; [|auto with loader].
  apply keeps_bind; [apply keeps_process_in_transaction|auto with loader].
Qed.
End record_path.

(** ** How a delivery ends *)

(** The runner settles the handler's own result, or for an error a rejection, or
    a requeue, which the budget ends. *)
Lemma runner_run headers (h : run delivery_result) settles p r0 p0 :
  h p = (r0, p0) -> (forall r, r0 = Ok r -> final r) ->
  exists r p1, run_delivery h (classifier (broker_handouts headers)) wait_before_requeue settles p = (settling settles r, p1) /\
    (p1 = p0 \/ p1 = add_backoff BackoffWait p0) /\
    match r0 with
    | Ok r1 => r = r1 /\ p1 = p0 /\ final r
    | Raise e => dr_error_type r = Some (exn_name e) /\
        (dr_settlement r = REJECT \/ dr_settlement r = REQUEUE /\ (broker_handouts headers < MAX_REQUEUES)%Z)
    end.
Proof.
  intros Hh Hf. destruct r0 as [r1|e].
  - rewrite (run_delivery_returns _ (classifier (broker_handouts headers)) wait_before_requeue settles _ _ _ Hh) by by apply Hf.
    exists r1, p0. split_and!; [done|by left|done|done|by apply Hf].
  - destruct (classifier (broker_handouts headers) e) eqn:Ec.
    + destruct (run_delivery_requeues _ (classifier (broker_handouts headers)) wait_before_requeue settles _ _ _ Hh Ec) as [o ->].
      eexists _, (add_backoff BackoffWait p0). split; [done|]. split; [by right|]. split; [done|]. right.
      split; [done|]. unfold classifier in Ec. destruct (classify e); [|done].
      destruct (MAX_REQUEUES <=? broker_handouts headers)%Z eqn:El; [done|lia].
    + destruct (run_delivery_rejects _ (classifier (broker_handouts headers)) wait_before_requeue settles _ _ _ Hh Ec) as [o ->].
      eexists _, p0. split; [done|]. split; [by left|]. split; [done|]. by left.
Qed.

(** ** What a run of deliveries counts *)

(** The service is up: it is not shutting down and takes writes. *)
Definition running (p : process) : Prop := shutdown_requested p = false /\ write_admission p = true.

(** The count of a type after a result. *)
Definition counted (t : string) (r : delivery_result) (m : gmap string Z) : gmap string Z :=
  if decide (dr_settlement r = ACK /\ dr_outcome r = "processed") then
    match m !! t with Some n => <[t := (n + 1)%Z]> m | None => m end
  else m.

Lemma after_settlement_fixed an t r p :
  shutdown_requested (after_settlement an t r p) = shutdown_requested p /\
  write_admission (after_settlement an t r p) = write_admission p /\
  counts_of (after_settlement an t r p) = counted t r (counts_of p).
Proof.
  unfold after_settlement, counted, counts_of, count_message.
  destruct (decide (dr_settlement r = REJECT /\ _)), (decide (dr_settlement r = ACK /\ _)); try done;
    simpl; by destruct (message_counts _ !! t).
Qed.

Lemma handouts_header m : (m_handouts m <= broker_handouts (Some (headers_of m)))%Z.
Proof.
  unfold broker_handouts, headers_of. simpl. apply Z.le_max_l.
Qed.

(** ** The hand-outs a message may still take *)

Definition in_budget (m : message) : Prop :=
  (0 <= m_returns m <= DELIVERY_LIMIT)%Z /\ (0 <= m_handouts m <= MAX_REQUEUES + m_returns m)%Z.

(** Requeues left, returns left, and the hand-out itself. *)
Definition hands_left (m : message) : nat :=
  Z.to_nat (MAX_REQUEUES - m_handouts m) + Z.to_nat (DELIVERY_LIMIT - m_returns m) + 1.

Definition budget (l : list message) : nat := sum_list (map hands_left l).

Lemma budget_one m : budget [m] = hands_left m.
Proof. exact (Nat.add_0_r _). Qed.

Lemma budget_app l k : budget (l ++ k) = budget l + budget k.
Proof. unfold budget. by rewrite map_app, sum_list_with_app. Qed.

Lemma budget_delete l i m : l !! i = Some m -> budget l = hands_left m + budget (delete i l).
Proof.
  unfold budget. revert i. induction l as [|x l IH]; intros [|i] Hi; simpl in Hi; try done.
  - by injection Hi as ->.
  - simpl. rewrite (IH _ Hi). simpl. lia.
Qed.

Lemma budget_bound l : Forall in_budget l -> budget l <= 521 * length l.
Proof.
  unfold in_budget, budget, hands_left, MAX_REQUEUES, DELIVERY_LIMIT. induction 1 as [|m l Hm _ IH]; simpl; [done|].
  unfold MAX_REQUEUES, DELIVERY_LIMIT. lia.
Qed.

(** Each way back into the queue costs a hand-out. *)
Lemma handed_back_left m :
  in_budget m -> (m_handouts m < MAX_REQUEUES)%Z -> in_budget (handed_back m) /\ hands_left (handed_back m) < hands_left m.
Proof. unfold in_budget, hands_left. simpl. lia. Qed.

Lemma returned_left m :
  in_budget m -> past_limit (returned m) = false -> in_budget (returned m) /\ hands_left (returned m) < hands_left m.
Proof. unfold in_budget, hands_left, past_limit. simpl. lia. Qed.

Definition acknowledged (t : string) (mr : message * delivery_result) : Prop :=
  m_type mr.1 = t /\ dr_settlement mr.2 = ACK /\ dr_outcome mr.2 = "processed".

#[local] Instance acknowledged_dec t mr : Decision (acknowledged t mr).
Proof. unfold acknowledged. apply _. Defined.

Lemma counted_lookup t t' r m n :
  m !! t = Some n ->
  counted t' r m !! t = Some (n + if decide (t' = t /\ dr_settlement r = ACK /\ dr_outcome r = "processed") then 1 else 0)%Z.
Proof.
  intros Hm. unfold counted. destruct (decide (dr_settlement r = ACK /\ dr_outcome r = "processed")) as [Hd|Hd].
  - destruct (decide (t' = t)) as [->|Hne].
    + rewrite Hm, lookup_insert_eq, decide_True by done. done.
    + rewrite decide_False by tauto. destruct (m !! t'); [rewrite lookup_insert_ne by done|]; rewrite Hm; f_equal; lia.
  - rewrite decide_False by tauto. rewrite Hm. f_equal. lia.
Qed.
End broker.
