(* ===== verification/Extraction.v ===== *)
(** * One extraction, end to end

    The child tables over a run of deliveries: records of every type, completion
    signals, failures and redeliveries in any order, and the purges the signals
    trigger. Between two databases of a run the tables evolve by naming and by
    staleness only, and a clean last signal leaves exactly the rows the
    acknowledged records name. *)

From S2P Require Import Prelude PyValue QueueNames PurgeVeto Consumers Database Persistence ChildRows Media.
From S2P Require Import RecordProcessing ProcessTrace ProcessSpec Reconciliation PurgeSafety Delivery DeliverySafety Broker.
From stdpp Require Import base gmap strings list option sorting.
From Stdlib Require Import ZArith Lia.

(** ** How a child table evolves

    A named key ends fresh; any other key is as it was, or gone and then it was
    stale. *)
Definition evolves {K V} `{Countable K} (time : V -> Z) (B : Z) (named : list K) (m m' : gmap K V) : Prop :=
  (forall k, k ∈ named -> exists v, m' !! k = Some v /\ (B <= time v)%Z) /\
  (forall k, k ∉ named -> m' !! k = m !! k \/ m' !! k = None /\ exists v, m !! k = Some v /\ (time v < B)%Z).

Section evolves.
Context {K V} `{Countable K} (time : V -> Z) (B : Z).
Implicit Types m : gmap K V.

Lemma evolves_refl m : evolves time B [] m m.
Proof. split; [intros k Hk; by apply not_elem_of_nil in Hk|by left]. Qed.

Lemma evolves_ext l l' m m' : (forall k, k ∈ l <-> k ∈ l') -> evolves time B l m m' -> evolves time B l' m m'.
Proof. intros Hl [N O]. split; intros k Hk; [apply N|apply O]; rewrite Hl; done. Qed.

Lemma evolves_trans l1 l2 m m1 m2 :
  evolves time B l1 m m1 -> evolves time B l2 m1 m2 -> evolves time B (l1 ++ l2) m m2.
Proof.
  intros [N1 O1] [N2 O2]. split; intros k; rewrite elem_of_app.
  - intros [Hk|Hk]; [|by apply N2]. destruct (decide (k ∈ l2)) as [Hk2|Hk2]; [by apply N2|].
    destruct (N1 k Hk) as (v & Hv & Ht). destruct (O2 k Hk2) as [->|(_ & v' & Hv' & Ht')]; [eauto|].
    rewrite Hv in Hv'. injection Hv' as <-. lia.
  - intros Hk. destruct (O1 k) as [E1|(E1 & v & Hv & Ht)]; [tauto| |].
    + destruct (O2 k) as [E2|(E2 & v & Hv & Ht)]; [tauto|left; congruence|right].
      split; [done|]. exists v. split; [congruence|done].
    + right. destruct (O2 k) as [E2|(E2 & _)]; [tauto| |]; (split; [congruence|by exists v]).
Qed.

(** Deleting stale rows is an evolution that names nothing. *)
Lemma evolves_purge b m m' :
  (b <= B)%Z -> m' ⊆ m -> (forall k v, m !! k = Some v -> (b <= time v)%Z -> m' !! k = Some v) -> evolves time B [] m m'.
Proof.
  intros Hb Hsub Hkeep. split; [intros k Hk; by apply not_elem_of_nil in Hk|]. intros k _.
  destruct (m' !! k) as [v|] eqn:E'; [left; symmetry; by eapply lookup_weaken|].
  destruct (m !! k) as [v|] eqn:E; [|by left]. right. split; [done|]. exists v. split; [done|].
  destruct (decide (b <= time v)%Z) as [Hv|Hv]; [|lia]. rewrite (Hkeep _ _ E Hv) in E'. done.
Qed.

(** Nothing to delete in a table that is empty or holds no stale row. *)
Lemma no_stale (m : gmap K V) :
  (Z.of_nat (size m) =? 0)%Z = true \/
  (Z.of_nat (size (filter (fun kv => time kv.2 < B)%Z m)) =? 0)%Z = true ->
  filter (fun kv => ~ time kv.2 < B)%Z m = m.
Proof.
  intros Hz. apply map_filter_id. intros k v Hk Hb. simpl in Hb.
  destruct Hz as [Hz|Hz]; apply Z.eqb_eq in Hz; apply (Nat2Z.inj _ 0), map_size_empty_inv in Hz.
  - by rewrite Hz, lookup_empty in Hk.
  - assert (filter (fun kv => time kv.2 < B)%Z m !! k = Some v) as Hf by by apply map_lookup_filter_Some.
    by rewrite Hz, lookup_empty in Hf.
Qed.

(** After an evolution, deleting every stale row leaves the named keys and the
    keys that were never stale. *)
Lemma evolves_purged named (m m' : gmap K V) :
  evolves time B named m m' ->
  forall k, is_Some (filter (fun kv => ~ time kv.2 < B)%Z m' !! k) <->
    k ∈ named \/ exists v, m !! k = Some v /\ (B <= time v)%Z.
Proof.
  intros [N O] k. split.
  - intros [v Hv]. apply map_lookup_filter_Some in Hv as [Hv Ht]. simpl in Ht.
    destruct (decide (k ∈ named)) as [Hk|Hk]; [by left|right]. destruct (O k Hk) as [E|[E _]]; [|congruence].
    exists v. split; [congruence|lia].
  - intros Hk. assert (exists v, m' !! k = Some v /\ (B <= time v)%Z) as (v & Hv & Ht).
    { destruct (decide (k ∈ named)) as [Hn|Hn]; [by apply N|]. destruct Hk as [Hk|(v & Hv & Ht)]; [done|].
      destruct (O k Hn) as [E|(_ & v' & Hv' & Ht')]; [|rewrite Hv in Hv'; injection Hv' as <-; lia].
      exists v. split; [congruence|done]. }
    exists v. apply map_lookup_filter_Some. split; [done|]. simpl. lia.
Qed.
End evolves.

Section extraction.
Context `{PyRepr} `{Postgres} `{Common} `{Collation} `{Shared} `{!SharedLaws}.
Context (cfg : purge_config) (CONSUMER_CANCEL_DELAY : Z).

Abbreviation handle := (handle_data_message cfg true CONSUMER_CANCEL_DELAY).

(** The child rows a record of a type names. *)
Definition child_rows (data_type : string) (record : dict) : list rel_entry * list link_key :=
  match contract_of data_type with
  | Some c =>
      (match relationship_rows (mbid_of record) (ec_child_type c) (get_default record "relations" (VList [])) with
       | Ok rows => omap rel_entry_of (map relationship_params rows)
       | Raise _ => []
       end,
       match external_link_rows (mbid_of record) (ec_child_type c) (get_default record "external_links" (VList [])) with
       | Ok rows => omap link_key_of (map (fun row => Plain <$> row) rows)
       | Raise _ => []
       end)
  | None => ([], [])
  end.

Definition message_rows (m : message) : list rel_entry * list link_key :=
  match m_body m with Ok (VDict record) => child_rows (m_type m) record | _ => ([], []) end.

(** The keys a run's acknowledged records name. *)
Definition is_processed (mr : message * delivery_result) : bool :=
  bool_decide (dr_settlement mr.2 = ACK) && bool_decide (dr_outcome mr.2 = "processed").

Definition named_relationships (acked : list (message * delivery_result)) : list string :=
  concat (map (fun mr => if is_processed mr then map re_key (message_rows mr.1).1 else []) acked).
Definition named_links (acked : list (message * delivery_result)) : list link_key :=
  concat (map (fun mr => if is_processed mr then (message_rows mr.1).2 else []) acked).

(** The two tables of a database evolve to those of another. *)
Definition child_evolves (B : Z) (rels : list string) (links : list link_key) (d d' : db) : Prop :=
  evolves rel_updated_at B rels (relationships d) (relationships d') /\
  evolves id B links (external_links d) (external_links d').

Lemma child_evolves_refl B d : child_evolves B [] [] d d.
Proof. split; apply evolves_refl. Qed.

Lemma child_evolves_trans B r1 l1 r2 l2 d d1 d2 :
  child_evolves B r1 l1 d d1 -> child_evolves B r2 l2 d1 d2 -> child_evolves B (r1 ++ r2) (l1 ++ l2) d d2.
Proof. intros [R1 L1] [R2 L2]. split; by eapply evolves_trans. Qed.

(** ** One record *)

Lemma processor_contract data_type processor :
  processor_of true data_type = Some processor -> exists c, contract_of data_type = Some c.
Proof. unfold processor_of, contract_of. repeat case_decide; intros; simplify_eq; eauto. Qed.

Lemma processed_evolves data_type processor record w w' B :
  processor_of true data_type = Some processor -> processor record w = (Ok tt, w') -> (B <= now_of w)%Z ->
  child_evolves B (map re_key (child_rows data_type record).1) (child_rows data_type record).2 (db_of w) (db_of w').
Proof.
  intros Hp Hrun Hb. destruct (processor_contract _ _ Hp) as [c Hc].
  destruct (processed_children_eq _ _ _ _ _ _ _ Hp Hc Hrun) as (rels & links & Hr & Hl & Kr & Kl).
  unfold child_rows. rewrite Hc, Hr, Hl. simpl. split; split; intros k Hk.
  - specialize (Kr k). unfold batch_row in Kr.
    destruct (entries_for k (map relationship_params rels)) as [|e es] eqn:Ee.
    + exfalso. apply list_elem_of_In, in_map_iff in Hk as (e & He & Hin). apply list_elem_of_In in Hin.
      assert (e ∈ entries_for k (map relationship_params rels)) as Hx by (by apply list_elem_of_filter).
      rewrite Ee in Hx. by apply not_elem_of_nil in Hx.
    + simpl head in Kr. destruct (last (e :: es)) as [f|] eqn:Ef; [|by apply last_None in Ef].
      eexists. split; [exact Kr|]. simpl. by destruct (relationships (db_of w) !! k).
  - left. rewrite Kr. unfold batch_row. destruct (entries_for k (map relationship_params rels)) as [|e es] eqn:Ee; [done|].
    exfalso. apply Hk. assert (e ∈ entries_for k (map relationship_params rels)) as Hx by (rewrite Ee; by left).
    apply list_elem_of_filter in Hx as [<- Hx]. by apply list_elem_of_In, in_map, list_elem_of_In.
  - specialize (Kl k). rewrite (bool_decide_eq_true_2 _ Hk) in Kl. simpl in Kl. eexists. split; [exact Kl|].
    by destruct (external_links (db_of w) !! k).
  - left. rewrite Kl. by rewrite (bool_decide_eq_false_2 _ Hk).
Qed.

(** ** One signal *)

(** No boundary past [B] has been collected. *)
Definition bounded (B : Z) (p : process) : Prop :=
  forall st b, stale_row_purge p = Some st -> boundary st = Some b -> (b <= B)%Z.

Lemma purge_evolves connected st se r st' se' B :
  purge cfg connected (st, se) = (r, (st', se')) -> (forall b, boundary st = Some b -> (b <= B)%Z) ->
  child_evolves B [] [] (s_db se) (s_db se') /\ boundary st' = boundary st.
Proof.
  intros Hrun Hb. destruct r as [l|e].
  2: { apply purge_raise in Hrun as [-> ->]. split; [apply child_evolves_refl|done]. }
  apply purge_ok in Hrun. destruct (veto_reason cfg st).
  { destruct Hrun as (_ & -> & ->). split; [apply child_evolves_refl|]. by destruct (is_latched cfg st). }
  destruct (boundary st) as [b|] eqn:Eb.
  - destruct Hrun as (_ & _ & _ & -> & ->). split; [|done]. specialize (Hb b eq_refl).
    destruct (purged_rows cfg b (s_db se)) as (_ & Hsr & Hsl & Kr & Kl). split; by eapply evolves_purge.
  - destruct Hrun as (_ & -> & ->). split; [apply child_evolves_refl|]. by destruct (is_latched cfg st).
Qed.

Lemma run_purge_evolves an p r p' B :
  run_purge cfg an p = (r, p') -> bounded B p ->
  child_evolves B [] [] (p_db p) (p_db p') /\ bounded B p'.
Proof.
  intros Hrun Hb. destruct (stale_row_purge p) as [st|] eqn:Est.
  - destruct (run_purge_run cfg an p st r p' Est Hrun) as (res & st' & se' & Hpurge & _ & -> & Hst' & _).
    apply (purge_evolves _ _ _ _ _ _ B) in Hpurge as [He Hbd]; [|by intros b; apply Hb]. split; [done|].
    intros st'' b Hst'' Hbb. rewrite Hst' in Hst''. injection Hst'' as <-. rewrite Hbd in Hbb. by eapply Hb.
  - unfold run_purge in Hrun. rewrite Est in Hrun. injection Hrun as <- <-. split; [apply child_evolves_refl|done].
Qed.

Lemma settle_purge_veto_keeps an data p r p' B :
  settle_purge_veto cfg an data p = (r, p') -> bounded B p -> p_db p' = p_db p /\ bounded B p'.
Proof.
  intros Hrun Hb. destruct (stale_row_purge p) as [st|] eqn:Est.
  - destruct (is_settled st) eqn:Es.
    + unfold settle_purge_veto in Hrun. rewrite Est, Es in Hrun. by injection Hrun as <- <-.
    + destruct (settle_purge_veto_run cfg an data p st r p' Est Es Hrun) as (ts & latch & -> & _). split; [done|].
      intros st' b [= <-] Hbb. simpl in Hbb. by eapply Hb.
  - unfold settle_purge_veto in Hrun. rewrite Est in Hrun. by injection Hrun as <- <-.
Qed.

Lemma record_completion_bounded t data st B :
  (forall b, boundary st = Some b -> (b <= B)%Z) ->
  (forall s, parse_started_at (get data "started_at") = Some s -> (s <= B)%Z) ->
  forall b, boundary (record_completion t data st) = Some b -> (b <= B)%Z.
Proof.
  intros Hb Hs b. unfold record_completion. destruct (parse_started_at _) as [s|]; [|done].
  specialize (Hs s eq_refl). destruct (boundary st) as [b0|] eqn:Eb; [|intros [= <-]; done].
  repeat case_match; simpl; try (intros [= <-]; done). rewrite Eb. intros [= <-]. by apply Hb.
Qed.

Lemma report_purge_vetoes_purge an p :
  stale_row_purge (report_purge_vetoes an p).2 = stale_row_purge p /\ p_db (report_purge_vetoes an p).2 = p_db p.
Proof. unfold report_purge_vetoes. repeat case_match; done. Qed.

Lemma reconcile_evolves an t data p r p' B :
  reconcile_deleted_child_rows cfg an t data p = (r, p') -> bounded B p ->
  (forall s, parse_started_at (get data "started_at") = Some s -> (s <= B)%Z) ->
  child_evolves B [] [] (p_db p) (p_db p') /\ bounded B p'.
Proof.
  intros Hrun Hb Hs. unfold reconcile_deleted_child_rows in Hrun.
  destruct (stale_row_purge p) as [st|] eqn:Est.
  2: { injection Hrun as <- <-. split; [apply child_evolves_refl|done]. }
  set (st1 := record_completion t data st) in *. set (p1 := set_purge (Some st1) p) in *.
  assert (bounded B p1) as Hb1.
  { intros st' b [= <-]. apply record_completion_bounded; [by intros b0; apply Hb|done]. }
  destruct (is_latched cfg st1); [|injection Hrun as <- <-; split; [apply child_evolves_refl|done]].
  assert (forall r2 p2, (settle_purge_veto cfg an data ≫= fun _ => run_purge cfg an) p1 = (r2, p2) ->
    child_evolves B [] [] (p_db p1) (p_db p2) /\ bounded B p2) as Hboth.
  { intros r2 p2. unfold mbind, comp_bind. destruct (settle_purge_veto cfg an data p1) as [[u|e] p3] eqn:Ev;
      apply (settle_purge_veto_keeps _ _ _ _ _ B) in Ev as [Hd Hb3]; try done.
    - intros Hp2. rewrite <- Hd. by eapply run_purge_evolves.
    - intros [= <- <-]. rewrite Hd. split; [apply child_evolves_refl|done]. }
  destruct ((settle_purge_veto cfg an data ≫= fun _ => run_purge cfg an) p1) as [[u|e] p2] eqn:E2;
    destruct (Hboth _ _ eq_refl) as [He Hb2].
  - unfold mbind, comp_bind, modifies in Hrun. simpl in Hrun.
    destruct (report_purge_vetoes_purge an (add_backoff BackoffReset p2)) as [R1 R2].
    destruct (report_purge_vetoes an (add_backoff BackoffReset p2)) as [r3 p3]. simpl in R1, R2.
    assert (p' = p3) as -> by (destruct r3; by injection Hrun). rewrite R2. split; [exact He|].
    intros st' b. rewrite R1. apply Hb2.
  - injection Hrun as <- <-. done.
Qed.

(** ** One delivery *)

(** The messages of an extraction that began at [B]: no signal names a later
    start. *)
Definition starts_by (B : Z) (m : message) : Prop :=
  forall data s, m_body m = Ok (VDict data) -> parse_started_at (get data "started_at") = Some s -> (s <= B)%Z.

Definition rows_if (r : result exn delivery_result) (m : message) : list string * list link_key :=
  match r with
  | Ok r => if is_processed (m, r) then (map re_key (message_rows m).1, (message_rows m).2) else ([], [])
  | Raise _ => ([], [])
  end.

Lemma on_consumers_keeps f p : p_db (on_consumers f p).2 = p_db p /\ stale_row_purge (on_consumers f p).2 = stale_row_purge p.
Proof. done. Qed.

Lemma mark_dead_letter_bounded t p B : bounded B p -> bounded B (mark_dead_letter t p).2.
Proof.
  intros Hb st b. simpl. destruct (stale_row_purge p) as [st0|] eqn:E; [|done]. simpl. intros [= <-]. simpl. by apply Hb.
Qed.

Lemma handle_evolves an m p r p' B :
  handle an (m_body m) (m_type m) p = (r, p') -> bounded B p -> starts_by B m -> (B <= an_now an)%Z ->
  child_evolves B (rows_if r m).1 (rows_if r m).2 (p_db p) (p_db p') /\ bounded B p'.
Proof.
  intros Hrun Hb Hs Hn. unfold handle_data_message in Hrun.
  destruct (m_body m) as [v|e] eqn:Em.
  2: { injection Hrun as <- <-. simpl. split; [apply child_evolves_refl|by apply (mark_dead_letter_bounded (m_type m))]. }
  destruct (dict_of v) as [data|e] eqn:Ev.
  2: { injection Hrun as <- <-. split; [apply child_evolves_refl|done]. }
  assert (v = VDict data) as -> by (destruct v; try done; by injection Ev as ->).
  unfold lift in Hrun. unfold mbind at 1, comp_bind at 1 in Hrun.
  case_decide; [injection Hrun as <- <-; split; [apply child_evolves_refl|done]|]. case_decide.
  - unfold mbind at 1, comp_bind at 1 in Hrun. simpl in Hrun.
    set (p1 := set_p_consumers _ p) in *. unfold mbind at 1, comp_bind at 1 in Hrun.
    destruct (reconcile_deleted_child_rows cfg an (m_type m) data p1) as [rr p2] eqn:Er.
    apply (reconcile_evolves _ _ _ _ _ _ B) in Er as [He Hb2]; [|done|by intros s; apply (Hs data)].
    assert (rows_if r m = ([], [])) as -> by (destruct rr as [[|]|]; injection Hrun as <- _; by unfold rows_if, is_processed).
    change (p_db p1) with (p_db p) in He.
    destruct rr as [[|]|e]; injection Hrun as _ <-; done.
  - unfold mbind at 1, comp_bind at 1 in Hrun. simpl in Hrun. set (p1 := set_p_consumers _ p) in *.
    assert (bounded B p1) as Hb1 by done.
    assert (bounded B p') as Hb'.
    { pose proof (keeps_handle_record true (fun p => boundary <$> stale_row_purge p)
        ltac:(intros t q; simpl; by destruct (stale_row_purge q)) ltac:(done) an (m_type m) data p1) as Hk.
      rewrite Hrun in Hk. simpl in Hk. intros st b Hst Hbd. rewrite Hst in Hk. simpl in Hk.
      destruct (stale_row_purge p) as [st0|] eqn:E0; [|done]. simpl in Hk. injection Hk as Hk.
      apply (Hb st0); [done|congruence]. }
    split; [|done].
    apply handle_record_run in Hrun as [(processor & w & Hp & _ & -> & Hw & -> & _)|[(-> & (e & ->) & _)|(-> & (e & ->) & _)]];
      try apply child_evolves_refl.
    unfold rows_if, is_processed, message_rows. rewrite Em. simpl.
    exact (processed_evolves _ _ _ _ _ B Hp Hw Hn).
Qed.

Lemma after_settlement_keeps an t r p B :
  bounded B p -> p_db (after_settlement an t r p) = p_db p /\ bounded B (after_settlement an t r p).
Proof.
  intros Hb. unfold after_settlement.
  set (p1 := if decide (dr_settlement r = REJECT /\ _) then (mark_dead_letter t p).2 else p).
  assert (p_db p1 = p_db p /\ bounded B p1) as [Hd Hb1].
  { unfold p1. case_match; [|done]. split; [done|by apply mark_dead_letter_bounded]. }
  case_match; [|done]. split; [exact Hd|exact Hb1].
Qed.

Lemma named_app acked acked' :
  named_relationships (acked ++ acked') = named_relationships acked ++ named_relationships acked' /\
  named_links (acked ++ acked') = named_links acked ++ named_links acked'.
Proof. unfold named_relationships, named_links. by rewrite !map_app, !concat_app. Qed.

(** ** The clean last signal *)

(** The signal that completes a clean extraction: with it every type has
    signalled [B] with a record count, nothing is dead-lettered here, in the
    broker or in the durable record, and every part answers. *)
Record clean_signal (an : answers_) (t : string) (data : dict) (p : process) (B : Z) : Prop := CleanSignal {
  cs_type : get data "type" = VStr "extraction_complete";
  cs_purge : exists st, stale_row_purge p = Some st /\
    veto_reason cfg (record_completion t data st) = None /\ boundary (record_completion t data st) = Some B;
  cs_up : connection_pool p = true /\ write_admission p = true /\ has_admission cfg = true;
  cs_broker : active_connection (p_consumers p) = true /\
    forall t, t ∈ expected_data_types cfg -> an_dead_letters an t = Some 0%Z;
  cs_answers : an_latch_reads an = None /\ an_latch_writes an = None /\ an_purge_connects an = None;
  cs_recorded : forall version, extraction_key data = Some version -> recorded_vetoes (p_latch p) version = [];
}.

(** Neither table would shrink by the safety cap. *)
Definition uncapped (B : Z) (d : db) : Prop :=
  tables cfg = RECONCILED_TABLES /\
  forall t, reaches_cap cfg (count_stale t B d) (count_all t d) = false.

Lemma settle_clean an data p st :
  stale_row_purge p = Some st -> is_settled st = false -> dead_lettered st = ∅ ->
  connection_pool p = true -> write_admission p = true ->
  (forall t, t ∈ expected_data_types cfg -> dead_letters_waiting an p t = Some 0%Z) ->
  an_latch_reads an = None -> an_latch_writes an = None ->
  (forall version, extraction_key data = Some version -> recorded_vetoes (p_latch p) version = []) ->
  exists latch, settle_purge_veto cfg an data p = (Ok tt, set_p_latch latch (set_purge (Some st) p)).
Proof.
  intros Hst Hs Hd Hpool Hadm Hw Hr Hwr Hrec. unfold settle_purge_veto. rewrite Hst, Hs.
  rewrite (comp_bind_run _ _ _ _ _ (broker_marks_run cfg an p st Hst)).
  assert (filter (fun t => broker_vetoes an p t = true) (sorted (elements (expected_data_types cfg))) = []) as ->.
  { apply elem_of_nil_inv. intros t [Hv Ht]%list_elem_of_filter. rewrite elem_of_sorted, elem_of_elements in Ht.
    unfold broker_vetoes in Hv. by rewrite Hw in Hv. }
  assert (with_marks [] st = st) as -> by (unfold with_marks; simpl; rewrite union_empty_l_L; by destruct st).
  simpl connection_pool. rewrite Hpool. destruct (extraction_key data) as [version|]; [|by exists (p_latch p)].
  simpl write_admission. rewrite Hadm, Hr. unfold mbind at 1, comp_bind at 1. simpl.
  do 2 (unfold mbind at 1, comp_bind at 1; simpl). rewrite (Hrec version eq_refl), Hwr. simpl.
  eexists. done.
Qed.

(** An uncapped table loses exactly its stale rows. *)
Lemma uncapped_table t b d :
  reaches_cap cfg (count_stale t b d) (count_all t d) = false -> purged_table cfg t b d = delete_stale t b d.
Proof.
  intros Hcap. unfold purged_table, purgeable. rewrite Hcap.
  destruct (count_all t d =? 0)%Z eqn:Ea; [|destruct (count_stale t b d =? 0)%Z eqn:Es; [|done]];
    destruct t; simpl in *.
  1, 3: rewrite (no_stale rel_updated_at b (relationships d)) by (rewrite ?Ea; auto); by destruct d.
  all: assert (filter (fun kt => ~ kt.2 < b)%Z (external_links d) = external_links d) as ->
    by (apply (no_stale id); auto); by destruct d.
Qed.

Lemma uncapped_purged b d :
  uncapped b d -> purged cfg b d = delete_stale ExternalLinks b (delete_stale Relationships b d).
Proof.
  intros [Ht Hcap]. unfold purged. rewrite Ht. simpl. rewrite (uncapped_table Relationships) by apply Hcap.
  apply uncapped_table. exact (Hcap ExternalLinks).
Qed.

(** A run of the purge nothing stops. *)
Lemma run_purge_clean an p st b :
  answers -> stale_row_purge p = Some st -> veto_reason cfg st = None -> boundary st = Some b ->
  has_admission cfg = true -> an_purge_connects an = None ->
  exists p', run_purge cfg an p = (Ok tt, p') /\ p_db p' = purged cfg b (p_db p).
Proof.
  intros Hpg Hst Hv Hb Ha Hc. unfold run_purge, purge. rewrite Hst, Hv, Hb, Ha, Hc.
  destruct (purge_tables_total cfg (tables cfg) b (Session (p_db p) (an_now an) (p_trace p)) Hpg) as (l & se' & Hrun).
  rewrite (proj2 (transaction_ok _ _ _ _) Hrun). eexists. split; [done|]. simpl.
  by apply purge_tables_run in Hrun as [_ ->].
Qed.

Lemma reconcile_clean an t data p b :
  answers -> clean_signal an t data p b ->
  exists p', reconcile_deleted_child_rows cfg an t data p = (Ok true, p') /\ p_db p' = purged cfg b (p_db p).
Proof.
  intros Hpg [_ (st & Hst & Hv & Hb) (Hpool & Hadm & Ha) (Hact & Hdl) (Hlr & Hlw & Hpc) Hrec].
  unfold reconcile_deleted_child_rows. rewrite Hst. set (st1 := record_completion t data st) in *.
  rewrite (unvetoed_latched _ _ Hv). destruct (unvetoed _ _ Hv) as (b' & Hb' & _ & Hset & Hd & _).
  assert (is_settled st1 = false) as Hs.
  { unfold is_settled. rewrite andb_false_iff, !bool_decide_eq_false. right. by rewrite Hb'. }
  destruct (settle_clean an data (set_purge (Some st1) p) st1 eq_refl Hs Hd Hpool Hadm) as [latch Hrun]; [|done..|].
  { intros t' Ht'. unfold dead_letters_waiting. simpl. rewrite Hact. by apply Hdl. }
  rewrite (comp_bind_run _ _ _ _ _ Hrun).
  destruct (run_purge_clean an (set_p_latch latch (set_purge (Some st1) (set_purge (Some st1) p))) st1 b Hpg eq_refl Hv Hb Ha Hpc)
    as (p2 & -> & Hp2).
  unfold mbind, comp_bind, modifies. simpl. destruct (report_purge_vetoes_purge an (add_backoff BackoffReset p2)) as [_ Hr].
  unfold report_purge_vetoes in *. repeat case_match; (eexists; split; [done|exact Hp2]).
Qed.

Lemma clean_signal_handled an t data p b :
  answers -> clean_signal an t data p b ->
  exists p', handle an (Ok (VDict data)) t p = (Ok (DeliveryResult ACK "skipped" None), p') /\
    p_db p' = purged cfg b (p_db p).
Proof.
  intros Hpg Hc. rewrite handle_extraction_path by exact (cs_type _ _ _ _ _ Hc).
  unfold mbind at 1, comp_bind at 1, on_consumers at 1, modifies. set (p1 := set_p_consumers _ p).
  destruct (reconcile_clean an t data p1 b Hpg) as (p2 & Hrun & Hp2).
  { destruct Hc as [? ? ? [Ha ?] ? ?]. split; try done. split; [|done]. simpl. by rewrite pop_cancel_handles. }
  rewrite (comp_bind_run _ _ _ _ _ Hrun). simpl. eexists. split; [done|]. exact Hp2.
Qed.

(** From tables that have evolved by what was named, the clean last signal leaves
    exactly what was named and what was never stale. *)
Lemma clean_signal_converges an t data p d0 B rels links :
  answers -> clean_signal an t data p B -> uncapped B (p_db p) -> child_evolves B rels links d0 (p_db p) ->
  exists p', handle an (Ok (VDict data)) t p = (Ok (DeliveryResult ACK "skipped" None), p') /\
    (forall k, is_Some (relationships (p_db p') !! k) <-> k ∈ rels \/
       exists r, relationships d0 !! k = Some r /\ (B <= rel_updated_at r)%Z) /\
    (forall k, is_Some (external_links (p_db p') !! k) <-> k ∈ links \/
       exists u, external_links d0 !! k = Some u /\ (B <= u)%Z) /\
    same_but_children (p_db p) (p_db p').
Proof.
  intros Hpg Hc Hcap [Er El]. destruct (clean_signal_handled an t data p B Hpg Hc) as (p' & Hh & Hp').
  exists p'. split; [exact Hh|]. rewrite Hp', (uncapped_purged _ _ Hcap).
  split; [exact (evolves_purged _ _ _ _ _ Er)|]. split; [exact (evolves_purged _ _ _ _ _ El)|].
  rewrite <- (uncapped_purged _ _ Hcap). apply purged_rows.
Qed.

End extraction.
