(* ===== verification/Concurrency.v ===== *)
(** * Deliveries in flight together

    With a prefetch above one, [_handle_data_message] of
    [brainztableinator/brainztableinator.py] runs for many messages at once and
    other handlers run wherever one awaits. Here a handler is a task: atomic
    segments, split at its awaits (each broker answer, the write slot and the
    latch table's read and write, the purge's connection, a record's
    transaction). Run without interruption a task is the handler of [Delivery.v];
    run among others, in whatever state they leave the process at each await, it
    takes no row of the child tables that a record named. [Prefetch.v] runs any
    number of them. *)

From S2P Require Import Prelude PyValue QueueNames PurgeVeto Consumers Database Persistence ChildRows Media.
From S2P Require Import RecordProcessing ProcessTrace Reconciliation PurgeSafety Delivery DeliverySafety Broker Extraction.
From stdpp Require Import base gmap strings list option sorting.
From Stdlib Require Import ZArith Lia.

(** ** Tasks *)

(** A coroutine: its result, or the segment up to its next await. *)
Inductive task : Type :=
| TDone (r : result exn delivery_result)
| TStep (segment : process -> process * task).

(** A segment that runs [m] and goes on with its result. *)
Definition segment {A} (m : run A) (k : result exn A -> task) : task :=
  TStep (fun p => let '(r, p') := m p in (p', k r)).

(** The task with nothing else running. *)
Fixpoint run_task (t : task) (p : process) : result exn delivery_result * process :=
  match t with
  | TDone r => (r, p)
  | TStep s => let '(p', t') := s p in run_task t' p'
  end.

Section tasks.
Context `{PyRepr} `{Postgres} `{Common} `{Collation} `{Shared}.
Context (cfg : purge_config) (refresh_updated_at : bool) (CONSUMER_CANCEL_DELAY : Z).

(** ** The signal's handler *)

(** What follows [_reconcile_deleted_child_rows] in the handler. *)
Definition conclude (t : string) (reconciled : bool) : run delivery_result :=
  if reconciled then
    on_consumers (arm_timer CONSUMER_CANCEL_DELAY t) ≫= fun _ => mret (DeliveryResult ACK "skipped" None)
  else on_consumers (uncomplete t) ≫= fun _ => raise ReconciliationFailed.

Definition concluded (t : string) (reconciled : bool) : task := segment (conclude t reconciled) TDone.

(** [outage_backoff.reset()] and [_report_purge_vetoes]. *)
Definition reported (an : answers_) (t : string) : task :=
  segment (modifies (add_backoff BackoffReset)) (fun _ =>
  segment (report_purge_vetoes an) (fun _ => concluded t true)).

(** [purge.purge()] up to its first await: the boundary to delete below, if no
    veto stands. *)
Definition purge_check : run (option Z) := fun p =>
  match stale_row_purge p with
  | None => (Ok None, p)
  | Some st =>
      match veto_reason cfg st, boundary st with
      | None, Some b => if has_admission cfg then (Ok (Some b), p) else (Raise DatabaseUnavailableError, p)
      | None, None => (Ok None, p)
      | Some _, _ => (Ok None, set_purge (Some (if is_latched cfg st then settle (boundary st) st else st)) p)
      end
  end.

(** Its connection, its transaction and its settlement. *)
Definition purge_rest (an : answers_) (b : Z) : run unit := fun p =>
  match an_purge_connects an with
  | Some e => (Raise e, p)
  | None =>
      match transaction (purge_tables cfg (tables cfg) b) (Session (p_db p) (an_now an) (p_trace p)) with
      | (Ok _, se) => (Ok tt, set_run (s_db se) (s_trace se) (p_observed p) (p_summary p)
                                (set_purge (settle (Some b) <$> stale_row_purge p) p))
      | (Raise e, se) => (Raise e, set_run (s_db se) (s_trace se) (p_observed p) (p_summary p) p)
      end
  end.

Definition purging (an : answers_) (t : string) : task :=
  segment purge_check (fun r =>
  match r with
  | Raise _ => concluded t false
  | Ok None => reported an t
  | Ok (Some b) =>
      segment (purge_rest an b) (fun r => match r with Ok _ => reported an t | Raise _ => concluded t false end)
  end).

Definition current_marks (p : process) : list string := sorted (elements (default ∅ (dead_lettered <$> stale_row_purge p))).

(** The latch table: the read of what is recorded, the marks it adds and the set
    to write, then the write. *)
Definition recording (an : answers_) (t : string) (data : dict) : task :=
  segment (reads (fun p => (connection_pool p, write_admission p))) (fun r =>
  match r, extraction_key data with
  | Ok (true, true), Some version =>
      segment (raises (an_latch_reads an) ≫= fun _ => reads (fun p => recorded_vetoes (p_latch p) version)) (fun r =>
      match r with
      | Raise _ => concluded t false
      | Ok recorded =>
          segment (for_each recorded mark_dead_letter ≫= fun _ => reads current_marks) (fun r =>
          match r with
          | Raise _ => concluded t false
          | Ok vetoed =>
              segment (raises (an_latch_writes an) ≫= fun _ =>
                       modifies (fun p => set_p_latch (record_extraction (p_latch p) version vetoed) p)) (fun r =>
              match r with Ok _ => purging an t | Raise _ => concluded t false end)
          end)
      end)
  | Ok (true, false), Some _ => concluded t false
  | _, _ => purging an t
  end).

(** One type's dead letters: the broker's answer, and the mark. *)
Definition mark_answer (vetoing_type : string) (waiting : option Z) : run unit :=
  match waiting with
  | Some 0%Z => mret tt
  | Some n => if (0 <? n)%Z then mark_dead_letter vetoing_type else mret tt
  | None => mark_dead_letter vetoing_type
  end.

Fixpoint gathering (an : answers_) (t : string) (data : dict) (todo : list string) : task :=
  match todo with
  | [] => recording an t data
  | vetoing_type :: todo' =>
      segment (reads (fun p => dead_letters_waiting an p vetoing_type)) (fun waiting =>
      match waiting with
      | Ok waiting => segment (mark_answer vetoing_type waiting) (fun _ => gathering an t data todo')
      | Raise _ => concluded t false
      end)
  end.

(** What the first segment of a signal finds. *)
Inductive signal_state : Type := NoPurge | Unlatched | LatchedSettled | LatchedOpen.

Definition note_completion (t : string) (data : dict) : run signal_state := fun p =>
  match stale_row_purge p with
  | None => (Ok NoPurge, p)
  | Some st =>
      let st := record_completion t data st in
      (Ok (if is_latched cfg st then if is_settled st then LatchedSettled else LatchedOpen else Unlatched),
       set_purge (Some st) p)
  end.

Definition begin_signal (t : string) (data : dict) : run signal_state :=
  on_consumers (fun c => complete t (pop_cancel t c)) ≫= fun _ => note_completion t data.

Definition signal_task (an : answers_) (t : string) (data : dict) : task :=
  segment (begin_signal t data) (fun r =>
  match r with
  | Ok (NoPurge | Unlatched) => concluded t true
  | Ok LatchedSettled => purging an t
  | Ok LatchedOpen => gathering an t data (sorted (elements (expected_data_types cfg)))
  | Raise _ => concluded t false
  end).

(** ** The record's handler *)

(** From the handler's start to the record's write slot: a result, or the
    processor to run. *)
Definition admit_record (t : string) (data : dict) : run (delivery_result + (dict -> proc unit)) :=
  on_consumers (fun c => pop_cancel t (uncomplete t c)) ≫= fun _ =>
  match lookup_key data "id" with
  | None => reject t "ValidationError" ≫= fun r => mret (inl r)
  | Some data_id =>
      if negb (truthy data_id && uuid_parses data_id) then reject t "ValidationError" ≫= fun r => mret (inl r)
      else
        match processor_of refresh_updated_at t with
        | None => reject t "UnknownEntity" ≫= fun r => mret (inl r)
        | Some processor =>
            reads (fun p => connection_pool p && write_admission p) ≫= fun up : bool =>
            if up then mret (inr processor) else raise RuntimeError
        end
  end.

Definition record_task (an : answers_) (t : string) (data : dict) : task :=
  segment (admit_record t data) (fun r =>
  match r with
  | Raise e => TDone (Raise e)
  | Ok (inl result) => TDone (Ok result)
  | Ok (inr processor) =>
      segment (process_in_transaction an processor data) (fun r =>
      TDone (match r with Ok _ => Ok (DeliveryResult ACK "processed" None) | Raise e => Raise e end))
  end).

(** [_handle_data_message] *)
Definition handle_task (an : answers_) (body : result exn value) (t : string) : task :=
  match body with
  | Raise e => segment (reject t (exn_name e)) TDone
  | Ok v =>
      match dict_of v with
      | Raise e => TDone (Raise e)
      | Ok data =>
          if decide (get data "type" = VStr "file_complete") then
            segment (on_consumers (fun c => complete t (arm_timer CONSUMER_CANCEL_DELAY t c)) ≫= fun _ =>
                     mret (DeliveryResult ACK "skipped" None)) TDone
          else if decide (get data "type" = VStr "extraction_complete") then signal_task an t data
          else record_task an t data
      end
  end.

(** ** Alone, a task is the handler *)

Abbreviation handle := (handle_data_message cfg refresh_updated_at CONSUMER_CANCEL_DELAY).

Lemma run_segment {A} (m : run A) k p r p' : m p = (r, p') -> run_task (segment m k) p = run_task (k r) p'.
Proof. intros Hm. simpl. by rewrite Hm. Qed.

Lemma run_ending (m : run delivery_result) p : run_task (segment m TDone) p = m p.
Proof. simpl. by destruct (m p). Qed.

Lemma run_concluded t b p : run_task (concluded t b) p = conclude t b p.
Proof. apply run_ending. Qed.

(** The rest of a signal's handler once the latch is full. *)
Definition finish (an : answers_) (t : string) (m : run unit) : run delivery_result := fun p =>
  match m p with
  | (Raise _, p) => conclude t false p
  | (Ok _, p) =>
      (modifies (add_backoff BackoffReset) ≫= fun _ => report_purge_vetoes an ≫= fun _ => conclude t true) p
  end.

Lemma report_returns an p : exists p', report_purge_vetoes an p = (Ok tt, p').
Proof. unfold report_purge_vetoes. repeat case_match; eauto. Qed.

Lemma run_reported an t p :
  run_task (reported an t) p =
    (modifies (add_backoff BackoffReset) ≫= fun _ => report_purge_vetoes an ≫= fun _ => conclude t true) p.
Proof.
  unfold reported. rewrite (run_segment _ _ _ (Ok tt) (add_backoff BackoffReset p)) by done.
  destruct (report_returns an (add_backoff BackoffReset p)) as [p' Hr].
  rewrite (run_segment _ _ _ _ _ Hr), run_concluded. unfold mbind at 1, comp_bind at 1, modifies.
  by rewrite (comp_bind_run _ _ _ _ _ Hr).
Qed.

(** The purge's two segments are [run_purge]. *)
Lemma run_purging an t p : run_task (purging an t) p = finish an t (run_purge cfg an) p.
Proof.
  unfold purging, finish, run_purge. destruct (stale_row_purge p) as [st|] eqn:Est.
  2: { rewrite (run_segment _ _ _ (Ok None) p) by (unfold purge_check; by rewrite Est). apply run_reported. }
  unfold purge. destruct (veto_reason cfg st) as [v|] eqn:Ev.
  - erewrite run_segment by (unfold purge_check; rewrite Est, Ev; done). cbv beta iota. by rewrite run_reported.
  - destruct (boundary st) as [b|] eqn:Eb.
    + destruct (has_admission cfg) eqn:Ea.
      * rewrite (run_segment _ _ _ (Ok (Some b)) p) by (unfold purge_check; by rewrite Est, Ev, Eb, Ea).
        simpl run_task. unfold purge_rest. destruct (an_purge_connects an).
        { rewrite run_concluded. simpl. destruct p; simpl in *; by rewrite Est. }
        destruct (transaction _ _) as [[del|e] se]; [rewrite run_reported; simpl; by rewrite Est|].
        rewrite run_concluded. simpl. destruct p; simpl in *; by rewrite Est.
      * rewrite (run_segment _ _ _ (Raise DatabaseUnavailableError) p) by (unfold purge_check; by rewrite Est, Ev, Eb, Ea).
        cbv beta iota. rewrite run_concluded. simpl. destruct p; simpl in *; by rewrite Est.
    + rewrite (run_segment _ _ _ (Ok None) p) by (unfold purge_check; by rewrite Est, Ev, Eb).
      cbv beta iota. rewrite run_reported. simpl. destruct p; simpl in *; by rewrite Est.
Qed.

(** The latch table's part of [_settle_purge_veto], for the process it finds. *)
Definition record_vetoes (an : answers_) (data : dict) (p : process) : run unit :=
  match connection_pool p, extraction_key data with
  | true, Some version =>
      if write_admission p then
        raises (an_latch_reads an) ≫= fun _ =>
        reads (fun p => recorded_vetoes (p_latch p) version) ≫= fun recorded =>
        for_each recorded mark_dead_letter ≫= fun _ =>
        raises (an_latch_writes an) ≫= fun _ =>
        modifies (fun p => set_p_latch (record_extraction (p_latch p) version (current_marks p)) p)
      else raise DatabaseUnavailableError
  | _, _ => mret tt
  end.

Lemma finish_raise an t (m m' : run unit) p e p' :
  m p = (Raise e, p') -> run_task (concluded t false) p' = finish an t (m ≫= fun _ => m') p.
Proof. intros Hm. unfold finish. rewrite (comp_bind_raise _ _ _ _ _ Hm). apply run_concluded. Qed.

Lemma finish_ok an t (m m' : run unit) p p' :
  m p = (Ok tt, p') -> finish an t m' p' = finish an t (m ≫= fun _ => m') p.
Proof. intros Hm. unfold finish. by rewrite (comp_bind_run _ _ _ _ _ Hm). Qed.

Lemma finish_same an t (m m' : run unit) p p' : m p' = m' p -> finish an t m p' = finish an t m' p.
Proof. intros Hm. unfold finish. by rewrite Hm. Qed.

Lemma marks_return l p : exists p', for_each l mark_dead_letter p = (Ok tt, p').
Proof.
  revert p. induction l as [|x l IH]; intros p; simpl; [eauto|].
  rewrite (comp_bind_run _ _ p tt (mark_dead_letter x p).2) by done. apply IH.
Qed.

Lemma run_recording an t data p :
  run_task (recording an t data) p = finish an t (record_vetoes an data p ≫= fun _ => run_purge cfg an) p.
Proof.
  unfold recording. erewrite run_segment by done. cbv beta iota. unfold record_vetoes.
  destruct (connection_pool p), (extraction_key data) as [version|], (write_admission p) eqn:Eadm; cbv beta iota;
    try (rewrite run_purging; by apply finish_ok); try by eapply finish_raise.
  destruct (an_latch_reads an) as [e|] eqn:Er.
  { erewrite run_segment by (unfold raises; rewrite ?Er; done). by eapply finish_raise. }
  set (recorded := recorded_vetoes (p_latch p) version).
  rewrite (run_segment _ _ _ (Ok recorded) p) by (unfold raises; rewrite ?Er; done). cbv beta iota.
  destruct (marks_return recorded p) as [p1 Hm].
  rewrite (run_segment _ _ _ (Ok (current_marks p1)) p1) by by rewrite (comp_bind_run _ _ _ _ _ Hm). cbv beta iota.
  assert (forall r p2, (raises (an_latch_writes an) ≫= fun _ =>
      modifies (fun p => set_p_latch (record_extraction (p_latch p) version (current_marks p)) p)) p1 = (r, p2) ->
    (raises None ≫= fun _ => reads (fun p => recorded_vetoes (p_latch p) version) ≫= fun recorded =>
      for_each recorded mark_dead_letter ≫= fun _ => raises (an_latch_writes an) ≫= fun _ =>
      modifies (fun p => set_p_latch (record_extraction (p_latch p) version (current_marks p)) p)) p = (r, p2)) as Htail.
  { intros r p2 Hr. rewrite (comp_bind_run _ _ p tt p) by done. rewrite (comp_bind_run _ _ p recorded p) by done.
    by rewrite (comp_bind_run _ _ _ _ _ Hm). }
  destruct (an_latch_writes an) as [e|] eqn:Ew.
  - erewrite run_segment by done. cbv beta iota. eapply finish_raise. by apply Htail.
  - erewrite run_segment by done. cbv beta iota. rewrite run_purging. eapply finish_ok. by apply Htail.
Qed.

(** One round of the gathering. *)
Definition gather_one (an : answers_) (vetoing_type : string) : run unit :=
  reads (fun p => dead_letters_waiting an p vetoing_type) ≫= mark_answer vetoing_type.

Lemma gather_one_run an vt p :
  exists p', gather_one an vt p = (Ok tt, p') /\ connection_pool p' = connection_pool p /\ write_admission p' = write_admission p.
Proof.
  unfold gather_one. erewrite comp_bind_run by done. unfold mark_answer.
  repeat case_match; eexists; (split; [done|done]).
Qed.

Definition record_vetoes_now (an : answers_) (data : dict) : run unit := fun p => record_vetoes an data p p.

Definition settle_from (an : answers_) (data : dict) (todo : list string) : run unit :=
  for_each todo (gather_one an) ≫= fun _ => record_vetoes_now an data.

Lemma run_gathering an t data todo p :
  run_task (gathering an t data todo) p = finish an t (settle_from an data todo ≫= fun _ => run_purge cfg an) p.
Proof.
  revert p. induction todo as [|vt todo IH]; intros p.
  { simpl gathering. rewrite run_recording. unfold finish, settle_from, mbind, comp_bind. simpl. done. }
  simpl gathering. rewrite (run_segment _ _ _ (Ok (dead_letters_waiting an p vt)) p) by done. cbv beta iota.
  destruct (gather_one_run an vt p) as (p1 & Hg & _).
  rewrite (run_segment _ _ _ (Ok tt) p1).
  2: { unfold gather_one in Hg. by erewrite comp_bind_run in Hg. }
  rewrite IH. apply finish_same. unfold settle_from. simpl for_each. unfold mbind, comp_bind in *. by rewrite Hg.
Qed.

Lemma gather_all an todo p :
  exists p', for_each todo (gather_one an) p = (Ok tt, p') /\ connection_pool p' = connection_pool p /\
    write_admission p' = write_admission p.
Proof.
  revert p. induction todo as [|vt todo IH]; intros p; simpl; [eauto|].
  destruct (gather_one_run an vt p) as (p1 & G1 & C1 & A1). rewrite (comp_bind_run _ _ _ _ _ G1).
  destruct (IH p1) as (p2 & G2 & C2 & A2). exists p2. rewrite C2, A2. done.
Qed.

Lemma settle_from_all an data p st :
  stale_row_purge p = Some st -> is_settled st = false ->
  settle_purge_veto cfg an data p = settle_from an data (sorted (elements (expected_data_types cfg))) p.
Proof.
  intros Hst Hs. unfold settle_purge_veto, settle_from. rewrite Hst, Hs.
  destruct (gather_all an (sorted (elements (expected_data_types cfg))) p) as (p1 & G1 & C1 & A1).
  etransitivity; [exact (comp_bind_run _ _ _ _ _ G1)|]. symmetry. etransitivity; [exact (comp_bind_run _ _ _ _ _ G1)|].
  unfold record_vetoes_now, record_vetoes. by rewrite C1, A1.
Qed.

Lemma run_signal an t data p :
  get data "type" = VStr "extraction_complete" -> run_task (signal_task an t data) p = handle an (Ok (VDict data)) t p.
Proof.
  intros Ht. rewrite handle_extraction_path by done. unfold signal_task, begin_signal.
  set (p1 := set_p_consumers (complete t (pop_cancel t (p_consumers p))) p).
  rewrite (comp_bind_run (on_consumers _) _ p tt p1) by done.
  assert (forall r p2, note_completion t data p1 = (r, p2) ->
    (on_consumers (fun c => complete t (pop_cancel t c)) ≫= fun _ => note_completion t data) p = (r, p2)) as Hb
    by (intros r p2 Hr; by rewrite (comp_bind_run (on_consumers _) _ p tt p1)).
  unfold note_completion in Hb at 1. unfold reconcile_deleted_child_rows.
  destruct (stale_row_purge p1) as [st|] eqn:Est.
  2: { rewrite (run_segment _ _ _ _ _ (Hb _ _ eq_refl)). cbv beta iota. rewrite run_concluded.
       unfold mbind at 1, comp_bind at 1. by rewrite Est. }
  set (st1 := record_completion t data st) in *. rewrite (run_segment _ _ _ _ _ (Hb _ _ eq_refl)). cbv beta iota zeta.
  unfold mbind at 1, comp_bind at 1. rewrite Est. fold st1. cbv zeta. destruct (is_latched cfg st1) eqn:El; [|apply run_concluded].
  set (p2 := set_purge (Some st1) p1).
  assert (run_task (if is_settled st1 then purging an t else gathering an t data (sorted (elements (expected_data_types cfg)))) p2 =
    finish an t (settle_purge_veto cfg an data ≫= fun _ => run_purge cfg an) p2) as Hrun.
  { destruct (is_settled st1) eqn:Es.
    - rewrite run_purging. apply finish_ok. unfold settle_purge_veto. simpl. by rewrite Es.
    - rewrite run_gathering. apply finish_same. unfold mbind, comp_bind.
      by rewrite (settle_from_all an data p2 st1 eq_refl Es). }
  transitivity (finish an t (settle_purge_veto cfg an data ≫= fun _ => run_purge cfg an) p2);
    [destruct (is_settled st1); exact Hrun|]. unfold finish.
  destruct ((settle_purge_veto cfg an data ≫= fun _ => run_purge cfg an) p2) as [[u|e] q]; [|done].
  destruct (report_returns an (add_backoff BackoffReset q)) as [q' Hr].
  rewrite !(comp_bind_run (modifies _) _ q tt (add_backoff BackoffReset q)) by done.
  by rewrite !(comp_bind_run _ _ _ _ _ Hr).
Qed.

Lemma admit_record_path an t data p :
  run_task (record_task an t data) p =
    (on_consumers (fun c => pop_cancel t (uncomplete t c)) ≫= fun _ => handle_record refresh_updated_at an t data) p.
Proof.
  unfold record_task, admit_record. set (p1 := set_p_consumers (pop_cancel t (uncomplete t (p_consumers p))) p).
  assert (forall B (f : unit -> run B), (on_consumers (fun c => pop_cancel t (uncomplete t c)) ≫= f) p = f tt p1) as Hb by done.
  cbn [run_task segment]. rewrite !Hb. unfold handle_record.
  destruct (lookup_key data "id") as [id|]; [|done]. destruct (truthy id); [|done]. destruct (uuid_parses id); [|done]. cbn [negb andb].
  cbn iota. destruct (processor_of refresh_updated_at t) as [processor|]; [|done].
  unfold mbind, comp_bind, reads. change (connection_pool p1) with (connection_pool p).
  change (write_admission p1) with (write_admission p).
  destruct (connection_pool p); [|reflexivity]. destruct (write_admission p) eqn:Ea; simpl; rewrite ?Ea; [|reflexivity]. simpl.
  by destruct (process_in_transaction an processor data p1) as [[[]|e] q].
Qed.

(** A check of the two models of the handler against each other. Run from its first
    segment to its last with no other task between, the task returns or raises, for
    every delivery (a record, either signal, a body that is not JSON or not an
    object), what [Delivery.handle_data_message] does in one step, and leaves the
    same process. *)
Theorem uninterrupted_delivery an body t p : run_task (handle_task an body t) p = handle an body t p.
Proof.
  unfold handle_task. destruct body as [v|e]; [|apply run_ending].
  destruct (dict_of v) as [data|e] eqn:Ev; [|unfold handle_data_message, lift, mbind, comp_bind; by rewrite Ev].
  assert (v = VDict data) as -> by (destruct v; try done; by injection Ev as ->).
  case_decide as Hf; [|case_decide as Hx].
  - rewrite run_ending. unfold handle_data_message, lift, mbind, comp_bind. simpl. by rewrite Hf.
  - by apply run_signal.
  - rewrite admit_record_path. unfold handle_data_message, lift, mbind, comp_bind. simpl.
    by rewrite !decide_False by done.
Qed.

(** ** What a task may do to the child tables *)

(** From any process whose boundary is not past [B], in every state the other
    tasks may leave it in between, each segment evolves the child tables, and
    what it names by the end is what the message's result promises. *)
Fixpoint safe (B : Z) (m : message) (rels : list string) (links : list link_key) (t : task) : Prop :=
  match t with
  | TDone r => rows_if r m = (rels, links)
  | TStep s => forall p, bounded B p ->
      match s p with
      | (p', t') => exists rels' links', child_evolves B rels' links' (p_db p) (p_db p') /\ bounded B p' /\
                      safe B m (rels ++ rels') (links ++ links') t'
      end
  end.

(** A segment that leaves the tables alone. *)
Lemma safe_quiet {A} B m rels links (c : run A) k :
  (forall p, bounded B p -> let '(r, p') := c p in p_db p' = p_db p /\ bounded B p' /\ safe B m rels links (k r)) ->
  safe B m rels links (segment c k).
Proof.
  intros Hc p Hb. specialize (Hc p Hb). simpl. destruct (c p) as [r p']. destruct Hc as (Hd & Hb' & Hs).
  exists [], []. rewrite !app_nil_r, Hd. split_and!; [apply child_evolves_refl|done|done].
Qed.

Definition tables_and_boundary (p : process) := (p_db p, boundary <$> stale_row_purge p).

Lemma safe_keeps {A} B m rels links (c : run A) k :
  keeps tables_and_boundary c -> (forall r, safe B m rels links (k r)) -> safe B m rels links (segment c k).
Proof.
  intros Hk Hs. apply safe_quiet. intros p Hb. specialize (Hk p). destruct (c p) as [r p'].
  unfold tables_and_boundary in Hk. simpl in Hk. injection Hk as Hd Hbd. split_and!; [done| |done].
  intros st b Hst Hx. rewrite Hst in Hbd. simpl in Hbd. destruct (stale_row_purge p) as [st0|] eqn:E; [|done].
  simpl in Hbd. injection Hbd as Hbd. apply (Hb st0); [done|congruence].
Qed.

Lemma keeps_mark t : keeps tables_and_boundary (mark_dead_letter t).
Proof. intros p. unfold tables_and_boundary. simpl. by destruct (stale_row_purge p). Qed.

Lemma keeps_consumers f : keeps tables_and_boundary (on_consumers f).
Proof. by apply keeps_modifies. Qed.

Lemma keeps_raise_of e : keeps tables_and_boundary (raises e).
Proof. by destruct e. Qed.

#[local] Hint Resolve keeps_mark keeps_consumers keeps_raise_of : loader.

Lemma safe_concluded B m t b : safe B m [] [] (concluded t b).
Proof.
  apply safe_quiet. intros p Hb. unfold conclude. destruct b; simpl; split_and!; done.
Qed.

Lemma safe_reported B m an t : safe B m [] [] (reported an t).
Proof.
  unfold reported. apply safe_keeps; [by apply keeps_modifies|]. intros _. apply safe_keeps; [|intros _; apply safe_concluded].
  intros p. unfold report_purge_vetoes. by repeat case_match.
Qed.

Lemma safe_purging B m an t : safe B m [] [] (purging an t).
Proof.
  apply safe_quiet. intros p Hb. unfold purge_check. destruct (stale_row_purge p) as [st|] eqn:Est; [|by split_and!; [..|apply safe_reported]].
  destruct (veto_reason cfg st) eqn:Ev.
  { split_and!; [done| |apply safe_reported]. intros st' b [= <-] Hx. apply (Hb st); [done|]. by destruct (is_latched cfg st). }
  destruct (boundary st) as [b|] eqn:Eb; [|by split_and!; [..|apply safe_reported]].
  destruct (has_admission cfg); split_and!; try done; [|apply safe_concluded].
  intros q Hq. assert (b <= B)%Z as Hle by (by eapply Hb). unfold purge_rest.
  destruct (an_purge_connects an).
  { exists [], []. split_and!; [apply child_evolves_refl|done|apply safe_concluded]. }
  destruct (transaction _ _) as [[del|e] se] eqn:Et.
  - apply transaction_ok, purge_tables_run in Et as [_ Hd]. exists [], []. split_and!.
    + simpl. rewrite Hd. destruct (purged_rows cfg b (p_db q)) as (_ & Hsr & Hsl & Kr & Kl).
      split; by eapply evolves_purge.
    + intros st' b' Hst Hx. simpl in Hst. destruct (stale_row_purge q) as [st0|] eqn:E; [|done]. injection Hst as <-. by eapply Hq.
    + apply safe_reported.
  - apply transaction_raise in Et. simpl in Et. exists [], [].
    split_and!; [simpl; rewrite Et; apply child_evolves_refl|done|apply safe_concluded].
Qed.

Lemma safe_recording B m an t data : safe B m [] [] (recording an t data).
Proof.
  pose proof (safe_concluded B m t false) as Hc. pose proof (safe_purging B m an t) as Hp.
  apply safe_keeps; [apply keeps_reads|]. intros [[[] []]|e]; try done; destruct (extraction_key data) as [version|]; try done.
  apply safe_keeps; [auto with loader|]. intros [recorded|e]; [|done].
  apply safe_keeps; [apply keeps_bind; [apply keeps_for_each; auto with loader|intros _; apply keeps_reads]|]. intros [vetoed|e]; [|done].
  apply safe_keeps; [apply keeps_bind; [auto with loader|intros _; by apply keeps_modifies]|]. by intros [].
Qed.

Lemma safe_gathering B m an t data todo : safe B m [] [] (gathering an t data todo).
Proof.
  induction todo as [|vt todo IH]; simpl gathering; [apply safe_recording|].
  apply safe_keeps; [apply keeps_reads|]. intros [w|e]; [|apply safe_concluded].
  apply safe_keeps; [|by intros _]. unfold mark_answer. repeat case_match; auto with loader.
Qed.

Lemma safe_signal B m an data :
  m_body m = Ok (VDict data) -> starts_by B m -> safe B m [] [] (signal_task an (m_type m) data).
Proof.
  intros Hm Hs. apply safe_quiet. intros p Hb. unfold begin_signal, note_completion.
  unfold mbind, comp_bind, on_consumers, modifies. simpl.
  destruct (stale_row_purge p) as [st|] eqn:Est; [|by split_and!; [..|apply safe_concluded]].
  split_and!; [done| |].
  - intros st' b [= <-]. apply record_completion_bounded; [by intros b0; apply Hb|by intros s; apply (Hs data)].
  - destruct (is_latched cfg _); [|apply safe_concluded]. destruct (is_settled _); [apply safe_purging|apply safe_gathering].
Qed.

(** A record's first segment: a rejection, an error, or its processor. *)
Lemma admit_record_run t data p :
  let '(r, p') := admit_record t data p in
  p_db p' = p_db p /\ (boundary <$> stale_row_purge p') = (boundary <$> stale_row_purge p) /\
  match r with
  | Ok (inl result) => dr_settlement result = REJECT
  | Ok (inr processor) => processor_of refresh_updated_at t = Some processor
  | Raise _ => True
  end.
Proof.
  unfold admit_record. unfold mbind at 1, comp_bind at 1. simpl.
  destruct (lookup_key data "id") as [id|]; [|simpl; by destruct (stale_row_purge p)].
  destruct (negb _); [simpl; by destruct (stale_row_purge p)|].
  destruct (processor_of refresh_updated_at t) as [processor|]; [|simpl; by destruct (stale_row_purge p)].
  unfold mbind, comp_bind, reads. simpl. by destruct (_ && _).
Qed.

Lemma safe_done B m r : rows_if r m = ([], []) -> safe B m [] [] (TDone r).
Proof. done. Qed.

End tasks.

Section kept.
Context `{PyRepr} `{Postgres} `{Common} `{Collation} `{Shared}.
Context (cfg : purge_config) (CONSUMER_CANCEL_DELAY : Z).

Lemma safe_record B m an data :
  m_body m = Ok (VDict data) -> (B <= an_now an)%Z -> safe B m [] [] (record_task true an (m_type m) data).
Proof.
  intros Hm Hn. apply safe_quiet. intros p Hb. pose proof (admit_record_run true (m_type m) data p) as Ha.
  destruct (admit_record true (m_type m) data p) as [r p1]. destruct Ha as (Hd & Hbd & Hr). split_and!; [done| |].
  - intros st b Hst Hx. rewrite Hst in Hbd. simpl in Hbd. destruct (stale_row_purge p) as [st0|] eqn:E; [|done].
    simpl in Hbd. injection Hbd as Hbd. apply (Hb st0); [done|congruence].
  - destruct r as [[result|processor]|e]; [|clear p Hb p1 Hd Hbd|done].
    + apply safe_done. unfold rows_if, is_processed. simpl. by rewrite Hr.
    + intros p Hb. cbn [segment]. destruct (process_in_transaction an processor data p) as [r p'] eqn:Ep.
      apply process_in_transaction_db in Ep as (Hdb & _ & Hst & _).
      assert (bounded B p') as Hb' by (intros st b; rewrite Hst; apply Hb). destruct r as [u|e].
      * destruct Hdb as (w & Hw & Hdb). exists (map re_key (message_rows m).1), (message_rows m).2. split; [|split; [exact Hb'|done]].
        rewrite Hdb. unfold message_rows. rewrite Hm. exact (processed_evolves _ _ _ _ _ B Hr Hw Hn).
      * exists [], []. rewrite Hdb. split_and!; [apply child_evolves_refl|done|done].
Qed.

Lemma safe_handle B m an :
  starts_by B m -> (B <= an_now an)%Z -> safe B m [] [] (handle_task cfg true CONSUMER_CANCEL_DELAY an (m_body m) (m_type m)).
Proof.
  intros Hs Hn. unfold handle_task. destruct (m_body m) as [v|e] eqn:Em.
  2: { apply safe_quiet. intros p Hb. simpl. split_and!; [done|by apply (mark_dead_letter_bounded (m_type m))|done]. }
  destruct (dict_of v) as [data|e] eqn:Ev; [|done].
  assert (v = VDict data) as -> by (destruct v; try done; by injection Ev as ->).
  case_decide; [by apply safe_quiet|]. case_decide; [by apply safe_signal|by apply safe_record].
Qed.

End kept.
