(* ===== verification/Prefetch.v ===== *)
(** * Deliveries in flight, to their settlement

    [make_data_handler] and [on_data_message] of
    [brainztableinator/brainztableinator.py] under a prefetch above one: the
    broker hands messages out while others are being handled, each handler is a
    task of [Concurrency.v], its result is settled by [common]'s runner, and what
    comes back to the queue is handed out again. Every interleaving at the awaits
    is a schedule. A message's own settlement may raise, and the channel may close
    under the handlers that run: then their messages go back to the broker, they
    run on, and their settlements raise. The service drains, settles each message
    once, counts what it acknowledged, and keeps the child tables. *)

From S2P Require Import Prelude PyValue QueueNames PurgeVeto Consumers Database Persistence ChildRows Media.
From S2P Require Import RecordProcessing ProcessTrace Reconciliation PurgeSafety Delivery DeliverySafety Broker Extraction Concurrency.
From stdpp Require Import base gmap strings list option sorting.
From Stdlib Require Import ZArith Lia.

(** Where a delivery is: in its handler, or settled with the code after the
    runner still to run. *)
Inductive flight : Type :=
| Handling (t : task)
| Finishing (r : delivery_result).

Record delivery : Type := InFlight {
  fl_message : message;
  fl_answers : answers_;
  fl_open : bool;                  (** its channel has not closed *)
  fl_state : flight;
}.

Record service : Type := Service {
  sv_process : process;
  sv_ready : list message;
  sv_flights : list delivery;
  sv_acked : list (message * delivery_result);
  sv_dead : list (message * delivery_result);
  sv_failed : list (message * delivery_result);   (** what handlers answered when the settlement raised *)
  sv_limited : list message;                      (** dead-lettered by the broker, past its delivery limit *)
}.

Definition started (p : process) (ms : list message) : service := Service p ms [] [] [] [] [].

Definition goes_on (p : process) (flights : list delivery) (sv : service) : service :=
  Service p (sv_ready sv) flights (sv_acked sv) (sv_dead sv) (sv_failed sv) (sv_limited sv).
Definition set_ready (ready : list message) (sv : service) : service :=
  Service (sv_process sv) ready (sv_flights sv) (sv_acked sv) (sv_dead sv) (sv_failed sv) (sv_limited sv).

(** A message nobody settled comes back, or is past the limit. *)
Definition give_back (m : message) (sv : service) : service :=
  if past_limit (returned m)
  then Service (sv_process sv) (sv_ready sv) (sv_flights sv) (sv_acked sv) (sv_dead sv) (sv_failed sv) (sv_limited sv ++ [returned m])
  else set_ready (sv_ready sv ++ [returned m]) sv.

(** The broker takes a settlement. *)
Definition settle_message (m : message) (res : delivery_result) (sv : service) : service :=
  match dr_settlement res with
  | ACK => Service (sv_process sv) (sv_ready sv) (sv_flights sv) (sv_acked sv ++ [(m, res)]) (sv_dead sv) (sv_failed sv) (sv_limited sv)
  | REJECT => Service (sv_process sv) (sv_ready sv) (sv_flights sv) (sv_acked sv) (sv_dead sv ++ [(m, res)]) (sv_failed sv) (sv_limited sv)
  | REQUEUE => set_ready (sv_ready sv ++ [handed_back m]) sv
  | DEFER => give_back m sv
  end.

(** A handler answered [r], and its settlement raised. *)
Definition settle_failed (m : message) (r : result exn delivery_result) (sv : service) : service :=
  Service (sv_process sv) (sv_ready sv) (sv_flights sv) (sv_acked sv) (sv_dead sv)
    (sv_failed sv ++ match r with Ok res => [(m, res)] | Raise _ => [] end) (sv_limited sv).

(** The messages the broker waits for. *)
Definition unsettled (fl : delivery) : list message :=
  match fl_open fl, fl_state fl with true, Handling _ => [fl_message fl] | _, _ => [] end.

Definition closed (fl : delivery) : delivery := InFlight (fl_message fl) (fl_answers fl) false (fl_state fl).

(** The channel closes: the broker takes back every message it waits for, and
    the handlers run on. *)
Definition close_channel (sv : service) : service :=
  foldr give_back (goes_on (sv_process sv) (map closed (sv_flights sv)) sv) (concat (map unsettled (sv_flights sv))).

(** The event loop's turn: what happens if it can, the message handed out or
    the handler resumed, and the outside's answers. *)
Inductive turn_kind : Type := HandsOut | Resumes | Closes.
Record turn : Type := Turn { tu_kind : turn_kind; tu_index : nat; tu_answers : answers_ }.

(** Nothing goes wrong between the service and the broker. *)
Definition settles_all (an : answers_) : Prop := forall s, an_settles an s = None.
Definition calm (schedule : list turn) : Prop := Forall (fun c => tu_kind c <> Closes /\ settles_all (tu_answers c)) schedule.

Section prefetch.
Context `{PyRepr} `{Postgres} `{Common} `{Collation} `{Shared}.
Context (cfg : purge_config) (refresh_updated_at : bool) (CONSUMER_CANCEL_DELAY : Z).

(** A delivery begins: without admission the handler raises, and a service that
    is shutting down leaves the message unsettled. *)
Definition hand_out (an : answers_) (m : message) (sv : service) : service :=
  let p := sv_process sv in
  if negb (write_admission p) || shutdown_requested p then give_back m sv
  else
    goes_on p (sv_flights sv ++
      [InFlight m an true (Handling (handle_task cfg refresh_updated_at CONSUMER_CANCEL_DELAY an (m_body m) (m_type m)))]) sv.

(** What the message answers to its settlement: on a closed channel an error. *)
Definition settles (open : bool) (an : answers_) : settlement -> option exn :=
  if open then an_settles an else fun _ => Some RuntimeError.

(** The runner has the handler's answer. *)
Definition ran (m : message) (r : result exn delivery_result) (s : settlement -> option exn) : run delivery_result :=
  run_delivery (fun p => (r, p)) (classifier (broker_handouts (Some (headers_of m)))) wait_before_requeue s.

(** The delivery at [i] runs to its next await. *)
Definition resume (i : nat) (fl : delivery) (sv : service) : service :=
  let 'InFlight m an open state := fl in
  match state with
  | Handling (TStep s) =>
      let '(p, t) := s (sv_process sv) in goes_on p (<[i := InFlight m an open (Handling t)]> (sv_flights sv)) sv
  | Handling (TDone r) =>
      match ran m r (settles open an) (sv_process sv) with
      | (Ok res, p) => settle_message m res (goes_on p (<[i := InFlight m an open (Finishing res)]> (sv_flights sv)) sv)
      | (Raise _, p) =>
          let sv := settle_failed m r (goes_on p (delete i (sv_flights sv)) sv) in
          if open then give_back m sv else sv
      end
  | Finishing res => goes_on (after_runner an (m_type m) res (sv_process sv)).2 (delete i (sv_flights sv)) sv
  end.

Definition hand_out_at (c : turn) (sv : service) : service :=
  let i := tu_index c mod length (sv_ready sv) in
  match sv_ready sv !! i with
  | Some m => hand_out (tu_answers c) m (set_ready (delete i (sv_ready sv)) sv)
  | None => sv
  end.

Definition resume_at (c : turn) (sv : service) : service :=
  let i := tu_index c mod length (sv_flights sv) in
  match sv_flights sv !! i with
  | Some fl => resume i fl sv
  | None => sv
  end.

(** One turn: the channel closes under the messages the broker waits for, or a
    hand-out or a resumption, whichever is chosen if it is possible, and the other
    if not. *)
Definition service_step (sv : service) (c : turn) : service :=
  match tu_kind c, concat (map unsettled (sv_flights sv)), sv_ready sv, sv_flights sv with
  | Closes, _ :: _, _, _ => close_channel sv
  | _, _, [], _ => resume_at c sv
  | _, _, _, [] => hand_out_at c sv
  | HandsOut, _, _, _ => hand_out_at c sv
  | _, _, _, _ => resume_at c sv
  end.

Definition service_run (sv : service) (schedule : list turn) : service := foldl service_step sv schedule.

(** ** What every handler keeps to *)

(** At most [n] segments, none of which touches the flags, the handles or the
    counters, and a result that settles. *)
Fixpoint behaves (n : nat) (t : task) {struct t} : Prop :=
  match t with
  | TDone (Ok r) => final r
  | TDone (Raise _) => True
  | TStep s =>
      match n with
      | O => False
      | S n => forall p, let '(p', t') := s p in fixed p' = fixed p /\ behaves n t'
      end
  end.

Lemma behaves_le n n' t : n <= n' -> behaves n t -> behaves n' t.
Proof.
  revert n t. induction n' as [|n' IH]; intros n [[r|e]|s] Hle; try done.
  - by destruct n; [|lia].
  - destruct n as [|n]; [done|]. intros Hb p. specialize (Hb p). destruct (s p) as [p' t'].
    destruct Hb as [Hf Ht]. split; [done|]. apply (IH n); [lia|done].
Qed.

Lemma behaves_segment {A} n (c : run A) k :
  keeps fixed c -> (forall r p p', c p = (r, p') -> behaves n (k r)) -> behaves (S n) (segment c k).
Proof.
  intros Hk Hb p. specialize (Hk p). specialize (Hb (c p).1 p (c p).2). destruct (c p) as [r p'].
  split; [exact Hk|by apply Hb].
Qed.

Lemma arm_timer_counts t c : message_counts (c_traffic (arm_timer CONSUMER_CANCEL_DELAY t c)) = message_counts (c_traffic c).
Proof. by rewrite arm_timer_traffic. Qed.

#[local] Hint Resolve keeps_mark_dead_letter keeps_on_consumers keeps_raises arm_timer_counts pop_cancel_counts : loader.

Lemma behaves_concluded t b : behaves 1 (concluded CONSUMER_CANCEL_DELAY t b).
Proof.
  apply behaves_segment.
  - unfold conclude. destruct b; apply keeps_bind; auto with loader; intros _; auto with loader.
  - intros r p p' Hr. destruct b; injection Hr as <- _; [by left|done].
Qed.

Lemma behaves_reported an t : behaves 3 (reported CONSUMER_CANCEL_DELAY an t).
Proof.
  apply behaves_segment; [by apply keeps_modifies|]. intros _ _ _ _. apply behaves_segment; [|intros _ _ _ _; apply behaves_concluded].
  intros p. unfold report_purge_vetoes. by repeat case_match.
Qed.

Lemma behaves_purging an t : behaves 5 (purging cfg CONSUMER_CANCEL_DELAY an t).
Proof.
  pose proof (behaves_le 1 4 _ ltac:(lia) (behaves_concluded t false)) as Hc.
  pose proof (behaves_le 3 4 _ ltac:(lia) (behaves_reported an t)) as Hr.
  apply behaves_segment; [intros p; unfold purge_check; by repeat case_match|]. intros [[b|]|e] _ _ _; try done.
  apply behaves_segment; [intros p; unfold purge_rest; by repeat case_match|].
  intros [u|e] _ _ _; [apply behaves_reported|by apply (behaves_le 1); [lia|apply behaves_concluded]].
Qed.

Lemma behaves_recording an t data : behaves 9 (recording cfg CONSUMER_CANCEL_DELAY an t data).
Proof.
  assert (forall n, behaves (S n) (concluded CONSUMER_CANCEL_DELAY t false)) as Hc
    by (intros n; apply (behaves_le 1); [lia|apply behaves_concluded]).
  assert (forall n, behaves (5 + n) (purging cfg CONSUMER_CANCEL_DELAY an t)) as Hp
    by (intros n; apply (behaves_le 5); [lia|apply behaves_purging]).
  apply behaves_segment; [apply keeps_reads|]. intros [[[] []]|e] _ _ _; try (by apply (Hp 3));
    destruct (extraction_key data); try (by apply (Hp 3)); try apply Hc.
  apply behaves_segment; [apply keeps_bind; [auto with loader|intros _; apply keeps_reads]|]. intros [recorded|e] _ _ _; [|apply Hc].
  apply behaves_segment; [apply keeps_bind; [apply keeps_for_each; auto with loader|intros _; apply keeps_reads]|].
  intros [vetoed|e] _ _ _; [|apply Hc].
  apply behaves_segment; [apply keeps_bind; [auto with loader|intros _; by apply keeps_modifies]|].
  intros [u|e] _ _ _; [apply (Hp 0)|apply Hc].
Qed.

Lemma behaves_gathering an t data todo :
  behaves (2 * length todo + 9) (gathering cfg CONSUMER_CANCEL_DELAY an t data todo).
Proof.
  induction todo as [|vt todo IH]; [apply behaves_recording|]. replace (2 * length (vt :: todo) + 9) with (S (S (2 * length todo + 9))) by (simpl; lia).
  simpl gathering. apply behaves_segment; [apply keeps_reads|]. intros [w|e] _ _ _.
  - apply behaves_segment; [|by intros _ _ _ _]. unfold mark_answer. repeat case_match; auto with loader.
  - apply (behaves_le 1); [lia|apply behaves_concluded].
Qed.

(** The segments of the longest handler. *)
Definition handler_steps : nat := 2 * size (expected_data_types cfg) + 10.

Lemma sorted_length l : length (sorted l) = length l.
Proof. apply Permutation_length, sorted_Permutation. Qed.

Lemma behaves_signal an t data : behaves handler_steps (signal_task cfg CONSUMER_CANCEL_DELAY an t data).
Proof.
  unfold handler_steps. replace (2 * size (expected_data_types cfg) + 10) with (S (2 * size (expected_data_types cfg) + 9)) by lia.
  apply behaves_segment.
  - unfold begin_signal. apply keeps_bind; [apply keeps_on_consumers; intros c; simpl; auto with loader|intros _].
    intros p. unfold note_completion. by destruct (stale_row_purge p).
  - intros [[]|e] _ _ _; try (apply (behaves_le 1); [lia|apply behaves_concluded]); [apply (behaves_le 5); [lia|apply behaves_purging]|].
    pose proof (behaves_gathering an t data (sorted (elements (expected_data_types cfg)))) as Hg.
    by rewrite sorted_length in Hg.
Qed.

Lemma behaves_record an t data : behaves 2 (record_task refresh_updated_at an t data).
Proof.
  apply behaves_segment.
  - pose proof (keeps_reject fixed ltac:(done) t) as Hrej. unfold admit_record.
    apply keeps_bind; [apply keeps_on_consumers; intros c; rewrite pop_cancel_counts; done|intros _]. destruct (lookup_key data "id"); [|by apply keeps_bind; [|intros; apply keeps_ret]].
    destruct (negb _); [by apply keeps_bind; [|intros; apply keeps_ret]|].
    destruct (processor_of _ _); [|by apply keeps_bind; [|intros; apply keeps_ret]].
    apply keeps_bind; [apply keeps_reads|]. intros [|]; auto with loader.
  - intros r p p' Hr. pose proof (admit_record_run refresh_updated_at t data p) as Ha. rewrite Hr in Ha.
    destruct Ha as (_ & _ & Ha). destruct r as [[res|processor]|e]; [by right| |done].
    apply behaves_segment; [by apply keeps_process_in_transaction|]. intros [u|e] _ _ _; [by left|done].
Qed.

Lemma behaves_handle an body t :
  behaves handler_steps (handle_task cfg refresh_updated_at CONSUMER_CANCEL_DELAY an body t).
Proof.
  assert (2 <= handler_steps) as Hle by (unfold handler_steps; lia).
  unfold handle_task. destruct body as [v|e].
  - destruct (dict_of v) as [data|e]; [|done]. case_decide; [|case_decide; [apply behaves_signal|]].
    + apply (behaves_le 1); [lia|]. apply behaves_segment; [apply keeps_bind; [|intros _; auto with loader]|].
      * apply keeps_on_consumers. intros c. simpl. auto with loader.
      * intros r p p' Hr. injection Hr as <- _. by left.
    + apply (behaves_le 2); [done|apply behaves_record].
  - apply (behaves_le 1); [lia|]. apply behaves_segment; [by apply (keeps_reject fixed)|].
    intros r p p' Hr. injection Hr as <- _. by right.
Qed.
End prefetch.

(** ** Turns *)

Section turns.
Context `{PyRepr} `{Postgres} `{Common} `{Collation} `{Shared} `{!SharedLaws}.
Context (cfg : purge_config) (refresh_updated_at : bool) (CONSUMER_CANCEL_DELAY : Z).

Abbreviation step := (service_step cfg refresh_updated_at CONSUMER_CANCEL_DELAY).

Definition drained (sv : service) : Prop := sv_ready sv = [] /\ sv_flights sv = [].

Lemma drained_step sv c : drained sv -> step sv c = sv.
Proof.
  intros [Hr Hf]. unfold service_step. rewrite Hr, Hf. simpl.
  assert (resume_at c sv = sv) as E by (unfold resume_at; by rewrite Hf). by destruct (tu_kind c).
Qed.

(** A turn closes the channel, resumes a handler or hands a message out, unless
    nothing is left. *)
Lemma step_cases sv c :
  drained sv /\ step sv c = sv \/
  (tu_kind c = Closes /\ concat (map unsettled (sv_flights sv)) <> [] /\ step sv c = close_channel sv) \/
  (sv_flights sv <> [] /\ step sv c = resume_at c sv) \/
  (sv_ready sv <> [] /\ step sv c = hand_out_at cfg refresh_updated_at CONSUMER_CANCEL_DELAY c sv).
Proof.
  destruct (sv_ready sv) as [|m ms] eqn:Er, (sv_flights sv) as [|f fs] eqn:Ef.
  - left. assert (drained sv) as Hd by done. split; [done|by apply drained_step].
  - right. unfold service_step. rewrite Er, Ef. destruct (tu_kind c), (concat _) eqn:Eu;
      (right; left; split; done) || (left; split_and!; done).
  - right. right. right. split; [done|]. unfold service_step. rewrite Er, Ef. simpl. by destruct (tu_kind c).
  - right. unfold service_step. rewrite Er, Ef. destruct (tu_kind c), (concat _) eqn:Eu;
      (right; left; split; done) || (right; right; split; done) || (left; split_and!; done).
Qed.

(** Every handler in flight ends, and settles when it returns. *)
Definition answering (sv : service) : Prop :=
  Forall (fun fl => match fl_state fl with Handling t => exists n, behaves n t | Finishing _ => True end) (sv_flights sv).

(** Every channel is open and takes every settlement; none has failed. *)
Definition undisturbed (sv : service) : Prop :=
  Forall (fun fl => fl_open fl = true /\ settles_all (fl_answers fl)) (sv_flights sv) /\ sv_failed sv = [].

(** The runner's answer to a handler that settles. *)
Lemma ran_run m r s p :
  match r with Ok r1 => final r1 | Raise _ => True end ->
  exists res p', ran m r s p = (settling s res, p') /\ (p' = p \/ p' = add_backoff BackoffWait p) /\
    (final res \/ dr_settlement res = REQUEUE /\ (m_handouts m < MAX_REQUEUES)%Z) /\
    match r with Ok r1 => res = r1 | Raise _ => dr_settlement res <> ACK end.
Proof.
  intros Hf. destruct (runner_run (Some (headers_of m)) (fun p => (r, p)) s p r p eq_refl) as (res & p' & Hr & Hp & Hres);
    [by intros r1 ->|]. exists res, p'. split; [exact Hr|]. split; [exact Hp|]. pose proof (handouts_header m).
  destruct r as [r1|e]; [destruct Hres as (-> & _ & Hfin); split; [by left|done]|].
  destruct Hres as (_ & [Hs|[Hs Hlt]]); (split; [|congruence]); [left; by right|right; split; [done|lia]].
Qed.

Lemma behaves_final n r : behaves n (TDone r) -> match r with Ok r1 => final r1 | Raise _ => True end.
Proof. by destruct r. Qed.

Lemma give_back_same m sv :
  sv_process (give_back m sv) = sv_process sv /\ sv_flights (give_back m sv) = sv_flights sv /\
  sv_acked (give_back m sv) = sv_acked sv /\ sv_dead (give_back m sv) = sv_dead sv /\
  sv_failed (give_back m sv) = sv_failed sv.
Proof. unfold give_back. by destruct (past_limit _). Qed.

Lemma resume_undisturbed c sv :
  answering sv -> undisturbed sv -> undisturbed (resume_at c sv) /\ sv_limited (resume_at c sv) = sv_limited sv.
Proof.
  intros Ha [HF Hfail]. unfold resume_at. destruct (sv_flights sv !! _) as [[m an open state]|] eqn:Hi; [|done].
  pose proof (Forall_lookup_1 _ _ _ _ HF Hi) as [Ho Hset]. simpl in Ho, Hset. subst open.
  pose proof (Forall_lookup_1 _ _ _ _ Ha Hi) as Hb. simpl in Hb. unfold resume. destruct state as [[r|s]|r].
  - destruct Hb as [n Hb%behaves_final]. destruct (ran_run m r (an_settles an) (sv_process sv) Hb) as (res & p' & Hr & _ & Hres & _).
    unfold settles. rewrite Hr. unfold settling. rewrite (Hset _).
    assert (Forall (fun fl => fl_open fl = true /\ settles_all (fl_answers fl))
      (<[tu_index c mod length (sv_flights sv) := InFlight m an true (Finishing res)]> (sv_flights sv))) as HF' by by apply Forall_insert.
    unfold settle_message. destruct Hres as [[E|E]|[E _]]; rewrite E; done.
  - destruct (s (sv_process sv)) as [p t]. split; [|done]. split; [by apply Forall_insert|done].
  - split; [|done]. split; [by apply Forall_delete|done].
Qed.

Lemma step_undisturbed c sv :
  answering sv -> undisturbed sv -> tu_kind c <> Closes /\ settles_all (tu_answers c) ->
  undisturbed (step sv c) /\ (running (sv_process sv) -> sv_limited (step sv c) = sv_limited sv).
Proof.
  intros Ha Hu [Hc Hset]. destruct (step_cases sv c) as [[_ E]|[(Hc' & _)|[[_ E]|[_ E]]]]; [| |rewrite E..]; [by rewrite E|done| |].
  - by destruct (resume_undisturbed c sv Ha Hu) as [? ->].
  - unfold hand_out_at. destruct (sv_ready sv !! _) as [m|]; [|done]. unfold hand_out. simpl. destruct Hu as [HF Hfail].
    destruct (_ || _) eqn:Eb.
    + destruct (give_back_same m (set_ready (delete (tu_index c mod length (sv_ready sv)) (sv_ready sv)) sv)) as (_ & Ef & _ & _ & Eg).
      split; [split; rewrite ?Ef, ?Eg; done|]. intros [Hs Hw]. by rewrite Hs, Hw in Eb.
    + split; [|done]. split; [|done]. simpl. apply Forall_app. split; [done|]. by apply Forall_singleton.
Qed.
End turns.

(** ** Draining *)

Section draining.
Context `{PyRepr} `{Postgres} `{Common} `{Collation} `{Shared} `{!SharedLaws}.
Context (cfg : purge_config) (refresh_updated_at : bool) (CONSUMER_CANCEL_DELAY : Z).

Abbreviation step := (service_step cfg refresh_updated_at CONSUMER_CANCEL_DELAY).
Abbreviation run_service := (service_run cfg refresh_updated_at CONSUMER_CANCEL_DELAY).
Abbreviation hand := (hand_out cfg refresh_updated_at CONSUMER_CANCEL_DELAY).

Definition every_message (sv : service) : list message :=
  sv_ready sv ++ concat (map unsettled (sv_flights sv)) ++ (sv_acked sv).*1 ++ (sv_dead sv).*1 ++ sv_limited sv.

(** The acknowledgement of a delivery whose record is not counted yet. *)
Definition uncounted (t : string) (fl : delivery) : nat :=
  match fl_state fl with
  | Handling _ => 0
  | Finishing r => if decide (acknowledged t (fl_message fl, r)) then 1 else 0
  end.

(** The records acknowledged, less those still to be counted. *)
Definition tally (t : string) (sv : service) : Z :=
  Z.of_nat (length (filter (acknowledged t) (sv_acked sv))) - Z.of_nat (sum_list (map (uncounted t) (sv_flights sv))).

(** The turns a handed-out message's later hand-outs may take. *)
Definition turns : nat := handler_steps cfg + 3.
Definition later (m : message) : nat := turns * (hands_left m - 1).

(** A delivery in order, with [c] turns at most before it and its message are
    done with; one whose channel closed has given its message back. *)
Inductive paced : delivery -> nat -> Prop :=
| paced_handling m an t n :
    in_budget m -> behaves n t -> n <= handler_steps cfg -> paced (InFlight m an true (Handling t)) (n + 2 + later m)
| paced_orphan m an t n : behaves n t -> paced (InFlight m an false (Handling t)) (n + 1)
| paced_finishing m an open r : paced (InFlight m an open (Finishing r)) 1.

(** A service in order, with [n] turns at most left. *)
Record sound (sv : service) (n : nat) : Prop := Sound {
  sd_running : running (sv_process sv);
  sd_budget : Forall in_budget (sv_ready sv);
  sd_paced : exists cs, Forall2 paced (sv_flights sv) cs /\ n = turns * budget (sv_ready sv) + sum_list cs;
}.

(** What one turn keeps. *)
Record turned (sv sv' : service) : Prop := Turned {
  tn_messages : map identity (every_message sv') ≡ₚ map identity (every_message sv);
  tn_acked : exists new, sv_acked sv' = sv_acked sv ++ new /\ Forall (fun mr => dr_settlement mr.2 = ACK /\ in_budget mr.1) new;
  tn_dead : exists new, sv_dead sv' = sv_dead sv ++ new /\ Forall (fun mr => dr_settlement mr.2 = REJECT /\ in_budget mr.1) new;
  tn_limited : exists new, sv_limited sv' = sv_limited sv ++ new /\ Forall (fun m => m_returns m = DELIVERY_LIMIT + 1)%Z new;
  tn_counts : forall t n, counts_of (sv_process sv) !! t = Some n ->
    counts_of (sv_process sv') !! t = Some (n + tally t sv' - tally t sv)%Z;
}.

Lemma turned_refl sv : turned sv sv.
Proof.
  split; [done|..]; try (by exists []; rewrite app_nil_r). intros t n ->. f_equal. lia.
Qed.

Lemma turned_trans sv sv1 sv2 : turned sv sv1 -> turned sv1 sv2 -> turned sv sv2.
Proof.
  intros [M1 (a1 & A1 & G1) (d1 & D1 & K1) (l1 & L1 & J1) C1] [M2 (a2 & A2 & G2) (d2 & D2 & K2) (l2 & L2 & J2) C2]. split.
  - by rewrite M2.
  - exists (a1 ++ a2). rewrite A2, A1, app_assoc. split; [done|by apply Forall_app].
  - exists (d1 ++ d2). rewrite D2, D1, app_assoc. split; [done|by apply Forall_app].
  - exists (l1 ++ l2). rewrite L2, L1, app_assoc. split; [done|by apply Forall_app].
  - intros t n Hn. rewrite (C2 t _ (C1 t _ Hn)). f_equal. lia.
Qed.

Lemma fixed_running p p' : fixed p' = fixed p -> running p -> running p' /\ counts_of p' = counts_of p.
Proof. unfold fixed, running. intros [= -> _ -> ->]. done. Qed.

Lemma weight_later m : turns * hands_left m = turns + later m.
Proof. unfold later, hands_left. rewrite Nat.mul_sub_distr_l. nia. Qed.

(** ** Where a message goes *)

(** A step that moves messages: [back] to the queue, [acked] and [dead] settled,
    [lim] past the limit, the rest of them still in flight. *)
Lemma moved_turned sv sv' back acked dead lim :
  counts_of (sv_process sv') = counts_of (sv_process sv) -> sv_ready sv' = sv_ready sv ++ back ->
  sv_acked sv' = sv_acked sv ++ acked -> sv_dead sv' = sv_dead sv ++ dead -> sv_limited sv' = sv_limited sv ++ lim ->
  map identity (back ++ acked.*1 ++ dead.*1 ++ lim ++ concat (map unsettled (sv_flights sv'))) ≡ₚ
    map identity (concat (map unsettled (sv_flights sv))) ->
  Forall (fun mr => dr_settlement mr.2 = ACK /\ in_budget mr.1) acked ->
  Forall (fun mr => dr_settlement mr.2 = REJECT /\ in_budget mr.1) dead ->
  Forall (fun m => m_returns m = DELIVERY_LIMIT + 1)%Z lim ->
  (forall t, sum_list (map (uncounted t) (sv_flights sv')) =
     length (filter (acknowledged t) acked) + sum_list (map (uncounted t) (sv_flights sv))) ->
  turned sv sv'.
Proof.
  intros Hc Er Ea Ed El Hid HFa HFd HFl Hsum. split; [|by exists acked|by exists dead|by exists lim|].
  - unfold every_message. rewrite Er, Ea, Ed, El, !fmap_app. rewrite !fmap_app in Hid. rewrite <- Hid. solve_Permutation.
  - intros t n Hn. rewrite Hc, Hn. f_equal. unfold tally. rewrite Ea, filter_app, length_app, Hsum. lia.
Qed.

(** A message that came back, in the queue or past the limit. *)
Lemma give_back_spec m sv :
  in_budget m ->
  exists back lim, sv_ready (give_back m sv) = sv_ready sv ++ back /\ sv_limited (give_back m sv) = sv_limited sv ++ lim /\
    map identity (back ++ lim) = [identity m] /\ Forall in_budget back /\
    Forall (fun m => m_returns m = DELIVERY_LIMIT + 1)%Z lim /\ turns * budget back <= later m.
Proof.
  intros Hm. unfold give_back. destruct (past_limit (returned m)) eqn:Ep; simpl.
  - exists [], [returned m]. rewrite app_nil_r. split_and!; [done|done|done|done| |unfold budget; simpl; lia].
    apply Forall_singleton. unfold past_limit, in_budget in *. simpl in *. lia.
  - destruct (returned_left m Hm Ep) as [Hb Hl]. exists [returned m], []. rewrite app_nil_r.
    split_and!; [done|done|done|by apply Forall_singleton|done|]. rewrite budget_one. apply Nat.mul_le_mono_l. lia.
Qed.

Lemma sound_ready sv i m n : sound sv n -> sv_ready sv !! i = Some m -> in_budget m.
Proof. intros [_ HF _] Hi. rewrite Forall_forall in HF. apply HF. by eapply list_elem_of_lookup_2. Qed.

Lemma hand_out_turned an m i sv n :
  sound sv n -> sv_ready sv !! i = Some m ->
  let sv' := hand an m (set_ready (delete i (sv_ready sv)) sv) in turned sv sv' /\ exists n', sound sv' n' /\ n' < n.
Proof.
  intros Hs Hi. pose proof (sound_ready _ _ _ _ Hs Hi) as Hm. destruct Hs as [Hrun HF (cs & Hcs & ->)].
  unfold hand_out. pose proof Hrun as [Hstop Hadm]. simpl. rewrite Hadm, Hstop. simpl. split.
  - split; simpl; try (by exists []; rewrite app_nil_r).
    + apply Permutation_map. unfold every_message. simpl. rewrite map_app, concat_app. simpl.
      rewrite (delete_Permutation _ _ _ Hi) at 2. solve_Permutation.
    + intros t k ->. f_equal. unfold tally. simpl. rewrite map_app, sum_list_with_app. simpl. lia.
  - exists (turns * budget (delete i (sv_ready sv)) + sum_list (cs ++ [handler_steps cfg + 2 + later m])). split.
    + split; simpl; [done|by apply Forall_delete|]. eexists. split; [|done]. apply Forall2_app; [done|].
      constructor; [|done]. constructor; [done|apply behaves_handle|done].
    + rewrite sum_list_with_app. simpl. pose proof (budget_delete _ _ _ Hi). pose proof (weight_later m). unfold turns in *. nia.
Qed.

(** A segment of a handler. *)
Lemma segment_turned i m an open s sv n :
  sound sv n -> sv_flights sv !! i = Some (InFlight m an open (Handling (TStep s))) ->
  let sv' := resume i (InFlight m an open (Handling (TStep s))) sv in turned sv sv' /\ exists n', sound sv' n' /\ n' < n.
Proof.
  intros [Hrun HF (cs & Hcs & ->)] Hi. cbv zeta. simpl.
  destruct (Forall2_lookup_l _ _ _ _ _ Hcs Hi) as (c & Hc & Hp).
  assert (exists k, behaves (S k) (TStep s) /\ forall t, behaves k t -> exists c', paced (InFlight m an open (Handling t)) c' /\ c' < c)
    as (k & Hb & Hnext).
  { inversion Hp as [? ? ? [|k] Hm Hb Hk|? ? ? [|k] Hb|]; subst; try done; exists k; (split; [done|]); intros t Ht;
      eexists; (split; [by constructor; try done; lia|lia]). }
  simpl in Hb. specialize (Hb (sv_process sv)). destruct (s (sv_process sv)) as [p t]. destruct Hb as [Hf Hb].
  destruct (fixed_running _ _ Hf Hrun) as [Hrun' Hcounts]. destruct (Hnext t Hb) as (c' & Hc' & Hlt). split.
  - apply (moved_turned _ _ [] [] [] []); simpl; rewrite ?app_nil_r; try done.
    + by rewrite (map_insert_same unsettled _ _ _ _ Hi) by (by destruct open).
    + intros t'. by rewrite (map_insert_same (uncounted t') _ _ _ _ Hi).
  - exists (turns * budget (sv_ready sv) + sum_list (<[i := c']> cs)). split.
    + split; simpl; [done|done|]. eexists. split; [|done]. by apply Forall2_insert.
    + pose proof (sum_insert (fun x => x) _ _ _ c' Hc) as Hs. rewrite !map_id in Hs. lia.
Qed.


(** A delivery that is settled: [back] is handed back, or it is in [acked] or in
    [dead]. *)
Lemma settle_parts i m an t res sv sv' n back acked dead :
  sound sv n -> sv_flights sv !! i = Some (InFlight m an true (Handling t)) ->
  running (sv_process sv') /\ counts_of (sv_process sv') = counts_of (sv_process sv) ->
  sv_ready sv' = sv_ready sv ++ back -> sv_flights sv' = <[i := InFlight m an true (Finishing res)]> (sv_flights sv) ->
  sv_acked sv' = sv_acked sv ++ acked -> sv_dead sv' = sv_dead sv ++ dead -> sv_limited sv' = sv_limited sv ->
  map identity (back ++ acked.*1 ++ dead.*1) = [identity m] -> Forall in_budget back -> turns * budget back <= later m ->
  Forall (fun mr => dr_settlement mr.2 = ACK /\ in_budget mr.1) acked ->
  Forall (fun mr => dr_settlement mr.2 = REJECT /\ in_budget mr.1) dead ->
  (forall t, length (filter (acknowledged t) acked) = if decide (acknowledged t (m, res)) then 1 else 0) ->
  turned sv sv' /\ exists n', sound sv' n' /\ n' < n.
Proof.
  intros [Hrun HF (cs & Hcs & ->)] Hi [Hrun' Hcounts] Er Ef Ea Ed El Hid HB Hl HFa HFd Hlen.
  destruct (Forall2_lookup_l _ _ _ _ _ Hcs Hi) as (c & Hc & Hp). inversion Hp as [? ? ? k Hm Hb Hk| |]; subst. split.
  - eapply (moved_turned _ _ back acked dead []); rewrite ?Ef, ?El, ?app_nil_r; try done.
    + pose proof (Permutation_map identity (flat_insert unsettled _ _ _ (InFlight m an true (Finishing res)) Hi)) as Hu.
      rewrite !fmap_app in Hu. rewrite !fmap_app in Hid. rewrite !fmap_app. simpl in *. rewrite <- Hid in Hu. rewrite <- Hu.
      solve_Permutation.
    + intros t'. rewrite Hlen. pose proof (sum_insert (uncounted t') _ _ _ (InFlight m an true (Finishing res)) Hi) as Hs.
      unfold uncounted at 2 3 in Hs. simpl in Hs. rewrite Nat.add_0_r in Hs. exact Hs.
  - exists (turns * (budget (sv_ready sv) + budget back) + sum_list (<[i := 1]> cs)). split.
    + split; rewrite ?Er, ?Ef; [done|by apply Forall_app|]. eexists. split; [|by rewrite budget_app].
      apply Forall2_insert; [done|constructor].
    + pose proof (sum_insert (fun x => x) _ _ _ 1 Hc) as Hs. rewrite !map_id in Hs. lia.
Qed.

Lemma sound_flight sv n i m an t :
  sound sv n -> sv_flights sv !! i = Some (InFlight m an true (Handling t)) -> in_budget m.
Proof.
  intros [_ _ (cs & Hcs & _)] Hi. destruct (Forall2_lookup_l _ _ _ _ _ Hcs Hi) as (c & _ & Hp). by inversion Hp.
Qed.

(** The broker takes the settlement of a handler's result. *)
Lemma accepted_turned i m an t res p' sv n :
  sound sv n -> sv_flights sv !! i = Some (InFlight m an true (Handling t)) ->
  running p' /\ counts_of p' = counts_of (sv_process sv) ->
  final res \/ dr_settlement res = REQUEUE /\ (m_handouts m < MAX_REQUEUES)%Z ->
  let sv' := settle_message m res (goes_on p' (<[i := InFlight m an true (Finishing res)]> (sv_flights sv)) sv) in
  turned sv sv' /\ exists n', sound sv' n' /\ n' < n.
Proof.
  intros Hs Hi Hp' Hres. cbv zeta. pose proof (sound_flight _ _ _ _ _ _ Hs Hi) as Hm. unfold settle_message.
  destruct Hres as [[E|E]|[E Hlt]]; rewrite E.
  - eapply (settle_parts i m an t res sv _ n [] [(m, res)] []); try done; simpl; rewrite ?app_nil_r; try done; [|by constructor|].
    + unfold budget. simpl. lia.
    + intros t'. rewrite filter_cons, filter_nil. by destruct (decide (acknowledged t' (m, res))).
  - eapply (settle_parts i m an t res sv _ n [] [] [(m, res)]); try done; simpl; rewrite ?app_nil_r; try done; [|by constructor|].
    + unfold budget. simpl. lia.
    + intros t'. rewrite decide_False; [done|]. intros (_ & ? & _). simpl in *. congruence.
  - destruct (handed_back_left m Hm Hlt) as [Hb Hl]. assert (turns * budget [handed_back m] <= later m) as Hk
      by (unfold later; apply Nat.mul_le_mono_l; rewrite budget_one; lia).
    eapply (settle_parts i m an t res sv _ n [handed_back m] [] []); try done; simpl; rewrite ?app_nil_r; try done; [by constructor|].
    intros t'. rewrite decide_False; [done|]. intros (_ & ? & _). simpl in *. congruence.
Qed.

(** The settlement raises: on an open channel the message comes back, on a
    closed one it has come back already. *)
Lemma failed_turned i m an open t r p' sv n :
  sound sv n -> sv_flights sv !! i = Some (InFlight m an open (Handling t)) ->
  running p' /\ counts_of p' = counts_of (sv_process sv) ->
  let sv1 := settle_failed m r (goes_on p' (delete i (sv_flights sv)) sv) in
  let sv' := if open then give_back m sv1 else sv1 in
  turned sv sv' /\ exists n', sound sv' n' /\ n' < n.
Proof.
  intros Hs Hi [Hrun' Hcounts] sv1.
  pose proof (flat_delete unsettled _ _ _ Hi) as Hu. apply (Permutation_map identity) in Hu. rewrite fmap_app in Hu.
  assert (forall t', sum_list (map (uncounted t') (delete i (sv_flights sv))) = sum_list (map (uncounted t') (sv_flights sv))) as Hsum
    by (intros t'; rewrite <- (sum_delete (uncounted t') _ _ _ Hi); done).
  pose proof (sound_flight sv n i m an t Hs) as Hm. destruct Hs as [Hrun HF (cs & Hcs & ->)].
  destruct (Forall2_lookup_l _ _ _ _ _ Hcs Hi) as (c & Hc & Hp).
  pose proof (sum_delete (fun x => x) _ _ _ Hc) as Hd. rewrite !map_id in Hd.
  assert (Forall2 paced (delete i (sv_flights sv)) (delete i cs)) as Hcs' by by apply Forall2_delete.
  destruct open; cbv zeta iota; simpl in Hu.
  - specialize (Hm Hi). destruct (give_back_spec m sv1 Hm) as (back & lim & Er & El & Hid & HB & HL & Hb).
    destruct (give_back_same m sv1) as (Ep & Ef & Ea & Ed & _). split.
    + apply (moved_turned _ _ back [] [] lim); rewrite ?Ep, ?Ef, ?Ea, ?Ed; simpl; rewrite ?app_nil_r; try done.
      rewrite app_assoc, map_app, Hid. exact Hu.
    + exists (turns * (budget (sv_ready sv) + budget back) + sum_list (delete i cs)). split.
      * split; rewrite ?Ep, ?Er, ?Ef; [done|by apply Forall_app|]. exists (delete i cs). by rewrite budget_app.
      * inversion Hp; subst. lia.
  - split.
    + apply (moved_turned _ _ [] [] [] []); simpl; rewrite ?app_nil_r; done.
    + exists (turns * budget (sv_ready sv) + sum_list (delete i cs)). split; [|inversion Hp; subst; lia].
      split; simpl; [done|done|]. by exists (delete i cs).
Qed.

(** A handler's result goes to the runner. *)
Lemma settled_turned i m an open r sv n :
  sound sv n -> sv_flights sv !! i = Some (InFlight m an open (Handling (TDone r))) ->
  let sv' := resume i (InFlight m an open (Handling (TDone r))) sv in turned sv sv' /\ exists n', sound sv' n' /\ n' < n.
Proof.
  intros Hs Hi. pose proof Hs as [Hrun HF (cs & Hcs & _)]. cbv zeta.
  destruct (Forall2_lookup_l _ _ _ _ _ Hcs Hi) as (c & Hc & Hp).
  assert (match r with Ok r1 => final r1 | Raise _ => True end) as Hfin by (inversion Hp as [? ? ? ? ? Hb|? ? ? ? Hb|]; by destruct r).
  unfold resume. destruct (ran_run m r (settles open an) (sv_process sv) Hfin) as (res & p' & -> & Hp' & Hres & _).
  assert (running p' /\ counts_of p' = counts_of (sv_process sv)) as Hrun' by (by destruct Hp' as [->| ->]).
  unfold settling. destruct (settles open an (dr_settlement res)) as [e|] eqn:Es.
  - by eapply failed_turned.
  - destruct open; [|done]. by eapply accepted_turned.
Qed.

(** The code after the runner counts the record and ends the delivery. *)
Lemma finished_turned i m an open r sv n :
  sound sv n -> sv_flights sv !! i = Some (InFlight m an open (Finishing r)) ->
  let sv' := resume i (InFlight m an open (Finishing r)) sv in turned sv sv' /\ exists n', sound sv' n' /\ n' < n.
Proof.
  intros [Hrun HF (cs & Hcs & ->)] Hi. cbv zeta. unfold resume. rewrite after_runner_run.
  destruct (Forall2_lookup_l _ _ _ _ _ Hcs Hi) as (c & Hc & Hp). inversion Hp; subst.
  destruct (after_settlement_fixed an (m_type m) r (sv_process sv)) as (F1 & F2 & F3). split.
  - split; simpl; try (by exists []; rewrite app_nil_r).
    + unfold every_message. simpl. rewrite <- (flat_delete unsettled _ _ _ Hi). by destruct open.
    + intros t k Hk. rewrite F3, (counted_lookup t (m_type m) r _ _ Hk). f_equal. unfold tally. simpl.
      pose proof (sum_delete (uncounted t) _ _ _ Hi) as Hs. unfold uncounted at 1, acknowledged in Hs. simpl in Hs.
      repeat case_decide; try tauto; lia.
  - exists (turns * budget (sv_ready sv) + sum_list (delete i cs)). split.
    + split; simpl; [by unfold running; rewrite F1, F2|done|]. eexists. split; [|done]. by apply Forall2_delete.
    + pose proof (sum_delete (fun x => x) _ _ _ Hc) as Hs. rewrite !map_id in Hs. lia.
Qed.

(** ** The channel closes *)

(** Messages that all come back. *)
Lemma give_back_all ms sv :
  Forall in_budget ms ->
  let sv' := foldr give_back sv ms in
  sv_process sv' = sv_process sv /\ sv_flights sv' = sv_flights sv /\ sv_acked sv' = sv_acked sv /\ sv_dead sv' = sv_dead sv /\
  exists back lim, sv_ready sv' = sv_ready sv ++ back /\ sv_limited sv' = sv_limited sv ++ lim /\
    map identity (back ++ lim) ≡ₚ map identity ms /\ Forall in_budget back /\
    Forall (fun m => m_returns m = DELIVERY_LIMIT + 1)%Z lim /\ turns * budget back <= sum_list (map later ms).
Proof.
  induction 1 as [|m ms Hm _ IH]; cbv zeta; simpl.
  { split_and!; try done. exists [], []. rewrite !app_nil_r. split_and!; try done. unfold budget. simpl. lia. }
  destruct IH as (Ep & Ef & Ea & Ed & back & lim & Er & El & Hid & HB & HL & Hb).
  destruct (give_back_same m (foldr give_back sv ms)) as (Fp & Ff & Fa & Fd & _).
  destruct (give_back_spec m (foldr give_back sv ms) Hm) as (back' & lim' & Er' & El' & Hid' & HB' & HL' & Hb').
  rewrite Fp, Ff, Fa, Fd. split_and!; [done..|]. exists (back ++ back'), (lim ++ lim').
  rewrite Er', El', Er, El, !app_assoc. split_and!; [done|done| |by apply Forall_app|by apply Forall_app|].
  - rewrite <- Hid. change (identity m :: ?l) with ([identity m] ++ l). rewrite <- Hid', !fmap_app. solve_Permutation.
  - rewrite budget_app. lia.
Qed.

(** Closing the channel under at least one message costs each of them a return. *)
Lemma close_paced fls cs :
  Forall2 paced fls cs ->
  Forall in_budget (concat (map unsettled fls)) /\ concat (map unsettled (map closed fls)) = [] /\
  (forall t, map (uncounted t) (map closed fls) = map (uncounted t) fls) /\
  exists cs', Forall2 paced (map closed fls) cs' /\
    sum_list cs' + sum_list (map later (concat (map unsettled fls))) + length (concat (map unsettled fls)) <= sum_list cs.
Proof.
  induction 1 as [|fl c fls cs Hp _ (HB & HU & HC & cs' & Hcs & Hle)]; simpl.
  { split_and!; try done. exists []. simpl. split; [constructor|lia]. }
  inversion Hp as [m an t n Hm Hb Hn|m an t n Hb|m an open r]; subst; simpl.
  - split_and!; [by constructor|done|intros t'; by rewrite HC|]. exists (n + 1 :: cs'). split; [by repeat constructor|simpl; lia].
  - split_and!; [done|done|intros t'; by rewrite HC|]. exists (n + 1 :: cs'). split; [by repeat constructor|simpl; lia].
  - replace (unsettled (InFlight m an open (Finishing r))) with (@nil message) by (by destruct open). simpl.
    split_and!; [done|done|intros t'; by rewrite HC|]. exists (1 :: cs'). split; [by repeat constructor|simpl; lia].
Qed.

Lemma close_turned sv n :
  sound sv n -> concat (map unsettled (sv_flights sv)) <> [] ->
  turned sv (close_channel sv) /\ exists n', sound (close_channel sv) n' /\ n' < n.
Proof.
  intros [Hrun HF (cs & Hcs & ->)] Hne. destruct (close_paced _ _ Hcs) as (HB & HU & HC & cs' & Hcs' & Hle).
  unfold close_channel. set (ms := concat (map unsettled (sv_flights sv))) in *.
  destruct (give_back_all ms (goes_on (sv_process sv) (map closed (sv_flights sv)) sv) HB)
    as (Ep & Ef & Ea & Ed & back & lim & Er & El & Hid & HBk & HL & Hb).
  set (sv' := foldr give_back _ ms) in *. simpl in Ep, Ef, Ea, Ed, Er, El. split.
  - apply (moved_turned _ _ back [] [] lim); rewrite ?Ep, ?Ef, ?Ea, ?Ed; simpl; rewrite ?app_nil_r; try done.
    + rewrite HU, app_nil_r. exact Hid.
    + intros t. by rewrite HC.
  - exists (turns * (budget (sv_ready sv) + budget back) + sum_list cs'). split.
    + split; rewrite ?Ep, ?Er, ?Ef; [done|by apply Forall_app|]. exists cs'. by rewrite budget_app.
    + destruct ms; [done|]. simpl in Hle, Hb. simpl. lia.
Qed.

Lemma mod_lookup {A} (l : list A) i : l <> [] -> exists x, l !! (i mod length l) = Some x.
Proof.
  intros Hl. apply lookup_lt_is_Some_2, Nat.mod_upper_bound. by destruct l.
Qed.

Lemma resume_at_turned c sv n :
  sound sv n -> sv_flights sv <> [] -> turned sv (resume_at c sv) /\ exists n', sound (resume_at c sv) n' /\ n' < n.
Proof.
  intros Hs Hf. unfold resume_at. destruct (mod_lookup (sv_flights sv) (tu_index c) Hf) as [[m an open [[r|s]|r]] Hi]; rewrite Hi.
  - by apply settled_turned.
  - by apply segment_turned.
  - by apply finished_turned.
Qed.

Lemma hand_out_at_turned c sv n :
  sound sv n -> sv_ready sv <> [] ->
  let sv' := hand_out_at cfg refresh_updated_at CONSUMER_CANCEL_DELAY c sv in turned sv sv' /\ exists n', sound sv' n' /\ n' < n.
Proof.
  intros Hs Hr. unfold hand_out_at. destruct (mod_lookup (sv_ready sv) (tu_index c) Hr) as [m Hi]. rewrite Hi.
  by apply hand_out_turned.
Qed.

(** A turn is progress while anything is left to do. *)
Lemma step_turned sv n c :
  sound sv n ->
  drained sv /\ step sv c = sv \/ turned sv (step sv c) /\ exists n', sound (step sv c) n' /\ n' < n.
Proof.
  intros Hs. destruct (step_cases cfg refresh_updated_at CONSUMER_CANCEL_DELAY sv c)
    as [[Hd E]|[(_ & Hne & E)|[[Hf E]|[Hr E]]]]; rewrite E; [by left|right..].
  - by apply close_turned.
  - by apply resume_at_turned.
  - by apply hand_out_at_turned.
Qed.

Lemma drained_run schedule sv : drained sv -> run_service sv schedule = sv.
Proof.
  intros Hd. induction schedule as [|c schedule IH]; [done|]. unfold service_run in *. simpl.
  by rewrite (drained_step cfg refresh_updated_at CONSUMER_CANCEL_DELAY).
Qed.

(** A run: nothing is lost, and in time nothing is left. *)
Lemma run_turned schedule sv n :
  sound sv n ->
  turned sv (run_service sv schedule) /\ (exists n', sound (run_service sv schedule) n') /\
  (n <= length schedule -> drained (run_service sv schedule)).
Proof.
  revert sv n. induction schedule as [|c schedule IH]; intros sv n Hs; simpl.
  - split; [apply turned_refl|]. split; [by exists n|]. intros Hn.
    destruct (step_turned sv n (Turn Resumes 0 (Answers 0 0 0 None None (fun _ => None) None None None None (fun _ => None))) Hs)
      as [[Hd _]|(_ & n' & _ & Hlt)]; [done|lia].
  - destruct (step_turned sv n c Hs) as [[Hd Heq]|(Ht & n' & Hs' & Hlt)].
    + unfold service_run. simpl. rewrite Heq. fold (run_service sv schedule). rewrite drained_run by done.
      split; [apply turned_refl|]. split; [by exists n|done].
    + destruct (IH _ _ Hs') as (HT & HS & HD). split; [by eapply turned_trans|]. split; [done|]. intros Hn. apply HD. simpl in Hn. lia.
Qed.

Lemma sound_started p ms : running p -> Forall in_budget ms -> sound (started p ms) (turns * budget ms).
Proof. intros Hrun HF. split; simpl; [done|done|]. exists []. split; [constructor|]. simpl. lia. Qed.

Lemma sound_answering sv n : sound sv n -> answering sv.
Proof.
  intros [_ _ (cs & Hcs & _)]. unfold answering. induction Hcs as [|fl c fls cs Hp _ IH]; [done|]. constructor; [|done].
  inversion Hp; subst; simpl; eauto.
Qed.

(** While nothing goes wrong at the broker, it dead-letters nothing itself. *)
Lemma run_calm schedule sv n :
  sound sv n -> undisturbed sv -> calm schedule -> sv_limited (run_service sv schedule) = sv_limited sv.
Proof.
  intros Hs Hu Hc. revert sv n Hs Hu. induction Hc as [|c schedule Hc _ IH]; intros sv n Hs Hu; [done|].
  destruct (step_undisturbed cfg refresh_updated_at CONSUMER_CANCEL_DELAY c sv (sound_answering _ _ Hs) Hu Hc) as [Hu' Hl].
  unfold service_run in *. simpl. destruct (step_turned sv n c Hs) as [[_ Heq]|(_ & n' & Hs' & _)].
  - rewrite Heq. by apply (IH sv n).
  - rewrite (IH _ _ Hs' Hu'). apply Hl, (sd_running _ _ Hs).
Qed.

(** C4: with deliveries in flight together every queue drains. Take any messages
    in a running service's queues and any schedule: messages handed out in any
    order while others are handled, handlers resumed in any order at their
    awaits, channels that close under them, with any answers of the database, the
    pool and the broker, a message's own settlement included. Within
    [521 * (2 * |types| + 13)] turns a message the queues are empty and nothing is
    in flight; every message is acknowledged, rejected, or dead-lettered by the
    broker because it came back unsettled more than 20 times, exactly once and
    within its budget of 521 hand-outs; and every type's counter has risen by
    exactly the records whose acknowledgement the broker took. When every
    settlement is taken and no channel closes, the broker dead-letters none. *)
Theorem prefetch_drains schedule p ms :
  running p -> Forall in_budget ms ->
  turns * (521 * length ms) <= length schedule ->
  let sv := run_service (started p ms) schedule in
  drained sv /\ running (sv_process sv) /\
  map identity ((sv_acked sv).*1 ++ (sv_dead sv).*1 ++ sv_limited sv) ≡ₚ map identity ms /\
  Forall (fun mr => dr_settlement mr.2 = ACK /\ in_budget mr.1) (sv_acked sv) /\
  Forall (fun mr => dr_settlement mr.2 = REJECT /\ in_budget mr.1) (sv_dead sv) /\
  Forall (fun m => m_returns m = DELIVERY_LIMIT + 1)%Z (sv_limited sv) /\
  (calm schedule -> sv_limited sv = []) /\
  forall t n, counts_of p !! t = Some n ->
    counts_of (sv_process sv) !! t = Some (n + Z.of_nat (length (filter (acknowledged t) (sv_acked sv))))%Z.
Proof.
  intros Hrun HF Hlen sv. pose proof (sound_started p ms Hrun HF) as Hs. pose proof (budget_bound ms HF) as Hb.
  destruct (run_turned schedule _ _ Hs) as ([M (a & A & G) (d & D & K) (l & L & J) C] & (n' & [Hrun' _ _]) & Hd).
  assert (drained sv) as Hdr by (apply Hd; nia). fold sv in M, A, D, L, C, Hrun'. simpl in A, D, L. rewrite A, D, L.
  split_and!; [done|done| |done|done|done| |].
  - unfold every_message in M. destruct Hdr as [Hr Hf]. rewrite Hr, Hf, A, D, L in M. simpl in M. by rewrite app_nil_r in M.
  - intros Hc. rewrite <- L. apply (run_calm schedule _ _ Hs); [by split|done].
  - intros t n Hn. rewrite (C t n Hn). unfold tally. destruct Hdr as [_ Hf]. rewrite Hf, A. simpl. f_equal. lia.
Qed.
End draining.

(** ** The child tables *)

Section rows.
Context `{PyRepr} `{Postgres} `{Common} `{Collation} `{Shared} `{!SharedLaws}.
Context (cfg : purge_config) (CONSUMER_CANCEL_DELAY : Z).

Abbreviation step := (service_step cfg true CONSUMER_CANCEL_DELAY).
Abbreviation run_service := (service_run cfg true CONSUMER_CANCEL_DELAY).

(** The deliveries whose handler answered: acknowledged, or their settlement
    raised after the record was committed. *)
Definition answered (sv : service) : list (message * delivery_result) := sv_acked sv ++ sv_failed sv.

(** What a delivery in flight has named so far. *)
Inductive naming (B : Z) : delivery -> list string * list link_key -> Prop :=
| naming_handling m an open t rs ls n :
    starts_by B m -> safe B m rs ls t -> behaves n t -> naming B (InFlight m an open (Handling t)) (rs, ls)
| naming_finishing m an open r : starts_by B m -> naming B (InFlight m an open (Finishing r)) ([], []).

(** From the database [d0], the tables have evolved by what was answered and
    what is in flight. *)
Record tracked (B : Z) (d0 : db) (sv : service) : Prop := Tracked {
  tr_bounded : bounded B (sv_process sv);
  tr_ready : Forall (starts_by B) (sv_ready sv);
  tr_evolves : exists ns, Forall2 (naming B) (sv_flights sv) ns /\
    child_evolves B (named_relationships (answered sv) ++ concat (map fst ns))
      (named_links (answered sv) ++ concat (map snd ns)) d0 (p_db (sv_process sv));
}.

Lemma child_evolves_ext B rels links rels' links' d d' :
  rels ≡ₚ rels' -> links ≡ₚ links' -> child_evolves B rels links d d' -> child_evolves B rels' links' d d'.
Proof. intros Hr Hl [Er El]. split; (eapply evolves_ext; [|eassumption]); intros k; by rewrite ?Hr, ?Hl. Qed.

Lemma give_back_tracked B d0 m sv : starts_by B m -> tracked B d0 sv -> tracked B d0 (give_back m sv).
Proof.
  intros Hm [Hb Hr He]. unfold give_back. destruct (past_limit _); (split; simpl; [done| |exact He]); [done|].
  apply Forall_app. split; [done|]. by apply Forall_singleton.
Qed.

Lemma hand_out_tracked B d0 an m i sv :
  tracked B d0 sv -> sv_ready sv !! i = Some m -> (B <= an_now an)%Z ->
  tracked B d0 (hand_out cfg true CONSUMER_CANCEL_DELAY an m (set_ready (delete i (sv_ready sv)) sv)).
Proof.
  intros [Hb Hr (ns & Hns & He)] Hi Hn.
  assert (starts_by B m) as Hm by (rewrite Forall_forall in Hr; apply Hr; by eapply list_elem_of_lookup_2).
  unfold hand_out. destruct (_ || _).
  - apply give_back_tracked; [done|]. split; simpl; [done|by apply Forall_delete|by exists ns].
  - split; simpl; [done|by apply Forall_delete|]. exists (ns ++ [([], [])]). split.
    + apply Forall2_app; [done|]. constructor; [|done]. econstructor; [done|by apply safe_handle|apply behaves_handle].
    + unfold answered in *. simpl. by rewrite !map_app, !concat_app; simpl; rewrite !app_nil_r.
Qed.

Lemma segment_tracked B d0 i m an open s sv :
  tracked B d0 sv -> sv_flights sv !! i = Some (InFlight m an open (Handling (TStep s))) ->
  tracked B d0 (resume i (InFlight m an open (Handling (TStep s))) sv).
Proof.
  intros [Hb Hr (ns & Hns & He)] Hi. destruct (Forall2_lookup_l _ _ _ _ _ Hns Hi) as ([rs ls] & Hn & Hnm).
  inversion Hnm as [? ? ? ? ? ? [|n] Hm Hs Hbh|]; subst; [done|]. specialize (Hs _ Hb). simpl in Hs, Hbh |- *.
  specialize (Hbh (sv_process sv)). destruct (s (sv_process sv)) as [p t]. destruct Hbh as [_ Hbh].
  destruct Hs as (rs' & ls' & He' & Hb' & Hs'). split; simpl; [done|done|].
  exists (<[i := (rs ++ rs', ls ++ ls')]> ns). split; [apply Forall2_insert; [done|by econstructor]|].
  pose proof (flat_insert fst _ _ _ (rs ++ rs', ls ++ ls') Hn) as Hf. pose proof (flat_insert snd _ _ _ (rs ++ rs', ls ++ ls') Hn) as Hg.
  simpl in Hf, Hg. rewrite (Permutation_app_comm _ rs), <- app_assoc in Hf. rewrite (Permutation_app_comm _ ls), <- app_assoc in Hg.
  apply Permutation_app_inv_l in Hf, Hg.
  refine (child_evolves_ext _ _ _ _ _ _ _ _ _ (child_evolves_trans _ _ _ _ _ _ _ _ He He')).
  - rewrite Hf. unfold answered. simpl. solve_Permutation.
  - rewrite Hg. unfold answered. simpl. solve_Permutation.
Qed.

(** The runner settles as processed what the handler answered so. *)
Lemma ran_rows m r s p :
  match r with Ok r1 => final r1 | Raise _ => True end ->
  exists res p', ran m r s p = (settling s res, p') /\ p_db p' = p_db p /\ (forall B, bounded B p -> bounded B p') /\
    rows_if (Ok res) m = rows_if r m.
Proof.
  intros Hf. destruct (ran_run m r s p Hf) as (res & p' & Hr & Hp & _ & Hres). exists res, p'. split; [done|].
  assert (p_db p' = p_db p /\ (forall B, bounded B p -> bounded B p')) as [? ?] by (by destruct Hp as [->| ->]). split_and!; [done|done|].
  destruct r as [r1|e]; [by subst|]. unfold rows_if, is_processed. simpl. by rewrite bool_decide_eq_false_2.
Qed.

Lemma named_snoc acked m r :
  named_relationships (acked ++ [(m, r)]) = named_relationships acked ++ (rows_if (Ok r) m).1 /\
  named_links (acked ++ [(m, r)]) = named_links acked ++ (rows_if (Ok r) m).2.
Proof.
  destruct (named_app acked [(m, r)]) as [-> ->]. unfold named_relationships, named_links, rows_if. simpl. rewrite !app_nil_r.
  by destruct (is_processed (m, r)).
Qed.

(** A flight that leaves its handler with [rs] and [ls] named hands them over to
    what was answered: [new] more of it. *)
Lemma answered_tracked B d0 rs ls ns ns' new sv sv' :
  child_evolves B (named_relationships (answered sv) ++ concat (map fst ns))
    (named_links (answered sv) ++ concat (map snd ns)) d0 (p_db (sv_process sv)) ->
  bounded B (sv_process sv') -> p_db (sv_process sv') = p_db (sv_process sv) ->
  Forall (starts_by B) (sv_ready sv') -> Forall2 (naming B) (sv_flights sv') ns' ->
  concat (map fst ns') ++ rs ≡ₚ concat (map fst ns) -> concat (map snd ns') ++ ls ≡ₚ concat (map snd ns) ->
  answered sv' ≡ₚ answered sv ++ new -> (named_relationships new, named_links new) = (rs, ls) -> tracked B d0 sv'.
Proof.
  intros He Hb' Hd Hr Hns' Hf Hg Ha [= Hnr Hnl]. split; [done|done|]. rewrite Hd. exists ns'. split; [done|].
  assert (named_relationships (answered sv') ≡ₚ named_relationships (answered sv) ++ rs) as Hr1.
  { unfold named_relationships in *. rewrite <- Hnr. rewrite <- concat_app, <- map_app. by rewrite Ha. }
  assert (named_links (answered sv') ≡ₚ named_links (answered sv) ++ ls) as Hl1.
  { unfold named_links in *. rewrite <- Hnl. rewrite <- concat_app, <- map_app. by rewrite Ha. }
  refine (child_evolves_ext _ _ _ _ _ _ _ _ _ He); [rewrite Hr1, <- Hf|rewrite Hl1, <- Hg]; solve_Permutation.
Qed.

(** What one result names. *)
Lemma named_one m r : (named_relationships [(m, r)], named_links [(m, r)]) = rows_if (Ok r) m.
Proof. unfold named_relationships, named_links, rows_if. simpl. rewrite !app_nil_r. by destruct (is_processed (m, r)). Qed.

Lemma named_unless m res rs ls : dr_settlement res <> ACK -> rows_if (Ok res) m = (rs, ls) -> rs = [] /\ ls = [].
Proof. intros Hne. unfold rows_if, is_processed. simpl. rewrite bool_decide_eq_false_2 by done. by intros [= <- <-]. Qed.

Lemma accepted_tracked B d0 i m an open t rs ls ns res p' sv :
  tracked B d0 sv -> sv_flights sv !! i = Some (InFlight m an open (Handling t)) -> starts_by B m ->
  Forall2 (naming B) (sv_flights sv) ns -> ns !! i = Some (rs, ls) ->
  child_evolves B (named_relationships (answered sv) ++ concat (map fst ns))
    (named_links (answered sv) ++ concat (map snd ns)) d0 (p_db (sv_process sv)) ->
  bounded B p' -> p_db p' = p_db (sv_process sv) -> rows_if (Ok res) m = (rs, ls) ->
  tracked B d0 (settle_message m res (goes_on p' (<[i := InFlight m an open (Finishing res)]> (sv_flights sv)) sv)).
Proof.
  intros Ht Hi Hm Hns Hn He Hb' Hd Hrows. pose proof (tr_ready _ _ _ Ht) as Hr.
  assert (Forall2 (naming B) (<[i := InFlight m an open (Finishing res)]> (sv_flights sv)) (<[i := ([], [])]> ns)) as Hns'
    by (apply Forall2_insert; [done|by constructor]).
  pose proof (flat_insert fst _ _ _ ([], []) Hn) as Hf. pose proof (flat_insert snd _ _ _ ([], []) Hn) as Hg. simpl in Hf, Hg.
  assert (forall ready' , Forall (starts_by B) ready' -> rs = [] /\ ls = [] -> forall sv', sv_process sv' = p' -> sv_ready sv' = ready' ->
    sv_flights sv' = <[i := InFlight m an open (Finishing res)]> (sv_flights sv) -> answered sv' = answered sv -> tracked B d0 sv') as Hquiet.
  { intros ready' Hready [-> ->] sv' Ep Er Ef Ea. rewrite <- Ep in Hb', Hd.
    apply (answered_tracked B d0 [] [] ns (<[i := ([], [])]> ns) [] sv); rewrite ?Er, ?Ef, ?Ea; try done. by rewrite app_nil_r. }
  assert (Forall (starts_by B) (sv_ready sv ++ [handed_back m])) as Hback by (apply Forall_app; split; [done|by apply Forall_singleton]).
  assert (dr_settlement res <> ACK -> rs = [] /\ ls = []) as Hno by (intros Hne; by eapply named_unless).
  unfold settle_message. destruct (dr_settlement res) eqn:E.
  - apply (answered_tracked B d0 rs ls ns (<[i := ([], [])]> ns) [(m, res)] sv); simpl; try done; [|by rewrite named_one].
    unfold answered. simpl. solve_Permutation.
  - by apply (Hquiet (sv_ready sv)); [|apply Hno|..].
  - by apply (Hquiet _ Hback); [apply Hno|..].
  - apply give_back_tracked; [done|]. by apply (Hquiet (sv_ready sv)); [|apply Hno|..].
Qed.

Lemma settled_tracked B d0 i m an open r sv :
  tracked B d0 sv -> sv_flights sv !! i = Some (InFlight m an open (Handling (TDone r))) ->
  tracked B d0 (resume i (InFlight m an open (Handling (TDone r))) sv).
Proof.
  intros Ht Hi. pose proof Ht as [Hb Hr (ns & Hns & He)].
  destruct (Forall2_lookup_l _ _ _ _ _ Hns Hi) as ([rs ls] & Hn & Hnm).
  inversion Hnm as [? ? ? ? ? ? n Hm Hs Hbh|]; subst. apply behaves_final in Hbh. simpl in Hs.
  destruct (ran_rows m r (settles open an) (sv_process sv) Hbh) as (res & p' & Hran & Hd & Hb' & Hrows). rewrite Hs in Hrows.
  specialize (Hb' B Hb). unfold resume. rewrite Hran. unfold settling. destruct (settles open an (dr_settlement res)) as [e|].
  2: by apply (accepted_tracked B d0 i m an open (TDone r) rs ls ns).
  pose proof (flat_delete fst _ _ _ Hn) as Hf. pose proof (flat_delete snd _ _ _ Hn) as Hg. simpl in Hf, Hg.
  set (sv1 := settle_failed m r (goes_on p' (delete i (sv_flights sv)) sv)).
  assert (tracked B d0 sv1) as Ht1; [|destruct open; [by apply give_back_tracked|done]].
  apply (answered_tracked B d0 rs ls ns (delete i ns) (match r with Ok res => [(m, res)] | Raise _ => [] end) sv); simpl; try done.
  - by apply Forall2_delete.
  - by rewrite Permutation_app_comm.
  - by rewrite Permutation_app_comm.
  - unfold answered, sv1. simpl. solve_Permutation.
  - destruct r as [r1|e1]; [by rewrite named_one|exact Hs].
Qed.

Lemma finished_tracked B d0 i m an open r sv :
  tracked B d0 sv -> sv_flights sv !! i = Some (InFlight m an open (Finishing r)) ->
  tracked B d0 (resume i (InFlight m an open (Finishing r)) sv).
Proof.
  intros [Hb Hr (ns & Hns & He)] Hi. destruct (Forall2_lookup_l _ _ _ _ _ Hns Hi) as (n & Hn & Hnm).
  inversion Hnm; subst. unfold resume. rewrite after_runner_run. destruct (after_settlement_keeps an (m_type m) r _ B Hb) as [Hd Hb'].
  split; simpl; [done|done|]. exists (delete i ns). split; [by apply Forall2_delete|]. rewrite Hd.
  pose proof (flat_delete fst _ _ _ Hn) as Hf. pose proof (flat_delete snd _ _ _ Hn) as Hg. simpl in Hf, Hg.
  refine (child_evolves_ext _ _ _ _ _ _ _ _ _ He); unfold answered; simpl; [by rewrite Hf|by rewrite Hg].
Qed.

Lemma naming_closed B fls ns : Forall2 (naming B) fls ns -> Forall2 (naming B) (map closed fls) ns.
Proof. induction 1 as [|fl n fls ns Hn _ IH]; simpl; constructor; [|done]. inversion Hn; subst; by econstructor. Qed.

Lemma unsettled_starts B fls ns : Forall2 (naming B) fls ns -> Forall (starts_by B) (concat (map unsettled fls)).
Proof.
  induction 1 as [|fl n fls ns Hn _ IH]; simpl; [done|]. apply Forall_app. split; [|done].
  inversion Hn as [? ? [] ?|? ? [] ?]; subst; by repeat constructor.
Qed.

Lemma close_tracked B d0 sv : tracked B d0 sv -> tracked B d0 (close_channel sv).
Proof.
  intros [Hb Hr (ns & Hns & He)]. unfold close_channel. pose proof (unsettled_starts _ _ _ Hns) as Hs.
  induction Hs as [|m ms Hm _ IH]; simpl; [|by apply give_back_tracked].
  split; simpl; [done|done|]. exists ns. split; [by apply naming_closed|done].
Qed.

Lemma step_tracked B d0 c sv : tracked B d0 sv -> (B <= an_now (tu_answers c))%Z -> tracked B d0 (step sv c).
Proof.
  intros Ht Hc. destruct (step_cases cfg true CONSUMER_CANCEL_DELAY sv c) as [[_ E]|[(_ & _ & E)|[[_ E]|[_ E]]]]; rewrite E; [done|..].
  - by apply close_tracked.
  - unfold resume_at. destruct (sv_flights sv !! _) as [[m an open [[r|s]|r]]|] eqn:Hi; [..|done].
    + by apply settled_tracked.
    + by apply segment_tracked.
    + by apply finished_tracked.
  - unfold hand_out_at. destruct (sv_ready sv !! _) as [m|] eqn:Hi; [by apply hand_out_tracked|done].
Qed.

Lemma tracked_answering B d0 sv : tracked B d0 sv -> answering sv.
Proof.
  intros [_ _ (ns & Hns & _)]. unfold answering. induction Hns as [|fl n fls ns Hn _ IH]; [done|]. constructor; [|done].
  inversion Hn; subst; simpl; eauto.
Qed.

Lemma run_tracked B d0 schedule sv :
  tracked B d0 sv -> Forall (fun c => B <= an_now (tu_answers c))%Z schedule ->
  tracked B d0 (run_service sv schedule) /\ (undisturbed sv -> calm schedule -> sv_failed (run_service sv schedule) = []).
Proof.
  intros Ht Hn. revert sv Ht. induction Hn as [|c schedule Hc _ IH]; intros sv Ht; [by split; [|intros []]|].
  destruct (IH (step sv c)) as [IH1 IH2]; [by apply step_tracked|]. split; [done|]. intros Hu [Hcalm Hcs]%Forall_cons_1.
  apply IH2; [|done]. by apply step_undisturbed; [eapply tracked_answering|..].
Qed.

Lemma tracked_started B p ms : bounded B p -> Forall (starts_by B) ms -> tracked B (p_db p) (started p ms).
Proof. intros Hb HF. split; [done|done|]. exists []. split; [constructor|apply child_evolves_refl]. Qed.

(** C5: what deliveries in flight together leave in the child tables. Whatever
    the schedule of an extraction that began at [B] (records beside signals, two
    signals' purges beside each other, settlements that raise, channels that
    close, redeliveries after any of them), a key that a committed record named
    (one acknowledged, or answered as processed before its settlement raised)
    holds a row no older than [B], while others are still in flight; and once
    nothing is in flight every other key holds what it held before, unless it was
    stale and is gone. When every settlement is taken and no channel closes, the
    committed records are the acknowledged ones. *)
Theorem prefetch_rows schedule p ms B :
  bounded B p -> Forall (starts_by B) ms -> Forall (fun c => B <= an_now (tu_answers c))%Z schedule ->
  let sv := run_service (started p ms) schedule in
  let d := p_db p in let d' := p_db (sv_process sv) in
  let rels := named_relationships (sv_acked sv ++ sv_failed sv) in let links := named_links (sv_acked sv ++ sv_failed sv) in
  (forall k, k ∈ rels -> exists r, relationships d' !! k = Some r /\ (B <= rel_updated_at r)%Z) /\
  (forall k, k ∈ links -> exists t, external_links d' !! k = Some t /\ (B <= t)%Z) /\
  (sv_flights sv = [] ->
    (forall k, k ∉ rels -> relationships d' !! k = relationships d !! k \/
       relationships d' !! k = None /\ exists r, relationships d !! k = Some r /\ (rel_updated_at r < B)%Z) /\
    (forall k, k ∉ links -> external_links d' !! k = external_links d !! k \/
       external_links d' !! k = None /\ exists t, external_links d !! k = Some t /\ (t < B)%Z)) /\
  (calm schedule -> sv_failed sv = []).
Proof.
  intros Hb HF Hn sv d d' rels links.
  destruct (run_tracked B d schedule _ (tracked_started B p ms Hb HF) Hn) as [[_ _ (ns & Hns & [[R1 R2] [L1 L2]])] Hcalm].
  fold sv in Hns, R1, R2, L1, L2, Hcalm. fold d' in R1, R2, L1, L2. split_and!.
  - intros k Hk. apply R1, elem_of_app. by left.
  - intros k Hk. apply L1, elem_of_app. by left.
  - intros Hnone. rewrite Hnone in Hns. inversion Hns; subst. simpl in R2, L2. rewrite app_nil_r in R2, L2. by split.
  - by apply Hcalm.
Qed.

End rows.
