(* ===== verification/Progress.v ===== *)
(** * The progress reporter

    One round of [progress_reporter] of [brainztableinator/brainztableinator.py]
    after its sleep: idle mode, the stalled and slow streams it names, and what it
    logs. Times are microseconds. *)

From S2P Require Import Prelude PyValue QueueNames Consumers.
From stdpp Require Import base gmap strings list option sorting.
From Stdlib Require Import ZArith Lia.

(** The log lines of a round. *)
Inductive report : Type :=
| EnteringIdle
| Resuming
| StillIdle
| Stalled (types : list string)
| ProgressLine (total : Z) (parts : list (bool * string * Z))
| WaitingForMessages
| AllActive
| SlowConsumers (types : list string)
| CanceledConsumers (types : list string)
| ActiveConsumers (types : list string).

(** The sleep before round [report_count], in seconds. *)
Definition report_interval (report_count : nat) : Z := if (report_count <? 3)%nat then 10 else 30.

Section progress.
(** [STARTUP_IDLE_TIMEOUT] and [IDLE_LOG_INTERVAL], in microseconds. *)
Context (STARTUP_IDLE_TIMEOUT IDLE_LOG_INTERVAL : Z).

Definition total_messages (st : consumers) : Z := sumZ (map_to_list (message_counts (c_traffic st))).*2.

Definition last_time (st : consumers) (data_type : string) : Z := default 0%Z (last_message_time (c_traffic st) !! data_type).

Definition all_complete (st : consumers) : bool :=
  (size (completed_files (c_traffic st)) =? length MUSICBRAINZ_DATA_TYPES)%nat.

(** A stream that is not complete and went silent for two minutes. *)
Definition stopped_after_start (now : Z) (st : consumers) (t : string) : bool :=
  bool_decide (t ∉ completed_files (c_traffic st)) && (0 <? last_time st t)%Z && (120000000 <? now - last_time st t)%Z.

(** The alarm types, and after them the streams that stopped. *)
Definition stalled_consumers (now : Z) (st : consumers) : list string :=
  let alarms := consumer_alarm_types STARTUP_IDLE_TIMEOUT now st in
  alarms ++ filter (fun t => stopped_after_start now st t = true /\ t ∉ alarms) MUSICBRAINZ_DATA_TYPES.

Definition slow_consumers (now : Z) (st : consumers) : list string :=
  filter (fun t => 0 < last_time st t /\ 5000000 < now - last_time st t < 120000000)%Z MUSICBRAINZ_DATA_TYPES.

(** [[x]] when there is something to name, [[]] otherwise. *)
Definition named (r : list string -> report) (l : list string) : list report :=
  match l with [] => [] | _ => [r l] end.

(** The lines of a round that is neither complete nor idle. *)
Definition progress_lines (now : Z) (st : consumers) : list report :=
  let done_ t := bool_decide (t ∈ completed_files (c_traffic st)) in
  named Stalled (stalled_consumers now st) ++
  [ProgressLine (total_messages st)
     (map (fun t => (done_ t, t, default 0%Z (message_counts (c_traffic st) !! t))) MUSICBRAINZ_DATA_TYPES)] ++
  (if (total_messages st =? 0)%Z then [WaitingForMessages]
   else if forallb (fun t => negb (0 <? last_time st t) || (now - last_time st t <? 5000000))%Z MUSICBRAINZ_DATA_TYPES
   then [AllActive]
   else named SlowConsumers (slow_consumers now st)) ++
  named CanceledConsumers (filter (fun t => tag st t = None /\ done_ t = true) MUSICBRAINZ_DATA_TYPES) ++
  named ActiveConsumers (consumer_tags (c_registry st)).*1.

(** One round: the time of the last idle line, the state, and the lines. *)
Definition report_round (startup_time now last_idle_log : Z) (st : consumers) : Z * consumers * list report :=
  if all_complete st then (last_idle_log, st, [])
  else
    let total := total_messages st in
    if negb (idle_mode st) && (total =? 0)%Z && (STARTUP_IDLE_TIMEOUT <=? now - startup_time)%Z then
      (now, set_idle_mode true st, [EnteringIdle])
    else if idle_mode st then
      if (0 <? total)%Z then (last_idle_log, set_idle_mode false st, [Resuming])
      else if (IDLE_LOG_INTERVAL <=? now - last_idle_log)%Z then (now, st, [StillIdle])
      else (last_idle_log, st, [])
    else (last_idle_log, st, progress_lines now st).

(** ** Facts *)

Lemma stalled_consumers_NoDup now st : NoDup (stalled_consumers now st).
Proof.
  unfold stalled_consumers. apply NoDup_app. split_and!.
  - unfold consumer_alarm_types. case_match; [constructor|]. apply NoDup_filter, entity_types_NoDup.
  - intros t Ht Hf. apply list_elem_of_filter in Hf as [[_ Hn] _]. done.
  - apply NoDup_filter, entity_types_NoDup.
Qed.

Lemma elem_of_stalled now st t :
  t ∈ stalled_consumers now st <->
  t ∈ consumer_alarm_types STARTUP_IDLE_TIMEOUT now st \/
  t ∈ MUSICBRAINZ_DATA_TYPES /\ stopped_after_start now st t = true.
Proof.
  unfold stalled_consumers. rewrite elem_of_app, list_elem_of_filter.
  destruct (decide (t ∈ consumer_alarm_types STARTUP_IDLE_TIMEOUT now st)); tauto.
Qed.

Lemma elem_of_named r r0 l : r ∈ named r0 l -> r = r0 l /\ l <> [].
Proof. destruct l; simpl; [by intros ?%not_elem_of_nil|]. by intros ->%list_elem_of_singleton. Qed.

(** Only the first line of a round names stalled streams. *)
Lemma elem_of_progress_lines now st l :
  Stalled l ∈ progress_lines now st -> l = stalled_consumers now st /\ l <> [].
Proof.
  unfold progress_lines. rewrite !elem_of_app. intros [Hl|[Hl|[Hl|[Hl|Hl]]]].
  - apply elem_of_named in Hl as [[= ->] ?]. done.
  - by apply list_elem_of_singleton in Hl.
  - repeat case_match; try (by apply list_elem_of_singleton in Hl). by apply elem_of_named in Hl as [? _].
  - by apply elem_of_named in Hl as [? _].
  - by apply elem_of_named in Hl as [? _].
Qed.

(** A round of the reporter only reports. It changes nothing but idle mode,
    which it enters exactly when no message has come within the startup timeout
    and leaves exactly when one has; it is silent once every type is complete;
    and the streams it calls stalled are, each once, the ones in alarm and the
    incomplete ones silent for more than two minutes. *)
Theorem report_round_spec startup_time now last_idle_log st :
  let '(log', st', lines) := report_round startup_time now last_idle_log st in
  st' = set_idle_mode (idle_mode st') st /\
  (all_complete st = true -> st' = st /\ lines = [] /\ log' = last_idle_log) /\
  (all_complete st = false -> idle_mode st = false ->
     idle_mode st' = bool_decide (total_messages st = 0 /\ STARTUP_IDLE_TIMEOUT <= now - startup_time)%Z) /\
  (all_complete st = false -> idle_mode st = true -> idle_mode st' = bool_decide (total_messages st <= 0)%Z) /\
  (forall l, Stalled l ∈ lines -> NoDup l /\ l <> [] /\
     forall t, t ∈ l <-> t ∈ consumer_alarm_types STARTUP_IDLE_TIMEOUT now st \/
                         t ∈ MUSICBRAINZ_DATA_TYPES /\ stopped_after_start now st t = true).
Proof.
  assert (st = set_idle_mode (idle_mode st) st) as Hself by by destruct st.
  unfold report_round. destruct (all_complete st) eqn:Ec.
  { split_and!; try done. intros l Hl. by apply not_elem_of_nil in Hl. }
  destruct (idle_mode st) eqn:Ei; simpl.
  { destruct (0 <? total_messages st)%Z eqn:Et; [|destruct (_ <=? _)%Z]; simpl; rewrite ?Z.ltb_lt, ?Z.ltb_ge in Et;
      (split_and!; [by rewrite ?Ei|done|by rewrite ?Ei| |intros l Hl]);
      try (apply list_elem_of_singleton in Hl); try (apply not_elem_of_nil in Hl); try done;
      intros _ _; symmetry; rewrite ?Ei; (apply bool_decide_eq_true; lia) || (apply bool_decide_eq_false; lia). }
  destruct ((total_messages st =? 0)%Z && _) eqn:Et; simpl.
  - rewrite andb_true_iff, Z.eqb_eq, Z.leb_le in Et.
    split_and!; [done|done| |done|intros l Hl; by apply list_elem_of_singleton in Hl].
    intros _ _. symmetry. by apply bool_decide_eq_true.
  - rewrite andb_false_iff, Z.eqb_neq, Z.leb_gt in Et.
    split_and!; [by rewrite Ei|done| |by rewrite Ei|].
    + intros _ _. rewrite Ei. symmetry. apply bool_decide_eq_false. lia.
    + intros l Hl. apply elem_of_progress_lines in Hl as [-> Hne].
      split_and!; [apply stalled_consumers_NoDup|done|apply elem_of_stalled].
Qed.
End progress.
