(* ===== verification/Loops.v ===== *)
(** * The two loops beside the consumers

    [periodic_queue_checker] and [progress_reporter] of
    [brainztableinator/brainztableinator.py] as loops: each turn is a sleep, during
    which the other tasks run, and one round ([periodic_check] of [Consumers.v],
    [report_round] of [Progress.v]). *)

From S2P Require Import Prelude PyValue QueueNames Consumers ConsumersFacts ConsumerLifecycle Delivery Progress.
From stdpp Require Import base gmap strings list option sorting.
From Stdlib Require Import ZArith Lia.

Section loops.
(** [STARTUP_IDLE_TIMEOUT], [QUEUE_CHECK_INTERVAL] and [IDLE_LOG_INTERVAL], in
    microseconds. *)
Context (STARTUP_IDLE_TIMEOUT QUEUE_CHECK_INTERVAL IDLE_LOG_INTERVAL : Z).

Abbreviation step := (lifecycle_step STARTUP_IDLE_TIMEOUT QUEUE_CHECK_INTERVAL).

(** What the other tasks do to the consumers' state: a step of the lifecycle, or
    the count of a processed record. *)
Inductive task_event : Type :=
| Lifecycle (e : lifecycle_event)
| Counted (data_type : string) (now : Z).

Definition task_step (e : task_event) (st : consumers) : consumers :=
  match e with Lifecycle e => step e st | Counted t now => count_message t now st end.

Definition meanwhile (events : list task_event) (st : consumers) : consumers := foldl (fun st e => task_step e st) st events.

(** How the sleep of a turn ends: at an instant, with what the broker answers the
    round; by the task's cancellation; or by another exception, which is logged. *)
Inductive wake : Type :=
| Slept (now : Z) (br : broker)
| Cancelled
| Raised.

(** A turn: whether shutdown has been requested when the loop comes round, what
    happens during the sleep, and how it ends. *)
Record turn : Type := Turn { tn_shutdown : bool; tn_events : list task_event; tn_wake : wake }.

(** [periodic_queue_checker] from the time of its last full check, which starts at 0. *)
Fixpoint periodic_queue_checker (turns : list turn) (last_full_check : Z) (st : consumers) : consumers :=
  match turns with
  | [] => st
  | tn :: turns =>
      if tn_shutdown tn then st
      else
        let st := meanwhile (tn_events tn) st in
        match tn_wake tn with
        | Cancelled => st
        | Raised => periodic_queue_checker turns last_full_check st
        | Slept now br =>
            let '(last_full_check, st) := periodic_check STARTUP_IDLE_TIMEOUT QUEUE_CHECK_INTERVAL now br last_full_check st in
            periodic_queue_checker turns last_full_check st
        end
  end.

(** A turn of the reporter: [None] for the instant is its cancellation. *)
Record report_turn : Type := ReportTurn { rt_shutdown : bool; rt_events : list task_event; rt_now : option Z }.

(** [progress_reporter] from the round [report_count]: the state, and for each
    round its sleep in seconds and its lines. *)
Fixpoint progress_reporter (startup_time : Z) (turns : list report_turn) (report_count : nat) (last_idle_log : Z) (st : consumers)
    : consumers * list (Z * list report) :=
  match turns with
  | [] => (st, [])
  | rt :: turns =>
      if rt_shutdown rt then (st, [])
      else
        let st := meanwhile (rt_events rt) st in
        match rt_now rt with
        | None => (st, [])
        | Some now =>
            let '(last_idle_log, st, lines) :=
              report_round STARTUP_IDLE_TIMEOUT IDLE_LOG_INTERVAL startup_time now last_idle_log st in
            let '(st, rounds) := progress_reporter startup_time turns (S report_count) last_idle_log st in
            (st, (report_interval report_count, lines) :: rounds)
        end
  end.

(** ** What the tasks leave of the traffic *)

(** Only the end of a file completes a type. *)
Lemma step_traffic e st t :
  e <> FileComplete t -> t ∉ completed_files (c_traffic st) ->
  message_counts (c_traffic (step e st)) = message_counts (c_traffic st) /\ t ∉ completed_files (c_traffic (step e st)).
Proof.
  intros Hne Ht. assert (forall st', keeps_traffic st st' ->
    message_counts (c_traffic st') = message_counts (c_traffic st) /\ t ∉ completed_files (c_traffic st')) as Hk.
  { intros st' [He Hs]. split; [done|]. by intros Hin%Hs. }
  destruct e as [t'|t'|t'|id|id ok a b|now br last|ok|a b]; simpl.
  - rewrite pop_cancel_traffic. simpl. set_solver.
  - split; [done|]. assert (t' <> t) by congruence. set_solver.
  - apply Hk, same_traffic, schedule_traffic.
  - apply Hk, same_traffic, task_wakes_traffic.
  - apply Hk, same_traffic, task_answered_traffic.
  - apply Hk, periodic_check_traffic.
  - apply Hk, same_traffic, cancel_all_traffic.
  - apply Hk, same_traffic, close_traffic.
Qed.

Lemma traffic_seen_spec st : traffic_seen st = true <-> exists t n, message_counts (c_traffic st) !! t = Some n /\ (0 < n)%Z.
Proof.
  unfold traffic_seen. rewrite existsb_exists. split.
  - intros ([t n] & Hin%list_elem_of_In%elem_of_map_to_list & Hn%Z.ltb_lt). by exists t, n.
  - intros (t & n & Ht & Hn). exists (t, n). split; [by apply list_elem_of_In, elem_of_map_to_list|by apply Z.ltb_lt].
Qed.

Lemma count_message_traffic t now st :
  completed_files (c_traffic (count_message t now st)) = completed_files (c_traffic st) /\
  (traffic_seen st = true -> traffic_seen (count_message t now st) = true).
Proof.
  unfold count_message. destruct (message_counts (c_traffic st) !! t) as [n|] eqn:E; [|done]. split; [done|].
  rewrite !traffic_seen_spec. intros (k & m & Hk & Hm). simpl. destruct (decide (k = t)) as [->|Hne].
  - exists t, (n + 1)%Z. rewrite lookup_insert_eq. split; [done|]. simplify_eq. lia.
  - exists k, m. by rewrite lookup_insert_ne.
Qed.

(** ** Handles *)

(** What neither takes a handle nor adds a consumer. *)
Definition quiet (st st' : consumers) : Prop :=
  active_connection st' = active_connection st /\ active_channel st' = active_channel st /\
  (consumer_tags (c_registry st) = [] -> consumer_tags (c_registry st') = []).

#[local] Instance quiet_preorder : PreOrder quiet.
Proof. split; [by intros st|]. intros a b c (E1 & F1 & S1) (E2 & F2 & S2). split_and!; [congruence|congruence|auto]. Qed.

Lemma quiet_on_handle st st' : quiet st st' -> on_handle st -> on_handle st'.
Proof. intros (E & F & S) Hon Htags. rewrite E, F. apply Hon. auto. Qed.

Lemma cancel_task_quiet id st : quiet st (cancel_task_ id st).
Proof. unfold cancel_task_. by repeat case_match. Qed.

Lemma unregister_quiet t v st : quiet st (unregister t v st).
Proof. unfold unregister. case_match; [|done]. split_and!; [done|done|]. simpl. by intros ->. Qed.

Lemma cancel_all_quiet ok st : quiet st (cancel_all_consumers ok st).
Proof.
  unfold cancel_all_consumers. set (st1 := foldl _ _ _). transitivity st1.
  { unfold st1. generalize (map_to_list (consumer_cancel_tasks (c_timers st))).*2. intros ids. clear st1. revert st.
    induction ids as [|id ids IH]; intros st; [done|]. simpl. etrans; [apply cancel_task_quiet|apply IH]. }
  generalize (consumer_tags (c_registry st1)). intros items. generalize st1. clear.
  induction items as [|[t v] items IH]; intros st; [done|]. simpl. case_decide; [|by etrans; [|apply IH]].
  destruct (ok t); [|done]. etrans; [apply unregister_quiet|apply IH].
Qed.

Lemma close_on_handle a b st : on_handle st -> on_handle (close_rabbitmq_connection a b st).2.
Proof. intros Hon. rewrite close_spec. cbv zeta. case_match; [by intros ?|exact Hon]. Qed.

Lemma task_answered_on_handle id ok a b st : on_handle st -> on_handle (task_answered id ok a b st).
Proof.
  intros Hon. unfold task_answered. repeat (case_match; try done).
  - apply (close_on_handle a b (unregister _ _ st)), (quiet_on_handle st); [apply unregister_quiet|done].
  - apply (quiet_on_handle (unregister ct_data_type s st)); [done|]. apply (quiet_on_handle st); [apply unregister_quiet|done].
Qed.

Lemma restart_on_handle now br st ok st' :
  on_handle st -> restart_consumers now br st = (ok, st') -> ok = true -> on_handle st'.
Proof.
  intros Hon. unfold restart_consumers. destruct (backlog _ _) as [[|p pending]|]; [by intros [= _ <-]| |by intros [= _ <-]].
  destruct (br_qos br); [|by intros [= <- _]]. destruct (declare_queues _ _ _) as [[] st2] eqn:Ed; [|by intros [= <- _]].
  apply declare_queues_spec in Ed as (q & -> & _). set (st2 := set_queues q _).
  pose proof (start_consumers_handles now (p :: pending) (br_consume br) MUSICBRAINZ_DATA_TYPES st2) as [Hc _].
  destruct (start_consumers _ _ _ _ st2) as [[] st3]; [|by intros [= <- _]]. simpl in Hc. intros [= _ <-] _ _. simpl. by rewrite Hc.
Qed.

Lemma recover_on_handle now br st : on_handle st -> on_handle (recover_consumers now br st).
Proof.
  intros Hon. unfold recover_consumers. set (r := if _ : bool then _ else _).
  assert (on_handle r.2) as Hr by (unfold r; case_match; [by apply close_on_handle|done]).
  destruct r as [go st1]. simpl in Hr. destruct go; [|done]. destruct (br_connects br); [|done].
  destruct (restart_consumers now br st1) as [[] st2] eqn:E; [by eapply restart_on_handle|].
  unfold recovery_error.
  assert (on_handle (set_handles true true st2)) as Ho by done.
  apply (close_on_handle (br_error_close br).1 (br_error_close br).2) in Ho.
  destruct (close_rabbitmq_connection _ _ _) as [[] st3]; exact Ho.
Qed.

Lemma step_on_handle e st : on_handle st -> on_handle (step e st).
Proof.
  intros Hon. destruct e as [t|t|t|id|id ok a b|now br last|ok|a b]; simpl.
  - apply (quiet_on_handle st); [|done]. unfold pop_cancel. case_match; [|done]. by etrans; [|apply cancel_task_quiet].
  - exact Hon.
  - apply (quiet_on_handle st); [|done]. unfold schedule_consumer_cancellation.
    case_match; [|done]. by etrans; [apply cancel_task_quiet|].
  - apply (quiet_on_handle st); [|done]. unfold task_wakes. by repeat case_match.
  - by apply task_answered_on_handle.
  - unfold periodic_check. repeat case_match; try done; by apply recover_on_handle.
  - by apply (quiet_on_handle st); [apply cancel_all_quiet|].
  - by apply close_on_handle.
Qed.

Lemma startup_on_handle now br st : on_handle (startup_consumers now br st).2.
Proof.
  unfold startup_consumers. destruct (br_qos br); [|done]. destruct (declare_queues _ _ _) as [[] st1] eqn:Ed;
      apply declare_queues_spec in Ed as (q & -> & _); [|done]. intros _. set (st1 := set_watch now _).
    assert (forall types st, active_connection (register_all (br_consume br) types st).2 = active_connection st) as ->; [|done].
    clear. induction types as [|t types IH]; intros st; simpl; [done|]. destruct (br_consume br t); [|done]. by rewrite IH.
Qed.

Lemma count_message_ok t now st : lifecycle_ok st -> lifecycle_ok (count_message t now st).
Proof.
  intros [Hr Ht]. unfold count_message. case_match; [|done].
  split; [by eapply registry_ok_ext; [..|exact Hr]|by eapply timers_ok_ext; [|exact Ht]].
Qed.

(** The consumers of a service, from startup on. *)
Definition running (st : consumers) : Prop :=
  exists now br events, st = meanwhile events (startup_consumers now br initial_consumers).2.

Lemma task_step_ok e st : lifecycle_ok st /\ on_handle st -> lifecycle_ok (task_step e st) /\ on_handle (task_step e st).
Proof.
  intros [Hok Hon]. destruct e as [e|t now]; simpl.
  - split; [by apply lifecycle_step_ok|by apply step_on_handle].
  - split; [by apply count_message_ok|]. apply (quiet_on_handle st); [|done]. unfold count_message. by case_match.
Qed.

Lemma meanwhile_ok events st : lifecycle_ok st /\ on_handle st -> lifecycle_ok (meanwhile events st) /\ on_handle (meanwhile events st).
Proof. revert st. induction events as [|e events IH]; intros st Hok; [done|]. by apply IH, task_step_ok. Qed.

Lemma running_ok st : running st -> lifecycle_ok st /\ on_handle st.
Proof. intros (now & br & events & ->). apply meanwhile_ok. split; [by eapply startup_ok; [apply initial_ok|]|apply startup_on_handle]. Qed.

(** ** The checker *)

(** A type still loading, after some traffic. *)
Definition loading (t : string) (st : consumers) : Prop :=
  (lifecycle_ok st /\ on_handle st) /\ t ∉ completed_files (c_traffic st) /\ traffic_seen st = true.

Lemma loading_step e t st : e <> Lifecycle (FileComplete t) -> loading t st -> loading t (task_step e st).
Proof.
  intros Hne (Hok & Ht & Hs). split; [by apply task_step_ok|]. destruct e as [e|t' now]; simpl.
  - destruct (step_traffic e st t) as [He Ht']; [congruence|done|]. split; [done|]. unfold traffic_seen in *. by rewrite He.
  - destruct (count_message_traffic t' now st) as [-> Hseen]. auto.
Qed.

Lemma loading_meanwhile events t st : Lifecycle (FileComplete t) ∉ events -> loading t st -> loading t (meanwhile events st).
Proof.
  revert st. induction events as [|e events IH]; intros st; [done|]. intros [Hne Hev]%not_elem_of_cons Hl.
  apply IH; [done|]. by apply loading_step.
Qed.

Abbreviation check := (periodic_check STARTUP_IDLE_TIMEOUT QUEUE_CHECK_INTERVAL).

(** A round the broker answers, with a backlog, leaves a loading type consumed. *)
Lemma check_answered now br pending last t st :
  t ∈ MUSICBRAINZ_DATA_TYPES -> loading t st -> answering br pending -> pending <> [] ->
  is_Some (tag (check now br last st).2 t).
Proof.
  intros Hin ([Hok Hon] & Ht & Hs) Ha Hp. destruct (recover_answered now br pending st) as [Hall _]; [done..|].
  unfold periodic_check. destruct (consumer_cancellation_failed st); [by apply Hall|].
  destruct (check_consumers_unexpectedly_dead _ now st) eqn:Hc; [by apply Hall|].
  destruct (tag st t) as [v|] eqn:Htag.
  - repeat case_match; simpl; try (by rewrite Htag). by apply Hall.
  - rewrite (unconsumed_alarm _ now st t) in Hc; [done..|]. by rewrite Hs.
Qed.

(** C32: the checker brings a stream back. Once there has been traffic, and
    whatever the other tasks do short of completing the type, however many rounds
    raise, meet a broker that fails at any call, or leave a recovery half done:
    the first round the broker answers, with a backlog, leaves the type with a
    consumer. *)
Theorem checker_recovers turns events now br pending last t st :
  running st -> t ∈ MUSICBRAINZ_DATA_TYPES -> t ∉ completed_files (c_traffic st) -> traffic_seen st = true ->
  Forall (fun tn => tn_shutdown tn = false /\ tn_wake tn <> Cancelled /\ Lifecycle (FileComplete t) ∉ tn_events tn) turns ->
  Lifecycle (FileComplete t) ∉ events -> answering br pending -> pending <> [] ->
  is_Some (tag (periodic_queue_checker (turns ++ [Turn false events (Slept now br)]) last st) t).
Proof.
  intros Hrun Hin Ht Hs HF Hev Ha Hp. assert (loading t st) as Hl by (split; [by apply running_ok|done]). clear Hrun Ht Hs. revert last st Hl. induction HF as [|tn turns (Hsh & Hw & Hne) _ IH]; intros last st Hl; simpl.
  - pose proof (check_answered now br pending last t _ Hin (loading_meanwhile events t st Hev Hl) Ha Hp) as Hc.
    by destruct (check now br last _).
  - rewrite Hsh. apply (loading_meanwhile (tn_events tn)) in Hl; [|done]. destruct (tn_wake tn) as [now' br'| |]; [|done|by apply IH].
    pose proof (loading_step (Lifecycle (CheckQueues now' br' last)) t _ ltac:(done) Hl) as Hl'. simpl in Hl'.
    destruct (check now' br' last _) as [last' st']. by apply IH.
Qed.

(** It stops at a requested shutdown, and when cancelled. *)
Lemma checker_stops tn turns last st :
  tn_shutdown tn = true \/ tn_wake tn = Cancelled ->
  periodic_queue_checker (tn :: turns) last st = if tn_shutdown tn then st else meanwhile (tn_events tn) st.
Proof. simpl. intros [->| ->]; [done|]. by destruct (tn_shutdown tn). Qed.

(** ** The reporter *)

Lemma set_idle_mode_ok b st : lifecycle_ok st -> lifecycle_ok (set_idle_mode b st).
Proof. intros [Hr Ht]. split; [by eapply registry_ok_ext; [..|exact Hr]|by eapply timers_ok_ext; [|exact Ht]]. Qed.

(** The rounds come after three sleeps of ten seconds and then every thirty, and
    leave the consumers' invariant as the other tasks do. *)
Lemma reporter_rounds startup_time turns report_count last st :
  lifecycle_ok st /\ on_handle st ->
  let '(st', rounds) := progress_reporter startup_time turns report_count last st in
  (lifecycle_ok st' /\ on_handle st') /\ rounds.*1 = map report_interval (seq report_count (length rounds)) /\ length rounds <= length turns.
Proof.
  revert report_count last st. induction turns as [|rt turns IH]; intros n last st Hok; simpl; [done|].
  destruct (rt_shutdown rt); [split; [done|split; [done|simpl; lia]]|]. apply (meanwhile_ok (rt_events rt)) in Hok.
  destruct (rt_now rt) as [now|]; [|split; [done|split; [done|simpl; lia]]].
  pose proof (report_round_spec STARTUP_IDLE_TIMEOUT IDLE_LOG_INTERVAL startup_time now last (meanwhile (rt_events rt) st)) as Hr.
  destruct (report_round _ _ _ _ _ _) as [[last' st1] lines]. destruct Hr as [-> _].
  specialize (IH (S n) last' (set_idle_mode (idle_mode st1) (meanwhile (rt_events rt) st)) (conj (set_idle_mode_ok _ _ (proj1 Hok)) (proj2 Hok))).
  destruct (progress_reporter startup_time turns (S n) last' _) as [st' rounds]. destruct IH as (Hok' & Hf & Hlen).
  split; [done|split; [simpl; f_equal; exact Hf|simpl; lia]].
Qed.
End loops.
