(* ===== verification/Config.v ===== *)
(** * Configuration

    [brainztableinator/config.py]: the health port and [from_env]. The
    environment is a function; what [common.config] reads and builds (the
    secrets, the AMQP URL, the connection string, the pool's sizes) is the class
    [CommonConfig]. *)

From S2P Require Import Prelude PyValue PyDatetime.
From stdpp Require Import base gmap strings list option pretty.
From Stdlib Require Import ZArith Lia.

(** ** [int(text)] *)

(** The digits of a decimal literal, single underscores between them: their
    value and what follows, or [None] when an underscore is doubled or trails. *)
Fixpoint decimal (acc : Z) (underscore : bool) (l : list string) : option (Z * list string) :=
  match l with
  | [] => if underscore then None else Some (acc, [])
  | ch :: l' =>
      match digit ch with
      | Some d => decimal (acc * 10 + d) false l'
      | None =>
          if bool_decide (ch = "_") then (if underscore then None else decimal acc true l')
          else if underscore then None else Some (acc, l)
      end
  end.

(** [int(text)] on the characters of [text], with ASCII digits; [None] for its
    ValueError. *)
Definition int_of_text (l : list string) : option Z :=
  let l := drop_while is_int_space l in
  let negative := bool_decide (head l = Some "-") in
  let l := match l with ch :: l' => if bool_decide (ch ∈ ["+"; "-"]) then l' else l | [] => [] end in
  match l with
  | ch :: _ =>
      if is_digit ch then
        '(n, rest) ← decimal 0 false l;
        if forallb is_int_space rest then Some (if negative then - n else n)%Z else None
      else None
  | [] => None
  end.

(** ** The configuration *)

Definition DEFAULT_HEALTH_PORT : Z := 8002.

(** [_resolve_health_port], given [getenv("HEALTH_PORT")]. *)
Definition resolve_health_port (raw : option string) : result exn Z :=
  match raw with
  | None => Ok DEFAULT_HEALTH_PORT
  | Some raw =>
      match int_of_text (chars (strip raw)) with
      | Some port => if ((1 <=? port) && (port <=? 65535))%Z then Ok port else Raise ValueError
      | None => Raise ValueError
      end
  end.

(** [MusicBrainzSQLLoaderConfig] *)
Record config : Type := Config {
  amqp_connection : string;
  postgres_host : string;
  postgres_username : string;
  postgres_password : string;
  postgres_database : string;
  postgres_pool_min_size : Z;
  postgres_pool_max_size : Z;
  health_port : Z;
}.

Class CommonConfig : Type := {
  get_secret : (string -> option string) -> string -> result exn (option string);
  build_amqp_url : (string -> option string) -> result exn string;
  build_postgres_connstr : (string -> option string) -> result exn string;
  resolve_postgres_pool_sizes : (string -> option string) -> Z -> Z -> result exn (Z * Z);
}.

(** [not value] *)
Definition unset (value : option string) : bool := bool_decide (default "" value = "").

Section from_env.
Context `{CommonConfig}.

(** [MusicBrainzSQLLoaderConfig.from_env] *)
Definition from_env (getenv : string -> option string) : result exn config :=
  rabbitmq_username ← get_secret getenv "RABBITMQ_USERNAME";
  rabbitmq_password ← get_secret getenv "RABBITMQ_PASSWORD";
  postgres_username ← get_secret getenv "POSTGRES_USERNAME";
  postgres_password ← get_secret getenv "POSTGRES_PASSWORD";
  let postgres_database := getenv "POSTGRES_DATABASE" in
  let missing_vars :=
    map fst (filter (fun nv => unset nv.2 = true)
      [("RABBITMQ_USERNAME", rabbitmq_username); ("RABBITMQ_PASSWORD", rabbitmq_password);
       ("POSTGRES_HOST", getenv "POSTGRES_HOST"); ("POSTGRES_USERNAME", postgres_username);
       ("POSTGRES_PASSWORD", postgres_password); ("POSTGRES_DATABASE", postgres_database)]) in
  match missing_vars with
  | [] =>
      port ← resolve_health_port (getenv "HEALTH_PORT");
      sizes ← resolve_postgres_pool_sizes getenv 2 12;
      amqp ← build_amqp_url getenv;
      host ← build_postgres_connstr getenv;
      Ok (Config amqp host (default "" postgres_username) (default "" postgres_password)
            (default "" postgres_database) sizes.1 sizes.2 port)
  | _ => Raise ValueError
  end.
End from_env.

(** ** Facts: decimal numerals *)

(** The characters of a text of ASCII bytes. *)
Definition singles (s : string) : list string := (fun c => String c EmptyString) <$> String.list_ascii_of_string s.

Definition numeral (s : string) : Prop := Forall (fun ch => is_Some (digit ch)) (singles s).

Lemma digit_ascii c : is_Some (digit (String c EmptyString)) -> is_continuation c = false.
Proof.
  unfold digit, is_continuation. intros [d Hd]. destruct ((48 <=? _) && _)%Z eqn:E; [|done].
  rewrite andb_true_iff, !Z.leb_le in E. rewrite andb_false_iff, N.leb_gt. left. lia.
Qed.

Lemma chars_numeral s : numeral s -> chars s = singles s.
Proof.
  unfold numeral, singles. induction s as [|c s IH]; simpl; [done|]. rewrite Forall_cons. intros [Hc Hs]. rewrite (IH Hs).
  destruct s as [|c' s]; simpl in *; [done|]. rewrite Forall_cons in Hs. by rewrite (digit_ascii c') by tauto.
Qed.

Lemma digit_char d : (d < 10)%N -> digit (String (pretty_N_char d) EmptyString) = Some (Z.of_N d).
Proof. intros Hd. do 10 (destruct d as [|d] using N.peano_ind; [done|clear IHd]). lia. Qed.

Lemma pretty_go_numeral x s : numeral s -> numeral (pretty_N_go x s).
Proof.
  revert s. induction (N.lt_wf_0 x) as [x _ IH]. intros s Hs. destruct (decide (x = 0%N)) as [->|Hx]; [by rewrite pretty_N_go_0|].
  rewrite pretty_N_go_step by lia. apply IH; [apply N.div_lt; lia|]. unfold numeral, singles. simpl. constructor; [|exact Hs].
  rewrite digit_char; [by eexists|]. apply N.mod_lt. lia.
Qed.

Lemma decimal_pretty_go x s : decimal 0 false (singles (pretty_N_go x s)) = decimal (Z.of_N x) false (singles s).
Proof.
  revert s. induction (N.lt_wf_0 x) as [x _ IH]. intros s. destruct (decide (x = 0%N)) as [->|Hx]; [by rewrite pretty_N_go_0|].
  rewrite pretty_N_go_step by lia. rewrite IH by (apply N.div_lt; lia).
  change (singles (String ?c s)) with (String c EmptyString :: singles s). cbn [decimal].
  rewrite digit_char by (apply N.mod_lt; lia). f_equal. rewrite N2Z.inj_mod, N2Z.inj_div. pose proof (Z.div_mod (Z.of_N x) 10). lia.
Qed.

(** The numeral of a natural number reads back. *)
Lemma pretty_N_reads x :
  numeral (pretty x) /\ pretty x <> "" /\ decimal 0 false (singles (pretty x)) = Some (Z.of_N x, []).
Proof.
  change (pretty x) with (if decide (x = 0%N) then "0" else pretty_N_go x ""). case_decide as Hx.
  { subst. split_and!; [|done|done]. repeat constructor. by eexists. }
  split_and!; [apply pretty_go_numeral; constructor| |by rewrite decimal_pretty_go].
  rewrite pretty_N_go_step by lia. intros Hnil.
  pose proof (decimal_pretty_go (x `div` 10) (String (pretty_N_char (x `mod` 10)) "")) as Hd. rewrite Hnil in Hd.
  change (singles (String ?c "")) with [String c EmptyString] in Hd. cbn [decimal] in Hd.
  rewrite digit_char in Hd by (apply N.mod_lt; lia). change (decimal 0 false (singles "")) with (Some (0%Z, @nil string)) in Hd.
  injection Hd as Hd. pose proof (N.div_mod x 10). lia.
Qed.

Lemma digit_not_space ch : is_Some (digit ch) -> is_space ch = false /\ is_int_space ch = false /\ ch <> "-" /\ ch <> "+".
Proof.
  intros [d Hd]. unfold digit in Hd. destruct ch as [|c [|]]; try done.
  unfold is_space, is_int_space. destruct c as [[] [] [] [] [] [] [] []]; try done; vm_compute; done.
Qed.

Lemma drop_while_head {A} (p : A -> bool) (l : list A) : (forall x, head l = Some x -> p x = false) -> drop_while p l = l.
Proof. destruct l as [|x l]; simpl; [done|]. intros Hp. by rewrite (Hp x). Qed.

(** A text that neither starts nor ends with whitespace is not stripped. *)
Lemma strip_tight s :
  (forall ch, head (chars s) = Some ch -> is_space ch = false) ->
  (forall ch, last (chars s) = Some ch -> is_space ch = false) -> strip s = s.
Proof.
  intros Hh Hl. unfold strip, trim. rewrite (drop_while_head _ (chars s)) by done.
  rewrite drop_while_head; [by rewrite reverse_involutive, join_chars|]. intros x. rewrite head_reverse. apply Hl.
Qed.

Lemma numeral_space s ch : numeral s -> ch ∈ singles s -> is_space ch = false /\ is_int_space ch = false /\ ch <> "-" /\ ch <> "+".
Proof. unfold numeral. rewrite Forall_forall. intros Hs Hin. by apply digit_not_space, Hs. Qed.

(** The text of a number survives [strip] and the whitespace [int] skips. *)
Lemma numeral_strip s : numeral s -> strip s = s.
Proof.
  intros Hs. apply strip_tight; rewrite (chars_numeral s Hs); intros ch Hch; eapply numeral_space; try done.
  - by apply head_Some_elem_of.
  - by apply last_Some_elem_of.
Qed.

Lemma int_of_numeral s n :
  numeral s -> s <> "" -> decimal 0 false (singles s) = Some (n, []) -> int_of_text (chars (strip s)) = Some n.
Proof.
  intros Hs Hne Hd. rewrite (numeral_strip s Hs), (chars_numeral s Hs). unfold int_of_text.
  assert (forall ch, head (singles s) = Some ch -> is_Some (digit ch)) as Hhead.
  { intros ch Hch. apply head_Some_elem_of in Hch. unfold numeral in Hs. rewrite Forall_forall in Hs. by apply Hs. }
  rewrite drop_while_head by (intros ch Hch; by apply digit_not_space, Hhead).
  destruct (singles s) as [|ch l] eqn:El; [by destruct s|].
  destruct (digit_not_space ch (Hhead _ eq_refl)) as (_ & _ & Hm & Hp). simpl head.
  rewrite !bool_decide_eq_false_2 by set_solver. unfold is_digit. rewrite bool_decide_eq_true_2 by by apply Hhead.
  by rewrite Hd.
Qed.

Lemma int_of_negative s n :
  numeral s -> s <> "" -> decimal 0 false (singles s) = Some (n, []) -> int_of_text (chars (strip ("-" +:+ s))) = Some (- n)%Z.
Proof.
  intros Hs Hne Hd.
  assert (chars ("-" +:+ s) = "-" :: singles s) as Hc.
  { change ("-" +:+ s) with (String (Ascii.ascii_of_N 45) s). simpl. rewrite (chars_numeral s Hs). unfold numeral, singles in *.
    destruct s as [|c s]; [done|]. simpl in *. rewrite Forall_cons in Hs. by rewrite (digit_ascii c) by tauto. }
  rewrite strip_tight; rewrite Hc.
  - unfold int_of_text. simpl.
    destruct (singles s) as [|ch l] eqn:El; [by destruct s|].
    unfold is_digit. rewrite bool_decide_eq_true_2; [by rewrite Hd|].
    unfold numeral in Hs. rewrite El, Forall_cons in Hs. tauto.
  - by intros ch [= <-].
  - intros ch. rewrite last_cons. destruct (last (singles s)) as [c|] eqn:El; intros [= <-]; [|done].
    eapply numeral_space; [done|by apply last_Some_elem_of].
Qed.

Lemma int_of_pretty (n : Z) : int_of_text (chars (strip (pretty n))) = Some n.
Proof.
  destruct n as [|p|p]; [reflexivity| |].
  - change (pretty (Z.pos p)) with (pretty (N.pos p)). destruct (pretty_N_reads (N.pos p)) as (? & ? & ?).
    by apply int_of_numeral.
  - change (pretty (Z.neg p)) with ("-" +:+ pretty (N.pos p)). destruct (pretty_N_reads (N.pos p)) as (? & ? & ?).
    by apply (int_of_negative _ (Z.pos p)).
Qed.

(** C39: the health port reads back, and only a port is accepted. A number written
    in decimal is read as itself when it is between 1 and 65535 and refused
    otherwise, the sign included; whatever the variable holds, the answer is a
    port in range or ValueError, and never the default for a value that was
    set wrongly. *)
Theorem health_port_roundtrip :
  (forall n : Z, resolve_health_port (Some (pretty n)) =
     if decide (1 <= n <= 65535)%Z then Ok n else Raise ValueError) /\
  (forall raw, match resolve_health_port raw with
     | Ok port => (1 <= port <= 65535)%Z /\
         (raw = None -> port = 8002%Z) /\ (forall s, raw = Some s -> int_of_text (chars (strip s)) = Some port)
     | Raise e => e = ValueError /\ raw <> None
     end).
Proof.
  split.
  - intros n. unfold resolve_health_port. rewrite int_of_pretty.
    destruct (decide _) as [Hn|Hn]; destruct ((1 <=? n) && (n <=? 65535))%Z eqn:E; try done;
      rewrite ?andb_true_iff, ?andb_false_iff, ?Z.leb_le, ?Z.leb_gt in E; lia.
  - intros [raw|]; simpl; [|split_and!; done || (unfold DEFAULT_HEALTH_PORT; lia)].
    destruct (int_of_text _) as [port|] eqn:Ei; [|done]. destruct ((1 <=? port) && (port <=? 65535))%Z eqn:E; [|done].
    rewrite andb_true_iff, !Z.leb_le in E. split_and!; [lia|lia|done|]. intros s [= <-]. done.
Qed.

Lemma unset_spec v : unset v = true <-> v = None \/ v = Some "".
Proof. destruct v as [s|]; unfold unset; rewrite bool_decide_eq_true; simpl; naive_solver. Qed.

(** The names of the unset settings, and whether there are any. *)
Lemma missing_nil (l : list (string * option string)) :
  map fst (filter (fun nv => unset nv.2 = true) l) = [] <-> Forall (fun nv => exists s, nv.2 = Some s /\ s <> "") l.
Proof.
  induction l as [|[n v] l IH]; [done|]. rewrite filter_cons, Forall_cons. simpl. case_decide as Hv.
  - apply unset_spec in Hv. split; [done|]. intros [(s & -> & Hs) _]. naive_solver.
  - rewrite unset_spec in Hv. rewrite IH. split; [intros Hl; split; [|done]|by intros [_ ?]].
    destruct v as [s|]; [|naive_solver]. exists s. split; [done|]. intros ->. naive_solver.
Qed.

(** A configuration is complete or refused. [from_env] returns only with all
    six required settings non-empty and a health port in range, each as the
    environment or the secret store gave it; and a missing or empty one raises
    ValueError, which [main] reports as a configuration error, before the port or
    the pool's sizes are read. *)
Theorem from_env_complete `{CommonConfig} getenv ru rp pu pp :
  get_secret getenv "RABBITMQ_USERNAME" = Ok ru -> get_secret getenv "RABBITMQ_PASSWORD" = Ok rp ->
  get_secret getenv "POSTGRES_USERNAME" = Ok pu -> get_secret getenv "POSTGRES_PASSWORD" = Ok pp ->
  let required := [ru; rp; getenv "POSTGRES_HOST"; pu; pp; getenv "POSTGRES_DATABASE"] in
  (Exists (fun v => v = None \/ v = Some "") required -> from_env getenv = Raise ValueError) /\
  (forall c, from_env getenv = Ok c ->
     Forall (fun v => exists s, v = Some s /\ s <> "") required /\
     Some (postgres_username c) = pu /\ Some (postgres_password c) = pp /\
     Some (postgres_database c) = getenv "POSTGRES_DATABASE" /\
     resolve_health_port (getenv "HEALTH_PORT") = Ok (health_port c) /\
     resolve_postgres_pool_sizes getenv 2 12 = Ok (postgres_pool_min_size c, postgres_pool_max_size c)).
Proof.
  intros E1 E2 E3 E4 required. unfold from_env. rewrite E1, E2, E3, E4. cbn [mbind result_bind].
  set (named := [("RABBITMQ_USERNAME", ru); _; _; _; _; _]).
  assert (Forall (fun nv : string * option string => exists s, nv.2 = Some s /\ s <> "") named <->
          Forall (fun v => exists s, v = Some s /\ s <> "") required) as Hnamed by (change required with (snd <$> named); by rewrite Forall_fmap).
  pose proof (missing_nil named) as Hm. rewrite Hnamed in Hm.
  destruct (map fst (filter _ named)) as [|m ms].
  - assert (Forall (fun v => exists s, v = Some s /\ s <> "") required) as Hall by by apply Hm. split.
    { intros Hex. apply Exists_exists in Hex as (v & Hin & Hv). rewrite Forall_forall in Hall.
      destruct (Hall v Hin) as (s & -> & Hs). naive_solver. }
    intros c Hc. split; [done|]. unfold required in Hall. rewrite !Forall_cons in Hall.
    destruct Hall as (_ & _ & _ & (u & -> & _) & (w & -> & _) & (d & Hdb & _) & _). rewrite ?Hdb.
    destruct (resolve_health_port _) eqn:Ep; [|done]. cbn in Hc.
    destruct (resolve_postgres_pool_sizes _ _ _) as [[lo hi]|] eqn:Es; [|done]. cbn in Hc.
    destruct (build_amqp_url _); [|done]. cbn in Hc. destruct (build_postgres_connstr _); [|done].
    injection Hc as <-. split_and!; try done. simpl. by rewrite Hdb.
  - by split.
Qed.
