(* ===== verification/Lifespan.v ===== *)
(** * The service's lifespan

    [main] and [cli] of [brainztableinator/brainztableinator.py]: the guard
    against a lifespan that has not drained, the start up to the running
    consumers, the shutdown, and the release of the pool. What the deliveries and
    the monitor do while the service runs is an argument; what the environment
    answers to the start and to the closing are the records [boot] and
    [closing]. *)

From S2P Require Import Prelude PyValue QueueNames PurgeVeto Consumers ConsumersFacts Database Persistence.
From S2P Require Import RecordProcessing Reconciliation Delivery.
From stdpp Require Import base gmap strings list option sorting.
From Stdlib Require Import ZArith Lia.

Record lifespan : Type := Lifespan {
  ls_process : process;
  ls_refresh : bool;       (** [_persistence_writer.refresh_updated_at] *)
  ls_uncertain : bool;     (** [_lifecycle_cleanup_uncertain] *)
  ls_health : bool;        (** the health server is up *)
  ls_telemetry : bool;
  ls_waits : list Z;       (** seconds slept between connection attempts *)
}.

Inductive failure : Type :=
| GaveUp (reason : string)     (** [StartupError] *)
| Escaped (e : exn).

Abbreviation life A := (comp lifespan failure A).

Definition set_process p l := Lifespan p (ls_refresh l) (ls_uncertain l) (ls_health l) (ls_telemetry l) (ls_waits l).
Definition set_refresh b l := Lifespan (ls_process l) b (ls_uncertain l) (ls_health l) (ls_telemetry l) (ls_waits l).
Definition set_uncertain b l := Lifespan (ls_process l) (ls_refresh l) b (ls_health l) (ls_telemetry l) (ls_waits l).
Definition set_health b l := Lifespan (ls_process l) (ls_refresh l) (ls_uncertain l) b (ls_telemetry l) (ls_waits l).
Definition set_telemetry b l := Lifespan (ls_process l) (ls_refresh l) (ls_uncertain l) (ls_health l) b (ls_waits l).
Definition add_waits ws l :=
  Lifespan (ls_process l) (ls_refresh l) (ls_uncertain l) (ls_health l) (ls_telemetry l) (ls_waits l ++ ws).

(** [connection_pool], [write_admission] and [stale_row_purge] of the module. *)
Definition set_resources (pool admission : bool) (purge : option purge_state) (p : process) : process :=
  Process (p_db p) (p_latch p) (p_trace p) (p_observed p) (p_summary p) (p_consumers p) purge pool admission
    (shutdown_requested p) (p_backoff p) (p_alerts p).
Definition set_shutdown (b : bool) (p : process) : process :=
  Process (p_db p) (p_latch p) (p_trace p) (p_observed p) (p_summary p) (p_consumers p) (stale_row_purge p)
    (connection_pool p) (write_admission p) b (p_backoff p) (p_alerts p).

Definition on_process (f : process -> process) (l : lifespan) : lifespan := set_process (f (ls_process l)) l.

(** ** Closing *)

(** What the outside answers a closing: the channel, the connection, the drain of
    the shared write admission, the pool, and what leaving [async with] raises. *)
Record closing : Type := Closing {
  cl_channel : bool;
  cl_connection : bool;
  cl_drains : bool;
  cl_pool : bool;
  cl_exit : option exn;
}.

(** [_dispose_retained_delivery_lifecycle] *)
Definition dispose_retained_delivery_lifecycle (cl : closing) (l : lifespan) : bool * lifespan :=
  let p := ls_process l in
  let '(broker_closed, c) := close_rabbitmq_connection (cl_channel cl) (cl_connection cl) (p_consumers p) in
  let l := set_process (set_p_consumers c p) l in
  let drained := if broker_closed && write_admission p then cl_drains cl else negb (write_admission p) in
  if negb broker_closed || negb drained then (false, set_uncertain true l)
  else if connection_pool p && negb (cl_pool cl) then (false, set_uncertain true l)
  else (true, set_uncertain false (on_process (set_resources false false None) l)).

(** [_close_pool_and_health] *)
Definition close_pool_and_health (cl : closing) (l : lifespan) : lifespan :=
  (dispose_retained_delivery_lifecycle cl (set_health false l)).2.

(** ** Starting *)

(** How far the pool's construction and [initialize] get. *)
Inductive pool_answer : Type := PoolConstructionFails | PoolInitializationFails | PoolReady.

(** What the outside answers a start. *)
Record boot : Type := Boot {
  bt_setup : option exn;                                      (** what the set-up and the startup delay raise *)
  bt_config : option exn;                                     (** what [from_env] raises *)
  bt_health : option exn;                                     (** what the health server's start raises *)
  bt_host : option exn;                                       (** what parsing the database's address raises *)
  bt_pool : pool_answer;
  bt_declared : result exn (child_table -> option string);    (** the [updated_at] columns *)
  bt_veto_column : result exn (option Z);
  bt_connects : nat -> bool;                                  (** one attempt on the broker *)
  bt_stops : nat -> bool;                                     (** the shutdown flag before that attempt *)
  bt_channel : bool;
  bt_error : exn;                                             (** what a failing broker call raises *)
  bt_broker : broker;
  bt_now : Z;
}.

(** The guard of [main]: something of an earlier lifespan is left. *)
Definition retained (l : lifespan) : bool :=
  let p := ls_process l in
  let c := p_consumers p in
  ls_uncertain l || connection_pool p || active_connection c || active_channel c ||
  bool_decide (consumer_tags (c_registry c) <> []) || bool_decide (connection_consumer_tags (c_registry c) <> []) ||
  consumer_cancellation_failed c.

Definition max_startup_retries : nat := 5.

(** How the connection loop ends: connected, given up after the last attempt, or
    left with nothing, the shutdown flag set or not. *)
Inductive connection : Type := Connected | Unreachable | NotConnected (stopping : bool).

(** The connection loop, with [left] attempts left, and the waits it made. *)
Fixpoint connect_broker (connects stops : nat -> bool) (left : nat) (startup_retry : nat) : connection * list Z :=
  match left with
  | O => (NotConnected (stops startup_retry), [])
  | S left' =>
      if stops startup_retry then (NotConnected true, [])
      else if connects startup_retry then (Connected, [])
      else
        let startup_retry := S startup_retry in
        if (startup_retry <? max_startup_retries)%nat then
          let '(r, ws) := connect_broker connects stops left' startup_retry in
          (r, Z.min 30 (5 * Z.of_nat startup_retry) :: ws)
        else (Unreachable, [])
  end.

Section main.
Context `{PyRepr} `{Collation}.

(** The startup probes: the refresh and the purge are enabled together, or the
    loader runs without both. *)
Definition enable_reconciliation (bt : boot) (an : answers_) (l : lifespan) : lifespan :=
  match bt_declared bt with
  | Raise _ => l
  | Ok declared =>
      if reconciliation_columns_present declared RECONCILED_TABLES then
        match bt_veto_column bt with
        | Raise _ => l
        | Ok row =>
            if purge_veto_column_present row then
              on_process (fun p => (report_purge_vetoes an p).2)
                (set_refresh true (on_process (set_purge (Some initial_purge)) l))
            else l
        end
      else l
  end.

(** [async with amqp_connection]: the channel, the declarations and the
    registrations. Where leaving it raises, that exception goes on instead. *)
Definition start_consuming (bt : boot) (cl : closing) : life bool := fun l =>
  let failed : result failure bool := Raise (Escaped (default (bt_error bt) (cl_exit cl))) in
  let p := ls_process l in
  if bt_channel bt then
    match startup_consumers (bt_now bt) (bt_broker bt) (p_consumers p) with
    | (true, c) => (Ok true, set_process (set_p_consumers c p) l)
    | (false, c) => (failed, set_process (set_p_consumers c p) l)
    end
  else (failed, l).

(** [main] from the pool to the running consumers; [false] when a signal stopped
    it before the broker was connected. *)
Definition connect_and_consume (bt : boot) (an : answers_) (cl : closing) : life bool := fun l =>
  let '(connection, waits) := connect_broker (bt_connects bt) (bt_stops bt) max_startup_retries 0 in
  let l := add_waits waits l in
  match connection with
  | Connected =>
      start_consuming bt cl (on_process (fun p => set_p_consumers
        (set_handles true (active_channel (p_consumers p)) (p_consumers p)) p) l)
  | Unreachable => (Raise (GaveUp "AMQP broker unreachable"), close_pool_and_health cl l)
  | NotConnected true =>
      (Ok false, set_telemetry false (close_pool_and_health cl (on_process (set_shutdown true) l)))
  | NotConnected false => (Raise (GaveUp "no AMQP connection available"), close_pool_and_health cl l)
  end.

(** [main] from the pool's construction on. *)
Definition open_pool (bt : boot) (an : answers_) (cl : closing) : life bool := fun l =>
  match bt_pool bt with
  | PoolConstructionFails =>
      (Raise (GaveUp "connection pool initialization failed"), close_pool_and_health cl l)
  | PoolInitializationFails =>
      (Raise (GaveUp "connection pool initialization failed"),
       close_pool_and_health cl (on_process (set_resources true false None) l))
  | PoolReady =>
      connect_and_consume bt an cl (enable_reconciliation bt an (on_process (set_resources true true None) l))
  end.

(** [main] up to the running service. *)
Definition start (bt : boot) (an : answers_) (cl : closing) : life bool := fun l =>
  if retained l then (Raise (GaveUp "previous delivery lifecycle has not drained"), l)
  else
    let l := set_telemetry true (on_process (fun p => set_resources (connection_pool p) false None p) l) in
    match bt_setup bt, bt_config bt, bt_health bt, bt_host bt with
    | Some e, _, _, _ => (Raise (Escaped e), l)
    | None, Some ValueError, _, _ => (Raise (GaveUp "configuration error"), l)
    | None, Some e, _, _ => (Raise (Escaped e), l)
    | None, None, Some e, _ => (Raise (Escaped e), l)
    | None, None, None, Some e => (Raise (Escaped e), set_health true l)
    | None, None, None, None => open_pool bt an cl (set_health true l)
    end.

(** The [finally] clause, the end of [async with] and what follows it: an exception
    of leaving it skips the health server and the telemetry. *)
Definition stop (cancel_ok : string -> bool) (cl : closing) : life unit := fun l =>
  let cancel c :=
    let c := cancel_all_consumers cancel_ok c in
    let c := foldl (fun c id => cancel_task_ id c) c (map_to_list (consumer_cancel_tasks (c_timers c))).*2 in
    let t := c_timers c in set_timers (Timers ∅ (live_tasks t) (next_task t)) c in
  let l := on_process (fun p => set_p_consumers (cancel (p_consumers p)) p) l in
  let l := (dispose_retained_delivery_lifecycle cl l).2 in
  match cl_exit cl with
  | Some e => (Raise (Escaped e), l)
  | None => (Ok tt, set_telemetry false (set_health false l))
  end.

(** [main]; [serve] is what the running service does until the flag is set. *)
Definition main (bt : boot) (an : answers_) (serve : process -> process) (cancel_ok : string -> bool) (cl : closing) :
    life unit :=
  start bt an cl ≫= fun running : bool =>
  if running then modifies (on_process serve) ≫= fun _ => stop cancel_ok cl else mret tt.

(** The exit status of [cli]; [None] lets the exception through. *)
Definition cli (r : result failure unit) (l : lifespan) : option Z * lifespan :=
  match r with
  | Ok _ => (Some 0%Z, l)
  | Raise (GaveUp _) => (Some 1%Z, set_telemetry false l)
  | Raise (Escaped _) => (None, l)
  end.
End main.

(** ** Facts: closing *)

(** Nothing of a lifespan's pool, admission, purge and consumers is left. *)
Definition released (l : lifespan) : Prop :=
  let p := ls_process l in let c := p_consumers p in
  ls_uncertain l = false /\ connection_pool p = false /\ write_admission p = false /\ stale_row_purge p = None /\
  active_connection c = false /\ active_channel c = false /\ consumer_tags (c_registry c) = [] /\
  connection_consumer_tags (c_registry c) = [] /\ consumer_cancellation_failed c = false.

Lemma close_true a b c c' :
  close_rabbitmq_connection a b c = (true, c') ->
  active_connection c' = false /\ active_channel c' = false /\ consumer_tags (c_registry c') = [] /\
  connection_consumer_tags (c_registry c') = [] /\ consumer_cancellation_failed c' = false.
Proof.
  rewrite close_spec. cbv zeta. destruct (_ || _) eqn:E; [|done]. intros [= Hc <-]. simpl.
  apply negb_true_iff in Hc. split_and!; try done.
  destruct (active_channel c), a, (active_connection c), b; simpl in *; try done.
Qed.

Lemma released_not_retained l : released l -> retained l = false.
Proof.
  intros (Hu & Hp & _ & _ & Hc & Hch & Ht & Hct & Hf). unfold retained.
  by rewrite Hu, Hp, Hc, Hch, Ht, Hct, Hf.
Qed.

Lemma not_retained l :
  retained l = false ->
  let c := p_consumers (ls_process l) in
  ls_uncertain l = false /\ connection_pool (ls_process l) = false /\ active_connection c = false /\ active_channel c = false /\
  consumer_tags (c_registry c) = [] /\ connection_consumer_tags (c_registry c) = [] /\ consumer_cancellation_failed c = false.
Proof.
  unfold retained. rewrite !orb_false_iff, !bool_decide_eq_false.
  intros ((((((? & ?) & ?) & ?) & Ht) & Hct) & ?). split_and!; try done; by apply dec_stable.
Qed.

(** C24: the pool outlives every delivery that may still use it. Disposing of a
    lifespan either releases everything at once, and then only after the broker's
    closing was confirmed, the shared admission drained and the pool closed; or it
    answers false, keeps the pool, the admission and the purge, and leaves a mark
    that makes every later start refuse. *)
Theorem dispose_all_or_nothing cl l :
  let p := ls_process l in
  let '(ok, l') := dispose_retained_delivery_lifecycle cl l in
  let p' := ls_process l' in
  if ok then
    released l' /\ (close_rabbitmq_connection (cl_channel cl) (cl_connection cl) (p_consumers p)).1 = true /\
    (write_admission p = true -> cl_drains cl = true) /\ (connection_pool p = true -> cl_pool cl = true)
  else
    connection_pool p' = connection_pool p /\ write_admission p' = write_admission p /\
    stale_row_purge p' = stale_row_purge p /\ retained l' = true.
Proof.
  unfold dispose_retained_delivery_lifecycle. cbv zeta.
  destruct (close_rabbitmq_connection _ _ _) as [closed c] eqn:Ec.
  destruct closed; simpl; [|by unfold retained].
  apply close_true in Ec as (E1 & E2 & E3 & E4 & E5).
  destruct (write_admission (ls_process l)) eqn:Ea; [destruct (cl_drains cl)|]; simpl; try (by unfold retained);
    destruct (connection_pool (ls_process l)) eqn:Ep; simpl;
    try (destruct (cl_pool cl); simpl; [|by unfold retained]); by split_and!.
Qed.

(** ** Facts: starting *)

Lemma dispose_ends cl l :
  released (dispose_retained_delivery_lifecycle cl l).2 \/ retained (dispose_retained_delivery_lifecycle cl l).2 = true.
Proof.
  unfold dispose_retained_delivery_lifecycle. cbv zeta.
  destruct (close_rabbitmq_connection _ _ _) as [closed c] eqn:Ec.
  destruct closed; simpl; [|by right]. apply close_true in Ec as (E1 & E2 & E3 & E4 & E5).
  destruct (write_admission (ls_process l)); [destruct (cl_drains cl)|]; simpl; try (by right);
    destruct (connection_pool (ls_process l) && negb (cl_pool cl)); (by right) || (by left; split_and!).
Qed.

Lemma dispose_flags cl l :
  ls_health (dispose_retained_delivery_lifecycle cl l).2 = ls_health l /\
  ls_telemetry (dispose_retained_delivery_lifecycle cl l).2 = ls_telemetry l.
Proof. unfold dispose_retained_delivery_lifecycle. cbv zeta. repeat case_match; done. Qed.

(** The attempts made, each after the wait its number says. *)
Lemma connect_broker_spec connects stops :
  let '(r, ws) := connect_broker connects stops max_startup_retries 0 in
  exists n, (n < 5)%nat /\ ws = take n [5; 10; 15; 20]%Z /\
    (forall i, (i < n)%nat -> stops i = false /\ connects i = false) /\
    match r with
    | Connected => stops n = false /\ connects n = true
    | Unreachable => n = 4%nat /\ stops n = false /\ connects n = false
    | NotConnected stopping => stopping = true /\ stops n = true
    end.
Proof.
  assert (forall (P : nat -> Prop) n, (forall i, (i < S n)%nat -> P i) <-> P n /\ forall i, (i < n)%nat -> P i) as Hlt.
  { intros P n. split; [intros Ha; split; intros; apply Ha; lia|]. intros [Hn Ha] i Hi.
    destruct (decide (i = n)) as [->|]; [done|]. apply Ha. lia. }
  unfold max_startup_retries. simpl.
  repeat (match goal with |- context [if ?b then _ else _] => destruct b eqn:? end; simpl);
    match goal with |- exists n, _ /\ ?ws = _ /\ _ => exists (length ws) end; simpl; rewrite ?Hlt; split_and!;
    try done; try lia; intros; lia.
Qed.

Section main_facts.
Context `{PyRepr} `{Collation}.

Lemma enable_reconciliation_spec bt an l :
  stale_row_purge (ls_process l) = None ->
  let l' := enable_reconciliation bt an l in
  connection_pool (ls_process l') = connection_pool (ls_process l) /\ ls_health l' = ls_health l /\
  ls_telemetry l' = ls_telemetry l /\
  ((stale_row_purge (ls_process l') = None /\ ls_refresh l' = ls_refresh l) \/
   stale_row_purge (ls_process l') = Some initial_purge /\ ls_refresh l' = true /\
   (exists declared, bt_declared bt = Ok declared /\
      forall t, t ∈ RECONCILED_TABLES -> declared t = Some RECONCILIATION_COLUMN_TYPE) /\
   exists row, bt_veto_column bt = Ok (Some row)).
Proof.
  intros Hn. unfold enable_reconciliation. destruct (bt_declared bt) as [declared|]; simpl; [|split_and!; by auto].
  destruct (reconciliation_columns_present _ _) eqn:Er; [|split_and!; by auto].
  destruct (bt_veto_column bt) as [row|]; [|split_and!; by auto].
  destruct row as [row|]; [|split_and!; by auto]. simpl. unfold report_purge_vetoes.
  assert (forall t, t ∈ RECONCILED_TABLES -> declared t = Some RECONCILIATION_COLUMN_TYPE) as Hd.
  { intros t Ht. unfold reconciliation_columns_present in Er.
    destruct (filter (fun t => default "" (declared t) = "") _) as [|] eqn:E1; [|done].
    destruct (filter (fun t => default "" (declared t) <> "" /\ _) _) as [|] eqn:E2; [|done].
    destruct (decide (declared t = Some RECONCILIATION_COLUMN_TYPE)) as [|Hne]; [done|]. exfalso.
    destruct (decide (default "" (declared t) = "")) as [Hz|Hz].
    - assert (t ∈ filter (fun t => default "" (declared t) = "") RECONCILED_TABLES) as Hin by by apply list_elem_of_filter.
      rewrite E1 in Hin. by apply not_elem_of_nil in Hin.
    - match type of E2 with ?f = [] => assert (t ∈ f) as Hin by by apply list_elem_of_filter end.
      rewrite E2 in Hin. by apply not_elem_of_nil in Hin. }
  repeat case_match; simpl; split_and!; try done; right; split_and!; try done; eauto.
Qed.

(** The start got as far as the health server. *)
Definition health_started (bt : boot) : bool :=
  match bt_setup bt, bt_config bt, bt_health bt with None, None, None => true | _, _, _ => false end.

(** How a start ends: with everything released or retained, with the health server
    down where it gave up, and as it got where an exception escapes or the service
    runs. *)
Definition ends (bt : boot) (r : result failure bool) (l' : lifespan) : Prop :=
  (released l' \/ retained l' = true) /\ r <> Raise (GaveUp "no AMQP connection available") /\
  match r with
  | Ok false => ls_health l' = false /\ ls_telemetry l' = false
  | Raise (GaveUp _) => ls_health l' = false
  | Ok true | Raise (Escaped _) => ls_health l' = health_started bt /\ ls_telemetry l' = true
  end.

Lemma pool_retained l : connection_pool (ls_process l) = true -> retained l = true.
Proof. intros Hp. unfold retained. rewrite Hp. by rewrite !orb_true_r. Qed.

Lemma close_pool_and_health_ends cl l :
  (released (close_pool_and_health cl l) \/ retained (close_pool_and_health cl l) = true) /\
  ls_health (close_pool_and_health cl l) = false.
Proof.
  unfold close_pool_and_health. split; [apply dispose_ends|].
  by rewrite (proj1 (dispose_flags cl (set_health false l))).
Qed.

Lemma start_consuming_ends bt cl l r l' :
  connection_pool (ls_process l) = true -> ls_health l = health_started bt -> ls_telemetry l = true ->
  start_consuming bt cl l = (r, l') -> ends bt r l'.
Proof.
  intros Hp Hh Ht. unfold start_consuming. assert (forall c, retained (set_process (set_p_consumers c (ls_process l)) l) = true) as Hr.
  { intros c. by apply pool_retained. }
  destruct (bt_channel bt); [destruct (startup_consumers _ _ _) as [[|] c]|]; intros [= <- <-]; split_and!; try done;
    right; by apply pool_retained.
Qed.

Lemma connect_and_consume_ends bt an cl l r l' :
  connection_pool (ls_process l) = true -> ls_health l = health_started bt -> ls_telemetry l = true ->
  connect_and_consume bt an cl l = (r, l') -> ends bt r l'.
Proof.
  intros Hp Hh Ht. unfold connect_and_consume. pose proof (connect_broker_spec (bt_connects bt) (bt_stops bt)) as Hspec.
  destruct (connect_broker _ _ _ _) as [c ws]. destruct Hspec as (n & _ & _ & _ & Hc). destruct c as [| |[|]].
  - by apply start_consuming_ends.
  - intros [= <- <-]. split_and!; [apply close_pool_and_health_ends|done|]. apply close_pool_and_health_ends.
  - intros [= <- <-]. destruct (close_pool_and_health_ends cl (on_process (set_shutdown true) (add_waits ws l))) as [He Hd].
    split_and!; done.
  - by destruct Hc.
Qed.

Lemma open_pool_ends bt an cl l r l' :
  ls_health l = health_started bt -> ls_telemetry l = true -> open_pool bt an cl l = (r, l') -> ends bt r l'.
Proof.
  intros Hh Ht. unfold open_pool. destruct (bt_pool bt).
  - intros [= <- <-]. split_and!; [apply close_pool_and_health_ends|done|]. apply close_pool_and_health_ends.
  - intros [= <- <-]. split_and!; [apply close_pool_and_health_ends|done|]. apply close_pool_and_health_ends.
  - destruct (enable_reconciliation_spec bt an (on_process (set_resources true true None) l) eq_refl) as (Ep & Eh & Et & _).
    apply connect_and_consume_ends; [by rewrite Ep|by rewrite Eh|by rewrite Et].
Qed.

Lemma start_ends bt an cl l r l' :
  retained l = false -> ls_health l = false -> start bt an cl l = (r, l') -> ends bt r l'.
Proof.
  intros Hr Hh. unfold start. rewrite Hr. destruct (not_retained _ Hr) as (E1 & E2 & E3 & E4 & E5 & E6 & E7).
  set (l0 := set_telemetry true _). assert (released l0) as Hl0 by (split_and!; done).
  assert (released (set_health true l0)) as Hl1 by (split_and!; done). unfold ends.
  destruct (bt_setup bt) as [e|] eqn:Hs; [intros [= <- <-]; split_and!; try (by left); try done; unfold health_started; by rewrite Hs|].
  destruct (bt_config bt) as [e|] eqn:Hc; [destruct e; intros [= <- <-]; split_and!; try (by left); try done; unfold health_started; by rewrite Hs, Hc|].
  destruct (bt_health bt) as [e|] eqn:Hb; [intros [= <- <-]; split_and!; try (by left); try done; unfold health_started; by rewrite Hs, Hc, Hb|].
  assert (health_started bt = true) as Hup by (unfold health_started; by rewrite Hs, Hc, Hb).
  destruct (bt_host bt) as [e|]; [intros [= <- <-]; split_and!; by (try left)|]. by apply open_pool_ends.
Qed.

Lemma stop_ends cancel_ok cl l :
  let '(r, l') := stop cancel_ok cl l in
  (released l' \/ retained l' = true) /\
  match r with
  | Ok _ => ls_health l' = false /\ ls_telemetry l' = false
  | Raise (GaveUp _) => False
  | Raise (Escaped e) => cl_exit cl = Some e /\ ls_health l' = ls_health l /\ ls_telemetry l' = ls_telemetry l
  end.
Proof.
  unfold stop. cbv zeta. set (l1 := on_process _ l). pose proof (dispose_ends cl l1) as He. destruct (dispose_flags cl l1) as [Hh Ht].
  destruct (cl_exit cl) as [e|]; [|done]. split_and!; done.
Qed.

(** C23: how a lifespan ends, whatever the environment answers and whatever the
    service does while it runs. Its pool, write admission, purge and consumers are
    all released, or the process is one in which every later [main] gives up at once
    and changes nothing: no new pool is built beside deliveries of an old one. Where
    [main] returned or gave up, [cli] exits 0 or 1, and the health server and the
    telemetry are down; the connection loop never ends with nothing to show for it.
    Where another exception escapes, of the set-up, the health server's start, the
    database's address, the broker calls of the start or the closing of
    [async with], [cli] lets it through with the telemetry still up, and the health
    server too if it had been started. *)
Theorem main_ends_clean_or_refuses bt an serve cancel_ok cl l r l' :
  ls_health l = false -> retained l = false ->
  main bt an serve cancel_ok cl l = (r, l') ->
  let '(status, l'') := cli r l' in
  (released l'' \/
   forall bt' an' serve' cancel_ok' cl',
     main bt' an' serve' cancel_ok' cl' l'' = (Raise (GaveUp "previous delivery lifecycle has not drained"), l'')) /\
  match r with
  | Ok _ => status = Some 0%Z /\ ls_health l'' = false /\ ls_telemetry l'' = false
  | Raise (GaveUp reason) =>
      status = Some 1%Z /\ ls_health l'' = false /\ ls_telemetry l'' = false /\ reason <> "no AMQP connection available"
  | Raise (Escaped _) => status = None /\ ls_health l'' = health_started bt /\ ls_telemetry l'' = true
  end.
Proof.
  intros Hh Hr Hrun. unfold main, mbind, comp_bind in Hrun.
  destruct (start bt an cl l) as [r1 l1] eqn:Es. destruct (start_ends _ _ _ _ _ _ Hr Hh Es) as (He & Hn & Hm).
  assert (forall l2, released l2 \/ retained l2 = true -> released l2 \/ forall bt' an' serve' cancel_ok' cl',
     main bt' an' serve' cancel_ok' cl' l2 = (Raise (GaveUp "previous delivery lifecycle has not drained"), l2)) as Hnext.
  { intros l2 [|Hl2]; [by left|right]. intros. unfold main, mbind, comp_bind, start. by rewrite Hl2. }
  destruct r1 as [[|]|[g|e]].
  - pose proof (stop_ends cancel_ok cl (on_process serve l1)) as Hstop. simpl in Hrun. rewrite Hrun in Hstop. destruct Hstop as [Hend Hd].
    destruct r as [u|[g|e]]; simpl; [by split_and!; [apply Hnext|done|apply Hd..]|done|]. destruct Hd as (_ & -> & ->). split_and!; [by apply Hnext|done|apply Hm..].
  - injection Hrun as <- <-. simpl. split_and!; [by apply Hnext|done|apply Hm..].
  - injection Hrun as <- <-. simpl. split_and!; [by apply Hnext|done..|by intros ->].
  - injection Hrun as <- <-. simpl. split_and!; [by apply Hnext|done|apply Hm..].
Qed.

(** The refresh and the purge go together. A service that got to run holds a
    purge exactly under the probes' verdict: the statements then refresh
    [updated_at], both child tables declare it with a time zone, the veto column
    exists, and the latch is fresh; without a purge the statements are those of
    before the start, and name no column the schema may lack. *)
Theorem refresh_with_purge bt an cl l l' :
  start bt an cl l = (Ok true, l') ->
  (stale_row_purge (ls_process l') = None /\ ls_refresh l' = ls_refresh l) \/
  (stale_row_purge (ls_process l') = Some initial_purge /\ ls_refresh l' = true /\
   (exists declared, bt_declared bt = Ok declared /\
      forall t, t ∈ RECONCILED_TABLES -> declared t = Some RECONCILIATION_COLUMN_TYPE) /\
   exists row, bt_veto_column bt = Ok (Some row)).
Proof.
  unfold start. destruct (retained l); [done|]. destruct (bt_setup bt); [done|].
  destruct (bt_config bt) as [[]|]; try done. destruct (bt_health bt); [done|]. destruct (bt_host bt); [done|].
  unfold open_pool. destruct (bt_pool bt); try done.
  set (l1 := on_process (set_resources true true None) _).
  destruct (enable_reconciliation_spec bt an l1 eq_refl) as (_ & _ & _ & Hspec).
  set (l2 := enable_reconciliation bt an l1) in *. change (ls_refresh l) with (ls_refresh l1).
  unfold connect_and_consume. destruct (connect_broker _ _ _ _) as [[| |[|]] ws]; try done.
  unfold start_consuming. destruct (bt_channel bt); [|done]. destruct (startup_consumers _ _ _) as [[|] c]; [|done].
  intros [= <-]. exact Hspec.
Qed.

(** The broker is tried five times, at growing intervals. The attempts stop at
    the first success, at a shutdown request seen before one, or after the fifth
    failure; attempt [i + 1] follows attempt [i] after [5 * i] seconds, and the
    loop gives up only when all five failed with no shutdown requested. *)
Theorem connection_attempts connects stops :
  let '(r, ws) := connect_broker connects stops max_startup_retries 0 in
  exists n, (n < 5)%nat /\ ws = take n [5; 10; 15; 20]%Z /\
    (forall i, (i < n)%nat -> stops i = false /\ connects i = false) /\
    match r with
    | Connected => stops n = false /\ connects n = true
    | Unreachable => n = 4%nat /\ stops n = false /\ connects n = false
    | NotConnected stopping => stopping = true /\ stops n = true
    end.
Proof. apply connect_broker_spec. Qed.
End main_facts.
