(* ===== verification/AssertionAudit.v ===== *)
(** * The assertion audit

    [scripts/audit_test_assertions.py]: a Python syntax tree, the visitor that
    counts a test's assertions without entering nested scopes, [ast.walk], and
    the classification [audit] makes of a test tree. [ast.parse] is the caller's:
    a file is its path relative to the root's parent, in the order of the sorted
    paths, with what the parser makes of it. *)

From S2P Require Import Prelude PyValue.
From stdpp Require Import base gmap strings list option pretty sorting.
From Stdlib Require Import ZArith Lia.

(** ** Syntax trees

    The nodes the audit tells apart, with the children [ast.iter_child_nodes]
    gives: a call's function then its arguments, an attribute's value, a
    function's parameters and annotations ([rest]), body and decorators. *)
Inductive node : Type :=
| AssertN (children : list node)
| CallN (func : node) (arguments : list node)
| AttributeN (value : node) (attr : string)
| NameN (id : string)
| FunctionDefN (is_async : bool) (name : string) (lineno : N) (rest body decorators : list node)
| ClassDefN (children : list node)
| LambdaN (children : list node)
| OtherN (children : list node).

Definition children (n : node) : list node :=
  match n with
  | AssertN l | ClassDefN l | LambdaN l | OtherN l => l
  | CallN f l => f :: l
  | AttributeN v _ => [v]
  | NameN _ => []
  | FunctionDefN _ _ _ rest body decorators => rest ++ body ++ decorators
  end.

(** The nodes at which the visitor stops. *)
Definition is_scope (n : node) : bool :=
  match n with FunctionDefN _ _ _ _ _ _ | ClassDefN _ | LambdaN _ => true | _ => false end.

(** ** The visitor *)

Definition MOCK_CALL_ASSERTIONS : list string :=
  ["assert_any_await"; "assert_any_call"; "assert_awaited"; "assert_awaited_once"; "assert_awaited_once_with";
   "assert_awaited_with"; "assert_called"; "assert_called_once"; "assert_called_once_with"; "assert_called_with";
   "assert_has_awaits"; "assert_has_calls"; "assert_not_awaited"; "assert_not_called"].
Definition PYTEST_OUTCOME_HELPERS : list string := ["deprecated_call"; "raises"; "warns"].

(** [_AssertionVisitor]'s two counters. *)
Record counts : Type := Counts { outcome_assertions : nat; mock_call_assertions : nat }.

Definition no_counts : counts := Counts 0 0.
Definition add_counts (a b : counts) : counts :=
  Counts (outcome_assertions a + outcome_assertions b) (mock_call_assertions a + mock_call_assertions b).

Definition is_name (id : string) (n : node) : bool :=
  match n with NameN i => bool_decide (i = id) | _ => false end.

(** What [visit_Assert] and [visit_Call] add for the node itself. *)
Definition own_counts (n : node) : counts :=
  match n with
  | AssertN _ => Counts 1 0
  | CallN (AttributeN v method) _ =>
      if decide (method ∈ MOCK_CALL_ASSERTIONS) then Counts 0 1
      else if String.prefix "assert" method || (bool_decide (method ∈ PYTEST_OUTCOME_HELPERS) && is_name "pytest" v)
      then Counts 1 0
      else no_counts
  | _ => no_counts
  end.

(** [visitor.visit(node)]; the visitor of a scope does nothing. *)
Fixpoint visit (n : node) : counts :=
  let visit_all := foldr (fun c acc => add_counts (visit c) acc) no_counts in
  match n with
  | FunctionDefN _ _ _ _ _ _ | ClassDefN _ | LambdaN _ => no_counts
  | AssertN l | OtherN l => add_counts (own_counts n) (visit_all l)
  | CallN f l => add_counts (own_counts n) (add_counts (visit f) (visit_all l))
  | AttributeN v _ => add_counts (own_counts n) (add_counts (visit v) no_counts)
  | NameN _ => add_counts (own_counts n) no_counts
  end.

(** [for statement in node.body: visitor.visit(statement)] *)
Definition visit_body (l : list node) : counts := foldr (fun c acc => add_counts (visit c) acc) no_counts l.

(** ** [ast.walk]: breadth first, with a queue *)

Fixpoint size_of (n : node) : nat :=
  let size_all := foldr (fun c m => size_of c + m) 0 in
  S match n with
    | AssertN l | ClassDefN l | LambdaN l | OtherN l => size_all l
    | CallN f l => size_of f + size_all l
    | AttributeN v _ => size_of v + 0
    | NameN _ => 0
    | FunctionDefN _ _ _ rest body decorators => size_all rest + (size_all body + size_all decorators)
    end.

Fixpoint walk_queue (fuel : nat) (todo : list node) : list node :=
  match fuel, todo with
  | S fuel, n :: todo => n :: walk_queue fuel (todo ++ children n)
  | _, _ => []
  end.

Definition walk (n : node) : list node := walk_queue (size_of n) [n].

(** ** The audit *)

(** [_is_pytest_fixture], on the decorators. *)
Definition is_fixture_decorator (decorator : node) : bool :=
  match (match decorator with CallN f _ => f | d => d end) with
  | AttributeN (NameN id) attr => bool_decide (id = "pytest") && bool_decide (attr = "fixture")
  | NameN id => bool_decide (id = "fixture")
  | _ => false
  end.

Definition is_pytest_fixture (decorators : list node) : bool := existsb is_fixture_decorator decorators.

(** A test a file defines: its identifier and its body. *)
Definition test_of (path : string) (n : node) : option (string * list node) :=
  match n with
  | FunctionDefN _ name lineno _ body decorators =>
      if String.prefix "test_" name && negb (is_pytest_fixture decorators)
      then Some (path +:+ ":" +:+ pretty lineno +:+ ":" +:+ name, body)
      else None
  | _ => None
  end.

Definition tests_of (files : list (string * node)) : list (string * list node) :=
  concat (map (fun f => omap (test_of f.1) (walk f.2)) files).

Record audit_result : Type := AuditResult {
  test_functions : nat;
  assertion_free_count : nat;
  call_only_count : nat;
  assertion_free : list string;
  call_only : list string;
}.

(** The order of [sorted(tests)]: by identifier. Two tests of one identifier are
    compared as syntax nodes next, which raises. *)
Definition test_le (a b : string * list node) : Prop := String.le a.1 b.1.

#[export] Instance test_le_dec : RelDecision test_le.
Proof. intros a b. unfold test_le. apply _. Defined.

Definition sorted_tests (tests : list (string * list node)) : result exn (list (string * list node)) :=
  if decide (NoDup tests.*1) then Ok (merge_sort test_le tests) else Raise TypeError.

(** The loop over the sorted tests. *)
Definition classify_step (acc : list string * list string) (t : string * list node) : list string * list string :=
  let c := visit_body t.2 in
  if (outcome_assertions c =? 0)%nat then
    if (mock_call_assertions c =? 0)%nat then (acc.1 ++ [t.1], acc.2) else (acc.1, acc.2 ++ [t.1])
  else acc.

Definition audit (files : list (string * result exn node)) : result exn audit_result :=
  trees ← traverse (fun f => tree ← f.2; Ok (f.1, tree)) files;
  let tests := tests_of trees in
  ordered ← sorted_tests tests;
  let '(free, calls) := foldl classify_step ([], []) ordered in
  Ok (AuditResult (length tests) (length free) (length calls) free calls).

(** What [main] prints without [--json]. *)
Definition section (heading : string) (identifiers : list string) : list string :=
  "" :: (heading +:+ ":") :: map (fun id => "  " +:+ id) identifiers.

Definition printed (result : audit_result) : list string :=
  ["test functions: " +:+ pretty (N.of_nat (test_functions result));
   "assertion-free: " +:+ pretty (N.of_nat (assertion_free_count result));
   "call-only: " +:+ pretty (N.of_nat (call_only_count result))] ++
  section "assertion-free tests" (assertion_free result) ++ section "call-only tests" (call_only result).

(** ** Facts about trees *)

Definition sizes (l : list node) : nat := foldr (fun c n => size_of c + n) 0 l.

Lemma sizes_app l k : sizes (l ++ k) = sizes l + sizes k.
Proof. unfold sizes. induction l as [|c l IH]; simpl; [done|]. rewrite IH. lia. Qed.

Lemma size_of_eq n : size_of n = S (sizes (children n)).
Proof. destruct n; simpl; rewrite ?sizes_app; done. Qed.

Lemma visit_eq n : visit n = if is_scope n then no_counts else add_counts (own_counts n) (visit_body (children n)).
Proof. by destruct n. Qed.

Lemma child_smaller n c : c ∈ children n -> size_of c < size_of n.
Proof.
  rewrite (size_of_eq n). generalize (children n). induction l as [|x l IH]; [by intros ?%not_elem_of_nil|].
  intros [->|Hc]%elem_of_cons; simpl; [lia|]. specialize (IH Hc). lia.
Qed.

Lemma tree_ind (P : node -> Prop) :
  (forall n, (forall c, c ∈ children n -> P c) -> P n) -> forall n, P n.
Proof.
  intros Hstep n. remember (size_of n) as k eqn:Hk. revert n Hk.
  induction k as [k IH] using lt_wf_ind. intros n ->. apply Hstep. intros c Hc.
  eapply IH; [by apply child_smaller|done].
Qed.

(** The nodes of a tree, parents first. *)
Fixpoint nodes_of (n : node) : list node :=
  let forest := foldr (fun c acc => nodes_of c ++ acc) [] in
  n :: match n with
       | AssertN l | ClassDefN l | LambdaN l | OtherN l => forest l
       | CallN f l => nodes_of f ++ forest l
       | AttributeN v _ => nodes_of v ++ []
       | NameN _ => []
       | FunctionDefN _ _ _ rest body decorators => forest rest ++ (forest body ++ forest decorators)
       end.

Definition forest_nodes (l : list node) : list node := foldr (fun c acc => nodes_of c ++ acc) [] l.

Lemma forest_nodes_app l k : forest_nodes (l ++ k) = forest_nodes l ++ forest_nodes k.
Proof. unfold forest_nodes. induction l as [|c l IH]; simpl; [done|]. by rewrite IH, app_assoc. Qed.

Lemma nodes_of_eq n : nodes_of n = n :: forest_nodes (children n).
Proof. destruct n; simpl; rewrite ?forest_nodes_app; done. Qed.

(** [m] occurs in [n]. *)
Inductive occurs : node -> node -> Prop :=
| OccursHere n : occurs n n
| OccursIn n c m : c ∈ children n -> occurs c m -> occurs n m.

(** [m] occurs in [n] outside every nested scope. *)
Inductive in_scope : node -> node -> Prop :=
| ScopeHere n : is_scope n = false -> in_scope n n
| ScopeIn n c m : is_scope n = false -> c ∈ children n -> in_scope c m -> in_scope n m.

Lemma elem_of_forest m l : m ∈ forest_nodes l <-> exists c, c ∈ l /\ m ∈ nodes_of c.
Proof.
  induction l as [|x l IH]; simpl; [split; [by intros ?%not_elem_of_nil|intros (c & Hc & _); by apply not_elem_of_nil in Hc]|].
  rewrite elem_of_app, IH. setoid_rewrite elem_of_cons. naive_solver.
Qed.

Lemma elem_of_nodes n m : m ∈ nodes_of n <-> occurs n m.
Proof.
  split.
  - revert m. induction n as [n IH] using tree_ind. intros m. rewrite nodes_of_eq, elem_of_cons, elem_of_forest.
    intros [->|(c & Hc & Hm)]; [constructor|]. eapply OccursIn; eauto.
  - induction 1 as [n|n c m Hc _ IH]; rewrite nodes_of_eq, elem_of_cons; [by left|]. right.
    apply elem_of_forest. eauto.
Qed.

Lemma walk_queue_perm fuel todo : sizes todo <= fuel -> walk_queue fuel todo ≡ₚ forest_nodes todo.
Proof.
  revert todo. induction fuel as [|fuel IH]; intros [|n todo] Hf; simpl; try done.
  - simpl in Hf. rewrite size_of_eq in Hf. lia.
  - rewrite nodes_of_eq. simpl. f_equiv. rewrite IH.
    + by rewrite forest_nodes_app, Permutation_app_comm.
    + simpl in Hf. rewrite size_of_eq in Hf. rewrite sizes_app. lia.
Qed.

Lemma walk_perm n : walk n ≡ₚ nodes_of n.
Proof.
  unfold walk. rewrite walk_queue_perm by (simpl; lia). simpl. by rewrite app_nil_r.
Qed.

(** ** Facts about the visitor *)

Lemma visit_body_zero (f : counts -> nat) l :
  (forall a b, f (add_counts a b) = f a + f b) -> f no_counts = 0 ->
  f (visit_body l) = 0 <-> forall c, c ∈ l -> f (visit c) = 0.
Proof.
  intros Hadd H0. induction l as [|x l IH]; simpl.
  - split; [intros _ c Hc; by apply not_elem_of_nil in Hc|done].
  - rewrite Hadd, Nat.eq_add_0, IH. setoid_rewrite elem_of_cons. naive_solver.
Qed.

(** A counter stays at zero exactly when nothing in scope adds to it. *)
Lemma visit_zero (f : counts -> nat) n :
  (forall a b, f (add_counts a b) = f a + f b) -> f no_counts = 0 ->
  f (visit n) = 0 <-> forall m, in_scope n m -> f (own_counts m) = 0.
Proof.
  intros Hadd H0. induction n as [n IH] using tree_ind. rewrite visit_eq. destruct (is_scope n) eqn:Es.
  - split; [|done]. intros _ m Hm. inversion Hm; congruence.
  - rewrite Hadd, Nat.eq_add_0, visit_body_zero by done. split.
    + intros [Hown Hc] m Hm. inversion Hm as [|? c ? ? Hin Hcm]; subst; [done|]. by apply (IH c Hin); [apply Hc|].
    + intros Hall. split; [apply Hall; by constructor|]. intros c Hc. apply (IH c Hc). intros m Hm. apply Hall.
      by eapply ScopeIn.
Qed.

Lemma body_zero (f : counts -> nat) l :
  (forall a b, f (add_counts a b) = f a + f b) -> f no_counts = 0 ->
  f (visit_body l) = 0 <-> forall s m, s ∈ l -> in_scope s m -> f (own_counts m) = 0.
Proof.
  intros Hadd H0. rewrite visit_body_zero by done. setoid_rewrite visit_zero; [|done..]. naive_solver.
Qed.

(** ** The classification *)

(** A test whose own scope holds no assertion of either kind, and one whose own
    scope holds mock-call assertions only. *)
Definition no_outcome (body : list node) : Prop :=
  forall s m, s ∈ body -> in_scope s m -> outcome_assertions (own_counts m) = 0.
Definition no_mock_call (body : list node) : Prop :=
  forall s m, s ∈ body -> in_scope s m -> mock_call_assertions (own_counts m) = 0.

Definition is_free (t : string * list node) : bool :=
  (outcome_assertions (visit_body t.2) =? 0)%nat && (mock_call_assertions (visit_body t.2) =? 0)%nat.
Definition is_call_only (t : string * list node) : bool :=
  (outcome_assertions (visit_body t.2) =? 0)%nat && negb (mock_call_assertions (visit_body t.2) =? 0)%nat.

Lemma classify_run l acc :
  foldl classify_step acc l =
    (acc.1 ++ (filter (fun t => is_free t = true) l).*1, acc.2 ++ (filter (fun t => is_call_only t = true) l).*1).
Proof.
  revert acc. induction l as [|t l IH]; intros [fr ca]; simpl; [by rewrite !app_nil_r|].
  rewrite IH, !filter_cons. unfold classify_step, is_free, is_call_only.
  destruct (outcome_assertions (visit_body t.2) =? 0)%nat, (mock_call_assertions (visit_body t.2) =? 0)%nat; simpl;
    by rewrite <- ?app_assoc.
Qed.

Lemma is_free_spec t : is_free t = true <-> no_outcome t.2 /\ no_mock_call t.2.
Proof.
  unfold is_free. rewrite andb_true_iff, !Nat.eqb_eq. by rewrite !body_zero.
Qed.

Lemma is_call_only_spec t : is_call_only t = true <-> no_outcome t.2 /\ ~ no_mock_call t.2.
Proof.
  unfold is_call_only. rewrite andb_true_iff, negb_true_iff, Nat.eqb_neq, Nat.eqb_eq. by rewrite !body_zero.
Qed.

#[export] Instance test_le_total : Total test_le.
Proof. intros a b. apply String.le_total. Qed.
#[export] Instance test_le_trans : Transitive test_le.
Proof. intros a b c. unfold test_le. by transitivity (b.1). Qed.

(** The sublist of the sorted identifiers a test of the classes keeps. *)
Lemma sorted_class (P : string * list node -> bool) tests :
  NoDup tests.*1 ->
  let l := (filter (fun t => P t = true) (merge_sort test_le tests)).*1 in
  StronglySorted String.le l /\ NoDup l /\
  forall id, id ∈ l <-> exists body, (id, body) ∈ tests /\ P (id, body) = true.
Proof.
  intros Hnd l. subst l. pose proof (merge_sort_Permutation test_le tests) as Hperm.
  pose proof (StronglySorted_merge_sort test_le tests) as Hs.
  assert (NoDup (merge_sort test_le tests).*1) as Hnd' by (by rewrite Hperm).
  split_and!.
  - apply (StronglySorted_filter _ (fun t => P t = true)) in Hs.
    induction Hs as [|t l _ IH HF]; simpl; [constructor|]. constructor; [done|].
    rewrite Forall_forall in HF. rewrite Forall_forall. intros id (t' & -> & Ht')%list_elem_of_fmap. by apply HF.
  - clear Hs Hperm. induction (merge_sort test_le tests) as [|t l IH]; simpl; [constructor|]. rewrite filter_cons.
    apply NoDup_cons in Hnd' as [Hn Hnd']. case_decide; [|auto]. simpl. constructor; [|auto].
    intros (t' & Ht & Ht')%list_elem_of_fmap. apply list_elem_of_filter in Ht' as [_ Ht']. apply Hn.
    rewrite Ht. by apply list_elem_of_fmap_2.
  - intros id. rewrite list_elem_of_fmap. split.
    + intros ([id' body] & -> & Ht). apply list_elem_of_filter in Ht as [HP Ht]. rewrite Hperm in Ht. eauto.
    + intros (body & Ht & HP). exists (id, body). split; [done|]. apply list_elem_of_filter. by rewrite Hperm.
Qed.

(** ** Theorems *)

(** A test function of a parsed tree: its identifier and its body, wherever in
    the tree it is defined. *)
Definition defines_test (trees : list (string * node)) (id : string) (body : list node) : Prop :=
  exists path tree def, (path, tree) ∈ trees /\ occurs tree def /\ test_of path def = Some (id, body).

Lemma elem_of_tests trees id body : (id, body) ∈ tests_of trees <-> defines_test trees id body.
Proof.
  unfold tests_of, defines_test. rewrite <- flat_map_concat_map, list_elem_of_In, in_flat_map. split.
  - intros ([path tree] & Hin & Ht). apply list_elem_of_In in Hin, Ht. simpl in Ht.
    apply list_elem_of_omap in Ht as (def & Hd & Ht). rewrite walk_perm in Hd.
    exists path, tree, def. split_and!; [done|by apply elem_of_nodes|done].
  - intros (path & tree & def & Hin & Ho & Ht). exists (path, tree). rewrite <- !list_elem_of_In. split; [done|].
    apply list_elem_of_omap. exists def. split; [|done]. simpl. rewrite walk_perm. by apply elem_of_nodes.
Qed.

(** C40: the audit classifies every test, and by its own scope only. When it
    returns, every file parsed, the count is the number of test functions (at any
    depth of any tree, fixtures excluded), and each list is in ascending order
    without repetition, of the stated length. An identifier is listed as
    assertion-free exactly when it names a test in whose own scope nothing
    asserts an outcome and nothing asserts a mock's calls, and as call-only
    exactly when nothing there asserts an outcome and something asserts a mock's
    calls; assertions inside a nested function, class or lambda count for
    neither. *)
Theorem audit_classifies files res :
  audit files = Ok res ->
  exists trees,
    Forall2 (fun f t => f.1 = t.1 /\ f.2 = Ok t.2) files trees /\
    test_functions res = length (tests_of trees) /\
    assertion_free_count res = length (assertion_free res) /\ call_only_count res = length (call_only res) /\
    StronglySorted String.le (assertion_free res) /\ NoDup (assertion_free res) /\
    StronglySorted String.le (call_only res) /\ NoDup (call_only res) /\
    (forall id, id ∈ assertion_free res <->
       exists body, defines_test trees id body /\ no_outcome body /\ no_mock_call body) /\
    (forall id, id ∈ call_only res <->
       exists body, defines_test trees id body /\ no_outcome body /\ ~ no_mock_call body).
Proof.
  unfold audit, sorted_tests. intros Ha. unfold mbind in Ha. simpl in Ha. unfold result_bind in Ha.
  destruct (traverse _ files) as [trees|] eqn:Et; [|done].
  destruct (decide (NoDup (tests_of trees).*1)) as [Hnd|]; [|done].
  rewrite classify_run in Ha. injection Ha as <-. simpl. exists trees.
  destruct (sorted_class is_free (tests_of trees) Hnd) as (S1 & N1 & E1).
  destruct (sorted_class is_call_only (tests_of trees) Hnd) as (S2 & N2 & E2).
  split_and!; try done.
  - apply traverse_Forall2 in Et. eapply Forall2_impl; [exact Et|]. intros [p [tree|e]] [p' tree']; simpl; [|done].
    by intros [= <- <-].
  - intros id. rewrite E1. setoid_rewrite elem_of_tests. setoid_rewrite is_free_spec. done.
  - intros id. rewrite E2. setoid_rewrite elem_of_tests. setoid_rewrite is_call_only_spec. done.
Qed.

(** The breadth-first walk ends and meets every node once. The queue of
    [ast.walk] is empty after as many steps as the tree has nodes, and what it
    yielded is, up to order, the tree's nodes parents first; any more fuel changes
    nothing. *)
Theorem walk_complete n fuel :
  size_of n <= fuel -> walk_queue fuel [n] = walk n /\ walk n ≡ₚ nodes_of n /\ length (walk n) = size_of n.
Proof.
  assert (forall l, length (forest_nodes l) = sizes l) as Hlen.
  { assert (forall m, length (nodes_of m) = size_of m) as Hn.
    { intros m. induction m as [m IH] using tree_ind. rewrite nodes_of_eq, size_of_eq. simpl. f_equal.
      revert IH. generalize (children m). induction l as [|c l IHl]; intros IH; simpl; [done|].
      rewrite length_app, IH, IHl; [done| |apply elem_of_cons; by left].
      intros c' Hc'. apply IH, elem_of_cons. by right. }
    induction l as [|c l IHl]; simpl; [done|]. by rewrite length_app, Hn, IHl. }
  assert (forall fuel fuel' todo, sizes todo <= fuel -> sizes todo <= fuel' ->
    walk_queue fuel todo = walk_queue fuel' todo) as Hfuel.
  { clear. intros f. induction f as [|f IH]; intros [|f'] [|m todo] H1 H2; simpl in *; try done;
      rewrite size_of_eq in H1, H2; try lia.
    f_equal. apply IH; rewrite sizes_app; lia. }
  intros Hf. split; [apply Hfuel; simpl; lia|]. split; [apply walk_perm|].
  rewrite walk_perm. pose proof (Hlen [n]) as Hl. simpl in Hl. rewrite app_nil_r, Nat.add_0_r in Hl. done.
Qed.

(** ** The order of the report

    Identifiers are compared as strings, so the tests of one file come in the
    order of their line numbers' digits. *)
Definition two_tests : node :=
  OtherN [FunctionDefN false "test_a" 9 [] [] []; FunctionDefN false "test_b" 10 [] [] []].

Example report_order_is_lexicographic :
  assertion_free <$> audit [("tests/t.py", Ok two_tests)] = Ok ["tests/t.py:10:test_b"; "tests/t.py:9:test_a"].
Proof. vm_compute. reflexivity. Qed.
