(* ===== verification/ReleaseChecks.v ===== *)
(** * Release checks

    [scripts/check_bump_preview.py], which accepts or passes on the status of
    Commitizen's dry run. The subprocess is outside: what it returns is an
    argument. *)

From S2P Require Import Prelude PyValue.
From stdpp Require Import base gmap strings list option.
From Stdlib Require Import ZArith Lia.
From Stdlib Require Ascii String.

(** ** [marker in output] *)

Fixpoint contains (m s : string) : bool :=
  String.prefix m s || match s with EmptyString => false | String _ s' => contains m s' end.

Definition newline : Ascii.ascii := Ascii.ascii_of_N 10.

Fixpoint one_line (s : string) : bool :=
  match s with EmptyString => true | String c s' => negb (bool_decide (c = newline)) && one_line s' end.

Lemma prefix_across m a b :
  one_line m = true -> m <> "" ->
  String.prefix m (a +:+ String newline b) = String.prefix m a.
Proof.
  revert a. induction m as [|c m IH]; intros a Hm Hne; [done|]. simpl in Hm. apply andb_true_iff in Hm as [Hc Hm].
  rewrite negb_true_iff in Hc. apply bool_decide_eq_false_1 in Hc.
  destruct a as [|x a]; simpl.
  - unfold String.append. simpl. destruct (Ascii.ascii_dec c newline); [done|done].
  - change (String x a +:+ String newline b) with (String x (a +:+ String newline b)). simpl.
    destruct (Ascii.ascii_dec c x); [|done]. destruct m as [|c' m]; [by destruct (a +:+ String newline b), a|].
    by apply IH.
Qed.

Lemma contains_cons m x s : contains m (String x s) = String.prefix m (String x s) || contains m s.
Proof. done. Qed.

(** A marker of one line is in one of the two streams, never across them. *)
Lemma contains_lines m a b :
  one_line m = true -> m <> "" ->
  contains m (a +:+ String newline b) = contains m a || contains m b.
Proof.
  intros Hm Hne. induction a as [|x a IH].
  - change ("" +:+ String newline b) with (String newline b). simpl. destruct m as [|c m]; [done|]. simpl in Hm |- *.
    apply andb_true_iff in Hm as [Hc _]. rewrite negb_true_iff in Hc. apply bool_decide_eq_false_1 in Hc.
    by destruct (Ascii.ascii_dec c newline).
  - pose proof (prefix_across m (String x a) b Hm Hne) as Hp.
    change (String x a +:+ String newline b) with (String x (a +:+ String newline b)) in *.
    by rewrite !contains_cons, IH, Hp, orb_assoc.
Qed.

(** ** The bump preview *)

Definition NO_COMMITS_EXIT : Z := 3.
Definition NO_COMMITS_MARKERS : list string := ["[NO_COMMITS_FOUND]"; "No new commits found."].
Definition RELEASE_GAP_EXIT : Z := 16.
Definition RELEASE_GAP_MARKERS : list string :=
  ["bump: version "; "tag to create: v"; "increment detected: "; "No tag found to do an incremental changelog"].
Definition NOT_ELIGIBLE_EXIT : Z := 21.
Definition NOT_ELIGIBLE_MARKERS : list string :=
  ["[NO_COMMITS_TO_BUMP]"; "The commits found are not eligible to be bumped"].

Definition all_in (markers : list string) (output : string) : bool := forallb (fun m => contains m output) markers.

Definition accepted_result (returncode : Z) (output : string) : bool :=
  (returncode =? 0)%Z
  || ((returncode =? NO_COMMITS_EXIT)%Z && all_in NO_COMMITS_MARKERS output)
  || ((returncode =? RELEASE_GAP_EXIT)%Z && all_in RELEASE_GAP_MARKERS output)
  || ((returncode =? NOT_ELIGIBLE_EXIT)%Z && all_in NOT_ELIGIBLE_MARKERS output).

(** [subprocess.CompletedProcess] *)
Record completed : Type := Completed { returncode : Z; stdout : string; stderr : string }.

(** [main]: what it writes to the two streams, and the status it returns. *)
Record preview : Type := Preview { written_stdout : string; written_stderr : string; status : Z }.

Definition main (result : completed) : preview :=
  let output := stdout result +:+ String newline (stderr result) in
  Preview (stdout result) (stderr result)
    (if accepted_result (returncode result) output then 0 else returncode result)%Z.

(** The documented preview states: a status and the markers each of which one of
    the two streams shows. *)
Definition preview_states : list (Z * list string) :=
  [(0%Z, []); (3%Z, NO_COMMITS_MARKERS); (16%Z, RELEASE_GAP_MARKERS); (21%Z, NOT_ELIGIBLE_MARKERS)].

Definition shows (result : completed) (m : string) : Prop :=
  contains m (stdout result) = true \/ contains m (stderr result) = true.

Lemma all_in_shows markers result :
  Forall (fun m => one_line m = true /\ m <> "") markers ->
  all_in markers (stdout result +:+ String newline (stderr result)) = true <-> Forall (shows result) markers.
Proof.
  unfold all_in, shows. induction 1 as [|m l [Hm Hne] HF IH]; simpl; [done|].
  rewrite (contains_lines m _ _ Hm Hne), andb_true_iff, orb_true_iff. setoid_rewrite IH.
  split; [intros []; by constructor|intros Hl; by inversion Hl].
Qed.

(** The preview's status. The script passes both streams through unchanged
    and exits 0 exactly when the run ended in one of the four explicit states,
    with each of the state's markers wholly in one stream (a marker can not be
    pieced together from the end of one stream and the start of the other);
    otherwise it exits with the run's own status, which is then not 0: a failure
    is never hidden, and its status never altered. *)
Theorem preview_status result :
  let p := main result in
  written_stdout p = stdout result /\ written_stderr p = stderr result /\
  (status p = 0%Z <-> exists markers, (returncode result, markers) ∈ preview_states /\ Forall (shows result) markers) /\
  (status p <> 0%Z -> status p = returncode result).
Proof.
  cbv zeta. unfold main. simpl. split; [done|]. split; [done|].
  assert (forall l, l ∈ preview_states.*2 -> Forall (fun m => one_line m = true /\ m <> "") l) as Hlines.
  { assert (Forall (fun l => Forall (fun m => one_line m = true /\ m <> "") l) preview_states.*2) as HF
      by (repeat constructor; done).
    intros l Hl. rewrite List.Forall_forall in HF. by apply HF, list_elem_of_In. }
  assert (accepted_result (returncode result) (stdout result +:+ String newline (stderr result)) = true <->
    exists markers, (returncode result, markers) ∈ preview_states /\ Forall (shows result) markers) as Hacc.
  { unfold accepted_result. rewrite !orb_true_iff, !andb_true_iff, !Z.eqb_eq.
    rewrite !all_in_shows by (apply Hlines; unfold preview_states; simpl; set_solver).
    unfold NO_COMMITS_EXIT, RELEASE_GAP_EXIT, NOT_ELIGIBLE_EXIT. split.
    - intros [[[Hz|[Hz Hm]]|[Hz Hm]]|[Hz Hm]]; rewrite Hz; eexists; (split; [|try eassumption]);
        try (apply list_elem_of_In; simpl; eauto 6); constructor.
    - intros (markers & Hin%list_elem_of_In & Hm). simpl in Hin. naive_solver. }
  destruct (accepted_result _ _).
  - split; [|done]. split; [intros _; by apply Hacc|done].
  - split; [|done]. split; [|intros Hs; by apply Hacc in Hs]. intros Hz. exfalso.
    assert (false = true) as Hf; [|done]. apply Hacc. exists []. rewrite Hz. split; [by constructor|constructor].
Qed.
