(* ===== verification/ReleaseTools.v ===== *)
(** * Release and contract tooling

    [scripts/check-contracts.py], [scripts/check-license.py] and
    [scripts/write-build-provenance.py]. What the files hold is an argument: the
    values [json] and [tomllib] make of them, their texts, and their SHA-256
    digests; so are the commit [git] prints and the interpreter's version. *)

From S2P Require Import Prelude PyValue ReleaseChecks.
From stdpp Require Import base gmap strings list option sorting.
From Stdlib Require Import ZArith Lia Floats.SpecFloat.
From Stdlib Require Ascii String.

Definition AssertionError : exn := OtherException "AssertionError".
Definition IndexError : exn := OtherException "IndexError".

(** [assert b] *)
Definition assert_ (b : bool) : result exn unit := if b then Ok tt else Raise AssertionError.

(** [v[k]] *)
Definition subscript (v : value) (k : string) : result exn value :=
  match v with
  | VDict d => match lookup_key d k with Some x => Ok x | None => Raise KeyError end
  | _ => Raise TypeError
  end.

(** [v[0]] *)
Definition first_item (v : value) : result exn value :=
  match v with
  | VList (x :: _) => Ok x
  | VList [] => Raise IndexError
  | VStr s => match chars s with ch :: _ => Ok (VStr ch) | [] => Raise IndexError end
  | VDict _ => Raise KeyError
  | _ => Raise TypeError
  end.

(** A float equal to an integer. *)
Definition float_is (f : spec_float) (z : Z) : bool :=
  match f with
  | S754_zero _ => (z =? 0)%Z
  | S754_finite s m e =>
      let m := (if s then - Z.pos m else Z.pos m)%Z in
      if (0 <=? e)%Z then (m * 2 ^ e =? z)%Z else (m =? z * 2 ^ (- e))%Z
  | _ => false
  end.

Definition number_of (v : value) : option Z :=
  match v with VInt n => Some n | VBool b => Some (if b then 1 else 0)%Z | _ => None end.

(** [a == b] *)
Fixpoint py_eq (a b : value) {struct a} : bool :=
  match a, b with
  | VNull, VNull => true
  | VStr s, VStr s' => bool_decide (s = s')
  | VFloat f, VFloat f' => SFeqb f f'
  | VFloat f, _ => match number_of b with Some n => float_is f n | None => false end
  | (VInt _ | VBool _), VFloat f => match number_of a with Some n => float_is f n | None => false end
  | (VInt _ | VBool _), _ => bool_decide (number_of a = number_of b)
  | VList l, VList l' =>
      (fix all (l l' : list value) {struct l} : bool :=
         match l, l' with
         | [], [] => true
         | x :: l, x' :: l' => py_eq x x' && all l l'
         | _, _ => false
         end) l l'
  | VDict d, VDict d' =>
      (length d =? length d')%nat &&
      (fix all (d : list (string * value)) : bool :=
         match d with
         | [] => true
         | (k, x) :: d => match lookup_key d' k with Some x' => py_eq x x' | None => false end && all d
         end) d
  | _, _ => false
  end.

(** [k in v] *)
Definition member (k : string) (v : value) : result exn bool :=
  match v with
  | VDict d => Ok (has_key d k)
  | VList l => Ok (existsb (py_eq (VStr k)) l)
  | VStr s => Ok (contains k s)
  | _ => Raise TypeError
  end.

Definition is_text (v : value) (s : string) : bool := bool_decide (v = VStr s).

(** ** [check-contracts.py] *)

Definition PERSISTENCE_PRODUCER_COMMIT : string := "8246bcb53ff3f51a7a51bf5d18ff32bca91cb828".
Definition SCHEMA_TESTED_RUNTIME_COMMIT : string := "6d0425f908e01a446b040e2993045e2afe30460e".
Definition APPLICATION_RUNTIME_COMMIT : string := "87c0d75ca457bd38b14e6ce6f713098a2b4c5e26".

(** The repository's files, as the script reads them. *)
Record checkout : Type := Checkout {
  catalog_source : value;
  persistence_source : value;
  compatibility : value;
  runtime_compatibility : value;
  lockfile : string;
  pyproject : value;
  digest : string -> string;      (** of a file, by its path *)
}.

(** The assertions, in the script's order. *)
Definition check_contracts (co : checkout) : result exn unit :=
  contract_sha ← subscript (catalog_source co) "contract_sha256";
  _ ← assert_ (is_text contract_sha (digest co "contracts/catalog-events/v1/contract.json"));
  binding_sha ← subscript (catalog_source co) "binding_sha256";
  _ ← assert_ (is_text binding_sha (digest co "brainztableinator/catalog_contract.py"));
  persistence_sha ← subscript (persistence_source co) "contract_sha256";
  _ ← assert_ (is_text persistence_sha (digest co "contracts/persistence/v1/compatibility.json"));
  producer ← subscript (persistence_source co) "producer_commit";
  _ ← assert_ (is_text producer PERSISTENCE_PRODUCER_COMMIT);
  contract ← subscript (compatibility co) "contract";
  _ ← assert_ (is_text contract "groovemap.persistence");
  version ← subscript (compatibility co) "version";
  _ ← assert_ (py_eq version (VInt 1));
  graph_schema ← subscript (compatibility co) "graph_schema";
  property_graph ← member "property_graph" graph_schema;
  _ ← assert_ (negb property_graph);
  application_runtime ← subscript (compatibility co) "application_runtime";
  tested_version ← subscript application_runtime "tested_version";
  _ ← assert_ (is_text tested_version "0.1.0");
  tested_commit ← subscript application_runtime "tested_commit";
  _ ← assert_ (is_text tested_commit SCHEMA_TESTED_RUNTIME_COMMIT);
  tool ← subscript (pyproject co) "tool";
  uv ← subscript tool "uv";
  sources ← subscript uv "sources";
  runtime_source ← subscript sources "groovemap-runtime";
  rev ← subscript runtime_source "rev";
  _ ← assert_ (is_text rev APPLICATION_RUNTIME_COMMIT);
  runtime_commit ← subscript (runtime_compatibility co) "runtime_commit";
  _ ← assert_ (is_text runtime_commit APPLICATION_RUNTIME_COMMIT);
  producer_contract ← subscript (runtime_compatibility co) "producer_contract_commit";
  catalog_producer ← subscript (catalog_source co) "producer_commit";
  _ ← assert_ (py_eq producer_contract catalog_producer);
  overrides ← subscript uv "override-dependencies";
  override ← first_item overrides;
  overridden ← member APPLICATION_RUNTIME_COMMIT override;
  _ ← assert_ overridden;
  assert_ (contains ("python-libraries.git?rev=" +:+ APPLICATION_RUNTIME_COMMIT +:+ "#" +:+ APPLICATION_RUNTIME_COMMIT)
             (lockfile co)).

(** ** [check-license.py] *)

Definition quote : Ascii.ascii := Ascii.ascii_of_N 34.

(** The longest prefix without a quote, and what follows. *)
Fixpoint until_quote (s : string) : string * string :=
  match s with
  | EmptyString => (EmptyString, EmptyString)
  | String c s' =>
      if decide (c = quote) then (EmptyString, s)
      else let '(a, b) := until_quote s' in (String c a, b)
  end.

Fixpoint strip_prefix (p s : string) : option string :=
  match p, s with
  | EmptyString, _ => Some s
  | String c p', String c' s' => if decide (c = c') then strip_prefix p' s' else None
  | _, _ => None
  end.

Definition version_prefix : string := "__version__ = " +:+ String quote EmptyString.

(** The pattern at the start of a line: the assignment, a text without a quote
    between quotes, and the end of the line. *)
Definition version_here (s : string) : option string :=
  rest ← strip_prefix version_prefix s;
  match until_quote rest with
  | (EmptyString, _) => None
  | (version, String _ EmptyString) => Some version
  | (version, String _ (String c _)) => if decide (c = newline) then Some version else None
  | (_, EmptyString) => None
  end.

(** [re.search] with [re.MULTILINE]; [start] where a line begins. *)
Fixpoint version_in (start : bool) (s : string) : option string :=
  match (if start then version_here s else None) with
  | Some v => Some v
  | None => match s with EmptyString => None | String c s' => version_in (bool_decide (c = newline)) s' end
  end.

Definition check_license (pyproject : value) (init license : string) : result exn unit :=
  project ← subscript pyproject "project";
  match version_in true init with
  | None => Raise AssertionError
  | Some found =>
      kind ← subscript project "license";
      _ ← assert_ (is_text kind "MIT");
      version ← subscript project "version";
      _ ← assert_ (is_text version found);
      assert_ (String.prefix ("MIT License" +:+ String newline EmptyString) license)
  end.

(** ** [write-build-provenance.py] *)

Definition dot : Ascii.ascii := Ascii.ascii_of_N 46.

(** [path.suffix], of a name without its directories: from the last dot on, if
    anything but dots is before it. *)
Fixpoint split_suffix (seen : bool) (s : string) : option string :=
  match s with
  | EmptyString => None
  | String c s' =>
      let at_dot := bool_decide (c = dot) in
      match split_suffix (seen || negb at_dot) s' with
      | Some suffix => Some suffix
      | None => if at_dot && seen then Some s else None
      end
  end.

Definition suffix (name : string) : string := default "" (split_suffix false name).

Definition is_artifact (name : string) : bool := bool_decide (suffix name ∈ [".gz"; ".whl"]).

(** [shutil.which], and what [git rev-parse HEAD] prints. *)
Record tooling : Type := Tooling {
  git : option (result exn string);
  dist : list string;                 (** the names in [dist] *)
  sha256_of : string -> string;
  python_version : string;            (** [sys.version.split()[0]] *)
}.

(** The value the script writes to [provenance.json]. *)
Definition provenance (t : tooling) : result exn value :=
  match git t with
  | None => Raise RuntimeError
  | Some answer =>
      commit ← answer;
      let artifacts := filter (fun name => is_artifact name = true) (sorted (dist t)) in
      Ok (VDict [("artifacts", VList (map (fun name => VDict [("name", VStr name); ("sha256", VStr (sha256_of t name))]) artifacts));
                 ("builder", VStr "scripts/release-dry-run.sh");
                 ("commit", VStr (strip commit));
                 ("python", VStr (python_version t));
                 ("repository", VStr "https://github.com/groovemap-music/musicbrainz-sql-loader")])
  end.

Example suffixes :
  map suffix ["a-0.1.0.tar.gz"; "a-0.1.0-py3-none-any.whl"; ".gz"; "provenance.json"; "a."] = [".gz"; ".whl"; ""; ".json"; "."].
Proof. vm_compute. reflexivity. Qed.

(** A checkout whose pins agree, and one whose lock file is behind. *)
Definition sample_checkout (lock : string) : checkout :=
  Checkout
    (VDict [("contract_sha256", VStr "contract"); ("binding_sha256", VStr "binding"); ("producer_commit", VStr "p")])
    (VDict [("contract_sha256", VStr "schema"); ("producer_commit", VStr PERSISTENCE_PRODUCER_COMMIT)])
    (VDict [("contract", VStr "groovemap.persistence"); ("version", VInt 1); ("graph_schema", VDict []);
            ("application_runtime", VDict [("tested_version", VStr "0.1.0"); ("tested_commit", VStr SCHEMA_TESTED_RUNTIME_COMMIT)])])
    (VDict [("runtime_commit", VStr APPLICATION_RUNTIME_COMMIT); ("producer_contract_commit", VStr "p")])
    ("url = python-libraries.git?rev=" +:+ lock +:+ "#" +:+ lock)
    (VDict [("tool", VDict [("uv", VDict [
       ("sources", VDict [("groovemap-runtime", VDict [("rev", VStr APPLICATION_RUNTIME_COMMIT)])]);
       ("override-dependencies", VList [VStr ("runtime @ git+https://" +:+ APPLICATION_RUNTIME_COMMIT)])])])])
    (fun path => if decide (path = "contracts/catalog-events/v1/contract.json") then "contract"
                 else if decide (path = "brainztableinator/catalog_contract.py") then "binding" else "schema").

Example pins_agree : check_contracts (sample_checkout APPLICATION_RUNTIME_COMMIT) = Ok tt.
Proof. vm_compute. reflexivity. Qed.

Example lock_behind : check_contracts (sample_checkout SCHEMA_TESTED_RUNTIME_COMMIT) = Raise AssertionError.
Proof. vm_compute. reflexivity. Qed.

(** A line that only begins as the declaration does is passed over. *)
Definition sample_init : string :=
  "# comment" +:+ String newline (version_prefix +:+ "9" +:+ String quote " # not it") +:+
  String newline (version_prefix +:+ "0.1.0" +:+ String quote (String newline "")).

Example version_found : version_in true sample_init = Some "0.1.0".
Proof. vm_compute. reflexivity. Qed.

Example license_ok :
  check_license (VDict [("project", VDict [("license", VStr "MIT"); ("version", VStr "0.1.0")])]) sample_init
    ("MIT License" +:+ String newline "Copyright") = Ok tt.
Proof. vm_compute. reflexivity. Qed.

(** ** What a passing check says *)

Lemma bind_ok {E A B} (r : result E A) (k : A -> result E B) b : r ≫= k = Ok b <-> exists a, r = Ok a /\ k a = Ok b.
Proof. destruct r as [a|e]; simpl; [naive_solver|]. split; [done|by intros (a & Ha & _)]. Qed.

Lemma assert_ok b u : assert_ b = Ok u <-> b = true.
Proof. destruct u. by destruct b. Qed.

Lemma is_text_ok v s : is_text v s = true <-> v = VStr s.
Proof. apply bool_decide_eq_true. Qed.

(** The value under a path of keys. *)
Fixpoint at_path (v : value) (ks : list string) : option value :=
  match ks with
  | [] => Some v
  | k :: ks => match v with VDict d => x ← lookup_key d k; at_path x ks | _ => None end
  end.

Lemma subscript_path v k ks x : at_path v (k :: ks) = Some x <-> exists y, subscript v k = Ok y /\ at_path y ks = Some x.
Proof.
  destruct v; simpl; try (split; [done|by intros (y & Hy & _)]). destruct (lookup_key d k) as [y|]; simpl.
  - split; [by exists y|]. by intros (y' & [= <-] & Hx).
  - split; [done|by intros (y & Hy & _)].
Qed.

(** Every pin the script reads is the one it expects. *)
Record pinned (co : checkout) : Prop := Pinned {
  pin_contract : at_path (catalog_source co) ["contract_sha256"] = Some (VStr (digest co "contracts/catalog-events/v1/contract.json"));
  pin_binding : at_path (catalog_source co) ["binding_sha256"] = Some (VStr (digest co "brainztableinator/catalog_contract.py"));
  pin_persistence :
    at_path (persistence_source co) ["contract_sha256"] = Some (VStr (digest co "contracts/persistence/v1/compatibility.json")) /\
    at_path (persistence_source co) ["producer_commit"] = Some (VStr PERSISTENCE_PRODUCER_COMMIT);
  pin_schema :
    at_path (compatibility co) ["contract"] = Some (VStr "groovemap.persistence") /\
    (exists v, at_path (compatibility co) ["version"] = Some v /\ py_eq v (VInt 1) = true) /\
    (exists v, at_path (compatibility co) ["graph_schema"] = Some v /\ member "property_graph" v = Ok false) /\
    at_path (compatibility co) ["application_runtime"; "tested_version"] = Some (VStr "0.1.0") /\
    at_path (compatibility co) ["application_runtime"; "tested_commit"] = Some (VStr SCHEMA_TESTED_RUNTIME_COMMIT);
  pin_runtime :
    at_path (pyproject co) ["tool"; "uv"; "sources"; "groovemap-runtime"; "rev"] = Some (VStr APPLICATION_RUNTIME_COMMIT) /\
    at_path (runtime_compatibility co) ["runtime_commit"] = Some (VStr APPLICATION_RUNTIME_COMMIT) /\
    (exists l o, at_path (pyproject co) ["tool"; "uv"; "override-dependencies"] = Some l /\ first_item l = Ok o /\
       member APPLICATION_RUNTIME_COMMIT o = Ok true) /\
    contains ("python-libraries.git?rev=" +:+ APPLICATION_RUNTIME_COMMIT +:+ "#" +:+ APPLICATION_RUNTIME_COMMIT) (lockfile co) = true;
  pin_producer : exists a b, at_path (runtime_compatibility co) ["producer_contract_commit"] = Some a /\
    at_path (catalog_source co) ["producer_commit"] = Some b /\ py_eq a b = true;
}.

Ltac follow_paths :=
  repeat match goal with
  | H : at_path _ (_ :: _) = Some _ |- _ => apply subscript_path in H as (? & ? & H)
  | H : at_path _ [] = Some _ |- _ => simpl in H; injection H as H; subst
  | H1 : subscript ?v ?k = Ok _, H2 : subscript ?v ?k = Ok _ |- _ => rewrite H1 in H2; injection H2 as H2; subst
  end.

Ltac read_pins :=
  repeat match goal with
  | H : assert_ _ = Ok _ |- _ => apply assert_ok in H
  | H : negb _ = true |- _ => apply negb_true_iff in H; subst
  | H : is_text _ _ = true |- _ => apply is_text_ok in H; subst
  | H : ?b = true |- _ => is_var b; subst b
  end.

Ltac take_pins :=
  repeat (match goal with
  | H : subscript ?v ?k = Ok _ |- context [subscript ?v ?k] => rewrite H
  | |- context [is_text (VStr ?s) ?s] => rewrite (proj2 (is_text_ok (VStr s) s) eq_refl)
  | H : ?t = _ |- context [?t] => rewrite H
  end; simpl mbind).

Ltac pin := repeat (apply subscript_path; eexists; split; [eassumption|]); reflexivity.

(** The contract check passes exactly when every pin agrees: the three
    promoted files have the digests their sources record, the schema contract and
    its historical test pin are the ones named, and the runtime is one commit in
    all four places that name it (the dependency, its override, the lock file and
    the runtime's compatibility record). A missing key or a value of another shape
    never passes. *)
Theorem contract_pins co : check_contracts co = Ok tt <-> pinned co.
Proof.
  unfold check_contracts. split.
  - intros Hc. repeat (apply bind_ok in Hc as (? & ? & Hc)). read_pins.
    split; split_and?; try pin; try assumption; repeat eexists; try eassumption; pin.
  - intros [P1 P2 [P3 P4] (P5 & (v & P6 & Pv) & (g & P7 & Pg) & P8 & P9) (P10 & P11 & (l & o & P12 & Pl & Po) & P13) (x & y & P14 & P15 & Pe)].
    follow_paths. take_pins. simpl. exact eq_refl.
Qed.

(** ** The version the package declares *)

Lemma append_cons c a b : String c a +:+ b = String c (a +:+ b).
Proof. reflexivity. Qed.

Lemma append_empty a : "" +:+ a = a.
Proof. reflexivity. Qed.

Ltac texts := rewrite ?append_cons, ?append_empty in *.

Lemma strip_prefix_some p s rest : strip_prefix p s = Some rest <-> s = p +:+ rest.
Proof.
  revert s. induction p as [|c p IH]; intros [|c' s]; simpl; texts; try (split; congruence).
  case_decide as Hc; subst; [rewrite IH|]; split; congruence.
Qed.

Fixpoint unquoted (s : string) : Prop :=
  match s with EmptyString => True | String c s' => c <> quote /\ unquoted s' end.

Lemma until_quote_spec s : let '(a, b) := until_quote s in s = a +:+ b /\ unquoted a /\ (b = "" \/ exists b', b = String quote b').
Proof.
  induction s as [|c s IH]; simpl; [by auto|]. case_decide as Hc; [subst; split_and!; [done|done|right; by eexists]|]. destruct (until_quote s) as [a b].
  destruct IH as (-> & Ha & Hb). split_and!; simpl; auto.
Qed.

Lemma until_quote_at a post : unquoted a -> until_quote (a +:+ String quote post) = (a, String quote post).
Proof.
  induction a as [|c a IH]; intros Ha; texts; simpl; [done|]. destruct Ha as [Hc Ha].
  by rewrite decide_False, IH.
Qed.

(** [post] is where a line ends. *)
Definition ends_line (post : string) : Prop := post = "" \/ exists rest, post = String newline rest.

(** At the start of [s] the version [v] is declared. *)
Definition declares (s v : string) : Prop :=
  exists post, s = version_prefix +:+ v +:+ String quote post /\ v <> "" /\ unquoted v /\ ends_line post.

Lemma version_here_spec s v : version_here s = Some v <-> declares s v.
Proof.
  unfold version_here, declares. split.
  - destruct (strip_prefix _ s) as [rest|] eqn:Es; [|done]. apply strip_prefix_some in Es as ->. simpl.
    pose proof (until_quote_spec rest) as Hq. destruct (until_quote rest) as [a b]. destruct Hq as (-> & Ha & Hb).
    intros Hv. destruct a as [|x a], b as [|y post]; try done. destruct Hb as [Hb|[b' [= -> ->]]]; [done|].
    assert (ends_line b' /\ v = String x a) as [Hend ->]; [|by exists b'].
    destruct b' as [|z b']; [injection Hv as <-; split; [by left|done]|]. case_decide; [|done]. subst z.
    injection Hv as <-. split; [right; by eexists|done].
  - intros (post & -> & Hne & Hv & Hend). rewrite (proj2 (strip_prefix_some _ _ _) eq_refl). simpl.
    rewrite until_quote_at by done. destruct v as [|x v]; [done|]. destruct Hend as [->|[rest ->]]; [done|]. by rewrite decide_True.
Qed.

(** [s] from where it can be read at a line's start: the declaration after
    [pre], which is nothing or ends a line. *)
Definition declared_after (start : bool) (s pre v : string) : Prop :=
  exists rest, s = pre +:+ rest /\ declares rest v /\
    (pre = "" /\ start = true \/ exists line, pre = line +:+ String newline "").

Lemma declared_start s pre v : declared_after true s pre v -> pre = "" -> declares s v.
Proof. intros (rest & -> & Hd & _) ->. exact Hd. Qed.

Lemma declared_cons start c s pre v :
  declared_after start (String c s) (String c pre) v <-> declared_after (bool_decide (c = newline)) s pre v.
Proof.
  unfold declared_after. split; intros (rest & Hs & Hd & Hl); exists rest; texts.
  - injection Hs as Hs. split_and!; [done|done|]. destruct Hl as [[Hl _]|[[|c' line] Hl]]; [done| |]; texts.
    + injection Hl as -> ->. left. by rewrite bool_decide_eq_true.
    + injection Hl as -> ->. right. by exists line.
  - rewrite Hs. split_and!; [done|done|]. right. destruct Hl as [[-> Hl]|[line ->]].
    + apply bool_decide_eq_true_1 in Hl as ->. by exists "".
    + by exists (String c line).
Qed.

(** The search finds the first declaration, or there is none. *)
Lemma version_in_spec start s :
  match version_in start s with
  | Some v => exists pre, declared_after start s pre v /\
      forall pre' v', declared_after start s pre' v' -> String.length pre <= String.length pre'
  | None => forall pre v, ~ declared_after start s pre v
  end.
Proof.
  revert start. induction s as [|c s IH]; intros start.
  - assert (forall pre v, ~ declared_after start "" pre v) as Hno.
    { intros pre v (rest & Hs & (post & -> & _) & _). by destruct pre. }
    simpl. by destruct start.
  - assert (version_in start (String c s) =
      match (if start then version_here (String c s) else None) with
      | Some v => Some v | None => version_in (bool_decide (c = newline)) s end) as -> by reflexivity.
    destruct (if start then _ else None) as [v|] eqn:Ehere.
    + destruct start; [|done]. apply version_here_spec in Ehere. exists "". split; [|intros; simpl; lia].
      exists (String c s). split_and!; [done|done|by left].
    + assert (forall v, ~ declared_after start (String c s) "" v) as Hne.
      { intros v (rest & Hs & Hd & [[_ ->]|[[|] Hl]]); [|done|done]. texts. subst.
        apply version_here_spec in Hd. by rewrite Hd in Ehere. }
      specialize (IH (bool_decide (c = newline))). destruct (version_in _ s) as [v|].
      * destruct IH as (pre & Hd & Hmin). exists (String c pre). split; [by apply declared_cons|].
        intros [|c' pre'] v' Hd'; [by edestruct Hne|]. pose proof Hd' as (? & [= <- _] & _).
        apply declared_cons, Hmin in Hd'. simpl. lia.
      * intros [|c' pre'] v' Hd'; [by eapply Hne|]. pose proof Hd' as (? & [= <- _] & _). by apply declared_cons, IH in Hd'.
Qed.

Lemma append_inj a a' b b' : String.length a = String.length a' -> a +:+ b = a' +:+ b' -> a = a' /\ b = b'.
Proof.
  revert a'. induction a as [|c a IH]; intros [|c' a'] Hl Heq; try done. texts. injection Heq as -> Heq. injection Hl as Hl.
  by destruct (IH _ Hl Heq) as [-> ->].
Qed.

Lemma declared_once start s pre pre' v v' :
  String.length pre = String.length pre' -> declared_after start s pre v -> declared_after start s pre' v' -> v = v'.
Proof.
  intros Hl (rest & -> & Hd & _) (rest' & Hs & Hd' & _). destruct (append_inj _ _ _ _ Hl Hs) as [_ <-].
  apply version_here_spec in Hd, Hd'. congruence.
Qed.

Lemma prefix_spec p s : String.prefix p s = true <-> exists rest, s = p +:+ rest.
Proof.
  revert s. induction p as [|c p IH]; intros s; [split; [by exists s|by destruct s]|].
  destruct s as [|c' s]; simpl; [split; [done|by intros [? ?]]|]. destruct (Ascii.ascii_dec c c') as [->|Hc].
  - rewrite IH. split; intros [rest Hs]; exists rest; [by rewrite Hs|]. by injection Hs.
  - split; [done|]. intros [rest Hs]. by injection Hs.
Qed.

(** The licence check passes exactly when the package is declared consistently:
    the project's licence is MIT, the licence file opens as the MIT text does, and
    the project's version is the one of the package's first line, whole, of the form
    [__version__ = "..."], a later such line counting for nothing. *)
Theorem license_check pyproject init license :
  check_license pyproject init license = Ok tt <->
  at_path pyproject ["project"; "license"] = Some (VStr "MIT") /\
  (exists pre v, at_path pyproject ["project"; "version"] = Some (VStr v) /\ declared_after true init pre v /\
     forall pre' v', declared_after true init pre' v' -> String.length pre <= String.length pre') /\
  exists rest, license = "MIT License" +:+ String newline rest.
Proof.
  unfold check_license. pose proof (version_in_spec true init) as Hv. split.
  - intros Hc. apply bind_ok in Hc as (project & Hp & Hc). destruct (version_in true init) as [v|]; [|done].
    destruct Hv as (pre & Hd & Hmin). repeat (apply bind_ok in Hc as (? & ? & Hc)). read_pins.
    apply prefix_spec in Hc as [rest ->].
    split_and!; [pin|exists pre, v; split_and!; [pin|done|done]|by exists rest].
  - intros (P1 & (pre & v & P2 & Hd & Hmin) & rest & ->).
    destruct (version_in true init) as [found|]; [|by destruct (Hv pre v)]. destruct Hv as (pre0 & Hd0 & Hmin0).
    assert (found = v) as ->.
    { refine (declared_once _ _ _ _ _ _ _ Hd0 Hd). pose proof (Hmin0 _ _ Hd). pose proof (Hmin _ _ Hd0). lia. }
    follow_paths. take_pins.
    apply assert_ok, prefix_spec. by exists rest.
Qed.

(** ** The artifacts the provenance lists *)

(** Some character of [s] is not a dot. *)
Fixpoint named (s : string) : bool :=
  match s with EmptyString => false | String c s' => negb (bool_decide (c = dot)) || named s' end.

Fixpoint dotless (s : string) : bool :=
  match s with EmptyString => true | String c s' => negb (bool_decide (c = dot)) && dotless s' end.

Lemma split_suffix_dotless seen s : dotless s = true -> split_suffix seen s = None.
Proof.
  revert seen. induction s as [|c s IH]; intros seen Hs; [done|]. simpl in *. apply andb_true_iff in Hs as [Hc Hs].
  rewrite IH by done. by destruct (bool_decide (c = dot)).
Qed.

Lemma split_suffix_at seen stem ext :
  dotless ext = true -> seen || named stem = true ->
  split_suffix seen (stem +:+ String dot ext) = Some (String dot ext).
Proof.
  intros He. revert seen. induction stem as [|c stem IH]; intros seen Hs; texts.
  - simpl in *. rewrite split_suffix_dotless by done. rewrite orb_false_r in Hs. by subst.
  - simpl in *. rewrite IH; [done|]. by rewrite <- orb_assoc.
Qed.

Lemma split_suffix_some seen s ext :
  split_suffix seen s = Some ext -> exists stem, s = stem +:+ ext /\ seen || named stem = true.
Proof.
  revert seen. induction s as [|c s IH]; intros seen Hs; [done|]. simpl in Hs.
  destruct (split_suffix _ s) as [ext'|] eqn:Es.
  - injection Hs as ->. apply IH in Es as (stem & -> & Hn). exists (String c stem). split; [done|]. simpl. by rewrite orb_assoc.
  - destruct (bool_decide (c = dot) && seen) eqn:Ec; [|done]. injection Hs as <-. apply andb_true_iff in Ec as [_ ->]. by exists "".
Qed.

(** An artifact's name ends in [.gz] or [.whl] after something that is not only
    dots. *)
Lemma is_artifact_spec name :
  is_artifact name = true <-> exists stem ext, name = stem +:+ ext /\ ext ∈ [".gz"; ".whl"] /\ named stem = true.
Proof.
  unfold is_artifact, suffix. rewrite bool_decide_eq_true. split.
  - intros Hin. destruct (split_suffix false name) as [ext|] eqn:Es; simpl in Hin; [|by set_solver].
    apply split_suffix_some in Es as (stem & -> & Hn). by exists stem, ext.
  - intros (stem & ext & -> & Hext & Hn).
    apply elem_of_cons in Hext as [->|[->|[]%elem_of_nil]%elem_of_cons];
      rewrite (split_suffix_at false stem _) by done; set_solver.
Qed.

(** The provenance of a build is written when [git] answers, and lists every
    artifact of [dist] once, in the order of the names, with its own digest. *)
Lemma provenance_lists t v :
  NoDup (dist t) -> provenance t = Ok v ->
  exists names commit,
    git t = Some (Ok commit) /\ at_path v ["commit"] = Some (VStr (strip commit)) /\
    at_path v ["artifacts"] = Some (VList (map (fun name => VDict [("name", VStr name); ("sha256", VStr (sha256_of t name))]) names)) /\
    NoDup names /\ StronglySorted String.le names /\
    forall name, name ∈ names <-> name ∈ dist t /\ is_artifact name = true.
Proof.
  unfold provenance. intros Hd Hp. destruct (git t) as [[commit|e]|]; [|done|done]. injection Hp as <-. simpl.
  eexists _, commit. split_and!; [done|done|done| | |].
  - by apply NoDup_filter, sorted_NoDup.
  - apply StronglySorted_filter, sorted_StronglySorted.
  - intros name. rewrite list_elem_of_filter, elem_of_sorted. tauto.
Qed.
