(* ===== verification/Sample.v ===== *)
(** * Concrete parameters

    One concrete function for each parameter of the development, on which the
    witnesses evaluate: a server that answers every statement, types that keep
    the text they are given, a ledger that mints one uuid per alias, and a medium
    vocabulary of two entries. No theorem is about them. *)

From S2P Require Import Prelude PyValue QueueNames PurgeVeto Consumers Database LinkEvents Persistence Media.
From S2P Require Import RecordProcessing Reconciliation Delivery NativeIdentity DeliverySafety.
From stdpp Require Import base gmap strings list option sorting.
From Stdlib Require Import ZArith Lia.

Definition sample_repr : PyRepr := fun _ => "...".

Definition text_of (v : value) : string :=
  match v with VStr s => s | VBool true => "true" | VBool false => "false" | _ => "" end.

Definition param_value (p : param) : value := match p with Plain v | Jsonb v => v end.

Definition sample_key (k : rel_key) : string :=
  rk_source_mbid k +:+ "|" +:+ rk_target_mbid k +:+ "|" +:+ rk_relationship_type k.

(** Every [musicbrainz] alias resolves, by a mint when it is new; a [discogs] one
    only when it is known. *)
Fixpoint sample_resolve (refs : list alias_ref) (l : ledger) : ledger * ledger :=
  match refs with
  | [] => ([], l)
  | r :: refs' =>
      match lookup_ref l r with
      | Some u => let '(m, l') := sample_resolve refs' l in ((r, u) :: m, l')
      | None =>
          if decide (ref_provider r = "musicbrainz") then
            let u := "native-" +:+ text_of (ref_external_id r) in
            let '(m, l') := sample_resolve refs' (l ++ [(r, u)]) in ((r, u) :: m, l')
          else sample_resolve refs' l
      end
  end.

(** The alias already in the ledger wins. *)
Fixpoint sample_attach (mapping : ledger) (l : ledger) : ledger * ledger :=
  match mapping with
  | [] => ([], l)
  | (r, u) :: mapping' =>
      match lookup_ref l r with
      | Some u' => let '(m, l') := sample_attach mapping' l in ((r, u') :: m, l')
      | None => let '(m, l') := sample_attach mapping' (l ++ [(r, u)]) in ((r, u) :: m, l')
      end
  end.

Definition sample_postgres : Postgres := {|
  uuid_in p := text_of (param_value p);
  text_in p := text_of (param_value p);
  column_in _ _ p := param_value p;
  relationship_key := sample_key;
  pg_error _ _ := None;
  resolve_aliases refs l := let '(m, l') := sample_resolve refs l in (Ok m, l');
  attach_aliases m l := let '(m', l') := sample_attach m l in (Ok m', l');
|}.

Definition sample_vocabulary (m : string) : option string :=
  if decide (m = "cd") then Some "CD" else if decide (m = "vinyl-12") then Some "12in Vinyl" else None.

Definition sample_common : Common := {|
  vocabulary := sample_vocabulary;
  media_mapper d := Ok [("items", get_default d "media" (VList []))];
  alias_refs_for_release block :=
    match block with
    | VDict _ => Ok [AliasRef "barcode" "release" (VStr "123")]
    | _ => Raise ValueError
    end;
  flush_span_error _ _ := None;
|}.

(** An artist row before any Discogs link, and the upsert that adds one. *)
Definition sample_artist : row := Row (<["name" := VStr "a"]> (<["discogs_artist_id" := VNull]> ∅)) 1.

Definition sample_db : db := set_entity_rows Artists {["u1" := sample_artist]} empty_db.

Definition sample_step (now : Z) (discogs_id : value) : load_step :=
  LoadStep artist_upsert now (Plain (VStr "u1"))
    ((Plain <$> [VStr "a"; VStr "a"; VStr ""; VStr ""; VNull; VNull; VBool false; VStr ""; VStr ""; VStr ""; VStr "";
                 discogs_id]) ++ [Jsonb (VList []); Jsonb (VList []); Jsonb (VDict []); Plain VNull])
    (VStr "2026-01").

(** ** A record of each kind, and what processes it *)

Definition sample_artist_record : dict :=
  [("id", VStr "550e8400-e29b-41d4-a716-446655440000"); ("mbid", VStr "u1"); ("name", VStr "A");
   ("discogs_artist_id", VInt 7);
   ("relations", VList [VDict [("type", VStr "member of band"); ("target_mbid", VStr "u2"); ("target_type", VStr "artist");
                               ("direction", VStr "backward")]]);
   ("external_links", VList [VDict [("url", VStr "https://x"); ("service", VStr "s")]])].

Definition sample_release_record : dict :=
  [("id", VStr "550e8400-e29b-41d4-a716-446655440001"); ("mbid", VStr "r1"); ("name", VStr "R");
   ("discogs_release_id", VInt 42); ("barcode", VStr "123")].

Definition sample_media : dict :=
  [("items", VList [VDict [("medium", VStr "cd"); ("family", VStr "optical"); ("qty", VInt 2)];
                    VDict [("medium", VStr "cd"); ("family", VStr "optical")];
                    VDict [("medium", VStr "vinyl-12"); ("family", VStr "vinyl")]])].

Definition sample_world : world := World (Session sample_db 200 []) [] (Summary ∅ 0) 1000.

(** ** A latched purge over one stale and one fresh relationship *)

Definition sample_rel_key (source : string) : rel_key :=
  RelKey source "u9" "artist" "artist" "member of band" VNull VNull (VList []).

Definition sample_children : db :=
  set_relationships {["stale" := RelationshipRow (sample_rel_key "a") (VBool false) 50;
                      "fresh" := RelationshipRow (sample_rel_key "b") (VBool false) 150]} sample_db.

Definition sample_latched : purge_state :=
  PurgeState (Some 100%Z) (list_to_map ((fun t => (t, Some 5%Z)) <$> MUSICBRAINZ_DATA_TYPES)) ∅ None.

(** ** A process, and what answers it *)

#[export] Instance string_le_collation : Collation :=
  {| text_le := String.le; text_le_dec := _; text_le_total := _; text_le_trans := _; text_le_antisymm := _ |}.

Definition sample_shared : Shared := {|
  is_permanent_operational_error e := bool_decide (e = OperationalError (Some "54000"));
  run_delivery h c w s := fun p =>
    match h p with
    | (Ok r, p') => (settling s r, p')
    | (Raise e, p') =>
        match c e with
        | DETERMINISTIC => (settling s (DeliveryResult REJECT "failed" (Some (exn_name e))), p')
        | TRANSIENT => (settling s (DeliveryResult REQUEUE "failed" (Some (exn_name e))), (w p').2)
        end
    end;
|}.

Lemma sample_shared_laws : @SharedLaws sample_shared.
Proof.
  split; simpl.
  - by intros h c w s p r p' -> _.
  - intros h c w s p e p' -> ->. eauto.
  - intros h c w s p e p' -> ->. eauto.
Qed.

Definition sample_answers : answers_ :=
  Answers 200 1700000000000000 1000 None None (fun _ => Some 0%Z) None None None None (fun _ => None).

Definition sample_consumers : consumers :=
  Consumers (Registry [] [] 0) (Timers ∅ ∅ 0) initial_traffic (list_to_set MUSICBRAINZ_DATA_TYPES) false true true 1 false.

Definition sample_process : process :=
  Process sample_children ∅ [] [] (Summary ∅ 0) sample_consumers (Some initial_purge) true true false [] [].

(** A signal of one type, as the extractor sends it. *)
Definition sample_signal (started_at data_type : string) : dict :=
  [("type", VStr "extraction_complete"); ("version", VStr "2026-01"); ("started_at", VStr started_at);
   ("record_counts", VDict [(data_type, VInt 5)])].

(** ** The sample ledger keeps the identity library's promises *)

Lemma lookup_ref_app l k r :
  lookup_ref (l ++ k) r = match lookup_ref l r with Some u => Some u | None => lookup_ref k r end.
Proof. induction l as [|[r' u'] l IH]; simpl; [done|]. by case_decide. Qed.

Lemma sample_resolve_spec refs l m l' :
  sample_resolve refs l = (m, l') ->
  (forall r u, lookup_ref l r = Some u -> lookup_ref l' r = Some u) /\
  (forall r, r ∉ refs -> lookup_ref l' r = lookup_ref l r) /\
  (forall r, r ∈ refs -> lookup_ref m r = lookup_ref l' r) /\
  (forall r, r ∉ refs -> lookup_ref m r = None).
Proof.
  revert l m l'. induction refs as [|r0 refs IH]; intros l m l'; simpl.
  { intros [= <- <-]. split_and!; try done. intros r Hr. by apply not_elem_of_nil in Hr. }
  assert (forall r, r ∈ r0 :: refs <-> r = r0 \/ r ∈ refs) as Hcons by (intros; apply elem_of_cons).
  destruct (lookup_ref l r0) as [u|] eqn:E; [|case_decide as Hprov].
  - destruct (sample_resolve refs l) as [m1 l1] eqn:Es. intros [= <- <-].
    destruct (IH _ _ _ Es) as (I1 & I2 & I3 & I4). split_and!; [done| | |].
    + intros r. rewrite Hcons. intros Hr. apply I2. tauto.
    + intros r. rewrite Hcons. simpl. intros Hr. case_decide; [subst; symmetry; auto|]. apply I3. naive_solver.
    + intros r. rewrite Hcons. simpl. intros Hr. rewrite decide_False by naive_solver. apply I4. tauto.
  - destruct (sample_resolve refs _) as [m1 l1] eqn:Es. intros [= <- <-].
    destruct (IH _ _ _ Es) as (I1 & I2 & I3 & I4). split_and!.
    + intros r u Hr. apply I1. by rewrite lookup_ref_app, Hr.
    + intros r. rewrite Hcons. intros Hr. rewrite I2 by tauto. rewrite lookup_ref_app. simpl.
      rewrite decide_False by naive_solver. by destruct (lookup_ref l r).
    + intros r. rewrite Hcons. simpl. intros Hr. case_decide; [subst|apply I3; naive_solver].
      symmetry. apply I1. rewrite lookup_ref_app, E. simpl. by rewrite decide_True.
    + intros r. rewrite Hcons. simpl. intros Hr. rewrite decide_False by naive_solver. apply I4. tauto.
  - intros Es. destruct (IH _ _ _ Es) as (I1 & I2 & I3 & I4). split_and!; [done| | |].
    + intros r. rewrite Hcons. intros Hr. apply I2. tauto.
    + intros r. rewrite Hcons. intros Hr. destruct (decide (r ∈ refs)) as [Hin|Hin]; [by apply I3|].
      destruct Hr as [->|Hr]; [|done]. by rewrite (I4 _ Hin), (I2 _ Hin).
    + intros r. rewrite Hcons. intros Hr. apply I4. tauto.
Qed.

Lemma sample_attach_spec mapping l m l' :
  sample_attach mapping l = (m, l') ->
  (forall r u, lookup_ref l r = Some u -> lookup_ref l' r = Some u) /\
  (forall r u, (r, u) ∈ mapping -> lookup_ref m r = lookup_ref l' r).
Proof.
  revert l m l'. induction mapping as [|[r0 u0] mapping IH]; intros l m l'; simpl.
  { intros [= <- <-]. split; [done|]. intros r u Hr. by apply not_elem_of_nil in Hr. }
  destruct (lookup_ref l r0) as [u'|] eqn:E.
  - destruct (sample_attach mapping l) as [m1 l1] eqn:Es. intros [= <- <-].
    destruct (IH _ _ _ Es) as (I1 & I2). split; [done|]. intros r u Hr. simpl.
    case_decide; [subst; symmetry; auto|]. apply elem_of_cons in Hr as [[= <- <-]|Hr]; [done|]. eauto.
  - destruct (sample_attach mapping _) as [m1 l1] eqn:Es. intros [= <- <-].
    destruct (IH _ _ _ Es) as (I1 & I2). split.
    + intros r u Hr. apply I1. by rewrite lookup_ref_app, Hr.
    + intros r u Hr. simpl. case_decide.
      * subst. symmetry. apply I1. rewrite lookup_ref_app, E. simpl. by rewrite decide_True.
      * apply elem_of_cons in Hr as [[= <- <-]|Hr]; [done|]. eauto.
Qed.

Lemma sample_identity_laws : @IdentityLaws sample_postgres.
Proof.
  split; simpl.
  - intros refs l m l' r u. destruct (sample_resolve refs l) as [m0 l0] eqn:E. intros [= <- <-]. apply sample_resolve_spec in E as [Hk _]. apply Hk.
  - intros refs l m l' r. destruct (sample_resolve refs l) as [m0 l0] eqn:E. intros [= <- <-].
    apply sample_resolve_spec in E as (_ & ? & _). auto.
  - intros refs l m l' r. destruct (sample_resolve refs l) as [m0 l0] eqn:E. intros [= <- <-].
    apply sample_resolve_spec in E as (_ & _ & ? & _). auto.
  - intros mapping l m l' r u. destruct (sample_attach mapping l) as [m0 l0] eqn:E. intros [= <- <-]. apply sample_attach_spec in E as [Hk _]. apply Hk.
  - intros mapping l m l' r u. destruct (sample_attach mapping l) as [m0 l0] eqn:E. intros [= <- <-].
    apply sample_attach_spec in E as [_ ?]. eauto.
  - intros r u l m l' Ha Hno. rewrite Hno in Ha. injection Ha as <- <-.
    rewrite lookup_ref_app, Hno. simpl. by rewrite decide_True.
Qed.
