(* ===== verification/Deadlock.v ===== *)
(** * Two related records against each other

    A relationship is one row, whichever end's record brings it, and
    [insert_relationships] of [brainztableinator/_record_processing.py] writes a
    record's rows in the order the record lists them. Two artists that list the
    relationships between them in different orders are enough for a cycle of
    waits. *)

From S2P Require Import Prelude PyValue Database Persistence Media RecordProcessing ProcessTrace Locks RecordLocks Sample.
From stdpp Require Import base gmap strings list option.
From Stdlib Require Import ZArith Lia.

#[local] Existing Instance sample_repr.
#[local] Existing Instance sample_postgres.
#[local] Existing Instance sample_common.

Definition relation_to (mbid type direction : string) : value :=
  VDict [("type", VStr type); ("target_mbid", VStr mbid); ("target_type", VStr "artist"); ("direction", VStr direction)].

(** A member who also produces the band, and the band. *)
Definition member : dict :=
  [("id", VStr "550e8400-e29b-41d4-a716-446655440000"); ("mbid", VStr "m"); ("name", VStr "Member");
   ("relations", VList [relation_to "b" "member of band" "forward"; relation_to "b" "producer" "forward"])].
Definition band : dict :=
  [("id", VStr "550e8400-e29b-41d4-a716-446655440009"); ("mbid", VStr "b"); ("name", VStr "Band");
   ("relations", VList [relation_to "m" "producer" "backward"; relation_to "m" "member of band" "backward"])].

(** What a record's transaction sends. *)
Definition sent_by (record : dict) : list statement := trace_of (process_artist true record sample_world).2.

(** Each has been granted its row and its first relationship. *)
Definition halfway (hash : string -> Z) : list txn :=
  execution (lock_of hash) (start [sent_by member; sent_by band]) [Go 0; Go 0; Go 0; Go 1; Go 1; Go 1].

(** Two records can deadlock. An artist and the band it belongs to and produces
    list the two relationships in different orders; each alone is processed, but
    with both transactions open each can come to hold the row the other wants next,
    where neither goes on and the server has to abort one. The media rows are sorted
    so that this can not happen to them; the relationship rows are not. *)
Theorem related_records_deadlock hash :
  record_transaction true (sent_by member) /\ record_transaction true (sent_by band) /\
  deadlocked (lock_of hash) (halfway hash).
Proof.
  split_and!.
  - exists "artists", (process_artist true), member, sample_world, (process_artist true member sample_world).2.
    split_and!; [done|vm_compute; reflexivity|reflexivity].
  - exists "artists", (process_artist true), band, sample_world, (process_artist true band sample_world).2.
    split_and!; [done|vm_compute; reflexivity|reflexivity].
  - split.
    + left. vm_compute. reflexivity.
    + intros [|[|i]]; [vm_compute; reflexivity..|]. unfold advance.
      assert (halfway hash !! S (S i) = None) as ->; [|done]. apply lookup_ge_None. unfold halfway. rewrite execution_length. simpl. lia.
Qed.

(** The same band, had its record listed them as the member's does. *)
Definition tidy_band : dict :=
  [("id", VStr "550e8400-e29b-41d4-a716-446655440009"); ("mbid", VStr "b"); ("name", VStr "Band");
   ("relations", VList [relation_to "m" "member of band" "backward"; relation_to "m" "producer" "backward"])].

Definition by_name (key : string) : nat := if decide (key = sample_key (RelKey "m" "b" "artist" "artist" "producer" VNull VNull (VList []))) then 1 else 0.

(** What a connection is asked for, when each call to the identity library locks
    the given keys. *)
Definition asking (keys : list string) (tr : list statement) : list request :=
  flat_map (fun s => match s with
    | ResolveAliases _ | AttachAliases _ => map Takes keys ++ [Sends s]
    | _ => [Sends s]
    end) tr.

Lemma asking_requested keys tr : requested tr (asking keys tr).
Proof.
  induction tr as [|s tr IH]; [constructor|]. destruct s; try (apply requested_own; [by intros ?|exact IH]); simpl; rewrite <- app_assoc; by apply requested_identity.
Qed.

(** Both lock the key of a shared identity row, then one of their own. *)
Definition tidy : list (list request) :=
  [asking ["shared"; "m"] (sent_by member); asking ["shared"; "b"] (sent_by tidy_band)].

Definition shared_first (key : string) : nat := if decide (key = "shared") then 0 else 1.

Lemma asked_locks hash :
  map (locks (resource_of hash)) tidy =
    map (fun mbid => [Identity "shared"; Identity mbid; Row (OnEntity Artists mbid);
      Row (OnRelationship "m|b|member of band"); Row (OnRelationship "m|b|producer")]) ["m"; "b"].
Proof. vm_compute. reflexivity. Qed.

Ltac in_list := repeat match goal with
  | Hk : _ ∈ _ :: _ |- _ => apply elem_of_cons in Hk as [Hk|Hk]; [simplify_eq|]
  | Hk : _ ∈ [] |- _ => by apply not_elem_of_nil in Hk
  end.

Lemma two_in_order mbid :
  mbid <> "shared" ->
  acquires Some (agree by_name shared_first (fun _ => false)) []
    [Identity "shared"; Identity mbid; Row (OnEntity Artists mbid);
      Row (OnRelationship "m|b|member of band"); Row (OnRelationship "m|b|producer")].
Proof.
  intros Hm. cbn [acquires locks omap list_omap app]. split_and!; try right; simpl; auto.
  - split; [done|]. intros k Hk. in_list.
  - split; [done|]. intros k Hk _. in_list. unfold shared_first. rewrite decide_True, decide_False by done. lia.
  - intros k Hk. in_list.
  - intros k Hk. in_list. vm_compute. lia.
Qed.

Lemma tidy_order hash : one_order hash tidy.
Proof.
  exists by_name, shared_first, (fun _ => false). apply Forall_forall. intros rq Hrq%list_elem_of_In. apply acquires_locks.
  apply (list_elem_of_fmap_2 (locks (resource_of hash))) in Hrq. change (_ <$> tidy) with (map (locks (resource_of hash)) tidy) in Hrq.
  rewrite asked_locks in Hrq. apply list_elem_of_fmap in Hrq as (mbid & -> & Hm). apply two_in_order. in_list; done.
Qed.

Lemma tidy_requests : Forall (record_requests true) tidy.
Proof.
  unfold tidy. constructor; [|constructor; [|constructor]]; (eexists; split; [|apply asking_requested]).
  - exists "artists", (process_artist true), member, sample_world, (process_artist true member sample_world).2.
    split_and!; [done|vm_compute; reflexivity|reflexivity].
  - exists "artists", (process_artist true), tidy_band, sample_world, (process_artist true tidy_band sample_world).2.
    split_and!; [done|vm_compute; reflexivity|reflexivity].
Qed.

Lemma records_never_deadlock_witness :
  let resource_of := resource_of (fun _ => 0%Z) in
  let rounds := repeat [Go 1; Go 0] 18 in
  (forall events, ~ deadlocked resource_of (execution resource_of (start tidy) events)) /\
  exists t, execution resource_of (start tidy) (concat rounds) !! 1 = Some t /\
    tx_open t = false /\ (t = Txn (asking ["shared"; "b"] (sent_by tidy_band)) [] false \/ Fail 1 ∈ concat rounds).
Proof.
  assert (spelled) as Hsp by (unfold spelled; repeat constructor).
  destruct (records_never_deadlock (fun _ => 0%Z) true tidy Hsp tidy_requests (tidy_order _)) as [Hno Hend].
  split; [exact Hno|]. apply (Hend (repeat [Go 1; Go 0] 18)); [|vm_compute; lia|reflexivity].
  apply Forall_forall. intros round Hr i Hi. apply repeat_spec in Hr as ->.
  destruct i as [|[|i]]; [right; left|left|simpl in Hi; lia].
Defined.
