(* ===== verification/Races.v ===== *)
(** * Two records on one row

    Concrete interleavings of [Isolation.v]: two MusicBrainz releases that name
    one Discogs release, with the advisory lock of [lock_release_media] and
    without it, as its docstring in [_persistence.py] tells it; a purge that meets a
    record refreshing one of the rows it is to delete; and two messages for one
    artist, whose link history the comment above [MusicBrainzWriter] gives up. *)

From S2P Require Import Prelude PyValue Database LinkEvents Persistence Media RecordProcessing ProcessTrace ReleaseMedia Reconciliation Locks RecordLocks.
From S2P Require Import Isolation Serializable Sample Deadlock.
From stdpp Require Import base gmap strings list option.
From Stdlib Require Import ZArith Lia.

#[local] Existing Instance sample_repr.
#[local] Existing Instance sample_postgres.
#[local] Existing Instance sample_common.

Definition no_hash (text : string) : Z := 0.

(** ** One Discogs release, two MusicBrainz ones *)

Definition one_medium (qty : Z) : dict := [("items", VList [VDict [("medium", VStr "cd"); ("family", VStr "optical"); ("qty", VInt qty)]])].

Definition release_on (mbid : string) (qty : Z) : dict :=
  [("id", VStr "550e8400-e29b-41d4-a716-446655440001"); ("mbid", VStr mbid); ("name", VStr "R"); ("discogs_release_id", VInt 42);
   ("media", VDict (one_medium qty))].

Definition release_sent (mbid : string) (qty : Z) : list statement :=
  trace_of (process_release true (release_on mbid qty) sample_world).2.

Definition two_releases : list (Z * list statement) := [(10%Z, release_sent "r1" 2); (20%Z, release_sent "r2" 1)].

(** Each in turn sends a statement or has it answered. *)
Definition by_turns : list event := concat (repeat [Sends 0; Sends 1; Answers 0; Answers 1] 24).

Lemma two_releases_transactions boundary :
  Forall (fun tr => record_transaction true tr.2 \/ purge_transaction boundary tr.2) two_releases.
Proof.
  unfold two_releases. constructor; [left|constructor; [left|constructor]].
  - exists "releases", (process_release true), (release_on "r1" 2), sample_world, (process_release true (release_on "r1" 2) sample_world).2.
    split_and!; [done|vm_compute; reflexivity|reflexivity].
  - exists "releases", (process_release true), (release_on "r2" 1), sample_world, (process_release true (release_on "r2" 1) sample_world).2.
    split_and!; [done|vm_compute; reflexivity|reflexivity].
Qed.

Lemma two_releases_times : Forall (fun tr => 5 <= tr.1)%Z two_releases.
Proof. by repeat constructor. Qed.

Abbreviation by_turns_run := (run no_hash (begin two_releases empty_db) by_turns).

(** The second waits for the first, prunes what it wrote and inserts its own. *)
Lemma last_committer_wins_witness :
  issued_on (sv_db by_turns_run) !! ("42", "cd", MEDIA_SOURCE) = Some 1%Z.
Proof.
  assert (sv_log by_turns_run = [0; 1]) as Hlog by (vm_compute; reflexivity).
  set (w' := (process_release true (release_on "r2" 1) sample_world).2).
  assert (process_release true (release_on "r2" 1) sample_world = (Ok tt, w')) as Hrun by (vm_compute; reflexivity).
  assert (release_media_block (release_on "r2" 1) = Ok (one_medium 1)) as Hmedia by reflexivity.
  assert (media_edge_rows vocabulary (one_medium 1) = Ok [EdgeRow "cd" "optical" "CD" 1]) as Hrows by (vm_compute; reflexivity).
  assert (py_str (get (release_on "r2" 1) "discogs_release_id") = "42") as Hid by (vm_compute; reflexivity).
  pose proof (last_committer_wins no_hash true 5 two_releases empty_db (two_releases_transactions 5) (fun _ => conj eq_refl two_releases_times) by_turns (release_on "r2" 1) (one_medium 1) _
    sample_world w' 20 (release_sent "r2" 1) 1 [0] [] Hlog eq_refl Hrun eq_refl eq_refl Hmedia Hrows) as Hlast.
  cbv zeta in Hlast. rewrite Hid in Hlast.
  assert (forall j a, j ∈ [] -> two_releases !! j = Some a -> OnEdges "42" MEDIA_SOURCE ∉ cells_of no_hash a.2) as Hnone
    by (intros j a Hj; destruct (not_elem_of_nil _ Hj)).
  rewrite (Hlast Hnone "cd"). reflexivity.
Defined.

(** The same two without the lock. *)
Definition unlocked (tr : list statement) : list statement :=
  List.filter (fun s => match s with AdvisoryXactLock _ => false | _ => true end) tr.

(** The vocabulary as an earlier record has left it: neither waits for the other
    there. *)
Definition stocked : db := set_medium {["cd" := ("optical", "CD")]} (set_media_family {["optical"]} empty_db).

(** The second prune sees nothing to delete, and the insert meets the key the
    first has committed. *)
Lemma unlocked_release_fails :
  let sv := run no_hash (begin (map (fun tr => (tr.1, unlocked tr.2)) two_releases) stocked) by_turns in
  sv_log sv = [0] /\ (fun c => cl_state c) <$> sv_clients sv !! 1 = Some RolledBack.
Proof. split; vm_compute; reflexivity. Qed.

(** ** A purge and a refreshed row *)

Definition child (source target : string) : rel_key :=
  RelKey source target "artist" "artist" "member of band" VNull VNull (VList []).

(** Two stale rows and one fresh: the record of [sample_artist_record] names the
    first. *)
Definition half_stale : db :=
  set_relationships {[sample_key (child "u2" "u1") := RelationshipRow (child "u2" "u1") (VBool false) 50;
                      "stale" := RelationshipRow (child "u3" "u4") (VBool false) 50;
                      "fresh" := RelationshipRow (child "u5" "u6") (VBool false) 150]} sample_db.

Definition purge_sent : list statement := s_trace (purge_tables default_config (tables default_config) 100 (Session half_stale 210 [])).2.

Definition record_and_purge : list (Z * list statement) := [(200%Z, sent_by sample_artist_record); (210%Z, purge_sent)].

(** The purge has counted; the record sends all its statements; the delete is sent
    and waits for the row the record has refreshed; the record commits, and then
    the purge. *)
Definition purge_waits : list event :=
  concat (repeat [Sends 1; Answers 1] 2) ++ concat (repeat [Sends 0; Answers 0] (length (sent_by sample_artist_record))) ++
  [Sends 1; Answers 1; Answers 0; Answers 1; Sends 1; Answers 1; Answers 1].

Lemma record_and_purge_transactions : Forall (fun tr => record_transaction true tr.2 \/ purge_transaction 100 tr.2) record_and_purge.
Proof.
  unfold record_and_purge. constructor; [left|constructor; [right|constructor]].
  - exists "artists", (process_artist true), sample_artist_record, sample_world, (process_artist true sample_artist_record sample_world).2.
    split_and!; [done|vm_compute; reflexivity|reflexivity].
  - set (se := Session half_stale 210 []).
    assert (exists l, (purge_tables default_config (tables default_config) 100 se).1 = Ok l) as [l Hl] by (eexists; vm_compute; reflexivity).
    exists default_config, l, se, (purge_tables default_config (tables default_config) 100 se).2. split; [|reflexivity].
    rewrite <- Hl. by destruct (purge_tables _ _ _ se).
Qed.

Lemma record_and_purge_times : Forall (fun tr => 100 <= tr.1)%Z record_and_purge.
Proof. by repeat constructor. Qed.

Abbreviation purge_waits_run := (run no_hash (begin record_and_purge half_stale) purge_waits).

(** The snapshot of the delete showed the record's row as stale; it is kept, as when
    the purge runs after the record. *)
Lemma serializable_witness :
  sv_log purge_waits_run = [0; 1] /\
  rel_updated_at <$> relationships (sv_db purge_waits_run) !! sample_key (child "u2" "u1") = Some 200%Z /\
  relationships (sv_db purge_waits_run) !! "stale" = None /\
  exists d, serial record_and_purge half_stale = Ok d /\ d ≡ sv_db purge_waits_run.
Proof.
  assert (sv_log purge_waits_run = [0; 1]) as Hlog by (vm_compute; reflexivity).
  split; [exact Hlog|]. split; [vm_compute; reflexivity|]. split; [vm_compute; reflexivity|].
  destruct (serializable no_hash true 100 record_and_purge half_stale record_and_purge_transactions
    (fun _ => conj eq_refl record_and_purge_times) purge_waits) as (_ & _ & d & Hd & Heq & _).
  exists d. rewrite Hlog in Hd. split; [exact Hd|exact Heq].
Defined.

(** ** One artist, two messages *)

Definition linked_artist (discogs_id : Z) : dict :=
  [("id", VStr "550e8400-e29b-41d4-a716-446655440000"); ("mbid", VStr "u1"); ("name", VStr "A"); ("discogs_artist_id", VInt discogs_id)].

Definition two_messages : list (Z * list statement) := [(10%Z, sent_by (linked_artist 7)); (20%Z, sent_by (linked_artist 8))].

Definition links (d : db) : list (value * value) := map (fun e => (ev_before e, ev_after e)) (identity_link_events d).

(** The second upsert waits for the first, but its [old] is from before: the row
    ends as the one after the other leaves it, and the history says the link was
    added twice. *)
Lemma racing_messages_history :
  let sv := run no_hash (begin two_messages sample_db) by_turns in
  sv_log sv = [0; 1] /\ links (sv_db sv) = [(VNull, VInt 7); (VNull, VInt 8)] /\
  links <$> serial two_messages sample_db = Ok [(VNull, VInt 7); (VInt 7, VInt 8)].
Proof. split_and!; vm_compute; reflexivity. Qed.
