(* ===== verification/Witnesses.v ===== *)
(** * Witnesses

    Each theorem that has hypotheses, applied to a concrete input of [Sample.v]
    on which they hold. *)

From S2P Require Import Prelude PyValue PyDatetime QueueNames PurgeVeto Consumers ConsumersFacts.
From S2P Require Import ConsumerLifecycle Database LinkEvents Persistence ChildRows Media RecordProcessing.
From S2P Require Import ProcessTrace ProcessSpec ReleaseMedia RecordFacts NativeIdentity Reconciliation.
From S2P Require Import FloatCap Latch PurgeSafety Interleaving Delivery DeliverySafety Loops Lifespan Sample.
From stdpp Require Import base gmap strings list option sorting.
From Stdlib Require Import ZArith Lia.

#[local] Existing Instance sample_repr.
#[local] Existing Instance sample_postgres.
#[local] Existing Instance sample_common.
#[local] Existing Instance sample_shared.
#[local] Existing Instance sample_identity_laws.
#[local] Existing Instance sample_shared_laws.

(** Apply a theorem to its concrete arguments: the hypotheses compute. *)
Ltac concretely t :=
  let Hx := fresh "Hx" in
  pose proof t as Hx;
  repeat match type of Hx with
  | ?P -> _ => let HP := fresh "HP" in assert (HP : P) by (vm_compute; reflexivity); specialize (Hx HP); clear HP
  end;
  first [exact Hx | exact (proj1 Hx) | apply Hx].

(** ** Events and batches *)

Definition sample_steps : list load_step := [sample_step 10 (VStr "7"); sample_step 20 (VStr "8"); sample_step 30 VNull].
Definition sample_loaded : db := match run_steps sample_steps sample_db with Ok d => d | Raise _ => empty_db end.

Lemma link_history_complete_witness :
  exists r appended, entity_rows Artists sample_loaded !! "u1" = Some r /\
    history artist_upsert "u1" sample_loaded = [] ++ appended /\
    chained VNull appended (link_column artist_upsert r).
Proof.
  apply (link_history_complete artist_upsert "u1" sample_steps sample_db sample_loaded sample_artist).
  - apply list_elem_of_In. left. reflexivity.
  - repeat constructor.
  - repeat constructor; intros _ _; vm_compute; reflexivity.
  - repeat constructor; intros _; vm_compute; constructor.
  - vm_compute. reflexivity.
  - vm_compute. reflexivity.
Defined.

Definition sample_once : db := match run_step (sample_step 10 (VStr "7")) sample_db with Ok d => d | Raise _ => empty_db end.
Definition sample_twice : db := match run_step (sample_step 20 (VStr "7")) sample_once with Ok d => d | Raise _ => empty_db end.

Lemma upsert_redelivery_witness :
  exists r, entity_rows Artists sample_once !! "u1" = Some r /\
    entity_rows Artists sample_twice = <["u1" := Row (row_columns r) 20]> (entity_rows Artists sample_once) /\
    identity_link_events sample_twice = identity_link_events sample_once.
Proof.
  assert (run_step (sample_step 10 (VStr "7")) sample_db = Ok sample_once) as H1 by (vm_compute; reflexivity).
  assert (run_step (sample_step 20 (VStr "7")) sample_once = Ok sample_twice) as H2 by (vm_compute; reflexivity).
  exact (upsert_redelivery (sample_step 10 (VStr "7")) (sample_step 20 (VStr "7")) sample_db sample_once sample_twice
    eq_refl eq_refl eq_refl H1 H2).
Defined.

Definition sample_batch : list (list param) :=
  [relationship_params [VStr "a"; VStr "artist"; VStr "b"; VStr "artist"; VStr "t"; VList []; VNull; VNull; VBool false];
   relationship_params [VStr "a"; VStr "artist"; VStr "b"; VStr "artist"; VStr "t"; VList []; VNull; VNull; VBool true]].
Definition sample_batch_db (now : Z) (d : db) : db :=
  match replay now (map (RelationshipUpsert true) sample_batch) d with Ok d => d | Raise _ => empty_db end.

Lemma relationship_batch_groups_witness :
  relationships (sample_batch_db 10 sample_db) !! "a|b|t" =
    batch_row true 10 (entries_for "a|b|t" sample_batch) (relationships sample_db !! "a|b|t") /\
  length (entries_for "a|b|t" sample_batch) = 2.
Proof.
  split; [|vm_compute; reflexivity].
  concretely (relationship_batch_groups true 10 20 sample_batch sample_db (sample_batch_db 10 sample_db)
    (sample_batch_db 20 (sample_batch_db 10 sample_db))).
Defined.

(** ** Processing *)

Definition sample_processed : world := (process_artist true sample_artist_record sample_world).2.
Definition artist_contract : entity_contract := EntityContract _ artist_upsert "artist" (fun r n => Ok (artist_columns r n)).

Lemma sample_processed_run : process_artist true sample_artist_record sample_world = (Ok tt, sample_processed).
Proof. vm_compute. reflexivity. Qed.

#[local] Opaque sample_processed.

Lemma processed_record_stored_witness :
  exists native columns r,
    ec_columns artist_contract sample_artist_record native = Ok columns /\
    entity_rows Artists (db_of sample_processed) = <["u1" := r]> (entity_rows Artists sample_db) /\
    row_updated_at r = 200%Z /\
    Forall (fun cp => cp.1 <> "mbid" -> row_columns r !! cp.1 = Some (stored Artists cp.1 cp.2)) columns /\
    forall t', t' <> Artists -> entity_rows t' (db_of sample_processed) = entity_rows t' sample_db.
Proof.
  exact (processed_record_stored true "artists" (process_artist true) artist_contract sample_artist_record sample_world
    sample_processed eq_refl eq_refl sample_processed_run).
Defined.

Lemma processed_children_witness :
  exists rels links,
    relationship_rows (VStr "u1") "artist" (get_default sample_artist_record "relations" (VList [])) = Ok rels /\
    external_link_rows (VStr "u1") "artist" (get_default sample_artist_record "external_links" (VList [])) = Ok links /\
    (forall k, relationships (db_of sample_processed) !! k =
       batch_row true 200 (entries_for k (map relationship_params rels)) (relationships sample_db !! k)) /\
    (forall k, external_links (db_of sample_processed) !! k =
       batch_link true 200 (bool_decide (k ∈ omap link_key_of (map (fun row => Plain <$> row) links)))
         (external_links sample_db !! k)).
Proof.
  exact (processed_children true "artists" (process_artist true) artist_contract sample_artist_record sample_world
    sample_processed eq_refl eq_refl sample_processed_run).
Defined.

Definition ok_or {A} (d : A) (r : result exn A) : A := match r with Ok a => a | Raise _ => d end.
Definition sample_edges : list edge_row := ok_or [] (media_edge_rows vocabulary sample_media).

Lemma write_release_media_exact_witness :
  exists w', write_release_media sample_release_record sample_media sample_world = (Ok true, w') /\
    trace_of w' = [] ++ media_statements "42" sample_edges /\
    (forall k, issued_on (db_of w') !! k = replaced_edges "42" sample_edges ∅ k) /\
    media_family (db_of w') = list_to_set (map edge_family sample_edges) ∪ ∅ /\
    (forall r, r ∈ sample_edges -> is_Some (medium (db_of w') !! edge_medium r)).
Proof.
  apply (write_release_media_exact sample_release_record sample_media sample_edges sample_world);
    [vm_compute; reflexivity|vm_compute; reflexivity|intros; reflexivity].
Defined.

Lemma release_lock_first_witness :
  exists rest, trace_of (process_release true sample_release_record sample_world).2 =
    [] ++ AdvisoryXactLock "graph.issued_on:musicbrainz:42" :: rest.
Proof. apply (release_lock_first true sample_release_record sample_world). vm_compute. reflexivity. Defined.

Definition sample_minted : option uuid * world :=
  match native_id "artist" (VStr "u1") (VInt 7) sample_world with (Ok u, w) => (u, w) | (Raise _, w) => (None, w) end.

Lemma native_id_spec_witness :
  sample_minted.1 = lookup_ref (ledger_of sample_minted.2) (AliasRef "musicbrainz" "artist" (VStr "u1")).
Proof.
  concretely (native_id_spec "artist" (VStr "u1") (VInt 7) sample_world sample_minted.1 sample_minted.2).
Defined.

Definition sample_backward : dict :=
  [("type", VStr "t"); ("target_mbid", VStr "b"); ("target_type", VStr "label"); ("direction", VStr "backward")].
Definition sample_forward : dict := [("type", VStr "t"); ("target_mbid", VStr "a"); ("target_type", VStr "artist")].

Lemma reversed_relationship_same_row_witness :
  relationship_row (VStr "a") (VStr "artist") (VDict sample_backward) =
  relationship_row (VStr "b") (VStr "label") (VDict sample_forward).
Proof.
  apply (reversed_relationship_same_row (VStr "a") "artist" sample_backward sample_forward (VStr "b") "label");
    try (vm_compute; reflexivity).
  split; try (vm_compute; reflexivity); [vm_compute; discriminate|]. repeat constructor.
Defined.

Definition null_relations_record : dict := [("id", VStr "x"); ("mbid", VStr "x"); ("relations", VNull)].

Lemma null_child_rows_never_processed_witness :
  process_artist true null_relations_record sample_world <> (Ok tt, sample_world).
Proof.
  exact (null_child_rows_never_processed true "artists" (process_artist true) null_relations_record sample_world sample_world
    eq_refl (or_introl eq_refl)).
Defined.

(** ** The latch and the purge *)

Definition sample_signals : list (string * dict) :=
  map (fun t => (t, sample_signal "2026-01-01T00:00:00Z" t)) MUSICBRAINZ_DATA_TYPES.

Lemma signals_commute_witness :
  collect sample_signals initial_purge = collect (reverse sample_signals) initial_purge.
Proof.
  apply (signals_commute 63902908800000000 sample_signals (reverse sample_signals) initial_purge).
  - repeat constructor.
  - apply (bool_decide_unpack _). vm_compute. reflexivity.
  - symmetry. apply reverse_Permutation.
Defined.

Lemma latched_iff_covered_witness :
  is_latched default_config (collect sample_signals initial_purge) = true <->
  expected_data_types default_config ⊆ list_to_set sample_signals.*1.
Proof.
  apply (latched_iff_covered default_config 63902908800000000 sample_signals);
    [repeat constructor|apply (bool_decide_unpack _); vm_compute; reflexivity|discriminate].
Defined.

(** A purge of January's extraction, in flight while February's signals arrive. *)
Definition sample_events : list loop_event :=
  let all at_ := map (fun t => Signalled t (sample_signal at_ t)) MUSICBRAINZ_DATA_TYPES in
  all "2026-01-01T00:00:00Z" ++ [Begins 0; Marked "labels"] ++ all "2026-02-01T00:00:00Z" ++
  [Commits 0 300%Z; Begins 1; Commits 1 400%Z; Signalled "labels" (sample_signal "2026-01-01T00:00:00Z" "labels"); Begins 2].
Definition sample_loop : loop := Loop initial_purge sample_children ∅.

Lemma interleaved_decisions_increase_witness :
  StronglySorted Z.lt (map decided_boundary (loop_run default_config sample_loop sample_events).2) /\
  map decided_boundary (loop_run default_config sample_loop sample_events).2 = [63902908800000000; 63905587200000000]%Z.
Proof.
  split; [|vm_compute; reflexivity].
  apply (interleaved_decisions_increase default_config sample_children sample_events).
  repeat split; try (vm_compute; reflexivity); eexists; vm_compute; reflexivity.
Defined.

Lemma surjective_run {A B C} (x : A * (B * C)) : x = (x.1, (x.2.1, x.2.2)).
Proof. by destruct x as [? [? ?]]. Qed.

Definition sample_session : session := Session sample_children 300 [].
Definition sample_purge := purge default_config None (sample_latched, sample_session).

Lemma sample_purge_deletes : s_db sample_purge.2.2 <> sample_children.
Proof.
  intros E. apply (f_equal (fun d => relationships d !! "stale")) in E. vm_compute in E. discriminate.
Qed.

Lemma purge_safe_witness :
  is_ok sample_purge.1 = true /\ has_admission default_config = true /\ None = @None exn /\
  exists b, boundary sample_latched = Some b /\ expected_data_types default_config ⊆ signalled sample_latched /\
    settled_boundary sample_latched <> Some b /\ dead_lettered sample_latched = ∅ /\
    (forall dt c, signals sample_latched !! dt = Some c -> exists n, c = Some n /\ n <> 0%Z) /\
    settled_boundary sample_purge.2.1 = Some b.
Proof.
  apply (purge_safe default_config None sample_latched sample_session sample_purge.1 sample_purge.2.1 sample_purge.2.2);
    [vm_compute; reflexivity|exact sample_purge_deletes].
Defined.

Lemma sample_postgres_answers : @answers sample_postgres.
Proof. intros s d. reflexivity. Qed.

Lemma purge_refines_witness :
  exists l se', purge default_config None (sample_latched, sample_session) =
      (Ok l, (settle (Some 100%Z) sample_latched, se')) /\
    l = [("musicbrainz.relationships", 1%Z); ("musicbrainz.external_links", 0%Z)] /\
    relationships (s_db se') !! "stale" = None /\ is_Some (relationships (s_db se') !! "fresh").
Proof.
  destruct (purge_refines default_config sample_latched sample_session sample_postgres_answers eq_refl) as (l & se' & Hrun & Hd).
  exists l, se'. assert (veto_reason default_config sample_latched = None) as Hv by (vm_compute; reflexivity).
  rewrite Hv in Hd. destruct Hd as [Hl Hd]. rewrite Hl, Hd.
  split; [rewrite <- Hl; exact Hrun|]. vm_compute. eauto.
Defined.

Definition sample_rels : list (list value) :=
  ok_or [] (relationship_rows (VStr "u1") "artist" (get_default sample_artist_record "relations" (VList []))).
Definition sample_links : list (list value) :=
  ok_or [] (external_link_rows (VStr "u1") "artist" (get_default sample_artist_record "external_links" (VList []))).
Definition sample_after : session := Session (db_of sample_processed) 300 [].
Definition sample_after_purge := purge default_config None (sample_latched, sample_after).

Lemma sample_rels_derived :
  relationship_rows (mbid_of sample_artist_record) "artist" (get_default sample_artist_record "relations" (VList [])) = Ok sample_rels.
Proof. vm_compute. reflexivity. Qed.

Lemma sample_links_derived :
  external_link_rows (mbid_of sample_artist_record) "artist" (get_default sample_artist_record "external_links" (VList [])) =
    Ok sample_links.
Proof. vm_compute. reflexivity. Qed.

Lemma sample_boundary_before : (100 <= now_of sample_world)%Z.
Proof. vm_compute. discriminate. Qed.

#[local] Opaque sample_after_purge.

Lemma processed_rows_survive_witness :
  (forall k, entries_for k (map relationship_params sample_rels) <> [] ->
     is_Some (relationships (s_db sample_after_purge.2.2) !! k)) /\
  (forall k, k ∈ omap link_key_of (map (fun row => Plain <$> row) sample_links) ->
     is_Some (external_links (s_db sample_after_purge.2.2) !! k)).
Proof.
  exact (processed_rows_survive default_config "artists" (process_artist true) artist_contract sample_artist_record
    sample_world sample_processed sample_rels sample_links None sample_latched sample_after
    sample_after_purge.1 sample_after_purge.2.1 sample_after_purge.2.2 100%Z
    eq_refl eq_refl sample_processed_run sample_rels_derived sample_links_derived eq_refl eq_refl sample_boundary_before
    (surjective_run (purge default_config None (sample_latched, sample_after)))).
Defined.

Definition latched_loop : loop := Loop sample_latched sample_children ∅.
Lemma latched_loop_purge :
  purge default_config None (l_purge latched_loop, Session (l_db latched_loop) 300 []) =
    (sample_purge.1, (sample_purge.2.1, sample_purge.2.2)).
Proof. apply surjective_run. Qed.

Lemma uninterrupted_purge_witness :
  l_purge (loop_run default_config latched_loop [Begins 0; Commits 0 300%Z]).1 = sample_purge.2.1 /\
  l_db (loop_run default_config latched_loop [Begins 0; Commits 0 300%Z]).1 = s_db sample_purge.2.2 /\
  l_running (loop_run default_config latched_loop [Begins 0; Commits 0 300%Z]).1 = l_running latched_loop.
Proof.
  pose proof (uninterrupted_purge default_config 0 300%Z latched_loop eq_refl eq_refl) as Hw.
  cbv zeta in Hw. rewrite latched_loop_purge in Hw. cbv beta iota in Hw. exact Hw.
Defined.

Lemma inflight_mark_ignored_witness :
  loop_run default_config latched_loop [Begins 0; Marked "labels"; Commits 0 300%Z] =
    loop_run default_config latched_loop [Begins 0; Commits 0 300%Z] /\
  l_db (loop_run default_config latched_loop [Marked "labels"; Begins 0; Commits 0 300%Z]).1 = sample_children.
Proof.
  pose proof (inflight_mark_ignored default_config 0 300%Z latched_loop ["labels"] sample_postgres_answers eq_refl eq_refl
    ltac:(vm_compute; reflexivity)) as (Hsame & _ & Hkept).
  split; [exact Hsame|apply Hkept; discriminate].
Defined.

Lemma cap_exact_witness : reaches_cap default_config 9 10 = true /\ reaches_cap default_config 899999999999999 1000000000000000 = false.
Proof.
  split; [rewrite (cap_exact 9 10)|rewrite (cap_exact 899999999999999 1000000000000000)]; lia || reflexivity.
Defined.

(** ** The consumer lifecycle *)

Definition sample_broker : broker :=
  Broker (true, true) true (fun _ => Some 3%Z) true (fun _ => true) (fun t => Some ("ctag-" +:+ t)) (true, true) (true, true).

Definition sample_started : consumers := (startup_consumers 1 sample_broker initial_consumers).2.

Lemma sample_started_reachable : reachable 30 3600 sample_started.
Proof. by exists 1%Z, sample_broker, []. Qed.

Lemma lifecycle_invariant_witness :
  consumer_gauge (c_registry sample_started) = Z.of_nat (length (consumer_tags (c_registry sample_started))) /\
  consumer_gauge (c_registry sample_started) = 4%Z.
Proof.
  split; [apply (lifecycle_invariant 30 3600 sample_started sample_started_reachable)|vm_compute; reflexivity].
Defined.

Lemma consumer_forgotten_only_if_confirmed_witness :
  tag (lifecycle_step 30 3600 (Close false false) sample_started) "artists" = Some "ctag-artists" \/
  confirms (Close false false) sample_started "artists".
Proof.
  apply (consumer_forgotten_only_if_confirmed 30 3600 (Close false false) sample_started "artists" "ctag-artists"
    sample_started_reachable). vm_compute. reflexivity.
Defined.

(** Every type complete, three consumers cancelled by their timers, the last timer
    waiting for cancel-ok. *)
Definition sample_completions : list lifecycle_event :=
  map FileComplete MUSICBRAINZ_DATA_TYPES ++ map ScheduleCancel MUSICBRAINZ_DATA_TYPES ++ map TaskWakes [0; 1; 2; 3] ++
  map (fun id => TaskAnswered id true true true) [0; 1; 2].
Definition sample_last : consumers := foldl (fun st e => lifecycle_step 30 3600 e st) sample_started sample_completions.

Lemma sample_last_serving : serving 30 3600 sample_last.
Proof.
  exists 1%Z, sample_broker, sample_completions. split; [|reflexivity].
  repeat (constructor; [exact I || (apply (bool_decide_unpack _); vm_compute; reflexivity)|]). constructor.
Qed.

Lemma timer_closes_only_when_idle_witness :
  active_connection (lifecycle_step 30 3600 (TaskAnswered 3 true true true) sample_last) = false /\
  is_Some (tag sample_last "releases") /\ "labels" ∈ completed_files (c_traffic sample_last).
Proof.
  split_and!; [vm_compute; reflexivity|eexists; vm_compute; reflexivity|].
  apply (timer_closes_only_when_idle 30 3600 3 true true true sample_last sample_last_serving).
  - left. vm_compute. discriminate.
  - apply (bool_decide_unpack _). vm_compute. reflexivity.
Defined.

(** Two timers are armed when a record of one of the types arrives. *)
Definition sample_armed : consumers :=
  foldl (fun st e => lifecycle_step 30 3600 e st) sample_started
    [FileComplete "artists"; ScheduleCancel "artists"; FileComplete "labels"; ScheduleCancel "labels"].

Lemma sample_armed_reachable : reachable 30 3600 sample_armed.
Proof. exists 1%Z, sample_broker. eexists. reflexivity. Qed.

Lemma record_disarms_timer_witness :
  let st' := lifecycle_step 30 3600 (RecordArrives "artists") sample_armed in
  is_Some (live_tasks (c_timers sample_armed) !! 0) /\ "artists" ∉ completed_files (c_traffic st') /\
  live_tasks (c_timers st') !! 1 = Some (CancelTask "labels" (Some "ctag-labels") Sleeping).
Proof.
  destruct (record_disarms_timer 30 3600 sample_armed "artists" sample_armed_reachable) as (Hc & _ & Hkeep).
  split_and!; [eexists; vm_compute; reflexivity|exact Hc|]. apply Hkeep; [vm_compute; reflexivity|discriminate].
Defined.

(** A stream whose registration was lost: three tags, one type without. *)
Definition sample_cancelled : consumers :=
  foldl (fun st e => lifecycle_step 30 3600 e st) sample_started
    [ScheduleCancel "labels"; TaskWakes 0; TaskAnswered 0 true true true].

Lemma stuck_stream_recovered_witness :
  is_Some (tag (periodic_check 30 3600 100 sample_broker 0 sample_cancelled).2 "labels").
Proof.
  apply (stuck_stream_recovered 30 3600 100 sample_broker 0 sample_cancelled "labels" MUSICBRAINZ_DATA_TYPES).
  - exists 1%Z, sample_broker. eexists. reflexivity.
  - apply (bool_decide_unpack _). vm_compute. reflexivity.
  - vm_compute. reflexivity.
  - apply (bool_decide_unpack _). vm_compute. reflexivity.
  - vm_compute. reflexivity.
  - vm_compute. reflexivity.
  - split; try reflexivity. intros t. eexists. reflexivity.
  - discriminate.
  - apply (bool_decide_unpack _). vm_compute. reflexivity.
Defined.

(** A broker that answers nothing, and one that fails at the last registration. *)
Definition sample_down : broker :=
  Broker (false, false) false (fun _ => None) false (fun _ => false) (fun _ => None) (false, false) (false, false).
Definition sample_half : broker :=
  Broker (true, true) true (fun _ => Some 3%Z) true (fun _ => true)
    (fun t => if decide (t = "releases") then None else Some "c") (true, true) (false, false).

(** A record is counted, the label consumer dies, and two rounds fail. *)
Definition sample_counted : consumers := meanwhile 30 3600 [Counted "artists" 5] sample_started.

Definition sample_failing : list turn :=
  [Turn false [Lifecycle (ScheduleCancel "labels"); Lifecycle (TaskWakes 0); Lifecycle (TaskAnswered 0 true true true)] (Slept 100 sample_down);
   Turn false [] Raised; Turn false [] (Slept 200 sample_half)].

Lemma checker_recovers_witness :
  tag (periodic_queue_checker 30 3600 sample_failing 0 sample_counted) "releases" = None /\
  is_Some (tag (periodic_queue_checker 30 3600 (sample_failing ++ [Turn false [] (Slept 300 sample_broker)]) 0 sample_counted) "releases").
Proof.
  split; [vm_compute; reflexivity|].
  apply (checker_recovers 30 3600 sample_failing [] 300 sample_broker MUSICBRAINZ_DATA_TYPES 0 "releases" sample_counted).
  - exists 1%Z, sample_broker, [Counted "artists" 5]. reflexivity.
  - apply (bool_decide_unpack _). vm_compute. reflexivity.
  - apply (bool_decide_unpack _). vm_compute. reflexivity.
  - vm_compute. reflexivity.
  - unfold sample_failing. repeat constructor; simpl; try done; intros Hin; repeat (apply elem_of_cons in Hin as [Hin|Hin]; [done|]);
      by apply not_elem_of_nil in Hin.
  - by intros ?%not_elem_of_nil.
  - split; try reflexivity. intros t. eexists. reflexivity.
  - discriminate.
Defined.

(** ** Deliveries *)

Definition sample_data : dict := sample_artist_record.
Definition sample_handled :=
  handle_data_message default_config true 300 sample_answers (Ok (VDict sample_data)) "artists" sample_process.

Lemma record_all_or_nothing_witness :
  (sample_handled.1 = Ok (DeliveryResult ACK "processed" None) /\
     exists processor w, processor_of true "artists" = Some processor /\
       (exists id, lookup_key sample_data "id" = Some id /\ uuid_parses id = true) /\
       processor sample_data (World (Session sample_children 200 []) [] (Summary ∅ 0) 1000) = (Ok tt, w) /\
       p_db sample_handled.2 = db_of w) \/
  (p_db sample_handled.2 = sample_children /\
     ((exists e, sample_handled.1 = Ok (DeliveryResult REJECT "failed" (Some e))) \/ exists e, sample_handled.1 = Raise e)).
Proof.
  concretely (record_all_or_nothing default_config true 300 sample_answers (VDict sample_data) sample_data "artists" sample_process
    sample_handled.1 sample_handled.2).
Defined.

Definition sample_rejected :=
  on_data_message default_config true 300 sample_answers None (Raise JSONDecodeError) "labels" sample_process.
Definition sample_rejected_purge : purge_state := default initial_purge (stale_row_purge sample_rejected.2).

Lemma rejection_vetoes_witness : "labels" ∈ dead_lettered sample_rejected_purge.
Proof.
  apply (rejection_vetoes default_config true 300 sample_answers None (Raise JSONDecodeError) "labels" sample_process
    (DeliveryResult REJECT "failed" (Some "JSONDecodeError")) sample_rejected.2);
    try (vm_compute; reflexivity). vm_compute. discriminate.
Defined.

(** A signal that finds a dead letter of another type at the broker. *)
Definition dead_letter_answers : answers_ :=
  Answers 200 0 1000 None None (fun t => if decide (t = "labels") then Some 2%Z else Some 0%Z) None None None None (fun _ => None).
Definition fourth_signal : dict := sample_signal "0001-01-01T00:00:00.000100Z" "artists".
Definition latching_process : process :=
  set_purge (Some (PurgeState (Some 86400000100)%Z (list_to_map ((fun t => (t, Some 5%Z)) <$> ["labels"; "releases"; "release-groups"])) ∅ None))
    sample_process.
Definition sample_vetoed :=
  handle_data_message default_config true 300 dead_letter_answers (Ok (VDict fourth_signal)) "artists" latching_process.

Lemma known_veto_deletes_nothing_witness : p_db sample_vetoed.2 = sample_children.
Proof.
  apply (known_veto_deletes_nothing default_config true 300 dead_letter_answers fourth_signal "artists" latching_process
    sample_vetoed.1 sample_vetoed.2); [vm_compute; reflexivity| |vm_compute; reflexivity].
  right. left. exists "labels". split; [apply (bool_decide_unpack _)|]; vm_compute; reflexivity.
Defined.

Definition failing_answers : answers_ :=
  Answers 200 0 1000 None None (fun _ => Some 0%Z) None (Some (OperationalError None)) None None (fun _ => None).
Definition sample_failed :=
  handle_data_message default_config true 300 failing_answers (Ok (VDict fourth_signal)) "artists" latching_process.

Lemma failed_reconciliation_keeps_witness :
  ReconciliationFailed = ReconciliationFailed /\ p_db sample_failed.2 = p_db latching_process /\
  (settled_boundary <$> stale_row_purge sample_failed.2) = Some None /\
  completed_files (c_traffic (p_consumers sample_failed.2)) =
    completed_files (c_traffic (p_consumers latching_process)) ∖ {["artists"]}.
Proof.
  concretely (failed_reconciliation_keeps default_config true 300 failing_answers fourth_signal "artists" latching_process
    (default initial_purge (stale_row_purge latching_process)) ReconciliationFailed sample_failed.2).
Defined.

Lemma retry_policy_witness :
  exists r p2 p', dr_error_type r = Some "ReconciliationFailed" /\
    on_data_message default_config true 300 failing_answers None (Ok (VDict fourth_signal)) "artists" latching_process
      = match an_settles failing_answers (dr_settlement r) with None => (Ok r, p') | Some e => (Raise e, p2) end /\
    dr_settlement r = REQUEUE /\ p2 = add_backoff BackoffWait sample_failed.2 /\ p' = p2.
Proof.
  concretely (retry_policy default_config true 300 failing_answers None (Ok (VDict fourth_signal)) "artists" latching_process
    ReconciliationFailed sample_failed.2).
Defined.

(** ** The lifespan *)

Definition sample_lifespan : lifespan :=
  Lifespan (Process sample_children ∅ [] [] (Summary ∅ 0) initial_consumers None false false false [] []) false false false false [].

Definition sample_boot : boot :=
  Boot None None None None PoolReady (Ok (fun _ => Some "timestamp with time zone")) (Ok (Some 1%Z)) (fun i => bool_decide (i = 2))
    (fun _ => false) true RuntimeError sample_broker 1.
Definition sample_closing : closing := Closing true true true true None.
Definition sample_main :=
  main sample_boot sample_answers (fun p => p) (fun _ => true) sample_closing sample_lifespan.

Lemma main_ends_clean_or_refuses_witness :
  sample_main.1 = Ok tt /\ (cli sample_main.1 sample_main.2).1 = Some 0%Z /\
  ls_health sample_main.2 = false /\ ls_waits sample_main.2 = [5; 10]%Z.
Proof.
  assert (sample_main.1 = Ok tt) as Hok by (vm_compute; reflexivity).
  pose proof (main_ends_clean_or_refuses sample_boot sample_answers (fun p => p) (fun _ => true) sample_closing sample_lifespan
    sample_main.1 sample_main.2 eq_refl eq_refl ltac:(vm_compute; reflexivity)) as Hmain.
  rewrite Hok in Hmain |- *. destruct Hmain as (_ & Hs & Hd & _).
  split_and!; [reflexivity|exact Hs|exact Hd|vm_compute; reflexivity].
Defined.

Definition sample_running := start sample_boot sample_answers sample_closing sample_lifespan.

Lemma refresh_with_purge_witness : ls_refresh sample_running.2 = true.
Proof.
  destruct (refresh_with_purge sample_boot sample_answers sample_closing sample_lifespan sample_running.2
    ltac:(vm_compute; reflexivity)) as [[Hp _]|(_ & Hr & _)]; [|exact Hr]. vm_compute in Hp. discriminate.
Defined.
