(* ===== verification/RunWitnesses.v ===== *)
(** * Witnesses of runs

    The theorems about whole runs of deliveries, their telemetry and the
    repository's tools, applied to concrete inputs: an artist's record and the
    four signals of one extraction, an OpenTelemetry that answers, and a small
    test tree. *)

From S2P Require Import Prelude PyValue PyDatetime QueueNames PurgeVeto Consumers Database Persistence Media.
From S2P Require Import RecordProcessing Typing Reconciliation PurgeSafety Delivery DeliverySafety.
From S2P Require Import Telemetry TelemetryFacts DeliveryTelemetry Broker Extraction Concurrency Prefetch Isoformat AssertionAudit Loadability Benchmark Sample.
From stdpp Require Import base gmap strings list option sorting.
From Stdlib Require Import ZArith Lia.

#[local] Existing Instance sample_repr.
#[local] Existing Instance sample_postgres.
#[local] Existing Instance sample_common.
#[local] Existing Instance sample_shared.
#[local] Existing Instance sample_shared_laws.

(** ** A run of one extraction *)

Definition run_start : string := "0001-01-01T00:00:00.000100Z".
Definition run_boundary : Z := 86400000100.
Definition run_answers : answers_ :=
  Answers 86400000200 1700000000000000 1000 None None (fun _ => Some 0%Z) None None None None (fun _ => None).

(** One row of before the extraction, and one as old as it. *)
Definition run_children : db :=
  set_relationships {["stale" := RelationshipRow (sample_rel_key "a") (VBool false) 50;
                      "fresh" := RelationshipRow (sample_rel_key "b") (VBool false) 86400000150]} sample_db.

Definition run_process : process := set_p_db run_children sample_process.

Definition signal_message (t : string) : message := Message t (Ok (VDict (sample_signal run_start t))) [] 0 0.



Lemma run_running : running run_process.
Proof. split; reflexivity. Qed.

Lemma run_bounded : bounded run_boundary run_process.
Proof. intros st b [= <-] Hb. discriminate Hb. Qed.

Lemma signals_start t : starts_by run_boundary (signal_message t).
Proof.
  intros data s [= <-]. change (get _ "started_at") with (VStr run_start).
  assert (parse_started_at (VStr run_start) = Some run_boundary) as -> by (vm_compute; reflexivity). intros [= <-]. lia.
Qed.


Lemma run_answered : answers.
Proof. intros s d. reflexivity. Qed.

(** ** The same deliveries in flight together *)

(** The same answers, but the message's own settlement raises. *)
Definition broken_answers : answers_ :=
  Answers 86400000200 1700000000000000 1000 None None (fun _ => Some 0%Z) None None None None (fun _ => Some RuntimeError).

(** The first message is handled alone and its settlement raises; the next
    hand-out loses its channel; then everything is handed out before any handler
    runs, and rounds resume each handler once, from the last to the first. *)
Definition together (messages : nat) : list turn :=
  [Turn HandsOut 0 broken_answers] ++ repeat (Turn Resumes 0 run_answers) 3 ++
  [Turn HandsOut 0 run_answers; Turn Closes 0 run_answers] ++
  repeat (Turn HandsOut 0 run_answers) messages ++
  concat (repeat (map (fun i => Turn Resumes i run_answers) (reverse (seq 0 (S messages)))) 20).

Lemma together_times n : Forall (fun c => run_boundary <= an_now (tu_answers c))%Z (together n).
Proof.
  assert ((run_boundary <= an_now run_answers)%Z) as Hn by (vm_compute; discriminate).
  assert ((run_boundary <= an_now broken_answers)%Z) as Hb by (vm_compute; discriminate).
  unfold together. rewrite !Forall_app. split_and!; [by repeat constructor|by repeat constructor|by repeat constructor|..];
    apply Forall_forall; intros c Hc.
  - by apply list_elem_of_In, repeat_spec in Hc as ->.
  - apply list_elem_of_In, in_concat in Hc as (l & ->%repeat_spec & Hc). by apply in_map_iff in Hc as (i & <- & _).
Qed.

Abbreviation run_flights messages :=
  (service_run default_config true 300 (started run_process messages) (together (length messages))).

Definition all_messages_of_run : list message :=
  Message "artists" (Ok (VDict sample_artist_record)) [] 0 0 :: map signal_message ["labels"; "releases"; "release-groups"; "artists"].

Lemma all_start : Forall (starts_by run_boundary) all_messages_of_run.
Proof.
  repeat constructor; try apply signals_start.
  intros data s [= <-]. change (get _ "started_at") with VNull. discriminate.
Qed.

(** Every delivery ends; a purge ran while others were in flight; the record was
    committed twice, and acknowledged once. *)
Example together_rows :
  (length (sv_flights (run_flights all_messages_of_run)), length (sv_acked (run_flights all_messages_of_run)),
   elements (dom (relationships (p_db (sv_process (run_flights all_messages_of_run))))),
   named_relationships (sv_acked (run_flights all_messages_of_run)),
   named_relationships (sv_failed (run_flights all_messages_of_run))) =
  (0, 5, ["u2|u1|member of band"; "fresh"], ["u2|u1|member of band"], ["u2|u1|member of band"]).
Proof. vm_compute. reflexivity. Qed.

Lemma prefetch_rows_witness :
  sv_flights (run_flights all_messages_of_run) = [] /\
  (exists r, relationships (p_db (sv_process (run_flights all_messages_of_run))) !! "u2|u1|member of band" = Some r /\
     (run_boundary <= rel_updated_at r)%Z) /\
  (relationships (p_db (sv_process (run_flights all_messages_of_run))) !! "stale" = relationships run_children !! "stale" \/
   relationships (p_db (sv_process (run_flights all_messages_of_run))) !! "stale" = None /\
   exists r, relationships run_children !! "stale" = Some r /\ (rel_updated_at r < run_boundary)%Z).
Proof.
  assert (sv_flights (run_flights all_messages_of_run) = []) as Hnone by (vm_compute; reflexivity).
  assert (named_relationships (sv_acked (run_flights all_messages_of_run) ++ sv_failed (run_flights all_messages_of_run)) =
    ["u2|u1|member of band"; "u2|u1|member of band"]) as Hdone by (vm_compute; reflexivity).
  pose proof (prefetch_rows default_config 300 (together (length all_messages_of_run)) run_process all_messages_of_run run_boundary
    run_bounded all_start (together_times _)) as Hc.
  cbv zeta in Hc. destruct Hc as (Hrel & _ & Hrest & _). split_and!; [exact Hnone| |].
  - apply Hrel. rewrite Hdone. left.
  - apply (proj1 (Hrest Hnone)). rewrite Hdone. intros Hin.
    apply elem_of_cons in Hin as [Hin|Hin%list_elem_of_singleton]; discriminate Hin.
Defined.




Lemma messages_in_budget : Forall in_budget all_messages_of_run.
Proof. repeat constructor; vm_compute; discriminate. Qed.

(** Nothing goes wrong: hand-outs wherever one is possible. *)
Definition drain : list turn :=
  repeat (Turn HandsOut 0 run_answers) (turns default_config * (521 * length all_messages_of_run)).

Lemma repeat_calm n : calm (repeat (Turn HandsOut 0 run_answers) n).
Proof. induction n as [|n IH]; [constructor|]. constructor; [by split|exact IH]. Qed.

Lemma prefetch_drains_witness :
  exists sv, drained sv /\ map identity ((sv_acked sv).*1 ++ (sv_dead sv).*1 ++ sv_limited sv) ≡ₚ map identity all_messages_of_run /\
    sv_limited sv = [] /\
    counts_of (sv_process sv) !! "artists" = Some (0 + Z.of_nat (length (filter (acknowledged "artists") (sv_acked sv))))%Z.
Proof.
  pose proof (prefetch_drains default_config true 300 drain run_process all_messages_of_run run_running messages_in_budget) as Hd.
  unfold drain in Hd. rewrite repeat_length in Hd. specialize (Hd (le_n _)). cbv zeta in Hd. destruct Hd as (Hd & _ & Hm & _ & _ & _ & Hl & Hc).
  eexists. split; [exact Hd|]. split; [exact Hm|]. split; [|by apply Hc].
  apply Hl. exact (repeat_calm _).
Defined.

(** ** Statements *)

Definition typed_run : result exn unit * world := process_release true sample_release_record sample_world.

Lemma statements_well_typed_witness :
  exists tr, s_trace (w_session typed_run.2) = [] ++ tr /\ Forall (statement_typed true) tr.
Proof.
  exact (statements_well_typed true "releases" (process_release true) sample_release_record sample_world
    typed_run.1 typed_run.2 eq_refl (surjective_pairing _)).
Defined.

(** ** Telemetry *)

Definition sample_otel : OpenTelemetry := {|
  span_ctx := nat;
  remote_ctx := string;
  ctx_is_valid c := bool_decide (c <> 0);
  create_error _ _ := None;
  measure_error _ := None;
  extract_context _ := Ok "parent";
  manager_error _ := None;
  enter_error _ := None;
  exit_error _ := None;
  get_span_context s := Ok (Some (S s));
  set_attribute_error _ _ _ := None;
  set_status_error _ := None;
|}.

#[local] Existing Instance sample_otel.

Lemma sample_healthy : Healthy.
Proof. by split. Qed.
#[local] Existing Instance sample_healthy.

Definition sample_telemetry : telemetry := Telemetry 7 None [] [] 0 None "unknown".

Definition sample_result : delivery_result := DeliveryResult REQUEUE "failed" (Some "OperationalError").

Lemma measurements_well_typed_witness :
  exists t', calls [Settled "artist" sample_result 12 (Some 0); ConsumerDelta (-1)] sample_telemetry = (Ok tt, t') /\
    outer t' = outer sample_telemetry /\
    exists new, t_points t' = [] ++ new /\ Forall (fun q => point_ok q /\ in_provider (pt_instrument q) = 7) new.
Proof.
  exact (measurements_well_typed [Settled "artist" sample_result 12 (Some 0); ConsumerDelta (-1)] sample_telemetry 7 eq_refl).
Defined.

Lemma settled_exports_witness :
  t_points (settled "artist" sample_result 12 (Some 0) sample_telemetry).2 =
    [Point (instrument_of 7 PIPELINE_MESSAGES) MeasureAdd 1
       [("source", "musicbrainz"); ("entity", "artist"); ("outcome", "failed")];
     Point (instrument_of 7 PIPELINE_MESSAGE_DURATION) MeasureRecord 12 [("source", "musicbrainz"); ("entity", "artist")];
     Point (instrument_of 7 MESSAGING_CONSUMED_MESSAGES) MeasureAdd 1
       [("messaging.system", "rabbitmq"); ("messaging.destination.name", "unknown");
        ("messaging.operation.name", "process"); ("error.type", "OperationalError")];
     Point (instrument_of 7 MESSAGING_OPERATION_DURATION) MeasureRecord 12
       [("messaging.system", "rabbitmq"); ("messaging.destination.name", "unknown");
        ("messaging.operation.name", "process"); ("error.type", "OperationalError")]].
Proof.
  pose proof (settled_exports "artist" sample_result 12 (Some 0) sample_telemetry 7 eq_refl) as Hs. cbv zeta in Hs.
  rewrite Hs. reflexivity.
Defined.

(** A body that leaves a context of its own behind and raises. *)
Definition rude_body (span : option nat) : comp telemetry exn unit :=
  modifies (set_message_span_context (Some 99)) ≫= fun _ => raise KeyError.

Definition sample_observation : result exn unit * telemetry :=
  delivery_observation (fun t => t) (fun t _ => t) "q" (Some [("traceparent", VStr "00")]) rude_body sample_telemetry.

Lemma sample_observation_raises : sample_observation.1 = Raise KeyError.
Proof. reflexivity. Qed.

Lemma observation_scoped_witness :
  message_span_context sample_observation.2 = None /\ delivery_destination sample_observation.2 = "unknown".
Proof.
  destruct (observation_scoped (fun t => t) (fun t _ => t) (fun _ _ => eq_refl) (fun _ => eq_refl) (fun _ _ _ => eq_refl)
    "q" (Some [("traceparent", VStr "00")]) rude_body sample_telemetry sample_observation.1 sample_observation.2
    (surjective_pairing _)) as [(e & He & _)|(span & t0 & r0 & w1 & t' & _ & -> & _ & _ & _ & _ & Hc & Hd & _)].
  - discriminate He.
  - split; [exact Hc|exact Hd].
Defined.

Definition flush_run : result exn unit * world := process_artist true sample_artist_record sample_world.

(** Each flush has a span of its own, and takes its own time. *)
Definition flush_spans (n : nat) : option nat := Some (100 + n).
Definition flush_times (n : nat) : Z := 10 * Z.of_nat n.

Lemma record_flushes_linked_witness :
  exists events batches conflicts t',
    w_observed flush_run.2 = [] ++ events /\
    batches_of (flush_raises "artist")
      (relationship_rows (mbid_of sample_artist_record) "artist" (get_default sample_artist_record "relations" (VList [])))
      (external_link_rows (mbid_of sample_artist_record) "artist" (get_default sample_artist_record "external_links" (VList [])))
      (is_ok flush_run.1) batches /\
    delivery_observation (fun t => t) (fun t _ => t) "q" (Some [("traceparent", VStr "00")])
      (fun _ => calls (observer_calls flush_spans flush_times 0 events) ≫= fun _ => lift flush_run.1) sample_telemetry = (flush_run.1, t') /\
    t_points t' = [] ++ concat (imap (fun i => flush_points 7 "artist" (flush_times (S i))) batches) ++ conflicts /\
    t_spans t' = [] ++
      [SpanStarted 0 "process q" (Some "parent")
         [("messaging.system", "rabbitmq"); ("messaging.destination.name", "q"); ("messaging.operation.name", "process")]] ++
      concat (imap (fun i => flush_events [1] (flush_spans (S i)) "artist") batches) ++ [SpanEnded 0] /\
    Forall (fun q => in_name (pt_instrument q) = PIPELINE_ALIAS_CONFLICTS) conflicts.
Proof.
  exact (record_flushes_linked true "artists" (process_artist true) sample_artist_record sample_world
    flush_run.1 flush_run.2 7 flush_spans flush_times "q" (Some [("traceparent", VStr "00")]) (Some "parent") sample_telemetry
    eq_refl (surjective_pairing _) eq_refl eq_refl eq_refl).
Defined.

(** ** The audit *)

(** A test that only checks a mock's calls, one whose assertion is in a nested
    function, one that asserts, and a fixture. *)
Definition sample_tests : node :=
  let fn name line body decorators := FunctionDefN false name line [] body decorators in
  OtherN
    [fn "test_calls" 3%N [CallN (AttributeN (NameN "mock") "assert_called_once") []] [];
     fn "test_nested" 7%N [fn "inner" 8%N [AssertN [NameN "x"]] []] [];
     ClassDefN [fn "test_asserts" 12%N [AssertN [NameN "x"]] []];
     fn "test_fixture" 20%N [] [AttributeN (NameN "pytest") "fixture"]].

Definition sample_report : audit_result :=
  AuditResult 3 1 1 ["tests/t.py:7:test_nested"] ["tests/t.py:3:test_calls"].

Lemma sample_audit : audit [("tests/t.py", Ok sample_tests)] = Ok sample_report.
Proof. vm_compute. reflexivity. Qed.

Lemma audit_classifies_witness :
  exists trees, length trees = 1 /\ test_functions sample_report = length (tests_of trees) /\
    exists body, defines_test trees "tests/t.py:7:test_nested" body /\ no_outcome body /\ no_mock_call body.
Proof.
  destruct (audit_classifies [("tests/t.py", Ok sample_tests)] sample_report sample_audit)
    as (trees & Hf & Hn & _ & _ & _ & _ & _ & _ & Hfree & _).
  exists trees. split_and!; [by apply Forall2_length in Hf|exact Hn|]. apply Hfree. by left.
Defined.

Lemma walk_complete_witness :
  walk_queue 100 [sample_tests] = walk sample_tests /\ walk sample_tests ≡ₚ nodes_of sample_tests /\
  length (walk sample_tests) = size_of sample_tests.
Proof. apply (walk_complete sample_tests 100). apply Nat.leb_le. vm_compute. reflexivity. Defined.

(** ** Records that load *)

Lemma sample_mints refs l m l' r :
  sample_resolve refs l = (m, l') -> r ∈ refs -> ref_provider r = "musicbrainz" -> is_Some (lookup_ref m r).
Proof.
  revert l m l'. induction refs as [|r0 refs IH]; intros l m l' Hr Hin Hp; [by apply not_elem_of_nil in Hin|].
  simpl in Hr. destruct (decide (r = r0)) as [<-|Hne].
  - destruct (lookup_ref l r); [|rewrite decide_True in Hr by done];
      destruct (sample_resolve refs _); simplify_eq; simpl; rewrite decide_True by done; eauto.
  - apply elem_of_cons in Hin as [?|Hin]; [done|].
    destruct (lookup_ref l r0); [|case_decide]; [| |by eapply IH];
      destruct (sample_resolve refs _) eqn:E; simplify_eq; simpl; rewrite decide_False by done; by eapply IH.
Qed.

Lemma sample_identity_answers : IdentityAnswers.
Proof.
  split; intros; simpl in *; [by destruct (sample_resolve refs l)|by destruct (sample_attach m l)|].
  destruct (sample_resolve refs l) as [m0 l0] eqn:E. simplify_eq. by eapply sample_mints.
Qed.
#[local] Existing Instance sample_identity_answers.

Lemma sample_flushes_open : FlushesOpen.
Proof. by split. Qed.
#[local] Existing Instance sample_flushes_open.

Definition null_links_record : dict := [("id", VStr "550e8400-e29b-41d4-a716-446655440000"); ("external_links", VNull)].

Definition null_links_handled : result exn delivery_result * process :=
  handle_data_message default_config true 300 run_answers (Ok (VDict null_links_record)) "labels" run_process.

(** A release whose identifiers block [common] refuses, with an mbid and without. *)
Definition refused_identifiers : dict :=
  [("id", VStr "550e8400-e29b-41d4-a716-446655440001"); ("mbid", VStr "r1"); ("identifiers", VNull)].

(** Records that are not readable, among records that are. *)
Lemma record_outcome_witness :
  readable "artists" sample_artist_record = true /\ readable "labels" null_links_record = false /\
  readable "releases" refused_identifiers = false /\ readable "releases" (("mbid", VStr "") :: refused_identifiers) = true /\
  (exists e, null_links_handled.1 = Raise e) /\ p_db null_links_handled.2 = run_children.
Proof.
  split; [vm_compute; reflexivity|]. split; [vm_compute; reflexivity|]. split; [vm_compute; reflexivity|]. split; [vm_compute; reflexivity|].
  pose proof (record_outcome default_config true 300 run_answers null_links_record "labels" run_process
    run_answered eq_refl eq_refl eq_refl eq_refl eq_refl) as Ho.
  fold null_links_handled in Ho. destruct null_links_handled as [r p']. simpl.
  assert (valid_id null_links_record = true) as Hv by (vm_compute; reflexivity). rewrite Hv in Ho. exact Ho.
Defined.

(** ** The benchmark's records *)

(** A generator that counts: half of the range, and the next index. *)
Definition sample_random : Random := {|
  rng := Z;
  seeded s := s;
  random g := (HALF, (g + 1)%Z);
  getrandbits _ g := (g * 7919, g + 1)%Z;
  choice_index n g := (Z.to_nat (g mod Z.of_nat n), (g + 1)%Z);
  randrange a b g := (a, (g + 1)%Z);
|}.
#[local] Existing Instance sample_random.

Lemma sample_random_laws : RandomLaws.
Proof.
  split; [reflexivity|]. intros n g Hn. simpl. pose proof (Z.mod_pos_bound g (Z.of_nat n)). lia.
Qed.
#[local] Existing Instance sample_random_laws.

Definition bench_media : dict := [("items", VList [VDict [("format", VStr "CD"); ("disc-count", VInt 1)]])].

Lemma bench_legacy_read record block :
  legacy_identifiers_block record = Some block -> is_ok (alias_refs_for_release block) = true.
Proof. unfold legacy_identifiers_block. destruct (legacy_items record); by intros [= <-]. Qed.

Lemma bench_records_load_witness :
  exists records, make_records 5 42 = Ok records /\ length records = 5 /\ Forall shaped records /\
    (answers -> forall w, exists w', run_worker records w = (Ok tt, w')).
Proof. exact (bench_records_load bench_media eq_refl eq_refl bench_legacy_read 5 42). Defined.

(** ** A boundary printed and read *)

(** 2026-10-18 00:10:01.25 at two hours west of Greenwich. *)
Definition printed_start : datetime := Datetime 739907 601250000 (Some (-7200000000)%Z).

Lemma isoformat_roundtrip_witness :
  representable printed_start /\
  isoformat printed_start = "2026-10-18T00:10:01.250000-02:00" /\
  parse_started_at (VStr (isoformat printed_start)) = Some (instant printed_start).
Proof.
  assert (representable printed_start) as Hr by (split; vm_compute; repeat split; congruence).
  split; [exact Hr|]. split; [vm_compute; reflexivity|].
  exact (proj2 (isoformat_roundtrip printed_start Hr)).
Defined.
